(* ===== verification/_CoqProject ===== *)
-Q . S2P
Prelude.v
GoStrings.v
GoJson.v
GoSha256.v
Types.v
DeepCopy.v
Eds.v
Server.v
Snapshot.v
Controller.v
Reconcile.v
System.v
GoFlag.v
Prog.v
Steps.v
Interleave.v
Converge.v
Serve.v
Main.v
ControlPlane.v
ProtoParser.v
Schema.v
Visited.v
SchemaFacts.v
Generator.v
CrdGen.v
Scheme.v
TestUtils.v
TestCommands.v
