(* ===== verification/Prelude.v ===== *)
(** * envoy-mesh: a verification library

    envoy-mesh has two programs.  The control plane (src/control-plane) watches
    Kubernetes resources that hold Envoy configuration, builds one xDS snapshot
    per EnvoyProxy and serves it to the proxies.  The CRD generator
    (src/crd-gen) turns Envoy's proto definitions into the
    CustomResourceDefinitions of those resources.

    ** The files

    - Prelude.v (this file): Go errors and results, tactics, shared lemmas.
    - GoStrings.v, GoJson.v, GoSha256.v: the parts of Go's standard library the
      sources call, on byte strings: strings and path/filepath, encoding/json
      (a decoder for the full grammar, with a printer and a round trip), SHA-256
      and hex.
    - Types.v: api/v1alpha1, the fields of the Kubernetes objects in use, and
      [XDSObject], the interface of the resource kinds ([GetTargetRef]).
    - DeepCopy.v: api/v1alpha1/zz_generated.deepcopy.go on a heap of objects.
    - Eds.v: internal/xds/eds.go.  Pure functions as written, loops as folds.
    - Server.v: internal/xds/server.go.  The set of connected nodes, the stream
      callbacks, [Start]; the class [SnapshotCache] with its laws stands for
      go-control-plane's cache.
    - Snapshot.v: internal/xds/snapshot.go over the class [XDSLib] (protojson
      and cachev3.NewSnapshot).
    - Controller.v: internal/controller/envoyproxy_controller.go over the class
      [Client] (controller-runtime).  The state is [World]: the API state and
      the xDS server; [Reconcile] is the whole handler.
    - Reconcile.v: the laws of the client, a store that satisfies them, and
      what a reconcile guarantees on every outcome.
    - System.v: the watches of [SetupWithManager]: the changes of the API state,
      their events, the requests of the handlers, and why they are enough.
    - Prog.v: programs of calls, for code whose calls matter one by one: how
      they are written, run against a state ([interp]), and which runs they
      have when the answers are free ([behaves]).
    - Steps.v: the reconciler again, as a program: a tree of its calls to the
      client and to the xDS server ([Reconcile_p] and its parts mirror the
      functions of Controller.v).  Run at once it is [Reconcile].
    - Interleave.v: the control loop as a transition system: work queue and
      workers, reconciles call by call, any number of them at once (a key by one
      worker at a time), watch events that are handled some time after the
      change they report, and the events of the reconciler's own status
      updates, which trigger it again.
    - Converge.v: why the control loop comes to rest all the same.
    - Serve.v: the calls of [Start] and the log adapter of internal/xds/server.go.
    - GoFlag.v, Main.v: package flag, and cmd/main.go: the flags, the set-up
      calls and the process afterwards.
    - ControlPlane.v: the whole process: [main] from its arguments on, and the
      control loop of Interleave.v, the streams of Server.v and the goroutines
      of Main.v side by side.  The xDS servers are at locations: that of the
      reconciler and the one that is started are what [main] makes them.
    - ProtoParser.v: crd-gen/internal/parser over the syntax trees of the proto
      library and a directory tree.
    - Schema.v, SchemaFacts.v: crd-gen/internal/schema.  The well-known schemas
      are shared objects that the code writes to: they are a state that every
      function threads.
    - Visited.v: the converter once more with the maps [visited] as objects that
      are marked in place and cloned ([cloneVisited]).
    - Generator.v: crd-gen/internal/generator and the extra properties of
      cmd/root.go over the class [OS] of file operations.
    - CrdGen.v: the rest of cmd/root.go and main.go: flags, [RunE], exit status,
      over the class [Cobra].
    - Scheme.v: groupversion_info.go, the [init] functions of the type files and
      of cmd/main.go over the class [SchemeLib]; the RBAC markers and the roles
      of the manifests; both against the calls of Steps.v and the CRDs of
      Generator.v.
    - TestUtils.v, TestCommands.v: control-plane/test/utils: the text functions,
      and the functions that run kubectl and kind, as programs.

    ** What the theorems show

    - Control loop (System.v, Interleave.v, Converge.v): from start-up on, every
      proxy is up to date, unless an event that will enqueue it is pending, it
      is queued, or it is being reconciled; every schedule of handlers and
      workers comes to rest, the events of their own status updates included,
      with all proxies up to date once changes stop and all proxies can be
      built, and, when it can be updated, with a status that says so; a
      successful reconcile repeated at once changes nothing and triggers
      nothing; a change that does not enqueue a proxy does not concern it.
    - Reconcile (Reconcile.v): exactly the resources that target the proxy are
      collected; success publishes their snapshot under the proxy's node id and
      reports it; errors keep the old snapshot; other proxies are untouched.
    - Endpoints, snapshots, streams (Eds.v, Snapshot.v, Server.v): exact
      contents, first errors, port bounds, the connected set as a refinement of
      the set of streaming nodes.
    - CRD generator: the registry is exact and well formed; conversion
      terminates, agrees with a store-free reference up to descriptions and with
      the converter on mutable [visited] maps, and yields structural schemas; a successful run has written every requested
      CRD and nothing else.
    - Deep copies (DeepCopy.v): a copy has the value of the original, shares no
      object with it, and leaves the original and the rest of the heap alone.
    - The whole (ControlPlane.v, CrdGen.v): from the command line on, the streams
      are served from the server the reconciler publishes to, proxies are up to
      date or pending, reported connections are real and the exit status is
      right; crd-gen from its command line to the files it leaves.
    - Process (Main.v, CrdGen.v): the command lines that are accepted and what
      they set; the exit status on every interleaving of signals, xDS server and
      manager; the exit status of crd-gen.
    - Test helpers (TestUtils.v, TestCommands.v): lines are split and uncommented
      as meant, but for a line break at the end of the target; which commands
      run, where, with which environment, and which errors come back, whatever
      the commands answer.
    - Cluster (Scheme.v): every call and watch is of a registered type and
      permitted; the files crd-gen writes by default hold CRDs of the
      registered kinds, with the JSON fields of the Go structs, and that of
      Cluster, and no other, with the reference to a service.
    - Findings, as theorems about the code as it is: manual assignments do not
      take precedence, snapshot versions can collide, an overlapping reconnect
      is reported as disconnected, comments leak between fields of well-known
      types, a bare name hides a nested type, same-named messages overwrite
      each other's file, the metrics address is not used, the checked-in manager
      role permits none of the calls, the roles for users name another API group,
      the status of a proxy does not follow its streams
      ([connected_status_stale]), a proxy on a delta stream is never reported as
      connected ([delta_never_connected]), lists in a changing order make the
      reconciler trigger itself ([unordered_lists_retrigger]), and an EndpointSlice event whose handler cannot list the clusters leaves
      a proxy stale ([dropped_event_stale]; a comment in the source says the
      event is dropped).

    ** Bounds and fuel

    The JSON decoder has fuel twice the input's length plus two and never runs
    out ([parse_never_out_of_fuel]); it keeps the nesting limit of 10000 of
    encoding/json.  Trimming loops have the string's length as fuel.  The
    schema converter has the number of registered messages plus one as depth,
    which is proved to be enough ([MessageToSchema_total]).  Programs of calls
    are finite trees, so running one needs no fuel; that all schedules end is
    proved by well-founded induction ([workers_converge]).  Ports are integers
    with the conversion to [uint32] written out.

    ** Assumptions on other code

    They are the laws of the classes: [SnapshotCacheLaws], [ClientLaws],
    [OSLaws], [CobraLaws], [SchemeLaws], and [DeepLaws] for the library types,
    each with an instance on which the witnesses run; and that the manager
    returns nil only once its context is cancelled.  A change of the API state
    concerns one object; the list order of the others does not change with it
    (the informer caches behind the manager's client do not promise that, and
    the version depends on the order: [computeVersion_order_sensitive]); a read
    sees the current state, not an older one of a cache that lags; a status
    update that changes nothing is no write, and a failed one leaves the object
    in memory as it is; every change is reported to its handler, whose list of clusters does not
    fail.  A call of a reconcile is one step.  The work queue hands out a key
    that is queued and not being processed, and takes it back when its
    reconcile fails.  The trees of the proto parser and the encodings (YAML,
    protojson) are parameters without laws.

    ** Not modelled

    Logging of the reconciler and progress output; gRPC, the work queue's rate
    limits and leader election (controller-runtime); reading of command lines
    by cobra; blank imports (internal/xds/extensions.go); the test suites
    themselves; the proto and CRD files and, but for the
    roles of Scheme.v, the manifests, which are data. *)

From stdpp Require Export base gmap strings list pretty.
From Stdlib Require Export Ascii ZArith Lia.

(** ** Go errors and fallible results *)

(** A Go [error] as the sources use it: an error value coming out of a
    library ([reason] is what predicates such as [apierrors.IsNotFound] look
    at, [text] is what [Error()] prints), or [fmt.Errorf("<prefix>: %w", err)]. *)
Inductive error :=
| ErrLib (reason text : string)
| ErrWrap (prefix : string) (err : error).

#[global] Instance error_eq_dec : EqDecision error.
Proof. solve_decision. Defined.

(** [err.Error()] *)
Fixpoint Error (e : error) : string :=
  match e with
  | ErrLib _ text => text
  | ErrWrap prefix err => prefix +:+ ": " +:+ Error err
  end.

(** A pair of a value and an error, of which the Go code uses exactly one. *)
Inductive result (E A : Type) :=
| Ok (a : A)
| Err (e : E).
Arguments Ok {E A} a.
Arguments Err {E A} e.

#[global] Instance result_eq_dec {E A} `{EqDecision E, EqDecision A} :
  EqDecision (result E A).
Proof. solve_decision. Defined.

#[global] Instance result_ret {E} : MRet (result E) := λ A a, Ok a.
#[global] Instance result_bind {E} : MBind (result E) := λ A B f m,
  match m with Ok a => f a | Err e => Err e end.
#[global] Instance result_fmap {E} : FMap (result E) := λ A B f m,
  match m with Ok a => Ok (f a) | Err e => Err e end.

(** [if err != nil { return ..., fmt.Errorf("<prefix>: %w", err) }] *)
Definition wrap {A} (prefix : string) (m : result error A) : result error A :=
  match m with Ok a => Ok a | Err e => Err (ErrWrap prefix e) end.

Definition is_Ok {E A} (m : result E A) : bool :=
  match m with Ok _ => true | Err _ => false end.

(** ** Proof automation *)

Create HintDb go discriminated.
Create Rewrite HintDb go_str.

(** Splits every [match]/[if] a hypothesis or the goal is stuck on, keeping
    the equations, and closes contradictory cases. *)
Ltac go_case :=
  repeat (case_match; simplify_eq/=; try done).

(** Turns boolean tests of hypotheses into propositions. *)
Ltac to_prop :=
  repeat match goal with
  | H : bool_decide _ = true |- _ => apply bool_decide_eq_true_1 in H
  | H : bool_decide _ = false |- _ => apply bool_decide_eq_false_1 in H
  | H : andb _ _ = true |- _ => apply andb_prop in H as [? ?]
  | H : Is_true _ |- _ => apply Is_true_true in H
  end.

(** ** Results *)

Section results.
Context {E A B : Type}.
Implicit Types (m : result E A) (f : A → result E B).

Lemma bind_Ok m f b : m ≫= f = Ok b ↔ ∃ a, m = Ok a ∧ f a = Ok b.
Proof. destruct m; simpl; naive_solver. Qed.

Lemma bind_Err m f e :
  m ≫= f = Err e ↔ m = Err e ∨ ∃ a, m = Ok a ∧ f a = Err e.
Proof. destruct m; simpl; naive_solver. Qed.

Lemma bind_ext m f g : (∀ a, f a = g a) → m ≫= f = m ≫= g.
Proof. destruct m; simpl; auto. Qed.
End results.

Lemma wrap_Ok {A} p (m : result error A) a : wrap p m = Ok a ↔ m = Ok a.
Proof. destruct m; naive_solver. Qed.

Lemma wrap_Err {A} p (m : result error A) e :
  wrap p m = Err e ↔ ∃ e', m = Err e' ∧ e = ErrWrap p e'.
Proof. destruct m; naive_solver. Qed.

(** ** Strings as byte sequences *)

Lemma string_app_nil_r s : s +:+ "" = s.
Proof. induction s as [|c s IH]; [done|]. unfold String.app in *; simpl. by rewrite IH. Qed.

Lemma string_app_assoc s t u : (s +:+ t) +:+ u = s +:+ t +:+ u.
Proof. induction s as [|c s IH]; [done|]. unfold String.app in *; simpl. by rewrite IH. Qed.

Lemma string_app_cons c s t : String c s +:+ t = String c (s +:+ t).
Proof. done. Qed.

Lemma string_app_nil_l s : "" +:+ s = s.
Proof. done. Qed.

#[export] Hint Rewrite string_app_nil_r string_app_nil_l string_app_assoc
  string_app_cons : go_str.

Lemma string_length_app s t :
  String.length (s +:+ t) = String.length s + String.length t.
Proof. induction s as [|c s IH]; [done|]. rewrite string_app_cons. simpl. by rewrite IH. Qed.

Lemma string_app_inj_l s t u : s +:+ t = s +:+ u → t = u.
Proof.
  induction s as [|c s IH]; [done|].
  rewrite !string_app_cons. intros [= H]. by apply IH.
Qed.

(** Byte membership. *)
Fixpoint has_byte (c : ascii) (s : string) : bool :=
  match s with
  | "" => false
  | String d s => bool_decide (c = d) || has_byte c s
  end.

Lemma has_byte_app c s t : has_byte c (s +:+ t) = has_byte c s || has_byte c t.
Proof.
  induction s as [|d s IH]; [done|].
  rewrite string_app_cons. simpl. rewrite IH. by rewrite orb_assoc.
Qed.

(** ** Lists *)

Lemma head_filter_elem {A} (P : A → Prop) `{!∀ x, Decision (P x)} l x :
  head (filter P l) = Some x → P x ∧ x ∈ l.
Proof.
  intros Hh. assert (x ∈ filter P l) as Hx.
  { destruct (filter P l); simplify_eq/=. by left. }
  by apply list_elem_of_filter in Hx.
Qed.

Lemma filter_none {A} (P : A → Prop) `{!∀ x, Decision (P x)} l :
  (∀ x, x ∈ l → ¬ P x) → filter P l = [].
Proof.
  induction l as [|x l IH]; [done|]. intros Hl.
  rewrite filter_cons_False by (apply Hl; by left). apply IH. intros. apply Hl. by right.
Qed.
