(* ===== verification/GoStrings.v ===== *)
(** * The parts of Go's [strings], [fmt] and [path/filepath] the sources call

    A Go [string] is a byte sequence, here a [string] whose characters are
    bytes.  Every function is executable and total, as in Go; the lemmas are
    the ones the components need (splitting and joining on a separator byte,
    trimming, lower-casing, joining paths). *)

From S2P Require Import Prelude.

(** ** strings.Split, strings.Join *)

(** [strings.Split(s, sep)] for a separator of one byte. *)
Fixpoint Split (s : string) (sep : ascii) : list string :=
  match s with
  | "" => [""]
  | String c s' =>
      if bool_decide (c = sep) then "" :: Split s' sep
      else match Split s' sep with
           | p :: ps => String c p :: ps
           | [] => [String c ""]
           end
  end.

(** [strings.Join(elems, sep)] *)
Fixpoint Join (elems : list string) (sep : string) : string :=
  match elems with
  | [] => ""
  | [e] => e
  | e :: es => e +:+ sep +:+ Join es sep
  end.

(** ** Prefixes and suffixes *)

Fixpoint HasPrefix (s p : string) {struct p} : bool :=
  match p, s with
  | "", _ => true
  | String c p', String d s' => bool_decide (c = d) && HasPrefix s' p'
  | String _ _, "" => false
  end.

Fixpoint drop_bytes (n : nat) (s : string) : string :=
  match n, s with
  | 0, _ => s
  | S n, String _ s => drop_bytes n s
  | S _, "" => ""
  end.

Fixpoint take_bytes (n : nat) (s : string) : string :=
  match n, s with
  | S n, String c s => String c (take_bytes n s)
  | _, _ => ""
  end.

(** [strings.TrimPrefix(s, p)] *)
Definition TrimPrefix (s p : string) : string :=
  if HasPrefix s p then drop_bytes (String.length p) s else s.

(** [strings.HasSuffix(s, p)]: [s] is at least as long and ends in [p]. *)
Definition HasSuffix (s p : string) : bool :=
  (String.length p <=? String.length s) &&
  bool_decide (drop_bytes (String.length s - String.length p) s = p).

(** ** strings.TrimSpace

    The white space of [unicode.IsSpace], as the UTF-8 encodings of its code
    points: U+0009..U+000D, U+0020, U+0085, U+00A0, U+1680, U+2000..U+200A,
    U+2028, U+2029, U+202F, U+205F, U+3000. *)
Definition bytes (l : list nat) : string :=
  foldr (λ n s, String (ascii_of_nat n) s) "" l.

Definition space_runes : list string :=
  ((λ n, bytes [n]) <$> [9; 10; 11; 12; 13; 32])
  ++ [bytes [194; 133]; bytes [194; 160]; bytes [225; 154; 128]]
  ++ ((λ n, bytes [226; 128; n]) <$> [128; 129; 130; 131; 132; 133; 134; 135;
        136; 137; 138; 168; 169; 175])
  ++ [bytes [226; 129; 159]; bytes [227; 128; 128]].

(** The first white-space rune that starts (ends) [s], if any. *)
Definition leading_space (s : string) : option string :=
  head (filter (λ r, HasPrefix s r = true) space_runes).
Definition trailing_space (s : string) : option string :=
  head (filter (λ r, HasSuffix s r = true) space_runes).

Fixpoint TrimLeftSpace (fuel : nat) (s : string) : string :=
  match fuel with
  | 0 => s
  | S fuel =>
      match leading_space s with
      | Some r => TrimLeftSpace fuel (drop_bytes (String.length r) s)
      | None => s
      end
  end.

Fixpoint TrimRightSpace (fuel : nat) (s : string) : string :=
  match fuel with
  | 0 => s
  | S fuel =>
      match trailing_space s with
      | Some r =>
          TrimRightSpace fuel (take_bytes (String.length s - String.length r) s)
      | None => s
      end
  end.

(** [strings.TrimSpace(s)]; each iteration removes at least one byte, so the
    length of the string is enough fuel (lemmas [TrimLeftSpace_done] and
    [TrimRightSpace_done]). *)
Definition TrimSpace (s : string) : string :=
  let l := TrimLeftSpace (String.length s) s in
  TrimRightSpace (String.length l) l.

(** ** strings.ToLower

    ASCII strings are lowered byte by byte.  For a string with a byte of 128
    or more the Go function consults the Unicode tables: that path is the
    argument [unicode_lower]. *)
Definition is_ascii (s : string) : bool :=
  forallb (λ c, nat_of_ascii c <? 128) (String.list_ascii_of_string s).

Definition lower_byte (c : ascii) : ascii :=
  let n := nat_of_ascii c in
  if (65 <=? n) && (n <=? 90) then ascii_of_nat (n + 32) else c.

Fixpoint map_bytes (f : ascii → ascii) (s : string) : string :=
  match s with "" => "" | String c s => String (f c) (map_bytes f s) end.

Definition ToLower (unicode_lower : string → string) (s : string) : string :=
  if is_ascii s then map_bytes lower_byte s else unicode_lower s.

(** ** filepath.Clean, filepath.Join (Unix) *)

(** One path element against the cleaned elements so far (innermost first):
    empty elements and "." vanish, ".." removes the last element that is not
    itself "..", and is dropped at the root. *)
Definition clean_step (rooted : bool) (acc : list string) (e : string) : list string :=
  if bool_decide (e = "") || bool_decide (e = ".") then acc
  else if bool_decide (e = "..") then
    match acc with
    | [] => if rooted then [] else [".."]
    | x :: acc' => if bool_decide (x = "..") then ".." :: acc else acc'
    end
  else e :: acc.

Definition Clean (path : string) : string :=
  let rooted := HasPrefix path "/" in
  let body := Join (reverse (foldl (clean_step rooted) [] (Split path "/"%char))) "/" in
  if rooted then "/" +:+ body
  else if bool_decide (body = "") then "." else body.

(** [filepath.Join(elem...)]: leading empty elements are ignored, the others
    are joined with "/" and cleaned; all empty gives "". *)
Fixpoint filepath_Join (elem : list string) : string :=
  match elem with
  | [] => ""
  | e :: es =>
      if bool_decide (e = "") then filepath_Join es
      else Clean (Join elem "/")
  end.

(** ** Lemmas: splitting and joining *)

Lemma Split_nonempty s sep : Split s sep ≠ [].
Proof. destruct s; simpl; [done|]. by repeat case_match. Qed.
#[export] Hint Resolve Split_nonempty : go.

Lemma Join_cons e es sep :
  es ≠ [] → Join (e :: es) sep = e +:+ sep +:+ Join es sep.
Proof. by destruct es. Qed.

Lemma Join_app es fs sep :
  es ≠ [] → fs ≠ [] → Join (es ++ fs) sep = Join es sep +:+ sep +:+ Join fs sep.
Proof.
  intros Hes Hfs. induction es as [|e es IH]; [done|].
  destruct (decide (es = [])) as [->|Hne].
  - simpl app. by rewrite Join_cons.
  - simpl app. rewrite !Join_cons by (destruct es; naive_solver).
    rewrite IH by done. by autorewrite with go_str.
Qed.

Lemma Join_Split s sep : Join (Split s sep) (String sep "") = s.
Proof.
  induction s as [|c s IH]; [done|]. simpl.
  case_bool_decide as Hc.
  - subst. rewrite Join_cons by auto with go. rewrite IH. done.
  - pose proof (Split_nonempty s sep) as Hne.
    destruct (Split s sep) as [|p ps] eqn:Heq; [done|].
    rewrite <-IH. by destruct ps.
Qed.

Lemma Split_no_sep s sep p : p ∈ Split s sep → has_byte sep p = false.
Proof.
  revert p. induction s as [|c s IH]; intros p; simpl.
  - rewrite list_elem_of_singleton. by intros ->.
  - case_bool_decide as Hc.
    + rewrite elem_of_cons. intros [->|?]; auto.
    + destruct (Split s sep) as [|q qs]; [by rewrite list_elem_of_singleton; intros ->; simpl;
        rewrite bool_decide_false by congruence|].
      rewrite elem_of_cons. intros [->|?]; [|apply IH; by right].
      simpl. rewrite bool_decide_false by congruence. apply IH. by left.
Qed.

Lemma Split_no_byte s sep : has_byte sep s = false → Split s sep = [s].
Proof.
  induction s as [|c s IH]; [done|]; simpl.
  intros [Hc Hs]%orb_false_iff. apply bool_decide_eq_false_1 in Hc.
  rewrite bool_decide_false by congruence. by rewrite IH.
Qed.

Lemma Split_app_sep s sep t :
  has_byte sep s = false → Split (s +:+ String sep t) sep = s :: Split t sep.
Proof.
  induction s as [|c s IH]; simpl.
  - intros _. by rewrite bool_decide_true.
  - intros [Hc Hs]%orb_false_iff. apply bool_decide_eq_false_1 in Hc.
    rewrite bool_decide_false by congruence.
    by rewrite IH.
Qed.

(** Splitting a concatenation at a separator concatenates the parts. *)
Lemma Split_app s sep t :
  Split (s +:+ String sep t) sep = Split s sep ++ Split t sep.
Proof.
  induction s as [|c s IH].
  - rewrite string_app_nil_l. simpl. by rewrite bool_decide_true.
  - rewrite string_app_cons. simpl. rewrite IH.
    case_bool_decide; [done|]. pose proof (Split_nonempty s sep).
    by destruct (Split s sep).
Qed.

(** ** Lemmas: prefixes, suffixes and trimming *)

Lemma HasPrefix_app p s : HasPrefix (p +:+ s) p = true.
Proof.
  induction p as [|c p IH]; [done|]. rewrite string_app_cons. simpl.
  by rewrite bool_decide_true.
Qed.

Lemma HasPrefix_spec s p : HasPrefix s p = true ↔ ∃ t, s = p +:+ t.
Proof.
  split; [|intros [t ->]; apply HasPrefix_app].
  revert s. induction p as [|c p IH]; intros s; [by exists s|].
  destruct s as [|d s]; [done|]; simpl.
  intros [Hc Hp]%andb_true_iff. apply bool_decide_eq_true_1 in Hc as ->.
  apply IH in Hp as [t ->]. by exists t.
Qed.

Lemma drop_bytes_app p s : drop_bytes (String.length p) (p +:+ s) = s.
Proof. by induction p. Qed.

Lemma TrimPrefix_app p s : TrimPrefix (p +:+ s) p = s.
Proof. unfold TrimPrefix. by rewrite HasPrefix_app, drop_bytes_app. Qed.

Lemma length_drop_bytes n s :
  String.length (drop_bytes n s) = String.length s - n.
Proof. revert s. induction n as [|n IH]; intros [|c s]; simpl; auto. Qed.

Lemma length_take_bytes n s :
  String.length (take_bytes n s) = Nat.min n (String.length s).
Proof. revert s. induction n as [|n IH]; intros [|c s]; simpl; auto. Qed.

Lemma take_bytes_Forall (P : ascii → Prop) n s :
  Forall P (String.list_ascii_of_string s) →
  Forall P (String.list_ascii_of_string (take_bytes n s)).
Proof.
  revert n. induction s as [|c s IH]; intros [|n]; simpl; try done.
  intros [Hc Hs]%Forall_cons. constructor; auto.
Qed.

Lemma space_runes_nonempty r : r ∈ space_runes → 0 < String.length r.
Proof.
  intros Hr. assert (Forall (λ r, 0 < String.length r) space_runes) as HF.
  { repeat (constructor; [simpl; lia|]). constructor. }
  rewrite Forall_forall in HF. auto.
Qed.

Lemma TrimLeftSpace_done fuel s :
  String.length s ≤ fuel → leading_space (TrimLeftSpace fuel s) = None.
Proof.
  revert s. induction fuel as [|fuel IH]; intros s Hs; simpl.
  - by destruct s; simpl in *; [|lia].
  - destruct (leading_space s) as [r|] eqn:Hr; [|done].
    apply head_filter_elem in Hr as [Hp Hin]. apply space_runes_nonempty in Hin.
    apply IH. rewrite length_drop_bytes. lia.
Qed.

Lemma TrimRightSpace_done fuel s :
  String.length s ≤ fuel → trailing_space (TrimRightSpace fuel s) = None.
Proof.
  revert s. induction fuel as [|fuel IH]; intros s Hs; simpl.
  - by destruct s; simpl in *; [|lia].
  - destruct (trailing_space s) as [r|] eqn:Hr; [|done].
    apply head_filter_elem in Hr as [Hp Hin]. apply space_runes_nonempty in Hin.
    apply IH. rewrite length_take_bytes. lia.
Qed.

(** The trimmed string has no white space left at its end. *)
Lemma TrimSpace_trailing s : trailing_space (TrimSpace s) = None.
Proof. by apply TrimRightSpace_done. Qed.

Example TrimSpace_ex :
  TrimSpace (bytes [226; 128; 169; 32; 97; 32; 98; 194; 133; 10]) = "a b".
Proof. reflexivity. Qed.

(** ** Lemmas: lower case and paths *)

Lemma ToLower_ascii f s : is_ascii s = true → ToLower f s = map_bytes lower_byte s.
Proof. unfold ToLower. by intros ->. Qed.

Example Clean_ex :
  Clean "../crds" = "../crds" ∧ Clean "a//b/./../c/" = "a/c" ∧
  Clean "/../x" = "/x" ∧ Clean "" = "." ∧ Clean "a/.." = "." ∧
  filepath_Join [""; ""] = "" ∧
  filepath_Join ["../crds"; "clusters.mesh.iglin.io.yaml"]
  = "../crds/clusters.mesh.iglin.io.yaml".
Proof. repeat split. Qed.
