(* ===== verification/GoJson.v ===== *)
(** * The part of Go's [encoding/json] that [xds.ClusterName] relies on

    [json.Unmarshal] first runs a scanner over the whole input
    ([checkValid]) and then decodes into the target.  Here both are one
    recursive-descent parser [parse_value] over bytes that accepts exactly the
    scanner's language (RFC 8259 syntax, no control bytes in strings, nesting
    of at most 10000), with [unquote] for the string escapes, and a decoder
    for the only target the sources use: a struct with one string field
    [name].

    The parser takes fuel; [parse_value_fuel] shows that [2 * length + 2] is
    never used up, so [OutOfFuel] is not an outcome of [Valid] or
    [Unmarshal_name]. *)

From S2P Require Import Prelude GoStrings.

Local Open Scope N_scope.

(** ** Values and errors *)

Inductive json :=
| JNull
| JBool (b : bool)
| JNumber (lit : string)
| JString (s : string)
| JArray (l : list json)
| JObject (l : list (string * json)).

Inductive jerr := SyntaxError | OutOfFuel.

Abbreviation jresult A := (result jerr A).

(** ** Bytes *)

Definition code (c : ascii) : N := N_of_ascii c.
Definition quote : ascii := "034"%char.
Definition backslash : ascii := "092"%char.

Definition in_range (lo hi : N) (c : ascii) : bool :=
  (lo <=? code c) && (code c <=? hi).

Definition is_ws (c : ascii) : bool :=
  bool_decide (code c ∈ [32; 9; 13; 10]).
Definition is_digit (c : ascii) : bool := in_range 48 57 c.
Definition is_hex (c : ascii) : bool :=
  is_digit c || in_range 97 102 c || in_range 65 70 c.

Fixpoint skip_ws (s : string) : string :=
  match s with
  | String c r => if is_ws c then skip_ws r else s
  | "" => ""
  end.

(** The next non-blank byte must be [c]. *)
Definition expect (c : ascii) (s : string) : option string :=
  match skip_ws s with
  | String d r => if bool_decide (c = d) then Some r else None
  | "" => None
  end.

(** ** Strings *)

(** The raw contents of a string literal whose opening quote was consumed. *)
Fixpoint scan_string (s : string) : option (string * string) :=
  match s with
  | "" => None
  | String c r =>
      if bool_decide (c = quote) then Some ("", r)
      else if bool_decide (c = backslash) then
        match r with
        | String e r1 =>
            if bool_decide (code e ∈ [98; 102; 110; 114; 116; 92; 47; 34]) then
              match scan_string r1 with
              | Some (raw, rest) => Some (String c (String e raw), rest)
              | None => None
              end
            else if bool_decide (code e = 117) then
              match r1 with
              | String h1 (String h2 (String h3 (String h4 r2))) =>
                  if is_hex h1 && is_hex h2 && is_hex h3 && is_hex h4 then
                    match scan_string r2 with
                    | Some (raw, rest) =>
                        Some (String c (String e (String h1 (String h2
                               (String h3 (String h4 raw))))), rest)
                    | None => None
                    end
                  else None
              | _ => None
              end
            else None
        | "" => None
        end
      else if code c <? 32 then None
      else match scan_string r with
           | Some (raw, rest) => Some (String c raw, rest)
           | None => None
           end
  end.

(** *** UTF-8 *)

Definition byte_of (n : N) : ascii := ascii_of_N n.

(** [utf8.EncodeRune] *)
Definition encode_rune (r : N) : string :=
  if r <? 128 then String (byte_of r) ""
  else if r <? 2048 then
    String (byte_of (192 + r / 64)) (String (byte_of (128 + r mod 64)) "")
  else if r <? 65536 then
    String (byte_of (224 + r / 4096)) (String (byte_of (128 + (r / 64) mod 64))
      (String (byte_of (128 + r mod 64)) ""))
  else
    String (byte_of (240 + r / 262144)) (String (byte_of (128 + (r / 4096) mod 64))
      (String (byte_of (128 + (r / 64) mod 64)) (String (byte_of (128 + r mod 64)) ""))).

Definition replacement_char : N := 65533.

(** The length of the well-formed UTF-8 sequence that starts with [c] and goes
    on in [r]; 0 when there is none ([utf8.DecodeRune] gives [RuneError, 1]). *)
Definition utf8_len (c : ascii) (r : string) : nat :=
  let cont := in_range 128 191 in
  match r with
  | String c1 r1 =>
      if in_range 194 223 c then (if cont c1 then 2%nat else 0%nat)
      else match r1 with
      | String c2 r2 =>
          let three lo hi :=
            if in_range lo hi c1 && cont c2 then 3%nat else 0%nat in
          if in_range 224 224 c then three 160 191
          else if in_range 237 237 c then three 128 159
          else if in_range 225 239 c then three 128 191
          else match r2 with
          | String c3 _ =>
              let four lo hi :=
                if in_range lo hi c1 && cont c2 && cont c3 then 4%nat else 0%nat in
              if in_range 240 240 c then four 144 191
              else if in_range 241 243 c then four 128 191
              else if in_range 244 244 c then four 128 143
              else 0%nat
          | "" => 0%nat
          end
      | "" => 0%nat
      end
  | "" => 0%nat
  end.

Definition hex_value (c : ascii) : N :=
  if is_digit c then code c - 48
  else if in_range 97 102 c then code c - 87
  else code c - 55.

Definition hex4 (h1 h2 h3 h4 : ascii) : N :=
  4096 * hex_value h1 + 256 * hex_value h2 + 16 * hex_value h3 + hex_value h4.

(** [utf16.DecodeRune] on two code units: [Some] when they form a pair. *)
Definition surrogate_pair (r1 r2 : N) : option N :=
  if (55296 <=? r1) && (r1 <? 56320) && (56320 <=? r2) && (r2 <? 57344)
  then Some ((r1 - 55296) * 1024 + (r2 - 56320) + 65536) else None.

Definition is_surrogate (r : N) : bool := (55296 <=? r) && (r <? 57344).

Definition unescape (e : ascii) : ascii :=
  match code e with
  | 98 => byte_of 8 | 102 => byte_of 12 | 110 => byte_of 10
  | 114 => byte_of 13 | 116 => byte_of 9 | _ => e
  end.

(** [unquoteBytes] on the contents of a scanned literal. *)
Fixpoint unquote (s : string) : string :=
  match s with
  | "" => ""
  | String c r =>
      if bool_decide (c = backslash) then
        match r with
        | String e r1 =>
            if bool_decide (code e = 117) then
              match r1 with
              | String h1 (String h2 (String h3 (String h4 r2))) =>
                  let rr := hex4 h1 h2 h3 h4 in
                  if is_surrogate rr then
                    match r2 with
                    | String b (String u (String k1 (String k2 (String k3 (String k4 r3))))) =>
                        match
                          (if bool_decide (b = backslash) && bool_decide (code u = 117)
                              && is_hex k1 && is_hex k2 && is_hex k3 && is_hex k4
                           then surrogate_pair rr (hex4 k1 k2 k3 k4) else None)
                        with
                        | Some dec => encode_rune dec +:+ unquote r3
                        | None => encode_rune replacement_char +:+ unquote r2
                        end
                    | _ => encode_rune replacement_char +:+ unquote r2
                    end
                  else encode_rune rr +:+ unquote r2
              | _ => ""
              end
            else String (unescape e) (unquote r1)
        | "" => ""
        end
      else if code c <? 128 then String c (unquote r)
      else match utf8_len c r, r with
           | 2%nat, String c1 r1 => String c (String c1 (unquote r1))
           | 3%nat, String c1 (String c2 r2) => String c (String c1 (String c2 (unquote r2)))
           | 4%nat, String c1 (String c2 (String c3 r3)) =>
               String c (String c1 (String c2 (String c3 (unquote r3))))
           | _, _ => encode_rune replacement_char +:+ unquote r
           end
  end.

(** ** Numbers *)

Fixpoint scan_digits (s : string) : string * string :=
  match s with
  | String c r =>
      if is_digit c then let '(d, rest) := scan_digits r in (String c d, rest)
      else ("", s)
  | "" => ("", "")
  end.

(** At least one digit. *)
Definition scan_digits1 (s : string) : option (string * string) :=
  match scan_digits s with
  | ("", _) => None
  | (d, rest) => Some (d, rest)
  end.

Definition scan_int (s : string) : option (string * string) :=
  match s with
  | String c r =>
      if bool_decide (code c = 48) then Some (String c "", r)
      else if is_digit c then Some (scan_digits s) else None
  | "" => None
  end.

Definition scan_frac (s : string) : option (string * string) :=
  match s with
  | String c r =>
      if bool_decide (code c = 46) then
        match scan_digits1 r with
        | Some (d, rest) => Some (String c d, rest)
        | None => None
        end
      else Some ("", s)
  | "" => Some ("", "")
  end.

Definition scan_exp (s : string) : option (string * string) :=
  match s with
  | String c r =>
      if bool_decide (code c ∈ [101; 69]) then
        let '(sign, r1) :=
          match r with
          | String d r' => if bool_decide (code d ∈ [43; 45]) then (String d "", r') else ("", r)
          | "" => ("", r)
          end in
        match scan_digits1 r1 with
        | Some (d, rest) => Some (String c (sign +:+ d), rest)
        | None => None
        end
      else Some ("", s)
  | "" => Some ("", "")
  end.

Definition scan_number (s : string) : option (string * string) :=
  let '(minus, s0) :=
    match s with
    | String c r => if bool_decide (code c = 45) then (String c "", r) else ("", s)
    | "" => ("", "")
    end in
  '(i, s1) ← scan_int s0;
  '(f, s2) ← scan_frac s1;
  '(e, s3) ← scan_exp s2;
  Some (minus +:+ i +:+ f +:+ e, s3).

(** ** Values *)

Definition maxNestingDepth : N := 10000.

Definition literal (word : string) (v : json) (s : string) : jresult (json * string) :=
  if HasPrefix s word then Ok (v, drop_bytes (String.length word) s)
  else Err SyntaxError.

(** [depth] counts the arrays and objects that are open. *)
Fixpoint parse_value (fuel : nat) (depth : N) (s : string) : jresult (json * string) :=
  match fuel with
  | O => Err OutOfFuel
  | S fuel =>
      match skip_ws s with
      | "" => Err SyntaxError
      | String c r =>
          if bool_decide (code c = 123) then
            if maxNestingDepth <=? depth then Err SyntaxError
            else match expect "}" r with
                 | Some r' => Ok (JObject [], r')
                 | None => '(ms, r') ← parse_members fuel (depth + 1) r;
                           Ok (JObject ms, r')
                 end
          else if bool_decide (code c = 91) then
            if maxNestingDepth <=? depth then Err SyntaxError
            else match expect "]" r with
                 | Some r' => Ok (JArray [], r')
                 | None => '(vs, r') ← parse_elements fuel (depth + 1) r;
                           Ok (JArray vs, r')
                 end
          else if bool_decide (c = quote) then
            match scan_string r with
            | Some (raw, r') => Ok (JString (unquote raw), r')
            | None => Err SyntaxError
            end
          else if bool_decide (code c = 116) then literal "true" (JBool true) (String c r)
          else if bool_decide (code c = 102) then literal "false" (JBool false) (String c r)
          else if bool_decide (code c = 110) then literal "null" JNull (String c r)
          else match scan_number (String c r) with
               | Some (lit, r') => Ok (JNumber lit, r')
               | None => Err SyntaxError
               end
      end
  end
with parse_members (fuel : nat) (depth : N) (s : string)
    : jresult (list (string * json) * string) :=
  match fuel with
  | O => Err OutOfFuel
  | S fuel =>
      match expect quote s ≫= scan_string with
      | None => Err SyntaxError
      | Some (raw, r1) =>
          match expect ":" r1 with
          | None => Err SyntaxError
          | Some r2 =>
              '(v, r3) ← parse_value fuel depth r2;
              match expect "," r3 with
              | Some r4 =>
                  '(ms, r5) ← parse_members fuel depth r4;
                  Ok ((unquote raw, v) :: ms, r5)
              | None =>
                  match expect "}" r3 with
                  | Some r4 => Ok ([(unquote raw, v)], r4)
                  | None => Err SyntaxError
                  end
              end
          end
      end
  end
with parse_elements (fuel : nat) (depth : N) (s : string)
    : jresult (list json * string) :=
  match fuel with
  | O => Err OutOfFuel
  | S fuel =>
      '(v, r1) ← parse_value fuel depth s;
      match expect "," r1 with
      | Some r2 =>
          '(vs, r3) ← parse_elements fuel depth r2;
          Ok (v :: vs, r3)
      | None =>
          match expect "]" r1 with
          | Some r2 => Ok ([v], r2)
          | None => Err SyntaxError
          end
      end
  end.

(** Fuel that no input of this length uses up. *)
Definition json_fuel (s : string) : nat := (2 * String.length s + 2)%nat.

(** One JSON value with blanks around it, and nothing else. *)
Definition parse (s : string) : jresult json :=
  '(v, r) ← parse_value (json_fuel s) 0 s;
  match skip_ws r with "" => Ok v | _ => Err SyntaxError end.

(** ** Decoding into [struct { Name string `json:"name"` }] *)

Definition upper_byte (c : ascii) : ascii :=
  if in_range 97 122 c then byte_of (code c - 32) else c.

(** The exact field name, or a name that folds to it.  No rune outside ASCII
    folds to a letter of "name". *)
Definition key_matches (k : string) : bool :=
  bool_decide (k = "name") || bool_decide (map_bytes upper_byte k = "NAME").

(** Members are stored in order: a string sets the field, [null] leaves it,
    any other value is a saved [UnmarshalTypeError]. *)
Definition store_member (st : string * bool) (m : string * json) : string * bool :=
  let '(name, failed) := st in
  if key_matches m.1 then
    match m.2 with
    | JString s => (s, failed)
    | JNull => (name, failed)
    | _ => (name, true)
    end
  else (name, failed).

Definition decode_name (v : json) : option string :=
  match v with
  | JObject ms =>
      match foldl store_member ("", false) ms with
      | (name, false) => Some name
      | (_, true) => None
      end
  | JNull => Some ""
  | _ => None
  end.

(** [json.Unmarshal(raw, &m)] and [m.Name]; [None] is a non-nil error. *)
Definition Unmarshal_name (raw : string) : option string :=
  match parse raw with
  | Ok v => decode_name v
  | Err _ => None
  end.

(** ** The fuel is enough *)

Local Close Scope N_scope.

Lemma string_lt_ind (P : string → Prop) :
  (∀ s, (∀ t, String.length t < String.length s → P t) → P s) → ∀ s, P s.
Proof.
  intros IH s. remember (String.length s) as n eqn:Hn. revert s Hn.
  induction n as [n IHn] using lt_wf_ind. intros s ->. apply IH. eauto.
Qed.

Lemma skip_ws_length s : String.length (skip_ws s) ≤ String.length s.
Proof. induction s as [|c s IH]; simpl; [done|]. case_match; simpl; lia. Qed.

Lemma expect_length c s r :
  expect c s = Some r → String.length r < String.length s.
Proof.
  unfold expect. pose proof (skip_ws_length s). intros ?.
  destruct (skip_ws s); [done|]. case_bool_decide; simplify_eq/=. lia.
Qed.

Lemma scan_string_length s raw r :
  scan_string s = Some (raw, r) → String.length r < String.length s.
Proof.
  revert raw r. induction s as [s IH] using string_lt_ind. intros raw r.
  destruct s as [|c s]; [done|]; simpl.
  repeat case_match; intros ?; simplify_eq/=; try lia;
    match goal with
    | H : scan_string ?t = Some _ |- _ => apply IH in H; simpl in *; lia
    end.
Qed.

Lemma scan_digits_length s d r :
  scan_digits s = (d, r) → String.length d + String.length r = String.length s.
Proof.
  revert d r. induction s as [|c s IH]; simpl; intros d r ?; simplify_eq/=; [done|].
  destruct (is_digit c); simplify_eq/=; [|done].
  destruct (scan_digits s) as [d' r']; simplify_eq/=. by rewrite (IH d' r).
Qed.

Lemma scan_digits1_length s d r :
  scan_digits1 s = Some (d, r) → String.length r < String.length s.
Proof.
  unfold scan_digits1. destruct (scan_digits s) as [d' r'] eqn:Hs.
  apply scan_digits_length in Hs. destruct d'; [done|]. intros ?; simplify_eq/=. lia.
Qed.

Lemma scan_int_length s d r :
  scan_int s = Some (d, r) → String.length r < String.length s.
Proof.
  unfold scan_int. destruct s as [|c s]; [done|].
  case_bool_decide; [intros ?; simplify_eq/=; lia|].
  simpl. destruct (is_digit c); [|done].
  destruct (scan_digits s) as [d' r'] eqn:Hs. apply scan_digits_length in Hs.
  intros ?; simplify_eq. lia.
Qed.

Lemma scan_frac_length s d r :
  scan_frac s = Some (d, r) → String.length r ≤ String.length s.
Proof.
  unfold scan_frac. destruct s as [|c s]; [by intros ?; simplify_eq|].
  case_bool_decide; [|intros ?; simplify_eq/=; lia].
  destruct (scan_digits1 s) as [[d' r']|] eqn:Hs; [|done].
  apply scan_digits1_length in Hs. intros ?; simplify_eq/=. lia.
Qed.

Lemma scan_exp_length s d r :
  scan_exp s = Some (d, r) → String.length r ≤ String.length s.
Proof.
  unfold scan_exp. destruct s as [|c s]; [by intros ?; simplify_eq|].
  case_bool_decide; [|intros ?; simplify_eq/=; lia].
  destruct s as [|c' s]; simpl; [done|].
  case_bool_decide; simpl;
    (destruct (scan_digits1 _) as [[d' r']|] eqn:Hs; [|done]);
    apply scan_digits1_length in Hs; intros ?; simplify_eq/=; lia.
Qed.

Lemma scan_number_length s lit r :
  scan_number s = Some (lit, r) → String.length r < String.length s.
Proof.
  unfold scan_number. intros Hs.
  destruct (match s with
            | "" => ("", "")
            | String c r => if bool_decide (code c = 45%N) then (String c "", r) else ("", s)
            end) as [minus s0] eqn:Hm.
  assert (String.length s0 ≤ String.length s) as Hle.
  { destruct s; simplify_eq/=. case_bool_decide; simplify_eq/=; lia. }
  destruct (scan_int s0) as [[i s1]|] eqn:Hi; simplify_eq/=.
  destruct (scan_frac s1) as [[f s2]|] eqn:Hf; simplify_eq/=.
  destruct (scan_exp s2) as [[e s3]|] eqn:He; simplify_eq/=.
  apply scan_int_length in Hi. apply scan_frac_length in Hf.
  apply scan_exp_length in He. lia.
Qed.

Lemma literal_length word v s v' r :
  word ≠ "" → literal word v s = Ok (v', r) → String.length r < String.length s.
Proof.
  unfold literal. intros Hw. destruct (HasPrefix s word) eqn:Hp; [|done].
  apply HasPrefix_spec in Hp as [t ->]. rewrite drop_bytes_app.
  intros ?; simplify_eq. rewrite string_length_app. destruct word; simpl; [done|lia].
Qed.

Lemma literal_fuel word v s : literal word v s ≠ Err OutOfFuel.
Proof. unfold literal. by case_match. Qed.

(** Every parser consumes at least one byte. *)
Lemma parse_length fuel :
  (∀ d s v r, parse_value fuel d s = Ok (v, r) → String.length r < String.length s) ∧
  (∀ d s v r, parse_members fuel d s = Ok (v, r) → String.length r < String.length s) ∧
  (∀ d s v r, parse_elements fuel d s = Ok (v, r) → String.length r < String.length s).
Proof.
  induction fuel as [|fuel (IHv & IHm & IHe)]; [done|].
  split_and!; intros d s v r; simpl.
  - pose proof (skip_ws_length s) as Hws.
    destruct (skip_ws s) as [|c t] eqn:Ht; [done|]; simpl in Hws.
    repeat case_bool_decide; repeat (case_match; try done); intros Hp;
      simplify_eq/=.
    all: repeat match goal with
      | H : expect _ _ = Some _ |- _ => apply expect_length in H
      | H : scan_string _ = Some _ |- _ => apply scan_string_length in H
      | H : scan_number _ = Some _ |- _ => apply scan_number_length in H; simpl in H
      | H : literal _ _ _ = Ok _ |- _ => apply literal_length in H; [|done]; simpl in H
      | H : _ ≫= _ = Ok _ |- _ => apply bind_Ok in H as ([] & ? & ?); simplify_eq
      | H : parse_members _ _ _ = Ok _ |- _ => apply IHm in H
      | H : parse_elements _ _ _ = Ok _ |- _ => apply IHe in H
      end; try lia.
  - destruct (expect quote s) as [r0|] eqn:H0; simpl; [|done].
    destruct (scan_string r0) as [[raw r1]|] eqn:H1; [|done].
    destruct (expect ":" r1) as [r2|] eqn:H2; [|done].
    intros ([v' r3] & H3 & H4)%bind_Ok. apply IHv in H3.
    apply expect_length in H0, H2. apply scan_string_length in H1.
    destruct (expect "," r3) as [r4|] eqn:H5.
    + apply bind_Ok in H4 as ([] & H6%IHm & ?). simplify_eq.
      apply expect_length in H5. lia.
    + destruct (expect "}" r3) eqn:H6; simplify_eq. apply expect_length in H6. lia.
  - intros ([v' r3] & H3%IHv & H4)%bind_Ok.
    destruct (expect "," r3) as [r4|] eqn:H5.
    + apply bind_Ok in H4 as ([] & H6%IHe & ?). simplify_eq.
      apply expect_length in H5. lia.
    + destruct (expect "]" r3) eqn:H6; simplify_eq. apply expect_length in H6. lia.
Qed.

Lemma parse_fuel fuel :
  (∀ d s, 2 * String.length s + 1 ≤ fuel → parse_value fuel d s ≠ Err OutOfFuel) ∧
  (∀ d s, 2 * String.length s + 2 ≤ fuel → parse_members fuel d s ≠ Err OutOfFuel) ∧
  (∀ d s, 2 * String.length s + 2 ≤ fuel → parse_elements fuel d s ≠ Err OutOfFuel).
Proof.
  induction fuel as [|fuel (IHv & IHm & IHe)]; [by split_and!; intros; lia|].
  destruct (parse_length fuel) as (Lv & Lm & Le).
  split_and!; intros d s Hf; simpl.
  - pose proof (skip_ws_length s) as Hws.
    destruct (skip_ws s) as [|c t] eqn:Ht; [done|]; simpl in Hws.
    repeat case_bool_decide; repeat (case_match; try done);
      try apply literal_fuel;
      (intros [?|([] & ? & ?)]%bind_Err; [|done]);
      first [eapply IHm; [|eassumption]; lia | eapply IHe; [|eassumption]; lia].
  - destruct (expect quote s) as [r0|] eqn:H0; simpl; [|done].
    destruct (scan_string r0) as [[raw r1]|] eqn:H1; [|done].
    destruct (expect ":" r1) as [r2|] eqn:H2; [|done].
    apply expect_length in H0, H2. apply scan_string_length in H1.
    intros [?|([v' r3] & H3%Lv & H4)]%bind_Err; [eapply IHv; eauto; lia|].
    destruct (expect "," r3) as [r4|] eqn:H5.
    + apply expect_length in H5.
      apply bind_Err in H4 as [?|([] & ? & ?)]; [|done]. eapply IHm; eauto; lia.
    + by destruct (expect "}" r3).
  - intros [?|([v' r3] & H3%Lv & H4)]%bind_Err; [eapply IHv; eauto; lia|].
    destruct (expect "," r3) as [r4|] eqn:H5.
    + apply expect_length in H5.
      apply bind_Err in H4 as [?|([] & ? & ?)]; [|done]. eapply IHe; eauto; lia.
    + by destruct (expect "]" r3).
Qed.

Lemma parse_never_out_of_fuel s : parse s ≠ Err OutOfFuel.
Proof.
  unfold parse, json_fuel. intros [?|([] & ? & ?)]%bind_Err; [|by repeat case_match].
  eapply (proj1 (parse_fuel _)); [|done]. lia.
Qed.

(** ** Printing, and parsing what was printed

    A printer for JSON texts, the inverse of the parser on ASCII strings and
    decimal integers: it turns statements about raw bytes into statements
    about JSON trees. *)

Section json_rect.
Variable P : json → Prop.
Hypotheses (Hnull : P JNull) (Hbool : ∀ b, P (JBool b))
  (Hnum : ∀ l, P (JNumber l)) (Hstr : ∀ s, P (JString s))
  (Harr : ∀ l, Forall P l → P (JArray l))
  (Hobj : ∀ ms, Forall (λ m, P m.2) ms → P (JObject ms)).

Fixpoint json_nested_ind (v : json) : P v :=
  match v with
  | JNull => Hnull
  | JBool b => Hbool b
  | JNumber l => Hnum l
  | JString s => Hstr s
  | JArray l => Harr l ((fix go l : Forall P l :=
      match l with
      | [] => Forall_nil_2 _
      | v :: l => Forall_cons_2 _ _ _ (json_nested_ind v) (go l)
      end) l)
  | JObject ms => Hobj ms ((fix go ms : Forall (λ m, P m.2) ms :=
      match ms with
      | [] => Forall_nil_2 _
      | m :: ms => Forall_cons_2 _ _ _ (json_nested_ind m.2) (go ms)
      end) ms)
  end.
End json_rect.

Definition hex_digit (n : N) : ascii :=
  if (n <? 10)%N then byte_of (48 + n) else byte_of (87 + n).

Definition escape_byte (c : ascii) : string :=
  if bool_decide (c = quote) || bool_decide (c = backslash)
  then String backslash (String c "")
  else if (code c <? 32)%N
  then String backslash ("u00" +:+ String (hex_digit (code c / 16))
         (String (hex_digit (code c mod 16)) ""))
  else String c "".

Fixpoint escape (s : string) : string :=
  match s with "" => "" | String c s => escape_byte c +:+ escape s end.

Definition print_string (s : string) : string :=
  String quote (escape s +:+ String quote "").

Fixpoint print (v : json) : string :=
  match v with
  | JNull => "null"
  | JBool true => "true"
  | JBool false => "false"
  | JNumber lit => lit
  | JString s => print_string s
  | JArray l => "[" +:+ Join (print <$> l) "," +:+ "]"
  | JObject ms =>
      "{" +:+ Join ((λ m, print_string m.1 +:+ ":" +:+ print m.2) <$> ms) ","
      +:+ "}"
  end.

(** The trees the printer is faithful on; [d] bounds the nesting. *)
Fixpoint ascii_string (s : string) : bool :=
  match s with "" => true | String c s => (code c <? 128)%N && ascii_string s end.

Definition decimal (lit : string) : bool :=
  bool_decide (lit = "0") ||
  match lit with
  | String c r => in_range 49 57 c && bool_decide (scan_digits r = (r, ""))
  | "" => false
  end.

Fixpoint printable (d : nat) (v : json) {struct v} : bool :=
  match v with
  | JNull | JBool _ => true
  | JNumber lit => decimal lit
  | JString s => ascii_string s
  | JArray l => match d with 0 => false | S d => forallb (printable d) l end
  | JObject ms =>
      match d with
      | 0 => false
      | S d => forallb (λ m, ascii_string m.1 && printable d m.2) ms
      end
  end.

Lemma scan_string_escape_byte c t :
  (code c < 128)%N →
  scan_string (escape_byte c +:+ t) =
    match scan_string t with
    | Some (raw, rest) => Some (escape_byte c +:+ raw, rest)
    | None => None
    end.
Proof. destruct c as [[] [] [] [] [] [] [] []]; try done; reflexivity. Qed.

Lemma unquote_escape_byte c t :
  (code c < 128)%N → unquote (escape_byte c +:+ t) = String c (unquote t).
Proof. destruct c as [[] [] [] [] [] [] [] []]; try done; reflexivity. Qed.

Lemma scan_string_escape s rest :
  ascii_string s → scan_string (escape s +:+ String quote rest) = Some (escape s, rest).
Proof.
  induction s as [|c s IH]; [done|]. simpl. intros [Hc Hs]%andb_True.
  rewrite string_app_assoc, scan_string_escape_byte, IH by (auto; by apply N.ltb_lt, Is_true_true).
  done.
Qed.

Lemma unquote_escape s : ascii_string s → unquote (escape s) = s.
Proof.
  induction s as [|c s IH]; [done|]. simpl. intros [Hc Hs]%andb_True.
  by rewrite unquote_escape_byte, IH by (auto; by apply N.ltb_lt, Is_true_true).
Qed.

(** What may follow a value: the end of the text or a delimiter. *)
Definition delimited (rest : string) : Prop :=
  match rest with
  | "" => True
  | String c _ => c = ","%char ∨ c = "]"%char ∨ c = "}"%char
  end.

Lemma scan_digits_app d rest :
  delimited rest → scan_digits d = (d, "") → scan_digits (d +:+ rest) = (d, rest).
Proof.
  intros Hr. induction d as [|c d IH]; simpl.
  - intros _. destruct rest as [|c r]; [done|]. by destruct Hr as [->|[->| ->]].
  - destruct (is_digit c); [|done].
    destruct (scan_digits d) as [d' r']. intros ?; simplify_eq/=.
    by rewrite IH.
Qed.

Lemma scan_number_decimal lit rest :
  decimal lit → delimited rest → scan_number (lit +:+ rest) = Some (lit, rest).
Proof.
  intros Hd Hr. unfold decimal in Hd. unfold scan_number.
  apply orb_True in Hd as [Hd|Hd].
  - apply bool_decide_unpack in Hd as ->. simpl.
    destruct rest as [|c r]; [done|]. by destruct Hr as [->|[->| ->]].
  - destruct lit as [|c r]; [done|]. apply andb_True in Hd as [Hc Hs].
    apply bool_decide_unpack in Hs.
    assert (is_digit c = true ∧ code c ≠ 45%N ∧ code c ≠ 48%N) as (Hdig & H45 & H48).
    { unfold is_digit, in_range in *. apply andb_True in Hc as [H1 H2].
      apply Is_true_true, N.leb_le in H1. apply Is_true_true, N.leb_le in H2.
      split_and!; [|lia|lia]. apply andb_true_iff. rewrite !N.leb_le. lia. }
    rewrite string_app_cons. rewrite bool_decide_false by done.
    unfold scan_int. rewrite bool_decide_false by done. simpl.
    rewrite Hdig, scan_digits_app by done. simpl.
    destruct rest as [|c' r']; [|destruct Hr as [->|[->| ->]]]; simpl;
      by rewrite !string_app_nil_r.
Qed.

Lemma skip_ws_head c r : is_ws c = false → skip_ws (String c r) = String c r.
Proof. simpl. by intros ->. Qed.

Lemma expect_head c r : is_ws c = false → expect c (String c r) = Some r.
Proof. intros Hc. unfold expect. by rewrite skip_ws_head, bool_decide_true. Qed.

Lemma expect_other c d r : is_ws d = false → c ≠ d → expect c (String d r) = None.
Proof. intros Hd Hne. unfold expect. by rewrite skip_ws_head, bool_decide_false. Qed.

Lemma digit_range c : is_digit c = true → (48 ≤ code c ≤ 57)%N.
Proof. unfold is_digit, in_range. rewrite andb_true_iff, !N.leb_le. lia. Qed.

Lemma decimal_head lit : decimal lit → ∃ c r, lit = String c r ∧ is_digit c = true.
Proof.
  unfold decimal. intros [->%bool_decide_unpack|Hd]%orb_True; [by eexists _, _|].
  destruct lit as [|c r]; [done|]. exists c, r. split; [done|].
  apply andb_True in Hd as [Hc _]. unfold is_digit, in_range in *.
  apply Is_true_true, andb_true_iff in Hc. apply andb_true_iff.
  rewrite !N.leb_le in *. lia.
Qed.

(** No printed value starts with a blank or a closing bracket. *)
Lemma print_head d v :
  printable d v → ∃ c r, print v = String c r ∧ is_ws c = false ∧ c ≠ "]"%char.
Proof.
  destruct v as [|[]|lit|s|l|ms]; intros Hp; try by eexists _, _.
  apply decimal_head in Hp as (c & r & -> & Hc). exists c, r. split; [done|].
  apply digit_range in Hc. split; [|intros ->; by destruct Hc as [_ []]].
  unfold is_ws. apply bool_decide_eq_false. rewrite !elem_of_cons, elem_of_nil. lia.
Qed.

Definition parses (d : nat) (v : json) : Prop :=
  ∀ fuel depth rest, printable d v → (depth + N.of_nat d ≤ maxNestingDepth)%N →
    delimited rest → 2 * String.length (print v +:+ rest) + 1 ≤ fuel →
    parse_value fuel depth (print v +:+ rest) = Ok (v, rest).

Lemma parse_scalar_print d v :
  match v with JArray _ | JObject _ => False | _ => True end → parses d v.
Proof.
  intros Hv [|fuel] depth rest Hp Hd Hr Hf; [lia|].
  destruct v as [|[]|lit|s| |]; try done.
  - pose proof (decimal_head _ Hp) as (c & r & Hlit & Hc%digit_range).
    pose proof (scan_number_decimal lit rest Hp Hr) as Hn.
    simpl print. subst lit. rewrite string_app_cons in *.
    assert (is_ws c = false) as Hws.
    { unfold is_ws. apply bool_decide_eq_false. rewrite !elem_of_cons, elem_of_nil. lia. }
    unfold parse_value; fold parse_value. rewrite skip_ws_head by done.
    rewrite !bool_decide_false by (try lia; intros ->; by vm_compute in Hc).
    by rewrite Hn.
  - simpl print. unfold print_string. autorewrite with go_str.
    simpl. by rewrite scan_string_escape, unquote_escape.
Qed.

Lemma parse_elements_print d v vs fuel depth rest :
  Forall (parses d) (v :: vs) → forallb (printable d) (v :: vs) →
  (depth + N.of_nat d ≤ maxNestingDepth)%N →
  2 * String.length (Join (print <$> v :: vs) "," +:+ "]" +:+ rest) + 2 ≤ fuel →
  parse_elements fuel depth (Join (print <$> v :: vs) "," +:+ "]" +:+ rest)
  = Ok (v :: vs, rest).
Proof.
  revert v fuel. induction vs as [|w vs IH]; intros v [|fuel] HF Hp Hd Hf; try lia.
  - apply Forall_cons in HF as [HF _]. simpl in Hp. apply andb_True in Hp as [Hp _].
    simpl fmap in *. simpl Join in *.
    unfold parse_elements; fold parse_value. fold parse_elements.
    unfold parses in HF. rewrite HF by (done || (by right; left) || lia).
    unfold mbind, result_bind, expect. by rewrite string_app_cons, skip_ws_head.
  - apply Forall_cons in HF as [Hv HF].
    assert (printable d v ∧ forallb (printable d) (w :: vs)) as [Hpv Hps].
    { by apply andb_True in Hp. }
    rewrite !fmap_cons, Join_cons in Hf |- * by done. rewrite <-fmap_cons in Hf |- *.
    rewrite !string_app_assoc in *.
    unfold parse_elements; fold parse_value. fold parse_elements.
    unfold parses in Hv. rewrite Hv by (done || (by left) || lia).
    unfold mbind, result_bind.
    rewrite string_app_cons, expect_head by done. rewrite string_app_nil_l.
    rewrite IH; [done..|].
    rewrite string_length_app, string_app_cons, string_app_nil_l in Hf.
    cbn [String.length] in Hf. lia.
Qed.

(** A printed object member. *)
Definition print_member (m : string * json) : string :=
  print_string m.1 +:+ ":" +:+ print m.2.

Lemma print_member_shape m t :
  print_member m +:+ t =
  String quote (escape m.1 +:+ String quote (String ":" (print m.2 +:+ t))).
Proof. unfold print_member, print_string. by autorewrite with go_str. Qed.

Lemma parse_member_step fuel depth d m t :
  ascii_string m.1 → printable d m.2 → parses d m.2 → delimited t →
  (depth + N.of_nat d ≤ maxNestingDepth)%N →
  2 * String.length (print_member m +:+ t) + 2 ≤ S fuel →
  parse_members (S fuel) depth (print_member m +:+ t) =
    match expect "," t with
    | Some r4 => '(ms, r5) ← parse_members fuel depth r4; Ok (m :: ms, r5)
    | None => match expect "}" t with
              | Some r4 => Ok ([m], r4)
              | None => Err SyntaxError
              end
    end.
Proof.
  intros Ha Hp Hv Ht Hd Hf. destruct m as [k v]; simpl in Ha, Hp, Hv.
  rewrite print_member_shape in Hf |- *. unfold parse_members; fold parse_value parse_members.
  rewrite expect_head by done. unfold mbind, option_bind. simpl fst.
  rewrite scan_string_escape, expect_head by done. unfold parses in Hv. simpl snd.
  rewrite Hv; [|done..|].
  - unfold result_bind. by rewrite unquote_escape.
  - simpl in Hf. rewrite string_length_app in Hf. simpl in Hf. lia.
Qed.

Lemma parse_members_print d m ms fuel depth rest :
  Forall (λ m, parses d m.2) (m :: ms) →
  forallb (λ m, ascii_string m.1 && printable d m.2) (m :: ms) →
  (depth + N.of_nat d ≤ maxNestingDepth)%N →
  2 * String.length (Join (print_member <$> m :: ms) "," +:+ "}" +:+ rest) + 2 ≤ fuel →
  parse_members fuel depth (Join (print_member <$> m :: ms) "," +:+ "}" +:+ rest)
  = Ok (m :: ms, rest).
Proof.
  revert m fuel. induction ms as [|n ms IH]; intros m [|fuel] HF Hp Hd Hf; try lia.
  - apply Forall_cons in HF as [HF _].
    apply andb_True in Hp as [[Ha Hp]%andb_True _].
    simpl fmap in *. simpl Join in *.
    rewrite (parse_member_step _ _ d) by (done || (by right; right)).
    by rewrite string_app_cons, expect_other, expect_head.
  - apply Forall_cons in HF as [Hv HF].
    apply andb_True in Hp as [[Ha Hp]%andb_True Hps].
    rewrite !fmap_cons, Join_cons in Hf |- * by done. rewrite <-fmap_cons in Hf |- *.
    rewrite !string_app_assoc in *.
    rewrite (parse_member_step _ _ d) by (done || (by left)).
    rewrite string_app_cons, expect_head by done. rewrite string_app_nil_l.
    rewrite IH; [done..|].
    rewrite string_length_app, string_app_cons, string_app_nil_l in Hf.
    cbn [String.length] in Hf. lia.
Qed.

Lemma print_parses v d : parses d v.
Proof.
  revert d. induction v as [| | | |l IH|ms IH] using json_nested_ind; intros d;
    try by apply parse_scalar_print.
  - intros [|fuel] depth rest Hp Hd Hr Hf; [lia|]. destruct d as [|d]; [done|].
    simpl in Hp. simpl print. rewrite !string_app_assoc, string_app_cons, string_app_nil_l.
    simpl print in Hf. rewrite !string_app_assoc, string_app_cons, string_app_nil_l in Hf.
    unfold parse_value; fold parse_value parse_elements. rewrite skip_ws_head by done.
    rewrite bool_decide_false by done. rewrite bool_decide_true by done.
    rewrite (proj2 (N.leb_gt _ _)) by lia.
    destruct l as [|v vs]; [done|].
    assert (printable d v) as Hpv by (by apply andb_True in Hp as [? _]).
    destruct (print_head _ _ Hpv) as (c & r & Hc & Hws & Hne).
    assert (expect "]" (Join (print <$> v :: vs) "," +:+ "]" +:+ rest) = None) as ->.
    { simpl. rewrite Hc. destruct vs; simpl; by apply expect_other. }
    rewrite (parse_elements_print d); [done|..|lia|].
    + eapply Forall_impl; [exact IH|]. auto.
    + done.
    + cbn [String.length] in Hf. lia.
  - intros [|fuel] depth rest Hp Hd Hr Hf; [lia|]. destruct d as [|d]; [done|].
    simpl in Hp. simpl print in Hf |- *. fold print_member in Hf |- *.
    rewrite !string_app_assoc, string_app_cons, string_app_nil_l in Hf |- *.
    unfold parse_value; fold parse_value parse_members. rewrite skip_ws_head by done.
    rewrite bool_decide_true by done. rewrite (proj2 (N.leb_gt _ _)) by lia.
    destruct ms as [|m ms]; [done|].
    assert (expect "}" (Join (print_member <$> m :: ms) "," +:+ "}" +:+ rest) = None) as ->.
    { simpl. destruct ms; simpl; by apply expect_other. }
    rewrite (parse_members_print d); [done|..|lia|].
    + eapply Forall_impl; [exact IH|]. auto.
    + done.
    + cbn [String.length] in Hf. lia.
Qed.

(** Parsing the text of a printable tree gives the tree back. *)
Lemma parse_print v :
  printable (N.to_nat maxNestingDepth) v → parse (print v) = Ok v.
Proof.
  intros Hp. unfold parse, json_fuel.
  pose proof (print_parses v (N.to_nat maxNestingDepth)) as Hv.
  unfold parses in Hv. specialize (Hv (2 * String.length (print v) + 2) 0%N "").
  rewrite string_app_nil_r in Hv. rewrite Hv; [done|done|lia|done|lia].
Qed.
