(* ===== verification/GoSha256.v ===== *)
(** * SHA-256 and hex, as [computeVersion] uses them

    Go's [crypto/sha256] (FIPS 180-4) over bytes, with 32-bit words as [Z] and
    every addition and rotation reduced modulo 2^32, and
    [encoding/hex.EncodeToString].  [h.Sum] of several writes is the hash of
    their concatenation. *)

From S2P Require Import Prelude.

Local Open Scope Z_scope.

(** ** Words *)

Definition w32 (z : Z) : Z := z mod 2^32.
Definition add32 (x y : Z) : Z := w32 (x + y).
Definition rotr (n x : Z) : Z := Z.lor (Z.shiftr x n) (w32 (Z.shiftl x (32 - n))).
Definition Ch (x y z : Z) : Z := Z.lxor (Z.land x y) (Z.land (Z.lxor x (2^32 - 1)) z).
Definition Maj (x y z : Z) : Z :=
  Z.lxor (Z.land x y) (Z.lxor (Z.land x z) (Z.land y z)).
Definition Sigma0 x := Z.lxor (rotr 2 x) (Z.lxor (rotr 13 x) (rotr 22 x)).
Definition Sigma1 x := Z.lxor (rotr 6 x) (Z.lxor (rotr 11 x) (rotr 25 x)).
Definition sigma0 x := Z.lxor (rotr 7 x) (Z.lxor (rotr 18 x) (Z.shiftr x 3)).
Definition sigma1 x := Z.lxor (rotr 17 x) (Z.lxor (rotr 19 x) (Z.shiftr x 10)).

(** The constants by their definition: the first 32 bits of the fractional
    parts of the cube (square) roots of the first 64 (8) primes. *)
Definition prime (n : nat) : bool :=
  forallb (λ d, negb (Nat.eqb (Nat.modulo n d) 0)) (seq 2 (n - 2)).
Definition primes : list Z := Z.of_nat <$> filter (λ n, prime n = true) (seq 2 310).

(** The integer cube root below [2^(Z.of_nat bits)], bit by bit from the top. *)
Fixpoint cube_root (bits : nat) (acc n : Z) : Z :=
  match bits with
  | O => acc
  | S bits =>
      let acc' := acc + 2^(Z.of_nat bits) in
      cube_root bits (if acc' * acc' * acc' <=? n then acc' else acc) n
  end.

Definition K256 : list Z :=
  Eval vm_compute in (λ p, w32 (cube_root 40 0 (p * 2^96))) <$> primes.

(** ** State, blocks *)

Record hash_state := { ha : Z; hb : Z; hc : Z; hd : Z; he : Z; hf : Z; hg : Z; hh : Z }.

Definition words (s : hash_state) : list Z :=
  [ha s; hb s; hc s; hd s; he s; hf s; hg s; hh s].

Definition of_words (l : list Z) : hash_state :=
  match l with
  | [a; b; c; d; e; f; g; h] =>
      {| ha := a; hb := b; hc := c; hd := d; he := e; hf := f; hg := g; hh := h |}
  | _ => {| ha := 0; hb := 0; hc := 0; hd := 0; he := 0; hf := 0; hg := 0; hh := 0 |}
  end.

Definition H256 : hash_state :=
  Eval vm_compute in of_words ((λ p, w32 (Z.sqrt (p * 2^64))) <$> take 8 primes).

Definition round (s : hash_state) (kw : Z * Z) : hash_state :=
  let t1 := w32 (hh s + Sigma1 (he s) + Ch (he s) (hf s) (hg s) + kw.1 + kw.2) in
  let t2 := w32 (Sigma0 (ha s) + Maj (ha s) (hb s) (hc s)) in
  {| ha := add32 t1 t2; hb := ha s; hc := hb s; hd := hc s;
     he := add32 (hd s) t1; hf := he s; hg := hf s; hh := hg s |}.

(** The message schedule, newest word first. *)
Fixpoint schedule (n : nat) (w : list Z) : list Z :=
  match n with
  | O => w
  | S n =>
      let at_ i := nth i w 0 in
      schedule n (w32 (sigma1 (at_ 1%nat) + at_ 6%nat + sigma0 (at_ 14%nat) + at_ 15%nat) :: w)
  end.

Definition compress (s : hash_state) (block : list Z) : hash_state :=
  let w := reverse (schedule 48 (reverse block)) in
  let s' := foldl round s (zip K256 w) in
  of_words (zip_with add32 (words s) (words s')).

(** ** Padding *)

Fixpoint be_bytes (n : nat) (z : Z) : list Z :=
  match n with
  | O => []
  | S n => be_bytes n (Z.shiftr z 8) ++ [z mod 256]
  end.

Definition pad (msg : list Z) : list Z :=
  let len := Z.of_nat (length msg) in
  let zeros := Z.to_nat ((55 - len) mod 64) in
  msg ++ [128] ++ replicate zeros 0 ++ be_bytes 8 (8 * len).

Fixpoint be_words (l : list Z) : list Z :=
  match l with
  | a :: b :: c :: d :: l => (a * 2^24 + b * 2^16 + c * 2^8 + d) :: be_words l
  | _ => []
  end.

Fixpoint blocks (n : nat) (l : list Z) : list (list Z) :=
  match n with
  | O => []
  | S n => take 16 l :: blocks n (drop 16 l)
  end.

Definition sha256_bytes (msg : list Z) : list Z :=
  let w := be_words (pad msg) in
  words (foldl compress H256 (blocks (length w / 16) w)) ≫= be_bytes 4.

(** ** Strings *)

Definition string_bytes (s : string) : list Z :=
  (λ c, Z.of_N (N_of_ascii c)) <$> String.list_ascii_of_string s.

(** [h := sha256.New(); h.Write(s); h.Sum(nil)] *)
Definition sha256 (s : string) : list Z := sha256_bytes (string_bytes s).

Definition hex_char (z : Z) : ascii :=
  ascii_of_N (Z.to_N (if z <? 10 then 48 + z else 87 + z)).

(** [hex.EncodeToString] *)
Definition EncodeToString (l : list Z) : string :=
  foldr (λ b s, String (hex_char (b / 16)) (String (hex_char (b mod 16)) s)) "" l.

(** ** Facts *)

Example sha256_empty : EncodeToString (sha256 "") =
  "e3b0c44298fc1c149afbf4c8996fb92427ae41e4649b934ca495991b7852b855".
Proof. vm_compute. reflexivity. Qed.

Example sha256_abc : EncodeToString (sha256 "abc") =
  "ba7816bf8f01cfea414140de5dae2223b00361a396177a9cb410ff61f20015ad".
Proof. vm_compute. reflexivity. Qed.

(** A message of two blocks. *)
Example sha256_two_blocks : EncodeToString
  (sha256 "abcdbcdecdefdefgefghfghighijhijkijkljklmklmnlmnomnopnopq") =
  "248d6a61d20638b8e5c026930c3e6039a33ce45964ff2167f6ecedd419db06c1".
Proof. vm_compute. reflexivity. Qed.

Lemma be_bytes_length n z : length (be_bytes n z) = n.
Proof.
  revert z. induction n as [|n IH]; intros z; [done|]. simpl.
  rewrite length_app, IH. simpl. lia.
Qed.

Lemma be_bytes_range n z : Forall (λ b, 0 <= b < 256) (be_bytes n z).
Proof.
  revert z. induction n as [|n IH]; intros z; simpl; [constructor|].
  apply Forall_app_2; [apply IH|]. apply Forall_singleton.
  apply Z.mod_pos_bound. lia.
Qed.

Lemma sha256_length s : length (sha256 s) = 32%nat.
Proof.
  unfold sha256, sha256_bytes. generalize (foldl compress H256
    (blocks (length (be_words (pad (string_bytes s))) / 16) (be_words (pad (string_bytes s))))).
  intros st. unfold words. simpl. repeat rewrite length_app. simpl. lia.
Qed.

Lemma sha256_range s : Forall (λ b, 0 <= b < 256) (sha256 s).
Proof.
  unfold sha256, sha256_bytes. apply Forall_forall. intros b.
  rewrite list_elem_of_bind. intros (w & Hb & _).
  by eapply Forall_forall in Hb; [|apply be_bytes_range].
Qed.

Lemma EncodeToString_length l :
  String.length (EncodeToString l) = (2 * length l)%nat.
Proof. induction l as [|b l IH]; simpl; [done|]. rewrite IH. lia. Qed.

(** Lower-case hexadecimal digits. *)
Definition is_hex_digit (c : ascii) : bool :=
  bool_decide (c ∈ String.list_ascii_of_string "0123456789abcdef").

Lemma hex_char_digit z : 0 <= z < 16 → is_hex_digit (hex_char z) = true.
Proof.
  intros Hz. assert (z ∈ seqZ 0 16) as Hin by (apply elem_of_seqZ; lia).
  clear Hz. revert z Hin. apply Forall_forall. repeat constructor.
Qed.

Lemma EncodeToString_hex l :
  Forall (λ b, 0 <= b < 256) l →
  Forall (λ c, is_hex_digit c = true) (String.list_ascii_of_string (EncodeToString l)).
Proof.
  induction 1 as [|b l Hb _ IH]; simpl; [constructor|].
  constructor; [apply hex_char_digit; split; [apply Z.div_pos; lia|apply Z.div_lt_upper_bound; lia]|].
  constructor; [apply hex_char_digit, Z.mod_pos_bound; lia|done].
Qed.
