(* ===== verification/Types.v ===== *)
(** * The API types of the control plane

    The custom resources of control-plane/api/v1alpha1 and, of the Kubernetes
    and Envoy types the sources import, the fields the sources read or write.
    A Go pointer to an optional value is an [option]; a slice is a [list];
    labels are a finite map.  Field names keep the source's spelling behind a
    short prefix, since Rocq record fields share one name space. *)

From S2P Require Import Prelude.

(** ** Kubernetes meta types (fields in use) *)

Record ObjectMeta := {
  om_Name : string;
  om_Namespace : string;
  om_ResourceVersion : string;
  om_Generation : Z;
  om_Labels : gmap string string
}.

#[global] Instance ObjectMeta_eq_dec : EqDecision ObjectMeta.
Proof. solve_decision. Defined.

Record NamespacedName := { nn_Namespace : string; nn_Name : string }.

#[global] Instance NamespacedName_eq_dec : EqDecision NamespacedName.
Proof. solve_decision. Defined.
#[global] Instance NamespacedName_countable : Countable NamespacedName.
Proof.
  refine (inj_countable' (λ n, (nn_Namespace n, nn_Name n))
            (λ p, {| nn_Namespace := p.1; nn_Name := p.2 |}) _).
  by intros [].
Defined.

(** [metav1.ConditionStatus]; the sources set the first two. *)
Inductive ConditionStatus := ConditionTrue | ConditionFalse | ConditionUnknown.
#[global] Instance ConditionStatus_eq_dec : EqDecision ConditionStatus.
Proof. solve_decision. Defined.

Record Condition := {
  c_Type : string;
  c_Status : ConditionStatus;
  c_Reason : string;
  c_Message : string;
  c_ObservedGeneration : Z
}.
#[global] Instance Condition_eq_dec : EqDecision Condition.
Proof. solve_decision. Defined.

(** ** api/v1alpha1/types.go *)

Record TargetRef := { tr_Name : string; tr_Namespace : string }.

(** ** api/v1alpha1/envoyproxy_types.go *)

Definition ConditionConnected : string := "Connected".
Definition ConditionReady : string := "Ready".

Record EnvoyProxyStatus := {
  st_ObservedGeneration : Z;
  st_Conditions : list Condition
}.

#[global] Instance EnvoyProxyStatus_eq_dec : EqDecision EnvoyProxyStatus.
Proof. solve_decision. Defined.

Record EnvoyProxy := {
  ep_meta : ObjectMeta;
  ep_Status : EnvoyProxyStatus
}.
#[global] Instance EnvoyProxy_eq_dec : EqDecision EnvoyProxy.
Proof. solve_decision. Defined.

(** ** The xDS resource CRs

    [Spec.Raw] is the Envoy message in JSON, as bytes. *)

Record Listener := {
  li_meta : ObjectMeta; li_TargetRef : TargetRef; li_Spec_Raw : string }.
Record RouteConfiguration := {
  rc_meta : ObjectMeta; rc_TargetRef : TargetRef; rc_Spec_Raw : string }.
Record ScopedRouteConfiguration := {
  sr_meta : ObjectMeta; sr_TargetRef : TargetRef; sr_Spec_Raw : string }.
Record ClusterLoadAssignmentCR := {
  la_meta : ObjectMeta; la_TargetRef : TargetRef; la_Spec_Raw : string }.

(** api/v1alpha1/cluster_types.go: [Port] is an [*int32]. *)
Record KubernetesServiceRef := {
  ks_Name : string;
  ks_Namespace : string;
  ks_Port : option Z
}.

Record Cluster := {
  cl_meta : ObjectMeta;
  cl_TargetRef : TargetRef;
  cl_KubernetesServiceRef : option KubernetesServiceRef;
  cl_Spec_Raw : string
}.

(** *** [GetTargetRef] and the metadata accessors, as the interface the watch
    handlers use: every xDS resource kind has one instance. *)
Class XDSObject (T : Type) := {
  GetObjectMeta : T → ObjectMeta;
  GetTargetRef : T → TargetRef;
  GetSpecRaw : T → string
}.

#[global] Instance Listener_object : XDSObject Listener := {|
  GetObjectMeta := li_meta; GetTargetRef := li_TargetRef; GetSpecRaw := li_Spec_Raw |}.
#[global] Instance Cluster_object : XDSObject Cluster := {|
  GetObjectMeta := cl_meta; GetTargetRef := cl_TargetRef; GetSpecRaw := cl_Spec_Raw |}.
#[global] Instance RouteConfiguration_object : XDSObject RouteConfiguration := {|
  GetObjectMeta := rc_meta; GetTargetRef := rc_TargetRef; GetSpecRaw := rc_Spec_Raw |}.
#[global] Instance ScopedRouteConfiguration_object : XDSObject ScopedRouteConfiguration := {|
  GetObjectMeta := sr_meta; GetTargetRef := sr_TargetRef; GetSpecRaw := sr_Spec_Raw |}.
#[global] Instance ClusterLoadAssignment_object : XDSObject ClusterLoadAssignmentCR := {|
  GetObjectMeta := la_meta; GetTargetRef := la_TargetRef; GetSpecRaw := la_Spec_Raw |}.

(** ** discovery.k8s.io/v1 (fields in use) *)

(** [Conditions.Ready] is a [*bool]. *)
Record SliceEndpoint := { se_Addresses : list string; se_Ready : option bool }.

(** [Ports[i].Port] is an [*int32]. *)
Record EndpointSlice := {
  es_meta : ObjectMeta;
  es_Endpoints : list SliceEndpoint;
  es_Ports : list (option Z)
}.

(** ** Machine integers *)

Definition int32 (z : Z) : Prop := (-2^31 ≤ z < 2^31)%Z.

(** Go's [uint32(x)] conversion. *)
Definition uint32 (z : Z) : Z := (z mod 2^32)%Z.

Lemma uint32_small z : (0 ≤ z < 2^32)%Z → uint32 z = z.
Proof. apply Z.mod_small. Qed.

Lemma uint32_range z : (0 ≤ uint32 z < 2^32)%Z.
Proof. apply Z.mod_pos_bound. lia. Qed.

(** An [int32] that is not zero stays so when converted. *)
Lemma uint32_nonzero z : int32 z → z ≠ 0%Z → uint32 z ≠ 0%Z.
Proof.
  unfold int32, uint32. intros Hz Hne Hm.
  apply Z.mod_divide in Hm as [k Hk]; nia.
Qed.
