(* ===== verification/DeepCopy.v ===== *)
(** * api/v1alpha1/zz_generated.deepcopy.go

    Deep copies on a heap.  A Go pointer or slice is a location (or nil), a
    heap maps locations to objects; a struct is a record whose pointer fields
    hold locations.  The [DeepCopyInto] methods of the library types (object
    and list metadata, raw extensions, conditions) are instances of the class
    [Deep] that the section takes as arguments, with the laws [DeepLaws];
    the types of the API get their instances from the generated code.
    [None] is a read through a dangling pointer, which Go excludes. *)

From S2P Require Import Prelude Types.

(** ** Heaps and deep copies *)

Abbreviation loc := positive.

(** Objects of type [T] in a heap of [cell]s. *)
Class Cell (cell T : Type) := {
  to_cell : T → cell;
  of_cell : cell → option T;
  of_to_cell : ∀ x, of_cell (to_cell x) = Some x
}.

(** What it takes to copy a [T]: the method, the value a [T] stands for, and
    the locations it reaches. *)
Class Deep (cell T V : Type) := {
  DeepCopyInto : gmap loc cell → T → option (gmap loc cell * T);
  view : gmap loc cell → T → option V;
  refs : gmap loc cell → T → gset loc
}.

Section heaps.
Context {cell : Type}.
Abbreviation heap := (gmap loc cell).

(** [new(T)], with its contents. *)
Definition alloc {T} `{!Cell cell T} (h : heap) (x : T) : heap * loc :=
  let l := fresh (dom h) in (<[l := to_cell x]> h, l).

(** [*p] *)
Definition read {T} `{!Cell cell T} (h : heap) (l : loc) : option T := h !! l ≫= of_cell.

(** [if in.P != nil { out.P = new(T); in.P.DeepCopyInto(out.P) }] *)
Definition copy_ptr {T V} `{!Cell cell T, !Deep cell T V} (h : heap) (p : option loc)
    : option (heap * option loc) :=
  match p with
  | None => Some (h, None)
  | Some l =>
      x ← read (T := T) h l;
      '(h, y) ← DeepCopyInto h x;
      let '(h, l') := alloc h y in
      Some (h, Some l')
  end.

(** The loop that copies the elements of a slice, one [DeepCopyInto] each. *)
Fixpoint copy_elems {T V} `{!Deep cell T V} (h : heap) (xs : list T)
    : option (heap * list T) :=
  match xs with
  | [] => Some (h, [])
  | x :: xs =>
      '(h, y) ← DeepCopyInto h x;
      '(h, ys) ← copy_elems h xs;
      Some (h, y :: ys)
  end.

(** A slice that is not nil gets a new array with copies of its elements. *)
Definition copy_slice {T V} `{!Cell cell (list T), !Deep cell T V} (h : heap) (p : option loc)
    : option (heap * option loc) :=
  match p with
  | None => Some (h, None)
  | Some l =>
      xs ← read (T := list T) h l;
      '(h, ys) ← copy_elems h xs;
      let '(h, l') := alloc h ys in
      Some (h, Some l')
  end.

(** [in.DeepCopy()] on a pointer: nil for nil, else a new object. *)
Definition DeepCopy {T V} `{!Cell cell T, !Deep cell T V} (h : heap) (p : option loc)
    : option (heap * option loc) := copy_ptr (T := T) h p.

(** ** The laws *)

Class DeepLaws (T V : Type) `{!Deep cell T V} := {
  (** The copy has the value of the original, all its locations are new, and
      nothing that was there has changed. *)
  deep_copy : ∀ (h : heap) (x : T) v, view h x = Some v →
    ∃ h' y, DeepCopyInto h x = Some (h', y) ∧ h ⊆ h' ∧ view h' y = Some v ∧
      refs h' y ## dom h;
  (** Value and reach depend on the reached locations only. *)
  view_frame : ∀ (h h' : heap) (x : T) v, view h x = Some v →
    (∀ l, l ∈ refs h x → h' !! l = h !! l) → view h' x = Some v ∧ refs h' x = refs h x;
  refs_dom : ∀ (h : heap) (x : T) v, view h x = Some v → refs h x ⊆ dom h
}.

Lemma view_mono {T V} `{!Deep cell T V, !DeepLaws T V} (h h' : heap) (x : T) (v : V) :
  h ⊆ h' → view h x = Some v → view h' x = Some v ∧ refs h' x = refs h x.
Proof.
  intros Hsub Hv. eapply view_frame; [done|]. intros l Hl.
  apply (refs_dom h x v Hv) in Hl. apply elem_of_dom in Hl as [c Hc]. rewrite Hc.
  by eapply lookup_weaken.
Qed.

Lemma alloc_sub {T} `{!Cell cell T} (h : heap) (x : T) : h ⊆ (alloc h x).1.
Proof. apply insert_subseteq, not_elem_of_dom, is_fresh. Qed.

Lemma alloc_fresh {T} `{!Cell cell T} (h : heap) (x : T) : (alloc h x).2 ∉ dom h.
Proof. apply is_fresh. Qed.

Lemma read_alloc {T} `{!Cell cell T} (h : heap) (x : T) :
  read (alloc h x).1 (alloc h x).2 = Some x.
Proof. unfold read, alloc. simpl. rewrite lookup_insert_eq. apply of_to_cell. Qed.

Lemma read_agree {T} `{!Cell cell T} (h h' : heap) l (x : T) :
  h' !! l = h !! l → read h l = Some x → read h' l = Some x.
Proof. unfold read. by intros ->. Qed.

Lemma read_dom {T} `{!Cell cell T} (h : heap) l (x : T) : read h l = Some x → l ∈ dom h.
Proof. unfold read. intros (c & Hc & _)%bind_Some. by eapply elem_of_dom_2. Qed.

Lemma copy_ptr_Some {T V} `{!Cell cell T, !Deep cell T V} (h h' : heap) l (x y : T) :
  read h l = Some x → DeepCopyInto h x = Some (h', y) →
  copy_ptr (T := T) h (Some l) = Some ((alloc h' y).1, Some (alloc h' y).2).
Proof. unfold copy_ptr. intros -> Hc. simpl. by rewrite Hc. Qed.

(** *** Types without pointers *)

Definition flat_deep (T : Type) : Deep cell T T := {|
  DeepCopyInto h x := Some (h, x); view h x := Some x; refs h x := ∅ |}.

Lemma flat_laws T : @DeepLaws T T (flat_deep T).
Proof. split; simpl; [|done|set_solver]. intros h x v [= ->]. eexists h, v. set_solver. Qed.

(** *** Pairs *)

Section pairs.
Context {A VA B VB : Type} `{!Deep cell A VA, !DeepLaws A VA, !Deep cell B VB, !DeepLaws B VB}.

Definition pair_deep : Deep cell (A * B) (VA * VB) := {|
  DeepCopyInto h x :=
    '(h, a) ← DeepCopyInto h x.1; '(h, b) ← DeepCopyInto h x.2; Some (h, (a, b));
  view h x := v ← view h x.1; w ← view h x.2; Some (v, w);
  refs h x := refs h x.1 ∪ refs h x.2
|}.

Lemma pair_laws : @DeepLaws (A * B) (VA * VB) pair_deep.
Proof.
  split; simpl.
  - intros h [a b] [v w] (v' & Ha & (w' & Hb & [= <- <-])%bind_Some)%bind_Some. simpl in *.
    destruct (deep_copy h a v' Ha) as (h1 & a' & -> & Hs1 & Ha' & Hr1).
    destruct (view_mono h h1 b w' Hs1 Hb) as [Hb1 _].
    destruct (deep_copy h1 b w' Hb1) as (h2 & b' & Hc & Hs2 & Hb' & Hr2). simpl. rewrite Hc.
    destruct (view_mono h1 h2 a' v' Hs2 Ha') as [Ha2 Hra].
    eexists h2, (a', b'). simpl. rewrite Ha2. simpl. rewrite Hb', Hra.
    split; [done|]. split; [by etrans|]. split; [done|].
    apply subseteq_dom in Hs1. set_solver.
  - intros h h' [a b] [v w] (v' & Ha & (w' & Hb & [= <- <-])%bind_Some)%bind_Some Hl.
    simpl in *. destruct (view_frame h h' a v' Ha) as [-> ->]; [set_solver|].
    destruct (view_frame h h' b w' Hb) as [Hb' ->]; [set_solver|]. simpl. by rewrite Hb'.
  - intros h [a b] [v w] (v' & Ha & (w' & Hb & _)%bind_Some)%bind_Some. simpl in *.
    apply refs_dom in Ha. apply refs_dom in Hb. set_solver.
Qed.
End pairs.

(** *** Pointers *)

Section pointers.
Context {T V : Type} `{!Cell cell T, !Deep cell T V, !DeepLaws T V}.

Definition ptr_deep : Deep cell (option loc) (option V) := {|
  DeepCopyInto h p := copy_ptr (T := T) h p;
  view h p := match p with
              | None => Some None
              | Some l => x ← read (T := T) h l; v ← view h x; Some (Some v)
              end;
  refs h p := match p with
              | None => ∅
              | Some l => {[l]} ∪ from_option (refs h) ∅ (read (T := T) h l)
              end
|}.

Lemma ptr_laws : @DeepLaws (option loc) (option V) ptr_deep.
Proof.
  split; simpl.
  - intros h [l|] v; [|intros [= <-]; exists h, None; set_solver].
    intros (x & Hx & (v' & Hv & [= <-])%bind_Some)%bind_Some.
    destruct (deep_copy h x v' Hv) as (h1 & y & Hc & Hs1 & Hy & Hr).
    rewrite (copy_ptr_Some h h1 l x y) by done.
    pose proof (alloc_sub h1 y) as Hs2. pose proof (alloc_fresh h1 y) as Hl.
    pose proof (read_alloc h1 y) as Hrd. destruct (alloc h1 y) as [h2 l']. simpl in *.
    destruct (view_mono h1 h2 y v' Hs2 Hy) as [Hy2 Hr2].
    eexists h2, (Some l'). rewrite Hrd. simpl. rewrite Hy2, Hr2.
    split; [done|]. split; [by etrans|]. split; [done|]. apply subseteq_dom in Hs1. set_solver.
  - intros h h' [l|] v; [|done].
    intros (x & Hx & (v' & Hv & [= <-])%bind_Some)%bind_Some Hl. rewrite Hx in Hl. simpl in Hl.
    rewrite (read_agree h h' l x) by (done || apply Hl; set_solver). simpl.
    destruct (view_frame h h' x v' Hv) as [-> Heq]; [intros; apply Hl; set_solver|].
    rewrite Hx. simpl. by rewrite Heq.
  - intros h [l|] v; [|set_solver].
    intros (x & Hx & (v' & Hv & _)%bind_Some)%bind_Some. rewrite Hx. simpl.
    apply read_dom in Hx. apply refs_dom in Hv. set_solver.
Qed.
End pointers.

(** *** Lists of structs, the contents of slices *)

Section lists.
Context {T V : Type} `{!Deep cell T V, !DeepLaws T V}.

Definition list_deep : Deep cell (list T) (list V) := {|
  DeepCopyInto h xs := copy_elems h xs;
  view h xs := mapM (view h) xs;
  refs h xs := ⋃ (refs h <$> xs)
|}.

Lemma elems_frame (h h' : heap) (xs : list T) vs :
  mapM (view h) xs = Some vs → (∀ l, l ∈ ⋃ (refs h <$> xs) → h' !! l = h !! l) →
  mapM (view h') xs = Some vs ∧ ⋃ (refs h' <$> xs) = ⋃ (refs h <$> xs).
Proof.
  revert vs. induction xs as [|x xs IH]; intros vs; simpl; [done|].
  intros (v & Hx & (ws & Hxs & [= <-])%bind_Some)%bind_Some Hl.
  destruct (view_frame h h' x v Hx) as [-> ->]; [set_solver|].
  destruct (IH ws Hxs) as [-> Heq]; [set_solver|]. split; [done|]. set_solver.
Qed.

Lemma elems_dom (h : heap) (xs : list T) vs :
  mapM (view h) xs = Some vs → ⋃ (refs h <$> xs) ⊆ dom h.
Proof.
  revert vs. induction xs as [|x xs IH]; intros vs; simpl; [set_solver|].
  intros (v & Hx & (ws & Hxs & _)%bind_Some)%bind_Some. apply refs_dom in Hx.
  apply IH in Hxs. set_solver.
Qed.

Lemma elems_mono (h h' : heap) (xs : list T) vs :
  h ⊆ h' → mapM (view h) xs = Some vs →
  mapM (view h') xs = Some vs ∧ ⋃ (refs h' <$> xs) = ⋃ (refs h <$> xs).
Proof.
  intros Hsub Hv. apply (elems_frame h h' xs vs Hv). intros l Hl.
  apply (elems_dom h xs vs Hv), elem_of_dom in Hl as [c Hc]. rewrite Hc.
  by eapply lookup_weaken.
Qed.

Lemma elems_copy (h : heap) (xs : list T) vs :
  mapM (view h) xs = Some vs →
  ∃ h' ys, copy_elems h xs = Some (h', ys) ∧ h ⊆ h' ∧ mapM (view h') ys = Some vs ∧
    ⋃ (refs h' <$> ys) ## dom h.
Proof.
  revert h vs. induction xs as [|x xs IH]; intros h vs; simpl.
  { intros [= <-]. exists h, []. set_solver. }
  intros (v & Hx & (ws & Hxs & [= <-])%bind_Some)%bind_Some.
  destruct (deep_copy h x v Hx) as (h1 & y & -> & Hs1 & Hy & Hr1). simpl.
  destruct (elems_mono h h1 xs ws Hs1 Hxs) as [Hxs1 _].
  destruct (IH h1 ws Hxs1) as (h2 & ys & -> & Hs2 & Hys & Hr2). simpl.
  destruct (view_mono h1 h2 y v Hs2 Hy) as [Hy2 Hry].
  exists h2, (y :: ys). simpl. rewrite Hy2. simpl. rewrite Hys. simpl. rewrite Hry.
  split; [done|]. split; [by etrans|]. split; [done|]. apply subseteq_dom in Hs1. set_solver.
Qed.

Lemma list_laws : @DeepLaws (list T) (list V) list_deep.
Proof.
  split; simpl; [apply elems_copy|intros; by eapply elems_frame|intros; by eapply elems_dom].
Qed.

Definition slice_deep `{!Cell cell (list T)} : Deep cell (option loc) (option (list V)) :=
  @ptr_deep (list T) (list V) _ list_deep.

Lemma slice_laws `{!Cell cell (list T)} : @DeepLaws _ _ slice_deep.
Proof. apply @ptr_laws, list_laws. Qed.

Lemma copy_slice_ptr `{!Cell cell (list T)} (h : heap) p :
  copy_slice (T := T) h p = @DeepCopyInto cell _ _ slice_deep h p.
Proof. done. Qed.
End lists.

(** *** Structs, as the tuple of their fields *)

Lemma iso_laws {T V A W : Type} (dt : Deep cell T V) (da : Deep cell A W)
    (f : T → A) (g : A → T) (k : W → V) :
  @DeepLaws A W da →
  (∀ a, f (g a) = a) →
  (∀ h x, @DeepCopyInto _ _ _ dt h x = prod_map id g <$> @DeepCopyInto _ _ _ da h (f x)) →
  (∀ h x, @view _ _ _ dt h x = k <$> @view _ _ _ da h (f x)) →
  (∀ h x, @refs _ _ _ dt h x = @refs _ _ _ da h (f x)) →
  @DeepLaws T V dt.
Proof.
  intros Ha Hfg Hc Hv Hr. split.
  - intros h x v. rewrite Hv. intros (w & Hw & ->)%fmap_Some.
    destruct (@deep_copy _ _ _ Ha h (f x) w Hw) as (h' & y & Hy & Hs & Hvy & Hd).
    exists h', (g y). rewrite Hc, Hy, Hv, Hr, Hfg, Hvy. done.
  - intros h h' x v. rewrite !Hv, !Hr. intros (w & Hw & ->)%fmap_Some Hl.
    by destruct (@view_frame _ _ _ Ha h h' (f x) w Hw Hl) as [-> ->].
  - intros h x v. rewrite Hv, Hr. intros (w & Hw & ->)%fmap_Some. by eapply (@refs_dom _ _ _ Ha).
Qed.

End heaps.

(** ** The structs of the API in memory *)

Record TypeMeta := { tm_Kind : string; tm_APIVersion : string }.

(** The four resource kinds whose structs hold a target and a spec. *)
Inductive ResourceKind :=
| RListener | RRouteConfiguration | RScopedRouteConfiguration | RClusterLoadAssignment.
#[global] Instance ResourceKind_eq_dec : EqDecision ResourceKind.
Proof. solve_decision. Defined.

Section api.
(** In-memory object metadata, list metadata, raw extension, condition, and
    the objects these point to. *)
Context {M L R C X : Type}.

Record gServiceRef := { gk_Name : string; gk_Namespace : string; gk_Port : option loc }.

Record gCluster := {
  gc_TypeMeta : TypeMeta;
  gc_ObjectMeta : M;
  gc_TargetRef : TargetRef;
  gc_KubernetesServiceRef : option loc;
  gc_Spec : R
}.

Record gResource (k : ResourceKind) := {
  gr_TypeMeta : TypeMeta;
  gr_ObjectMeta : M;
  gr_TargetRef : TargetRef;
  gr_Spec : R
}.

Record gStatus := { gs_ObservedGeneration : Z; gs_Conditions : option loc }.

(** [EnvoyProxySpec] is the empty struct. *)
Record gProxy := {
  gp_TypeMeta : TypeMeta;
  gp_ObjectMeta : M;
  gp_Spec : unit;
  gp_Status : gStatus
}.

(** [Items] is a slice of [T]. *)
Record gList (T : Type) := {
  gl_TypeMeta : TypeMeta;
  gl_ListMeta : L;
  gl_Items : option loc
}.

Definition ClusterList : Type := gList gCluster.
Definition EnvoyProxyList : Type := gList gProxy.
Definition ListenerList : Type := gList (gResource RListener).
Definition RouteConfigurationList : Type := gList (gResource RRouteConfiguration).
Definition ScopedRouteConfigurationList : Type := gList (gResource RScopedRouteConfiguration).
Definition ClusterLoadAssignmentList : Type := gList (gResource RClusterLoadAssignment).

Inductive cell :=
| cInt32 (z : Z)
| cTargetRef (t : TargetRef)
| cServiceRef (s : gServiceRef)
| cProxySpec (u : unit)
| cStatus (s : gStatus)
| cConditions (l : list C)
| cCluster (c : gCluster)
| cClusters (l : list gCluster)
| cClusterList (l : gList gCluster)
| cProxy (p : gProxy)
| cProxies (l : list gProxy)
| cProxyList (l : gList gProxy)
| cResource (k : ResourceKind) (r : gResource k)
| cResources (k : ResourceKind) (l : list (gResource k))
| cResourceList (k : ResourceKind) (l : gList (gResource k))
| cLib (x : X).

Definition cast (F : ResourceKind → Type) (k k' : ResourceKind) (x : F k) : option (F k') :=
  match decide (k = k') with left H => Some (eq_rect k F x k' H) | right _ => None end.

Lemma cast_refl F k x : cast F k k x = Some x.
Proof.
  unfold cast. destruct (decide (k = k)) as [H|]; [|done].
  by rewrite (proof_irrel H eq_refl).
Qed.

#[global, refine] Instance int32_cell : Cell cell Z := {|
  to_cell := cInt32; of_cell c := match c with cInt32 z => Some z | _ => None end |}.
Proof. done. Defined.
#[global, refine] Instance TargetRef_cell : Cell cell TargetRef := {|
  to_cell := cTargetRef; of_cell c := match c with cTargetRef z => Some z | _ => None end |}.
Proof. done. Defined.
#[global, refine] Instance ServiceRef_cell : Cell cell gServiceRef := {|
  to_cell := cServiceRef; of_cell c := match c with cServiceRef z => Some z | _ => None end |}.
Proof. done. Defined.
#[global, refine] Instance ProxySpec_cell : Cell cell unit := {|
  to_cell := cProxySpec; of_cell c := match c with cProxySpec z => Some z | _ => None end |}.
Proof. done. Defined.
#[global, refine] Instance Status_cell : Cell cell gStatus := {|
  to_cell := cStatus; of_cell c := match c with cStatus z => Some z | _ => None end |}.
Proof. done. Defined.
#[global, refine] Instance Conditions_cell : Cell cell (list C) := {|
  to_cell := cConditions; of_cell c := match c with cConditions z => Some z | _ => None end |}.
Proof. done. Defined.
#[global, refine] Instance Cluster_cell : Cell cell gCluster := {|
  to_cell := cCluster; of_cell c := match c with cCluster z => Some z | _ => None end |}.
Proof. done. Defined.
#[global, refine] Instance Clusters_cell : Cell cell (list gCluster) := {|
  to_cell := cClusters; of_cell c := match c with cClusters z => Some z | _ => None end |}.
Proof. done. Defined.
#[global, refine] Instance ClusterList_cell : Cell cell (gList gCluster) := {|
  to_cell := cClusterList; of_cell c := match c with cClusterList z => Some z | _ => None end |}.
Proof. done. Defined.
#[global, refine] Instance Proxy_cell : Cell cell gProxy := {|
  to_cell := cProxy; of_cell c := match c with cProxy z => Some z | _ => None end |}.
Proof. done. Defined.
#[global, refine] Instance Proxies_cell : Cell cell (list gProxy) := {|
  to_cell := cProxies; of_cell c := match c with cProxies z => Some z | _ => None end |}.
Proof. done. Defined.
#[global, refine] Instance ProxyList_cell : Cell cell (gList gProxy) := {|
  to_cell := cProxyList; of_cell c := match c with cProxyList z => Some z | _ => None end |}.
Proof. done. Defined.
#[global, refine] Instance Resource_cell k : Cell cell (gResource k) := {|
  to_cell := cResource k;
  of_cell c := match c with cResource k' z => cast gResource k' k z | _ => None end |}.
Proof. apply cast_refl. Defined.
#[global, refine] Instance Resources_cell k : Cell cell (list (gResource k)) := {|
  to_cell := cResources k;
  of_cell c := match c with
               | cResources k' z => cast (λ k, list (gResource k)) k' k z | _ => None end |}.
Proof. apply (cast_refl (λ k, list (gResource k))). Defined.
#[global, refine] Instance ResourceList_cell k : Cell cell (gList (gResource k)) := {|
  to_cell := cResourceList k;
  of_cell c := match c with
               | cResourceList k' z => cast (λ k, gList (gResource k)) k' k z | _ => None end |}.
Proof. apply (cast_refl (λ k, gList (gResource k))). Defined.

(** ** The generated methods *)

Context {MV LV RV CV : Type}.
Context `{!Deep cell M MV, !Deep cell L LV, !Deep cell R RV, !Deep cell C CV}.
Abbreviation heap := (gmap loc cell).

Definition TargetRef_DeepCopyInto (h : heap) (in_ : TargetRef) : option (heap * TargetRef) :=
  Some (h, in_).
#[local] Instance TargetRef_deep : Deep cell TargetRef TargetRef := {|
  DeepCopyInto := TargetRef_DeepCopyInto; view h x := Some x; refs h x := ∅ |}.

Definition EnvoyProxySpec_DeepCopyInto (h : heap) (in_ : unit) : option (heap * unit) :=
  Some (h, in_).
#[local] Instance EnvoyProxySpec_deep : Deep cell unit unit := {|
  DeepCopyInto := EnvoyProxySpec_DeepCopyInto; view h x := Some x; refs h x := ∅ |}.

(** [*int32] *)
Definition port_deep : Deep cell (option loc) (option Z) :=
  @ptr_deep cell Z Z _ (flat_deep Z).

Definition KubernetesServiceRef_DeepCopyInto (h : heap) (in_ : gServiceRef)
    : option (heap * gServiceRef) :=
  '(h, port) ←
    match gk_Port in_ with
    | Some l => z ← read (T := Z) h l; let '(h, l') := alloc h z in Some (h, Some l')
    | None => Some (h, None)
    end;
  Some (h, {| gk_Name := gk_Name in_; gk_Namespace := gk_Namespace in_; gk_Port := port |}).
#[local] Instance ServiceRef_deep : Deep cell gServiceRef KubernetesServiceRef := {|
  DeepCopyInto := KubernetesServiceRef_DeepCopyInto;
  view h x := p ← @view _ _ _ port_deep h (gk_Port x);
    Some {| ks_Name := gk_Name x; ks_Namespace := gk_Namespace x; ks_Port := p |};
  refs h x := @refs _ _ _ port_deep h (gk_Port x) |}.

(** [*KubernetesServiceRef] *)
Definition serviceRef_deep : Deep cell (option loc) (option KubernetesServiceRef) :=
  @ptr_deep cell gServiceRef KubernetesServiceRef _ _.

Definition Cluster_DeepCopyInto (h : heap) (in_ : gCluster) : option (heap * gCluster) :=
  '(h, meta) ← DeepCopyInto h (gc_ObjectMeta in_);
  '(h, ref) ← copy_ptr (T := gServiceRef) h (gc_KubernetesServiceRef in_);
  '(h, spec) ← DeepCopyInto h (gc_Spec in_);
  Some (h, {| gc_TypeMeta := gc_TypeMeta in_; gc_ObjectMeta := meta;
              gc_TargetRef := gc_TargetRef in_; gc_KubernetesServiceRef := ref;
              gc_Spec := spec |}).

(** The values of a Cluster: type, metadata, target, service reference, spec. *)
Definition vCluster : Type := TypeMeta * TargetRef * (MV * (option KubernetesServiceRef * RV)).
#[local] Instance Cluster_deep : Deep cell gCluster vCluster := {|
  DeepCopyInto := Cluster_DeepCopyInto;
  view h x := m ← view h (gc_ObjectMeta x);
    r ← @view _ _ _ serviceRef_deep h (gc_KubernetesServiceRef x);
    s ← view h (gc_Spec x);
    Some ((gc_TypeMeta x, gc_TargetRef x), (m, (r, s)));
  refs h x := refs h (gc_ObjectMeta x) ∪
    (@refs _ _ _ serviceRef_deep h (gc_KubernetesServiceRef x) ∪ refs h (gc_Spec x)) |}.

(** Listener, RouteConfiguration, ScopedRouteConfiguration and
    ClusterLoadAssignment: the same statements for the four structs. *)
Definition Resource_DeepCopyInto {k} (h : heap) (in_ : gResource k)
    : option (heap * gResource k) :=
  '(h, meta) ← DeepCopyInto h (gr_ObjectMeta k in_);
  '(h, spec) ← DeepCopyInto h (gr_Spec k in_);
  Some (h, {| gr_TypeMeta := gr_TypeMeta k in_; gr_ObjectMeta := meta;
              gr_TargetRef := gr_TargetRef k in_; gr_Spec := spec |}).
Definition vResource : Type := TypeMeta * TargetRef * (MV * RV).
#[local] Instance Resource_deep k : Deep cell (gResource k) vResource := {|
  DeepCopyInto := Resource_DeepCopyInto;
  view h x := m ← view h (gr_ObjectMeta k x); s ← view h (gr_Spec k x);
    Some ((gr_TypeMeta k x, gr_TargetRef k x), (m, s));
  refs h x := refs h (gr_ObjectMeta k x) ∪ refs h (gr_Spec k x) |}.

Definition Listener_DeepCopyInto := @Resource_DeepCopyInto RListener.
Definition RouteConfiguration_DeepCopyInto := @Resource_DeepCopyInto RRouteConfiguration.
Definition ScopedRouteConfiguration_DeepCopyInto :=
  @Resource_DeepCopyInto RScopedRouteConfiguration.
Definition ClusterLoadAssignment_DeepCopyInto := @Resource_DeepCopyInto RClusterLoadAssignment.

Definition EnvoyProxyStatus_DeepCopyInto (h : heap) (in_ : gStatus) : option (heap * gStatus) :=
  '(h, conditions) ← copy_slice (T := C) h (gs_Conditions in_);
  Some (h, {| gs_ObservedGeneration := gs_ObservedGeneration in_; gs_Conditions := conditions |}).
Definition conditions_deep : Deep cell (option loc) (option (list CV)) :=
  @slice_deep cell C CV _ _.
Definition vStatus : Type := Z * option (list CV).
#[local] Instance Status_deep : Deep cell gStatus vStatus := {|
  DeepCopyInto := EnvoyProxyStatus_DeepCopyInto;
  view h x := c ← @view _ _ _ conditions_deep h (gs_Conditions x);
    Some (gs_ObservedGeneration x, c);
  refs h x := @refs _ _ _ conditions_deep h (gs_Conditions x) |}.

Definition EnvoyProxy_DeepCopyInto (h : heap) (in_ : gProxy) : option (heap * gProxy) :=
  '(h, meta) ← DeepCopyInto h (gp_ObjectMeta in_);
  '(h, status) ← EnvoyProxyStatus_DeepCopyInto h (gp_Status in_);
  Some (h, {| gp_TypeMeta := gp_TypeMeta in_; gp_ObjectMeta := meta;
              gp_Spec := gp_Spec in_; gp_Status := status |}).
Definition vProxy : Type := TypeMeta * unit * (MV * vStatus).
#[local] Instance Proxy_deep : Deep cell gProxy vProxy := {|
  DeepCopyInto := EnvoyProxy_DeepCopyInto;
  view h x := m ← view h (gp_ObjectMeta x); s ← view h (gp_Status x);
    Some ((gp_TypeMeta x, gp_Spec x), (m, s));
  refs h x := refs h (gp_ObjectMeta x) ∪ refs h (gp_Status x) |}.

(** The list types: the same statements for the six structs. *)
Definition List_DeepCopyInto {T V} `{!Deep cell T V, !Cell cell (list T)} (h : heap)
    (in_ : gList T) : option (heap * gList T) :=
  '(h, meta) ← DeepCopyInto h (gl_ListMeta T in_);
  '(h, items) ← copy_slice (T := T) h (gl_Items T in_);
  Some (h, {| gl_TypeMeta := gl_TypeMeta T in_; gl_ListMeta := meta; gl_Items := items |}).
Definition vList (V : Type) : Type := TypeMeta * (LV * option (list V)).
#[local] Instance List_deep {T V} `{!Deep cell T V, !Cell cell (list T)}
    : Deep cell (gList T) (vList V) := {|
  DeepCopyInto := List_DeepCopyInto;
  view h x := m ← view h (gl_ListMeta T x);
    i ← @view _ _ _ (slice_deep (T := T)) h (gl_Items T x);
    Some (gl_TypeMeta T x, (m, i));
  refs h x := refs h (gl_ListMeta T x) ∪ @refs _ _ _ (slice_deep (T := T)) h (gl_Items T x) |}.

Definition ClusterList_DeepCopyInto
    : heap → ClusterList → option (heap * ClusterList) := List_DeepCopyInto.
Definition EnvoyProxyList_DeepCopyInto
    : heap → EnvoyProxyList → option (heap * EnvoyProxyList) := List_DeepCopyInto.
Definition ListenerList_DeepCopyInto
    : heap → ListenerList → option (heap * ListenerList) := List_DeepCopyInto.
Definition RouteConfigurationList_DeepCopyInto
    : heap → RouteConfigurationList → option (heap * RouteConfigurationList) :=
  List_DeepCopyInto.
Definition ScopedRouteConfigurationList_DeepCopyInto
    : heap → ScopedRouteConfigurationList → option (heap * ScopedRouteConfigurationList) :=
  List_DeepCopyInto.
Definition ClusterLoadAssignmentList_DeepCopyInto
    : heap → ClusterLoadAssignmentList → option (heap * ClusterLoadAssignmentList) :=
  List_DeepCopyInto.

Definition Cluster_DeepCopy := DeepCopy (cell := cell) (T := gCluster).
Definition ClusterList_DeepCopy := DeepCopy (cell := cell) (T := gList gCluster).
Definition EnvoyProxy_DeepCopy := DeepCopy (cell := cell) (T := gProxy).
Definition EnvoyProxyList_DeepCopy := DeepCopy (cell := cell) (T := gList gProxy).
Definition EnvoyProxySpec_DeepCopy := DeepCopy (cell := cell) (T := unit).
Definition EnvoyProxyStatus_DeepCopy := DeepCopy (cell := cell) (T := gStatus).
Definition KubernetesServiceRef_DeepCopy := DeepCopy (cell := cell) (T := gServiceRef).
Definition TargetRef_DeepCopy := DeepCopy (cell := cell) (T := TargetRef).
Definition Listener_DeepCopy := DeepCopy (cell := cell) (T := gResource RListener).
Definition ListenerList_DeepCopy := DeepCopy (cell := cell) (T := gList (gResource RListener)).
Definition RouteConfiguration_DeepCopy :=
  DeepCopy (cell := cell) (T := gResource RRouteConfiguration).
Definition RouteConfigurationList_DeepCopy :=
  DeepCopy (cell := cell) (T := gList (gResource RRouteConfiguration)).
Definition ScopedRouteConfiguration_DeepCopy :=
  DeepCopy (cell := cell) (T := gResource RScopedRouteConfiguration).
Definition ScopedRouteConfigurationList_DeepCopy :=
  DeepCopy (cell := cell) (T := gList (gResource RScopedRouteConfiguration)).
Definition ClusterLoadAssignment_DeepCopy :=
  DeepCopy (cell := cell) (T := gResource RClusterLoadAssignment).
Definition ClusterLoadAssignmentList_DeepCopy :=
  DeepCopy (cell := cell) (T := gList (gResource RClusterLoadAssignment)).

(** *** [runtime.Object] *)

(** The dynamic types that implement it. *)
Inductive ObjectKind :=
| OCluster | OClusterList | OEnvoyProxy | OEnvoyProxyList
| OListener | OListenerList | ORouteConfiguration | ORouteConfigurationList
| OScopedRouteConfiguration | OScopedRouteConfigurationList
| OClusterLoadAssignment | OClusterLoadAssignmentList.

(** An interface value: nil, or a dynamic type and a pointer. *)
Definition Object : Type := option (ObjectKind * option loc).

(** [if c := in.DeepCopy(); c != nil { return c }; return nil] *)
Definition as_object (k : ObjectKind) (r : option (heap * option loc)) : option (heap * Object) :=
  '(h, c) ← r;
  Some (h, match c with Some l => Some (k, Some l) | None => None end).

(** [DeepCopyObject] of the twelve types. *)
Definition Cluster_DeepCopyObject (h : heap) (in_ : option loc) : option (heap * Object) :=
  as_object OCluster (Cluster_DeepCopy h in_).
Definition ClusterList_DeepCopyObject (h : heap) (in_ : option loc) : option (heap * Object) :=
  as_object OClusterList (ClusterList_DeepCopy h in_).
Definition EnvoyProxy_DeepCopyObject (h : heap) (in_ : option loc) : option (heap * Object) :=
  as_object OEnvoyProxy (EnvoyProxy_DeepCopy h in_).
Definition EnvoyProxyList_DeepCopyObject (h : heap) (in_ : option loc) : option (heap * Object) :=
  as_object OEnvoyProxyList (EnvoyProxyList_DeepCopy h in_).
Definition Listener_DeepCopyObject (h : heap) (in_ : option loc) : option (heap * Object) :=
  as_object OListener (Listener_DeepCopy h in_).
Definition ListenerList_DeepCopyObject (h : heap) (in_ : option loc) : option (heap * Object) :=
  as_object OListenerList (ListenerList_DeepCopy h in_).
Definition RouteConfiguration_DeepCopyObject (h : heap) (in_ : option loc) : option (heap * Object) :=
  as_object ORouteConfiguration (RouteConfiguration_DeepCopy h in_).
Definition RouteConfigurationList_DeepCopyObject (h : heap) (in_ : option loc) : option (heap * Object) :=
  as_object ORouteConfigurationList (RouteConfigurationList_DeepCopy h in_).
Definition ScopedRouteConfiguration_DeepCopyObject (h : heap) (in_ : option loc) : option (heap * Object) :=
  as_object OScopedRouteConfiguration (ScopedRouteConfiguration_DeepCopy h in_).
Definition ScopedRouteConfigurationList_DeepCopyObject (h : heap) (in_ : option loc) : option (heap * Object) :=
  as_object OScopedRouteConfigurationList (ScopedRouteConfigurationList_DeepCopy h in_).
Definition ClusterLoadAssignment_DeepCopyObject (h : heap) (in_ : option loc) : option (heap * Object) :=
  as_object OClusterLoadAssignment (ClusterLoadAssignment_DeepCopy h in_).
Definition ClusterLoadAssignmentList_DeepCopyObject (h : heap) (in_ : option loc) : option (heap * Object) :=
  as_object OClusterLoadAssignmentList (ClusterLoadAssignmentList_DeepCopy h in_).

(** The method call on a [runtime.Object] of the dynamic type [k]. *)
Definition DeepCopyObject (k : ObjectKind) : heap → option loc → option (heap * Object) :=
  match k with
  | OCluster => Cluster_DeepCopyObject
  | OClusterList => ClusterList_DeepCopyObject
  | OEnvoyProxy => EnvoyProxy_DeepCopyObject
  | OEnvoyProxyList => EnvoyProxyList_DeepCopyObject
  | OListener => Listener_DeepCopyObject
  | OListenerList => ListenerList_DeepCopyObject
  | ORouteConfiguration => RouteConfiguration_DeepCopyObject
  | ORouteConfigurationList => RouteConfigurationList_DeepCopyObject
  | OScopedRouteConfiguration => ScopedRouteConfiguration_DeepCopyObject
  | OScopedRouteConfigurationList => ScopedRouteConfigurationList_DeepCopyObject
  | OClusterLoadAssignment => ClusterLoadAssignment_DeepCopyObject
  | OClusterLoadAssignmentList => ClusterLoadAssignmentList_DeepCopyObject
  end.

(** *** Values and reach of objects *)

Definition ValueOf (k : ObjectKind) : Type :=
  match k with
  | OCluster => vCluster | OClusterList => vList vCluster
  | OEnvoyProxy => vProxy | OEnvoyProxyList => vList vProxy
  | OListener | ORouteConfiguration | OScopedRouteConfiguration | OClusterLoadAssignment =>
      vResource
  | OListenerList | ORouteConfigurationList | OScopedRouteConfigurationList
  | OClusterLoadAssignmentList => vList vResource
  end.

(** A pointer to an object of the kind. *)
Definition object_deep (k : ObjectKind) : Deep cell (option loc) (option (ValueOf k)) :=
  match k with
  | OCluster => ptr_deep (T := gCluster)
  | OClusterList => ptr_deep (T := gList gCluster)
  | OEnvoyProxy => ptr_deep (T := gProxy)
  | OEnvoyProxyList => ptr_deep (T := gList gProxy)
  | OListener => ptr_deep (T := gResource RListener)
  | OListenerList => ptr_deep (T := gList (gResource RListener))
  | ORouteConfiguration => ptr_deep (T := gResource RRouteConfiguration)
  | ORouteConfigurationList => ptr_deep (T := gList (gResource RRouteConfiguration))
  | OScopedRouteConfiguration => ptr_deep (T := gResource RScopedRouteConfiguration)
  | OScopedRouteConfigurationList => ptr_deep (T := gList (gResource RScopedRouteConfiguration))
  | OClusterLoadAssignment => ptr_deep (T := gResource RClusterLoadAssignment)
  | OClusterLoadAssignmentList => ptr_deep (T := gList (gResource RClusterLoadAssignment))
  end.

Definition view_object (k : ObjectKind) (h : heap) (p : option loc) : option (option (ValueOf k)) :=
  @view _ _ _ (object_deep k) h p.
Definition reach (k : ObjectKind) (h : heap) (p : option loc) : gset loc :=
  @refs _ _ _ (object_deep k) h p.

(** ** The laws hold for the API types *)

Context `{!DeepLaws (cell := cell) M MV, !DeepLaws (cell := cell) L LV,
  !DeepLaws (cell := cell) R RV, !DeepLaws (cell := cell) C CV}.

(** Runs both sides of an equation between computations in step. *)
Ltac in_step_on m :=
  lazymatch m with
  | Some _ => fail
  | None => fail
  | context [@mbind] => fail
  | context [match _ with _ => _ end] => fail
  | _ => destruct m
  end.
Ltac in_step :=
  repeat (simpl; match goal with
    | |- context [mbind _ ?m] => in_step_on m
    | |- context [match ?m with _ => _ end] => in_step_on m
    | p : (_ * _)%type |- _ => destruct p
    end); done.

Lemma TargetRef_laws : DeepLaws (cell := cell) TargetRef TargetRef.
Proof. apply flat_laws. Qed.

Lemma EnvoyProxySpec_laws : DeepLaws (cell := cell) unit unit.
Proof. apply flat_laws. Qed.

Lemma port_laws : @DeepLaws cell _ _ port_deep.
Proof. apply @ptr_laws, flat_laws. Qed.

#[local] Instance ServiceRef_laws : DeepLaws (cell := cell) gServiceRef KubernetesServiceRef.
Proof.
  apply (iso_laws ServiceRef_deep
    (@pair_deep cell _ _ _ _ (flat_deep (string * string)) port_deep)
    (λ x, ((gk_Name x, gk_Namespace x), gk_Port x))
    (λ a, {| gk_Name := a.1.1; gk_Namespace := a.1.2; gk_Port := a.2 |})
    (λ w, {| ks_Name := w.1.1; ks_Namespace := w.1.2; ks_Port := w.2 |})).
  - apply @pair_laws; [apply flat_laws|apply port_laws].
  - by intros [[] ?].
  - intros h [n ns [l|]]; [|done]. simpl. unfold KubernetesServiceRef_DeepCopyInto. simpl.
    by destruct (read h l).
  - intros h [n ns p]. in_step.
  - intros h [n ns p]. simpl. by rewrite (left_id_L ∅ (∪)).
Qed.

Lemma serviceRef_laws : @DeepLaws cell _ _ serviceRef_deep.
Proof. apply @ptr_laws, _. Qed.

#[local] Instance Cluster_laws : DeepLaws (cell := cell) gCluster vCluster.
Proof.
  apply (iso_laws Cluster_deep
    (@pair_deep cell _ _ _ _ (flat_deep (TypeMeta * TargetRef))
      (@pair_deep cell _ _ _ _ _ (@pair_deep cell _ _ _ _ serviceRef_deep _)))
    (λ x, ((gc_TypeMeta x, gc_TargetRef x),
           (gc_ObjectMeta x, (gc_KubernetesServiceRef x, gc_Spec x))))
    (λ a, {| gc_TypeMeta := a.1.1; gc_ObjectMeta := a.2.1; gc_TargetRef := a.1.2;
             gc_KubernetesServiceRef := a.2.2.1; gc_Spec := a.2.2.2 |}) id).
  - apply @pair_laws; [apply flat_laws|]. apply @pair_laws; [done|].
    apply @pair_laws; [apply serviceRef_laws|done].
  - by intros [[] [? []]].
  - intros h [tm m tr p s]. simpl. unfold Cluster_DeepCopyInto. in_step.
  - intros h [tm m tr p s]. in_step.
  - intros h [tm m tr p s]. simpl. by rewrite (left_id_L ∅ (∪)).
Qed.

#[local] Instance Resource_laws k : DeepLaws (cell := cell) (gResource k) vResource.
Proof.
  apply (iso_laws (Resource_deep k)
    (@pair_deep cell _ _ _ _ (flat_deep (TypeMeta * TargetRef)) (@pair_deep cell _ _ _ _ _ _))
    (λ x, ((gr_TypeMeta k x, gr_TargetRef k x), (gr_ObjectMeta k x, gr_Spec k x)))
    (λ a, {| gr_TypeMeta := a.1.1; gr_ObjectMeta := a.2.1; gr_TargetRef := a.1.2;
             gr_Spec := a.2.2 |}) id).
  - apply @pair_laws; [apply flat_laws|]. by apply @pair_laws.
  - by intros [[] []].
  - intros h [tm m tr s]. simpl. unfold Resource_DeepCopyInto. in_step.
  - intros h [tm m tr s]. in_step.
  - intros h [tm m tr s]. simpl. by rewrite (left_id_L ∅ (∪)).
Qed.

Lemma conditions_laws : @DeepLaws cell _ _ conditions_deep.
Proof. apply slice_laws. Qed.

#[local] Instance Status_laws : DeepLaws (cell := cell) gStatus vStatus.
Proof.
  apply (iso_laws Status_deep (@pair_deep cell _ _ _ _ (flat_deep Z) conditions_deep)
    (λ x, (gs_ObservedGeneration x, gs_Conditions x))
    (λ a, {| gs_ObservedGeneration := a.1; gs_Conditions := a.2 |}) id).
  - apply @pair_laws; [apply flat_laws|apply conditions_laws].
  - by intros [].
  - intros h [g p]. simpl. unfold EnvoyProxyStatus_DeepCopyInto. simpl.
    rewrite copy_slice_ptr. in_step.
  - intros h [g p]. in_step.
  - intros h [g p]. simpl. by rewrite (left_id_L ∅ (∪)).
Qed.

#[local] Instance Proxy_laws : DeepLaws (cell := cell) gProxy vProxy.
Proof.
  apply (iso_laws Proxy_deep
    (@pair_deep cell _ _ _ _ (flat_deep (TypeMeta * unit)) (@pair_deep cell _ _ _ _ _ Status_deep))
    (λ x, ((gp_TypeMeta x, gp_Spec x), (gp_ObjectMeta x, gp_Status x)))
    (λ a, {| gp_TypeMeta := a.1.1; gp_ObjectMeta := a.2.1; gp_Spec := a.1.2;
             gp_Status := a.2.2 |}) id).
  - apply @pair_laws; [apply flat_laws|]. apply @pair_laws; apply _.
  - by intros [[] []].
  - intros h [tm m u s]. simpl. unfold EnvoyProxy_DeepCopyInto. in_step.
  - intros h [tm m u s]. in_step.
  - intros h [tm m u s]. simpl. by rewrite (left_id_L ∅ (∪)).
Qed.

#[local] Instance List_laws {T V} `{!Deep cell T V, !DeepLaws T V, !Cell cell (list T)} :
  DeepLaws (cell := cell) (gList T) (vList V).
Proof.
  apply (iso_laws List_deep
    (@pair_deep cell _ _ _ _ (flat_deep TypeMeta)
      (@pair_deep cell _ _ _ _ _ (slice_deep (T := T))))
    (λ x, (gl_TypeMeta T x, (gl_ListMeta T x, gl_Items T x)))
    (λ a, {| gl_TypeMeta := a.1; gl_ListMeta := a.2.1; gl_Items := a.2.2 |}) id).
  - apply @pair_laws; [apply flat_laws|]. apply @pair_laws; [done|apply slice_laws].
  - by intros [? []].
  - intros h [tm m p]. simpl. unfold List_DeepCopyInto, copy_slice, copy_ptr. in_step.
  - intros h [tm m p]. in_step.
  - intros h [tm m p]. simpl. by rewrite (left_id_L ∅ (∪)).
Qed.

Lemma object_laws k : @DeepLaws cell _ _ (object_deep k).
Proof. destruct k; apply @ptr_laws, _. Qed.

Lemma DeepCopyObject_ptr k h p :
  DeepCopyObject k h p = as_object k (@DeepCopyInto _ _ _ (object_deep k) h p).
Proof. by destruct k. Qed.

(** ** Properties *)

(** [C32] Deep copies, for all twelve object types: copying nil gives the nil
    interface and not a nil pointer inside one; copying an object gives a new
    object of the same type and value, every location it reaches is new, and
    everything that was in the heap is still there, unchanged. *)
Theorem DeepCopyObject_deep k h l v
    (Hv : view_object k h (Some l) = Some v) :
  DeepCopyObject k h None = Some (h, None) ∧
  ∃ h' l', DeepCopyObject k h (Some l) = Some (h', Some (k, Some l')) ∧
    h ⊆ h' ∧ view_object k h' (Some l') = Some v ∧ reach k h' (Some l') ## dom h.
Proof.
  split; [by destruct k|]. rewrite DeepCopyObject_ptr.
  destruct (@deep_copy _ _ _ _ (object_laws k) h (Some l) v Hv) as (h' & p & Hc & Hs & Hp & Hr).
  assert (∃ l', p = Some l') as [l' ->].
  { destruct k; simpl in Hc; repeat (apply bind_Some in Hc as ([] & _ & Hc) ||
      apply bind_Some in Hc as (? & _ & Hc)); simplify_eq; eauto. }
  exists h', l'. by rewrite Hc.
Qed.

(** [C33] Original and copy are independent: whatever is written to the objects
    the copy reaches, the original keeps its value, and whatever is written to
    the objects the original reaches, the copy keeps it. *)
Theorem DeepCopyObject_independent k h l v h' l'
    (Hv : view_object k h (Some l) = Some v)
    (Hc : DeepCopyObject k h (Some l) = Some (h', Some (k, Some l'))) :
  (∀ h2, (∀ x, x ∉ reach k h' (Some l') → h2 !! x = h' !! x) →
    view_object k h2 (Some l) = Some v) ∧
  (∀ h2, (∀ x, x ∉ reach k h (Some l) → h2 !! x = h' !! x) →
    view_object k h2 (Some l') = Some v).
Proof.
  pose proof (object_laws k) as Hl. rewrite DeepCopyObject_ptr in Hc.
  destruct (@deep_copy _ _ _ _ Hl h (Some l) v Hv) as (h1 & p & Hd & Hs & Hp & Hr).
  rewrite Hd in Hc. simpl in Hc. destruct p as [l1|]; simplify_eq.
  pose proof (@refs_dom _ _ _ _ Hl h (Some l) v Hv) as Hdom.
  split; intros h2 Hagree.
  - eapply (@view_frame _ _ _ _ Hl h); [done|]. intros x Hx. apply Hdom in Hx as Hxd.
    rewrite Hagree by (unfold reach; set_solver). apply elem_of_dom in Hxd as [c Hc].
    rewrite Hc. by eapply lookup_weaken.
  - eapply (@view_frame _ _ _ _ Hl h'); [done|]. intros x Hx. apply Hagree.
    unfold reach. set_solver.
Qed.

End api.

(** ** Witness: a list with a cluster that has a service reference with a port *)

Section examples.
Definition ex_cell : Type := @cell ObjectMeta unit (option loc) Condition string.

#[refine] Instance bytes_cell : Cell ex_cell string := {|
  to_cell := cLib; of_cell c := match c with cLib x => Some x | _ => None end |}.
Proof. done. Defined.

Local Instance ex_meta_deep : Deep ex_cell ObjectMeta ObjectMeta := flat_deep _.
Local Instance ex_listmeta_deep : Deep ex_cell unit unit := flat_deep _.
Local Instance ex_raw_deep : Deep ex_cell (option loc) (option string) :=
  @ptr_deep _ string string _ (flat_deep _).
Local Instance ex_cond_deep : Deep ex_cell Condition Condition := flat_deep _.
Local Instance ex_meta_laws : DeepLaws (cell := ex_cell) ObjectMeta ObjectMeta := flat_laws _.
Local Instance ex_listmeta_laws : DeepLaws (cell := ex_cell) unit unit := flat_laws _.
Local Instance ex_raw_laws : DeepLaws (cell := ex_cell) (option loc) (option string).
Proof. apply @ptr_laws, flat_laws. Qed.
Local Instance ex_cond_laws : DeepLaws (cell := ex_cell) Condition Condition := flat_laws _.

Definition ex_gcluster : @gCluster ObjectMeta (option loc) := {|
  gc_TypeMeta := {| tm_Kind := "Cluster"; tm_APIVersion := "mesh.iglin.io/v1alpha1" |};
  gc_ObjectMeta := {| om_Name := "c"; om_Namespace := "default"; om_ResourceVersion := "1";
                      om_Generation := 1; om_Labels := ∅ |};
  gc_TargetRef := {| tr_Name := "edge-proxy"; tr_Namespace := "" |};
  gc_KubernetesServiceRef := Some 3%positive;
  gc_Spec := Some 5%positive |}.

Definition ex_heap : gmap loc ex_cell := list_to_map [
  (1%positive, cClusterList {|
    gl_TypeMeta := {| tm_Kind := "ClusterList"; tm_APIVersion := "mesh.iglin.io/v1alpha1" |};
    gl_ListMeta := tt; gl_Items := Some 2%positive |});
  (2%positive, cClusters [ex_gcluster]);
  (3%positive, cServiceRef {| gk_Name := "svc"; gk_Namespace := ""; gk_Port := Some 4%positive |});
  (4%positive, cInt32 8080);
  (5%positive, cLib "{}")].

Definition ex_copy := DeepCopyObject OClusterList ex_heap (Some 1%positive).

(** The list, its array, the service reference, the port and the bytes. *)
Example ex_copy_reach :
  (λ r, match r.2 with Some (k, p) => size (reach k r.1 p) | None => 0 end) <$> ex_copy = Some 5.
Proof. vm_compute. reflexivity. Qed.

Lemma DeepCopyObject_deep_witness :
  ∃ h' l' v, view_object OClusterList ex_heap (Some 1%positive) = Some v ∧
    ex_copy = Some (h', Some (OClusterList, Some l')) ∧
    view_object OClusterList h' (Some l') = Some v.
Proof.
  destruct (view_object OClusterList ex_heap (Some 1%positive)) as [v|] eqn:Hv;
    [|by vm_compute in Hv].
  destruct (DeepCopyObject_deep OClusterList ex_heap 1%positive v Hv)
    as (_ & h' & l' & H1 & _ & H2 & _).
  exists h', l', v. split; [reflexivity|]. split; [exact H1|exact H2].
Defined.

(** Setting the port of the original to 0 leaves the copy alone. *)
Lemma DeepCopyObject_independent_witness :
  ∃ h' l' v, ex_copy = Some (h', Some (OClusterList, Some l')) ∧
    view_object OClusterList (<[4%positive := cInt32 0]> h') (Some l') = Some v.
Proof.
  destruct (view_object OClusterList ex_heap (Some 1%positive)) as [v|] eqn:Hv;
    [|by vm_compute in Hv].
  destruct ex_copy as [[h' [[[] [l'|]]|]]|] eqn:Hc; try (by vm_compute in Hc).
  destruct (DeepCopyObject_independent OClusterList ex_heap 1%positive v h' l' Hv Hc) as [_ H].
  exists h', l', v. split; [reflexivity|]. apply H. intros x Hx.
  apply lookup_insert_ne. intros <-. apply Hx.
  apply (bool_decide_unpack _). vm_compute. exact I.
Defined.
End examples.
