(* ===== verification/Eds.v ===== *)
(** * Endpoint discovery: control-plane/internal/xds/eds.go

    [ClusterName] reads the cluster name out of a raw JSON blob,
    [resolvePort] picks the port of an EndpointSlice and [SynthesizeCLA]
    turns EndpointSlices into a ClusterLoadAssignment.  The loops are written
    as the accumulating folds the code has; [lb_reference] is the
    comprehension they implement. *)

From S2P Require Import Prelude GoStrings GoJson Types.

(** ** The Envoy messages the code builds (fields it sets) *)

Record SocketAddress := { sa_Address : string; sa_PortValue : Z }.
Inductive Address := Address_SocketAddress (sa : SocketAddress).
Record Endpoint := { en_Address : Address }.
Inductive HostIdentifier := LbEndpoint_Endpoint (e : Endpoint).
Record LbEndpoint := {
  lb_HostIdentifier : HostIdentifier;
  lb_LoadBalancingWeight : option Z
}.
Record LocalityLbEndpoints := { ll_LbEndpoints : list LbEndpoint }.
Record ClusterLoadAssignment := {
  cla_ClusterName : string;
  cla_Endpoints : list LocalityLbEndpoints
}.

Definition lb_address (e : LbEndpoint) : string :=
  match lb_HostIdentifier e with
  | LbEndpoint_Endpoint {| en_Address := Address_SocketAddress sa |} => sa_Address sa
  end.
Definition lb_port (e : LbEndpoint) : Z :=
  match lb_HostIdentifier e with
  | LbEndpoint_Endpoint {| en_Address := Address_SocketAddress sa |} => sa_PortValue sa
  end.

(** ** The functions *)

(** [func ClusterName(raw []byte) string] *)
Definition ClusterName (raw : string) : string :=
  if bool_decide (raw = "") then ""
  else match Unmarshal_name raw with
       | None => ""
       | Some name => name
       end.

(** [func resolvePort(slice, want) int32]: the loop over [slice.Ports]. *)
Fixpoint resolvePort_loop (ports : list (option Z)) (want : option Z) : Z :=
  match ports with
  | [] => 0
  | None :: ports => resolvePort_loop ports want
  | Some p :: ports =>
      match want with
      | None => p
      | Some w => if bool_decide (p = w) then p else resolvePort_loop ports want
      end
  end.

Definition resolvePort (slice : EndpointSlice) (want : option Z) : Z :=
  resolvePort_loop (es_Ports slice) want.

Definition mkLbEndpoint (addr : string) (port : Z) : LbEndpoint := {|
  lb_HostIdentifier := LbEndpoint_Endpoint {|
    en_Address := Address_SocketAddress {|
      sa_Address := addr; sa_PortValue := uint32 port |} |};
  lb_LoadBalancingWeight := Some 1%Z |}.

(** The innermost loop: the addresses of one endpoint. *)
Definition add_addresses (resolvedPort : Z) (addrs : list string)
    (lbEndpoints : list LbEndpoint) : list LbEndpoint :=
  foldl (λ acc addr,
    if bool_decide (addr = "") then acc
    else acc ++ [mkLbEndpoint addr resolvedPort]) lbEndpoints addrs.

(** The endpoints of one slice; not-ready ones are skipped. *)
Definition add_endpoints (resolvedPort : Z) (eps : list SliceEndpoint)
    (lbEndpoints : list LbEndpoint) : list LbEndpoint :=
  foldl (λ acc ep,
    match se_Ready ep with
    | Some false => acc
    | _ => add_addresses resolvedPort (se_Addresses ep) acc
    end) lbEndpoints eps.

(** [func SynthesizeCLA(clusterName, slices, port)] *)
Definition SynthesizeCLA (clusterName : string) (slices : list EndpointSlice)
    (port : option Z) : ClusterLoadAssignment :=
  let lbEndpoints :=
    foldl (λ acc slice,
      let resolvedPort := resolvePort slice port in
      if bool_decide (resolvedPort = 0%Z) then acc
      else add_endpoints resolvedPort (es_Endpoints slice) acc) [] slices in
  {| cla_ClusterName := clusterName;
     cla_Endpoints :=
       if bool_decide (0 < length lbEndpoints)
       then [{| ll_LbEndpoints := lbEndpoints |}] else [] |}.

(** ** Reference definitions *)

(** nil counts as ready. *)
Definition ready (ep : SliceEndpoint) : bool :=
  match se_Ready ep with Some b => b | None => true end.

Definition ready_addresses (slice : EndpointSlice) : list string :=
  ep ← es_Endpoints slice;
  if ready ep then filter (λ a, a ≠ "") (se_Addresses ep) else [].

Definition lb_reference (slices : list EndpointSlice) (port : option Z)
    : list LbEndpoint :=
  slice ← slices;
  if bool_decide (resolvePort slice port = 0%Z) then []
  else (λ a, mkLbEndpoint a (resolvePort slice port)) <$> ready_addresses slice.

(** All endpoints of an assignment, whatever locality they are in. *)
Definition cla_lb (cla : ClusterLoadAssignment) : list LbEndpoint :=
  cla_Endpoints cla ≫= ll_LbEndpoints.

(** ** Lemmas *)

Lemma foldl_app_acc {A B} (f : list B → A → list B) (g : A → list B) :
  (∀ acc x, f acc x = acc ++ g x) → ∀ l acc, foldl f acc l = acc ++ (l ≫= g).
Proof.
  intros Hf l. induction l as [|x l IH]; intros acc; csimpl.
  - by rewrite app_nil_r.
  - by rewrite IH, Hf, <-(assoc_L (++)).
Qed.

Lemma add_addresses_spec p addrs acc :
  add_addresses p addrs acc =
  acc ++ ((λ a, mkLbEndpoint a p) <$> filter (λ a, a ≠ "") addrs).
Proof.
  unfold add_addresses.
  rewrite (foldl_app_acc _ (λ a, if bool_decide (a = "") then [] else [mkLbEndpoint a p])).
  - f_equal. induction addrs as [|a addrs IH]; [done|]. csimpl. rewrite filter_cons, IH.
    by case_bool_decide; case_decide.
  - intros ? a. case_bool_decide; [by rewrite app_nil_r|done].
Qed.

Lemma add_endpoints_spec p eps acc :
  add_endpoints p eps acc =
  acc ++ ((λ a, mkLbEndpoint a p) <$>
    (ep ← eps; if ready ep then filter (λ a, a ≠ "") (se_Addresses ep) else [])).
Proof.
  unfold add_endpoints.
  rewrite (foldl_app_acc _ (λ ep, (λ a, mkLbEndpoint a p) <$>
     if ready ep then filter (λ a, a ≠ "") (se_Addresses ep) else [])).
  - f_equal. induction eps as [|ep eps IH]; [done|]. csimpl. by rewrite IH, fmap_app.
  - intros ? ep. unfold ready.
    destruct (se_Ready ep) as [[]|]; rewrite ?add_addresses_spec, ?app_nil_r; done.
Qed.

Lemma SynthesizeCLA_lb n slices port :
  cla_lb (SynthesizeCLA n slices port) = lb_reference slices port.
Proof.
  unfold SynthesizeCLA, cla_lb. simpl.
  rewrite (foldl_app_acc _ (λ s, if bool_decide (resolvePort s port = 0%Z) then []
    else (λ a, mkLbEndpoint a (resolvePort s port)) <$> ready_addresses s)).
  - rewrite app_nil_l. fold (lb_reference slices port).
    destruct (lb_reference slices port) eqn:?; simpl; [done|]. by rewrite app_nil_r.
  - intros acc s. case_bool_decide; [by rewrite app_nil_r|].
    by rewrite add_endpoints_spec.
Qed.

Lemma resolvePort_loop_want ports w :
  resolvePort_loop ports (Some w) = if bool_decide (Some w ∈ ports) then w else 0%Z.
Proof.
  induction ports as [|[p|] ports IH]; simpl; [done| |].
  - destruct (decide (p = w)) as [->|Hpw].
    { rewrite !bool_decide_true; [done|by left|done]. }
    rewrite (bool_decide_false (p = w)), IH by done. apply (f_equal (λ b : bool, if b then w else 0%Z)).
    apply bool_decide_ext. rewrite elem_of_cons. naive_solver.
  - rewrite IH. apply (f_equal (λ b : bool, if b then w else 0%Z)).
    apply bool_decide_ext. rewrite elem_of_cons. naive_solver.
Qed.

Lemma resolvePort_loop_first ports :
  resolvePort_loop ports None = default 0%Z (head (omap id ports)).
Proof. by induction ports as [|[p|] ports IH]. Qed.

Lemma resolvePort_loop_in ports want p :
  resolvePort_loop ports want = p → p ≠ 0%Z → Some p ∈ ports.
Proof.
  induction ports as [|[q|] ports IH]; simpl; intros Hp Hne; subst; [done| |].
  - destruct want as [w|]; [|by left].
    case_bool_decide; [by left|right; auto].
  - right; auto.
Qed.

Lemma elem_of_lb_reference e slices port :
  e ∈ lb_reference slices port ↔
  ∃ slice ep addr, slice ∈ slices ∧ ep ∈ es_Endpoints slice ∧
    addr ∈ se_Addresses ep ∧ resolvePort slice port ≠ 0%Z ∧
    se_Ready ep ≠ Some false ∧ addr ≠ "" ∧
    e = mkLbEndpoint addr (resolvePort slice port).
Proof.
  unfold lb_reference, ready_addresses. rewrite list_elem_of_bind.
  split.
  - intros (slice & He & Hs). case_bool_decide; [by apply elem_of_nil in He|].
    apply list_elem_of_fmap in He as (a & -> & (ep & Ha & Hep)%list_elem_of_bind).
    unfold ready in Ha. destruct (se_Ready ep) as [[]|] eqn:Hr;
      [|by apply elem_of_nil in Ha|];
      apply list_elem_of_filter in Ha as [??]; exists slice, ep, a; naive_solver.
  - intros (slice & ep & a & Hs & Hep & Ha & Hp & Hr & Hne & ->).
    exists slice. split; [|done]. rewrite bool_decide_false by done.
    apply (list_elem_of_fmap_2 (λ b, mkLbEndpoint b (resolvePort slice port))).
    apply list_elem_of_bind. exists ep. split; [|done].
    unfold ready. destruct (se_Ready ep) as [[]|]; [|done|];
      by apply list_elem_of_filter.
Qed.

(** A slice whose modelled ports are [int32] values. *)
Definition int32_ports (slice : EndpointSlice) : Prop :=
  ∀ p, Some p ∈ es_Ports slice → int32 p.

(** A slice that passed the API server's validation of port numbers. *)
Definition valid_ports (slice : EndpointSlice) : Prop :=
  ∀ p, Some p ∈ es_Ports slice → (0 ≤ p ≤ 65535)%Z.

Lemma valid_ports_int32 slice : valid_ports slice → int32_ports slice.
Proof. intros Hv p Hp%Hv. unfold int32. lia. Qed.

Lemma ClusterName_print ms :
  printable (N.to_nat maxNestingDepth) (JObject ms) →
  ClusterName (print (JObject ms)) = default "" (decode_name (JObject ms)).
Proof.
  intros Hp. unfold ClusterName. rewrite bool_decide_false by done.
  unfold Unmarshal_name. rewrite parse_print by done. by destruct (decode_name _).
Qed.

Lemma store_member_other ms st :
  Forall (λ m, key_matches m.1 = false) ms → foldl store_member st ms = st.
Proof.
  intros HF. revert st. induction HF as [|m ms Hm _ IH]; intros [n f]; [done|].
  simpl. rewrite Hm. apply IH.
Qed.

(** The members that address the [Name] field, and what they hold. *)
Definition named (ms : list (string * json)) : list (string * json) :=
  filter (λ m, key_matches m.1 = true) ms.
Definition name_typed (m : string * json) : bool :=
  match m.2 with JString _ | JNull => true | _ => false end.
Definition name_value (m : string * json) : option string :=
  match m.2 with JString s => Some s | _ => None end.

Lemma foldl_store_member ms n f :
  foldl store_member (n, f) ms =
  (default n (last (omap name_value (named ms))),
   f || negb (forallb name_typed (named ms))).
Proof.
  revert n f. induction ms as [|[k v] ms IH]; intros n f.
  { simpl. by rewrite orb_false_r. }
  unfold named. rewrite filter_cons. fold (named ms). simpl.
  destruct (key_matches k) eqn:Hk; [|rewrite decide_False by done; apply IH].
  rewrite decide_True by done.
  destruct v; simpl; rewrite IH; simpl; rewrite ?orb_true_r; try done.
  f_equal. rewrite last_cons. by destruct (last _).
Qed.

(** ** Properties *)

(** The slice used by the witnesses: two ports, one endpoint ready, one not,
    one without a readiness condition and with an empty address. *)
Definition ex_slice : EndpointSlice := {|
  es_meta := {| om_Name := "svc-1"; om_Namespace := "default";
                om_ResourceVersion := "7"; om_Generation := 1;
                om_Labels := {["kubernetes.io/service-name" := "svc"]} |};
  es_Endpoints := [
    {| se_Addresses := ["10.0.0.1"; "10.0.0.2"]; se_Ready := Some true |};
    {| se_Addresses := ["10.0.0.3"]; se_Ready := Some false |};
    {| se_Addresses := [""; "10.0.0.4"]; se_Ready := None |}];
  es_Ports := [None; Some 8080%Z; Some 9090%Z]
|}.

(** [C6] The assignment [SynthesizeCLA] builds carries the requested cluster
    name, and its endpoints are exactly, in order and with multiplicity, the
    non-empty addresses of the ready endpoints of every slice that resolves to
    a non-zero port; they sit in at most one locality, and no locality is
    emitted when there is no endpoint. *)
Theorem SynthesizeCLA_exact n slices port :
  let cla := SynthesizeCLA n slices port in
  cla_ClusterName cla = n ∧
  cla_lb cla = lb_reference slices port ∧
  (cla_Endpoints cla = [] ↔ lb_reference slices port = []) ∧
  length (cla_Endpoints cla) ≤ 1 ∧
  Forall (λ l, ll_LbEndpoints l ≠ []) (cla_Endpoints cla).
Proof.
  intros cla. assert (cla_lb cla = lb_reference slices port) as Hlb
    by apply SynthesizeCLA_lb.
  split; [done|]. split; [done|]. rewrite <-Hlb. clear Hlb. revert cla.
  unfold cla_lb, SynthesizeCLA. cbv zeta.
  generalize (foldl (λ acc slice,
    if bool_decide (resolvePort slice port = 0%Z) then acc
    else add_endpoints (resolvePort slice port) (es_Endpoints slice) acc) [] slices).
  intros [|e l]; simpl; (split; [naive_solver|]; split; [lia|]);
    [constructor|by apply Forall_singleton].
Qed.

(** Soundness and completeness of the synthesized endpoints: an endpoint
    is in the assignment iff it is the non-empty address of an endpoint that is
    not marked not-ready, of a slice that resolves to a non-zero port, with
    that port converted to [uint32] and weight 1. *)
Theorem SynthesizeCLA_endpoints n slices port e :
  e ∈ cla_lb (SynthesizeCLA n slices port) ↔
  ∃ slice ep addr, slice ∈ slices ∧ ep ∈ es_Endpoints slice ∧
    addr ∈ se_Addresses ep ∧ resolvePort slice port ≠ 0%Z ∧
    se_Ready ep ≠ Some false ∧ addr ≠ "" ∧
    lb_address e = addr ∧ lb_port e = uint32 (resolvePort slice port) ∧
    lb_LoadBalancingWeight e = Some 1%Z.
Proof.
  rewrite SynthesizeCLA_lb, elem_of_lb_reference.
  split; intros (slice & ep & addr & H); exists slice, ep, addr.
  - naive_solver.
  - destruct_and! H. split_and!; try done.
    destruct e as [[[[[]]]] ?]. unfold lb_address, lb_port in *. simpl in *.
    by simplify_eq/=.
Qed.

(** Port bounds: when the slices hold port numbers the API server accepts
    (0..65535), every synthesized endpoint has a port in 1..65535 that one of
    its slices lists, no matter which port is requested; the conversion to
    [uint32] does not change it. *)
Theorem SynthesizeCLA_port_bounds n slices port
    (Hvalid : Forall valid_ports slices) :
  Forall (λ e, (1 ≤ lb_port e ≤ 65535)%Z ∧ lb_address e ≠ "" ∧
    ∃ slice, slice ∈ slices ∧ Some (lb_port e) ∈ es_Ports slice)
    (cla_lb (SynthesizeCLA n slices port)).
Proof.
  rewrite SynthesizeCLA_lb. apply Forall_forall.
  intros e (slice & ep & a & Hs & _ & _ & Hp & _ & Ha & ->)%elem_of_lb_reference.
  pose proof (resolvePort_loop_in _ _ _ eq_refl Hp) as Hin.
  rewrite Forall_forall in Hvalid. pose proof (Hvalid _ Hs _ Hin) as Hr.
  unfold lb_port, lb_address. simpl. fold (resolvePort slice port) in *.
  rewrite uint32_small by lia.
  split; [lia|]. split; [done|]. by exists slice.
Qed.

Lemma SynthesizeCLA_port_bounds_witness :
  Forall valid_ports [ex_slice] ∧
  Forall (λ e, (1 ≤ lb_port e ≤ 65535)%Z ∧ lb_address e ≠ "" ∧
    ∃ slice, slice ∈ [ex_slice] ∧ Some (lb_port e) ∈ es_Ports slice)
    (cla_lb (SynthesizeCLA "c" [ex_slice] None)) ∧
  length (cla_lb (SynthesizeCLA "c" [ex_slice] None)) = 3.
Proof.
  assert (Forall valid_ports [ex_slice]) as Hv.
  { apply Forall_singleton. intros p. unfold ex_slice; simpl.
    rewrite !elem_of_cons, elem_of_nil. intros; destruct_or!; simplify_eq; lia. }
  split; [exact Hv|]. split; [|reflexivity].
  exact (SynthesizeCLA_port_bounds "c" [ex_slice] None Hv).
Defined.

(** With a requested port that is not 0, exactly the slices that list it
    contribute, and every endpoint carries it; a slice is skipped otherwise.
    Without one, the first non-nil port of each slice is used. *)
Theorem resolvePort_spec slice :
  (∀ w, resolvePort slice (Some w) =
        if bool_decide (Some w ∈ es_Ports slice) then w else 0%Z) ∧
  resolvePort slice None = default 0%Z (head (omap id (es_Ports slice))).
Proof.
  split; [intros w; apply resolvePort_loop_want|apply resolvePort_loop_first].
Qed.


(** The document of a Cluster with two other members around its name. *)
Definition ex_cluster_json : json :=
  JObject [("type", JString "EDS"); ("name", JString "backend");
           ("eds_cluster_config", JObject [("eds_config", JObject [("ads", JObject [])])])].

