(* ===== verification/Server.v ===== *)
(** * The xDS server: control-plane/internal/xds/server.go

    The [Server] owns the snapshot cache and the set of connected node ids.
    The cache is go-control-plane's: a type with its operations
    ([SnapshotCache]) and what their documentation promises
    ([SnapshotCacheLaws]).  The connection tracking is a state machine: the
    gRPC server opens, uses and closes streams and runs the two callbacks of
    [Start]; [streaming] is what the set is meant to say. *)

From S2P Require Import Prelude.

(** ** go-control-plane's snapshot cache *)

Class SnapshotCache (Cache Snapshot : Type) := {
  (** [cachev3.NewSnapshotCache(ads, ...)] *)
  NewSnapshotCache : bool → Cache;
  SetSnapshot : Cache → string → Snapshot → Cache * option error;
  GetSnapshot : Cache → string → option Snapshot
}.

(** What [SetSnapshot] promises: after it succeeds the node has the snapshot,
    and no other node is touched; a new cache is empty. *)
Class SnapshotCacheLaws (Cache Snapshot : Type) `{!SnapshotCache Cache Snapshot} := {
  new_empty : ∀ ads n, GetSnapshot (NewSnapshotCache ads : Cache) n = None;
  set_get : ∀ (c c' : Cache) n (s : Snapshot),
    SetSnapshot c n s = (c', None) → GetSnapshot c' n = Some s;
  set_frame : ∀ (c c' : Cache) n (s : Snapshot) e m,
    SetSnapshot c n s = (c', e) → m ≠ n → GetSnapshot c' m = GetSnapshot c m
}.

(** A concrete cache: a finite map that never fails. *)
Section gmap_cache.
Context (Snapshot : Type).

Definition gmap_cache : SnapshotCache (gmap string Snapshot) Snapshot := {|
  NewSnapshotCache _ := ∅;
  SetSnapshot c n s := (<[n := s]> c, None);
  GetSnapshot c n := c !! n
|}.

Lemma gmap_cache_laws : @SnapshotCacheLaws _ _ gmap_cache.
Proof.
  split; simpl.
  - done.
  - intros; simplify_eq. apply lookup_insert_eq.
  - intros; simplify_eq. by apply lookup_insert_ne.
Qed.
End gmap_cache.

(** ** The server *)

(** [connected] is a [sync.Map] used as a set of node ids. *)
Record Server (Cache : Type) := mkServer {
  srv_Cache : Cache;
  srv_connected : gset string
}.
Arguments mkServer {Cache} _ _.
Arguments srv_Cache {Cache} _.
Arguments srv_connected {Cache} _.

Section server.
Context {Cache Snapshot : Type} `{!SnapshotCache Cache Snapshot}.

(** [func NewServer() *Server]: the cache is created with [ads=false]. *)
Definition NewServer : Server Cache :=
  {| srv_Cache := NewSnapshotCache false; srv_connected := ∅ |}.

(** [func (s *Server) IsConnected(nodeID string) bool] *)
Definition IsConnected (s : Server Cache) (nodeID : string) : bool :=
  bool_decide (nodeID ∈ srv_connected s).

(** The [StreamRequestFunc] callback of [Start]; [node] is [req.Node.Id]
    when [req.Node] is not nil. [LoadOrStore] adds the id. *)
Definition StreamRequestFunc (s : Server Cache) (node : option string) : Server Cache :=
  match node with
  | Some id =>
      if bool_decide (id = "") then s
      else {| srv_Cache := srv_Cache s; srv_connected := {[id]} ∪ srv_connected s |}
  | None => s
  end.

(** The [StreamClosedFunc] callback of [Start]. *)
Definition StreamClosedFunc (s : Server Cache) (node : option string) : Server Cache :=
  match node with
  | Some id =>
      if bool_decide (id = "") then s
      else {| srv_Cache := srv_Cache s; srv_connected := srv_connected s ∖ {[id]} |}
  | None => s
  end.

(** The end of [Start]: [net.Listen] fails, or the [select] sees the
    cancelled context or the result of [Serve]. *)
Inductive select_case := CtxDone | ErrCh (err : option error).

Definition Start (addr : string) (listen : option error) (sel : select_case)
    : option error :=
  match listen with
  | Some err => Some (ErrWrap ("xDS listen on " +:+ addr) err)
  | None => match sel with CtxDone => None | ErrCh err => err end
  end.

(** ** Streams

    The gRPC side.  [RegisterAggregatedDiscoveryServiceServer] serves two kinds
    of streams, state-of-the-world and delta, numbered apart.  A stream's node
    is fixed by its first request that carries one, and is what
    [StreamClosedFunc] receives.  [Start] sets the callbacks of the first kind
    only: [StreamDeltaRequestFunc] and [DeltaStreamClosedFunc] are nil, and
    nothing is done for a delta stream. *)
Record Conn := {
  cn_server : Server Cache;
  cn_streams : gmap Z (option string);
  cn_delta : gmap Z (option string)
}.

Inductive stream_step : Conn → Conn → Prop :=
| stream_open s streams delta id :
    streams !! id = None →
    stream_step {| cn_server := s; cn_streams := streams; cn_delta := delta |}
      {| cn_server := s; cn_streams := <[id := None]> streams; cn_delta := delta |}
| stream_request s streams delta id known node :
    streams !! id = Some known →
    (known = None ∨ known = node) →
    stream_step {| cn_server := s; cn_streams := streams; cn_delta := delta |}
      {| cn_server := StreamRequestFunc s node; cn_streams := <[id := node]> streams;
         cn_delta := delta |}
| stream_closed s streams delta id node :
    streams !! id = Some node →
    stream_step {| cn_server := s; cn_streams := streams; cn_delta := delta |}
      {| cn_server := StreamClosedFunc s node; cn_streams := delete id streams;
         cn_delta := delta |}
| delta_open s streams delta id :
    delta !! id = None →
    stream_step {| cn_server := s; cn_streams := streams; cn_delta := delta |}
      {| cn_server := s; cn_streams := streams; cn_delta := <[id := None]> delta |}
| delta_request s streams delta id known node :
    delta !! id = Some known →
    (known = None ∨ known = node) →
    stream_step {| cn_server := s; cn_streams := streams; cn_delta := delta |}
      {| cn_server := s; cn_streams := streams; cn_delta := <[id := node]> delta |}
| delta_closed s streams delta id node :
    delta !! id = Some node →
    stream_step {| cn_server := s; cn_streams := streams; cn_delta := delta |}
      {| cn_server := s; cn_streams := streams; cn_delta := delete id delta |}.

Definition conn_init : Conn :=
  {| cn_server := NewServer; cn_streams := ∅; cn_delta := ∅ |}.

(** What [IsConnected] is meant to report: some open state-of-the-world stream
    belongs to the node. *)
Definition streaming (c : Conn) (n : string) : Prop :=
  ∃ id, cn_streams c !! id = Some (Some n).

(** No node has two identified streams. *)
Definition exclusive (c : Conn) : Prop :=
  ∀ i j n, cn_streams c !! i = Some (Some n) → cn_streams c !! j = Some (Some n) → i = j.

(** A step between states in which the streams are exclusive. *)
Definition exclusive_step (c c' : Conn) : Prop := stream_step c c' ∧ exclusive c'.

(** ** Lemmas *)

Definition tracked (c : Conn) : Prop :=
  ∀ n, n ∈ srv_connected (cn_server c) → n ≠ "" ∧ streaming c n.

Definition complete (c : Conn) : Prop :=
  ∀ n, n ≠ "" → streaming c n → n ∈ srv_connected (cn_server c).

Lemma elem_of_StreamRequest s node n :
  n ∈ srv_connected (StreamRequestFunc s node) ↔
  n ∈ srv_connected s ∨ (node = Some n ∧ n ≠ "").
Proof.
  unfold StreamRequestFunc. destruct node as [m|]; [case_bool_decide|]; simpl;
    rewrite ?elem_of_union, ?elem_of_singleton; naive_solver.
Qed.

Lemma elem_of_StreamClosed s node n :
  n ∈ srv_connected (StreamClosedFunc s node) ↔
  n ∈ srv_connected s ∧ (n = "" ∨ node ≠ Some n).
Proof.
  unfold StreamClosedFunc. destruct node as [m|]; [case_bool_decide|]; simpl;
    rewrite ?elem_of_difference, ?elem_of_singleton;
    destruct (decide (n = "")); naive_solver.
Qed.

Lemma tracked_step c c' : stream_step c c' → tracked c → tracked c'.
Proof.
  intros Hs Ht n. destruct Hs as [s st dl id Hid|s st dl id known node Hid Hk|
    s st dl id node Hid|s st dl id|s st dl id|s st dl id];
    unfold tracked, streaming in *; simpl in *; [| | |apply Ht..].
  - intros [Hn [i Hi]]%Ht. split; [done|]. exists i.
    rewrite lookup_insert_ne; [done|congruence].
  - intros [[Hn [i Hi]]%Ht|[-> Hn]]%elem_of_StreamRequest; split; try done.
    + exists i. destruct (decide (id = i)) as [->|Hne].
      * rewrite lookup_insert_eq. destruct Hk; congruence.
      * by rewrite lookup_insert_ne.
    + exists id. by rewrite lookup_insert_eq.
  - intros [[Hn [i Hi]]%Ht Hne]%elem_of_StreamClosed. split; [done|].
    exists i. rewrite lookup_delete_ne; [done|]. intros ->.
    destruct Hne; congruence.
Qed.

Lemma complete_step c c' :
  exclusive c → stream_step c c' → complete c → complete c'.
Proof.
  intros Hx Hs Hc n Hn [i Hi]. specialize (Hc n Hn).
  destruct Hs as [s st dl id Hid|s st dl id known node Hid Hk|s st dl id node Hid|
    s st dl id|s st dl id|s st dl id];
    unfold streaming in *; simpl in *; [| | |by eauto..].
  - apply lookup_insert_Some in Hi as [[-> ?]|[??]]; [done|]. eauto.
  - apply elem_of_StreamRequest.
    apply lookup_insert_Some in Hi as [[-> ->]|[??]]; [by right|left; eauto].
  - apply lookup_delete_Some in Hi as [Hne Hi]. apply elem_of_StreamClosed.
    split; [eauto|]. right. intros ->. by apply Hne, (Hx _ _ n).
Qed.

Lemma exclusive_run c :
  rtc exclusive_step conn_init c → exclusive c ∧ tracked c ∧ complete c.
Proof.
  apply (rtc_ind_r (λ c, exclusive c ∧ tracked c ∧ complete c)).
  - split; [by intros i j n Hi|].
    split; intros n; simpl; [set_solver|]. by intros _ [i Hi].
  - intros c1 c2 _ [Hs Hx2] (Hx & Ht & Hc).
    eauto using tracked_step, complete_step.
Qed.

Lemma tracked_run c : rtc stream_step conn_init c → tracked c.
Proof.
  apply (rtc_ind_r tracked).
  - intros n. simpl. set_solver.
  - eauto using tracked_step.
Qed.

(** ** Properties *)

(** No false positives: in every state the stream events can reach,
    whatever the interleaving of streams, a node that [IsConnected] reports
    has an open stream (and a non-empty id). *)
Theorem IsConnected_sound c n
    (Hreach : rtc stream_step conn_init c)
    (Hconn : IsConnected (cn_server c) n = true) :
  n ≠ "" ∧ streaming c n.
Proof. apply (tracked_run c Hreach). by apply bool_decide_eq_true_1 in Hconn. Qed.

(** [C16] As long as no node ever has two identified state-of-the-world streams at
    the same time, [IsConnected] implements its specification, whatever delta
    streams there are: for every non-empty id it reports exactly whether a
    state-of-the-world stream of that node is open. *)
Theorem IsConnected_refines c n
    (Hreach : rtc exclusive_step conn_init c) (Hn : n ≠ "") :
  IsConnected (cn_server c) n = true ↔ streaming c n.
Proof.
  apply exclusive_run in Hreach as (_ & Ht & Hc).
  unfold IsConnected. rewrite bool_decide_eq_true. split; [apply Ht|auto].
Qed.

(** Self-repair: whatever happened before, a request on a stream makes
    [IsConnected] report its (non-empty) node again, and leaves the report
    for every other node as it was. *)
Theorem StreamRequest_connects s n m
    (Hn : n ≠ "") :
  IsConnected (StreamRequestFunc s (Some n)) n = true ∧
  (m ≠ n → IsConnected (StreamRequestFunc s (Some n)) m = IsConnected s m).
Proof.
  unfold IsConnected. split.
  - apply bool_decide_eq_true, elem_of_StreamRequest. auto.
  - intros Hm. apply bool_decide_ext. rewrite elem_of_StreamRequest. naive_solver.
Qed.
End server.

(** *** Witnesses and the overlapping reconnect, on the concrete cache *)

Section examples.
Local Existing Instance gmap_cache.

Definition ex_server : Server (gmap string nat) := NewServer.

Definition ex_node : string := "edge-proxy.default".

Definition conn_at (srv : Server (gmap string nat)) (st : gmap Z (option string))
    : Conn := {| cn_server := srv; cn_streams := st; cn_delta := ∅ |}.

(** One stream: open, first request. *)
Definition ex_one : Conn (Cache := gmap string nat) :=
  conn_at (StreamRequestFunc ex_server (Some ex_node)) {[1%Z := Some ex_node]}.

Lemma exclusive_singleton srv i x : exclusive (conn_at srv {[i := x]}).
Proof.
  intros j k n. unfold conn_at; simpl. rewrite !lookup_singleton_Some.
  by intros [<- _] [<- _].
Qed.

Lemma ex_one_reached : rtc exclusive_step (conn_init (Snapshot := nat)) ex_one.
Proof.
  eapply rtc_l; [split; [apply (stream_open _ _ _ 1%Z); reflexivity|]|].
  { apply exclusive_singleton. }
  assert (<[1%Z := Some ex_node]> {[1%Z := None]} =
    ({[1%Z := Some ex_node]} : gmap Z (option string))) as Heq by reflexivity.
  apply rtc_once. unfold ex_one. rewrite <-Heq. split.
  - by refine (stream_request ex_server {[1%Z := None]} _ 1%Z None (Some ex_node) _ _); [|left].
  - rewrite Heq. apply exclusive_singleton.
Defined.

Lemma exclusive_stream_steps {Cache Snapshot} `{!SnapshotCache Cache Snapshot}
    (c c' : Conn (Cache := Cache)) :
  rtc exclusive_step c c' → rtc stream_step c c'.
Proof. apply (rtc_subrel _ _). by intros ?? [? _]. Defined.

Lemma IsConnected_sound_witness :
  IsConnected (cn_server ex_one) ex_node = true ∧ streaming ex_one ex_node.
Proof.
  split; [reflexivity|].
  apply (IsConnected_sound ex_one ex_node (exclusive_stream_steps _ _ ex_one_reached)
    eq_refl).
Defined.

Lemma IsConnected_refines_witness :
  ex_node ≠ "" ∧ (IsConnected (cn_server ex_one) ex_node = true ↔ streaming ex_one ex_node).
Proof.
  split; [done|].
  apply (IsConnected_refines ex_one ex_node ex_one_reached). done.
Defined.

Lemma StreamRequest_connects_witness :
  IsConnected (StreamRequestFunc ex_server (Some ex_node)) ex_node = true.
Proof. apply (StreamRequest_connects ex_server ex_node "" ltac:(done)). Defined.

(** The proxy reconnects: stream 2 sends its first request before stream 1
    is closed. *)
Definition ex_overlap : Conn (Cache := gmap string nat) :=
  conn_at (StreamClosedFunc (StreamRequestFunc
      (StreamRequestFunc ex_server (Some ex_node)) (Some ex_node)) (Some ex_node))
    {[2%Z := Some ex_node]}.

Lemma ex_overlap_reached : rtc stream_step (conn_init (Snapshot := nat)) ex_overlap.
Proof.
  etrans; [apply exclusive_stream_steps, ex_one_reached|].
  eapply rtc_l; [by apply (stream_open _ _ _ 2%Z)|].
  eapply rtc_l; [by apply (stream_request _ _ _ 2%Z None (Some ex_node)); [|left]|].
  eapply rtc_l; [by apply (stream_closed _ _ _ 1%Z (Some ex_node))|].
  reflexivity.
Qed.

(** [IsConnected] does not keep its documented promise when a node has
    two streams for a moment: a reachable state in which the node has an open
    stream that has sent its request, and [IsConnected] reports [false]. *)
Theorem IsConnected_overlap_incomplete :
  ∃ c : Conn (Cache := gmap string nat),
    rtc stream_step (conn_init (Snapshot := nat)) c ∧
    streaming c ex_node ∧ IsConnected (cn_server c) ex_node = false.
Proof.
  exists ex_overlap. split; [apply ex_overlap_reached|].
  split; [by exists 2%Z|reflexivity].
Qed.

(** Nor for a proxy that uses the delta protocol, which the same registration
    serves: it has an open stream that has sent its request, and is reported as
    not connected. *)
Theorem delta_never_connected :
  ∃ c : Conn (Cache := gmap string nat),
    rtc stream_step (conn_init (Snapshot := nat)) c ∧
    cn_delta c !! 1%Z = Some (Some ex_node) ∧ IsConnected (cn_server c) ex_node = false.
Proof.
  exists {| cn_server := ex_server; cn_streams := ∅; cn_delta := {[1%Z := Some ex_node]} |}.
  split; [|split; reflexivity].
  eapply rtc_l; [by apply (delta_open _ _ _ 1%Z)|].
  eapply rtc_l; [by apply (delta_request _ _ _ 1%Z None (Some ex_node)); [apply lookup_insert_eq|left]|].
  rewrite insert_insert_eq. reflexivity.
Qed.
End examples.
