(* ===== verification/Snapshot.v ===== *)
(** * Building snapshots: control-plane/internal/xds/snapshot.go

    [unmarshalAll] and [BuildSnapshot].  protojson and go-control-plane's
    [NewSnapshot] are the operations of the class [XDSLib]; the messages and
    snapshots they produce are opaque types. *)

From S2P Require Import Prelude Eds.

(** The keys of the map handed to [NewSnapshot], one per message type. *)
Inductive ResourceType :=
| ListenerType | ClusterType | RouteType | ScopedRouteType | EndpointType.

#[global] Instance ResourceType_eq_dec : EqDecision ResourceType.
Proof. solve_decision. Defined.
#[global] Instance ResourceType_countable : Countable ResourceType.
Proof.
  refine (inj_countable' (λ t, match t with
      | ListenerType => 0 | ClusterType => 1 | RouteType => 2
      | ScopedRouteType => 3 | EndpointType => 4 end)
    (λ n, match n with
      | 0 => ListenerType | 1 => ClusterType | 2 => RouteType
      | 3 => ScopedRouteType | _ => EndpointType end) _).
  by intros [].
Defined.

(** The library calls: [unmarshaler.Unmarshal] into a new message of the given
    type, [protojson.MarshalOptions{}.Marshal] and [cachev3.NewSnapshot]. *)
Class XDSLib (Resource Snapshot : Type) := {
  Unmarshal : ResourceType → string → result error Resource;
  Marshal : ClusterLoadAssignment → result error string;
  NewSnapshot : string → gmap ResourceType (list Resource) → result error Snapshot
}.

Section snapshot.
Context {Resource Snapshot : Type} `{!XDSLib Resource Snapshot}.

(** The loop of [unmarshalAll] from index [i] on. *)
Fixpoint unmarshalAll_loop (ty : ResourceType) (i : nat) (raws : list string)
    (out : list Resource) : result error (list Resource) :=
  match raws with
  | [] => Ok out
  | raw :: raws =>
      if bool_decide (raw = "") then unmarshalAll_loop ty (S i) raws out
      else match Unmarshal ty raw with
           | Err err => Err (ErrWrap ("item " +:+ pretty i) err)
           | Ok msg => unmarshalAll_loop ty (S i) raws (out ++ [msg])
           end
  end.

(** [func unmarshalAll(raws, newMsg)]; the type stands for [newMsg]. *)
Definition unmarshalAll (raws : list string) (ty : ResourceType)
    : result error (list Resource) :=
  unmarshalAll_loop ty 0 raws [].

(** [func BuildSnapshot(version, ...)] *)
Definition BuildSnapshot (version : string)
    (listenerSpecs clusterSpecs routeSpecs scopedRouteSpecs endpointSpecs : list string)
    : result error Snapshot :=
  listeners ← wrap "listeners" (unmarshalAll listenerSpecs ListenerType);
  clusters ← wrap "clusters" (unmarshalAll clusterSpecs ClusterType);
  routes ← wrap "routes" (unmarshalAll routeSpecs RouteType);
  scopedRoutes ← wrap "scoped routes" (unmarshalAll scopedRouteSpecs ScopedRouteType);
  endpoints ← wrap "endpoints" (unmarshalAll endpointSpecs EndpointType);
  wrap "new snapshot" (NewSnapshot version (list_to_map [
    (ListenerType, listeners); (ClusterType, clusters); (RouteType, routes);
    (ScopedRouteType, scopedRoutes); (EndpointType, endpoints)])).

(** ** Lemmas *)

(** The messages of the specs that are not empty. *)
Definition decoded (ty : ResourceType) (raws : list string) (out : list Resource) : Prop :=
  Forall2 (λ raw msg, Unmarshal ty raw = Ok msg) (filter (λ r, r ≠ "") raws) out.

Lemma unmarshalAll_loop_Ok ty i raws acc out :
  unmarshalAll_loop ty i raws acc = Ok out ↔
  ∃ out', decoded ty raws out' ∧ out = acc ++ out'.
Proof.
  unfold decoded. revert i acc. induction raws as [|raw raws IH]; intros i acc; simpl.
  - split.
    + intros [= <-]. exists []. by rewrite app_nil_r.
    + intros (out' & ->%Forall2_nil_inv_l & ->). by rewrite app_nil_r.
  - destruct (decide (raw = "")) as [->|Hr]; [apply IH|].
    rewrite bool_decide_false, filter_cons_True by done.
    destruct (Unmarshal ty raw) as [msg|err] eqn:Hu.
    + rewrite IH. split.
      * intros (out' & HF & ->). exists (msg :: out').
        split; [by constructor|]. by rewrite <-(assoc_L (++)).
      * intros (out' & HF & ->).
        apply Forall2_cons_inv_l in HF as (m & out'' & Hm & HF & ->).
        assert (msg = m) as -> by congruence.
        exists out''. split; [done|]. by rewrite <-(assoc_L (++)).
    + split; [done|]. intros (out' & HF & _).
      apply Forall2_cons_inv_l in HF as (m & ? & Hm & _). congruence.
Qed.

Lemma unmarshalAll_Ok ty raws out :
  unmarshalAll raws ty = Ok out ↔ decoded ty raws out.
Proof. unfold unmarshalAll. rewrite unmarshalAll_loop_Ok. naive_solver. Qed.

(** The first spec that is not empty and does not decode. *)
Definition first_failure (ty : ResourceType) (raws : list string) (i : nat)
    (err : error) : Prop :=
  ∃ raw, raws !! i = Some raw ∧ raw ≠ "" ∧ Unmarshal ty raw = Err err ∧
    ∀ j raw', j < i → raws !! j = Some raw' →
      raw' = "" ∨ ∃ msg, Unmarshal ty raw' = Ok msg.

Lemma unmarshalAll_loop_Err ty k raws acc e :
  unmarshalAll_loop ty k raws acc = Err e ↔
  ∃ i err, first_failure ty raws i err ∧ e = ErrWrap ("item " +:+ pretty (k + i)) err.
Proof.
  revert k acc. induction raws as [|raw raws IH]; intros k acc; simpl.
  { split; [done|]. by intros (i & err & (raw & Hi & _) & _). }
  assert (∀ k' acc', (raw = "" ∨ ∃ msg, Unmarshal ty raw = Ok msg) →
    unmarshalAll_loop ty (S k') raws acc' = Err e ↔
    ∃ i err, first_failure ty (raw :: raws) i err ∧
      e = ErrWrap ("item " +:+ pretty (k' + i)) err) as Hskip.
  { intros k' acc' Hok. rewrite IH. split.
    - intros (i & err & (raw' & Hi & Hne & Hu & Hj) & ->). exists (S i), err.
      split; [|by rewrite Nat.add_succ_r]. exists raw'. split_and!; try done.
      intros [|j] r ? Hr; simplify_eq/=; [done|]. eapply Hj; [|done]. lia.
    - intros ([|i] & err & (raw' & Hi & Hne & Hu & Hj) & ->); simplify_eq/=.
      { destruct Hok as [|[]]; congruence. }
      exists i, err. split; [|by rewrite Nat.add_succ_r]. exists raw'.
      split_and!; try done. intros j r ? Hr. apply (Hj (S j)); [lia|done]. }
  destruct (decide (raw = "")) as [->|Hr]; [by apply Hskip; left|].
  rewrite bool_decide_false by done.
  destruct (Unmarshal ty raw) as [msg|err] eqn:Hu; [apply Hskip; eauto|].
  split.
  - intros [= <-]. exists 0, err. rewrite Nat.add_0_r. split; [|done].
    exists raw. split_and!; try done. intros j ? ?; lia.
  - intros ([|i] & err' & (raw' & Hi & Hne & Hu' & Hj) & ->); simplify_eq/=.
    + assert (err = err') as -> by congruence. by rewrite Nat.add_0_r.
    + destruct (Hj 0 raw) as [|[]]; [lia|done|done|congruence].
Qed.

Lemma unmarshalAll_Err ty raws e :
  unmarshalAll raws ty = Err e ↔
  ∃ i err, first_failure ty raws i err ∧ e = ErrWrap ("item " +:+ pretty i) err.
Proof. apply unmarshalAll_loop_Err. Qed.

(** A group that fails, with the error [BuildSnapshot] returns for it. *)
Definition group_error (group : string) (ty : ResourceType) (raws : list string)
    (e : error) : Prop :=
  ∃ i err, first_failure ty raws i err ∧
    e = ErrWrap group (ErrWrap ("item " +:+ pretty i) err).

Lemma wrap_unmarshalAll_Err group ty raws e :
  wrap group (unmarshalAll raws ty) = Err e ↔ group_error group ty raws e.
Proof. rewrite wrap_Err. setoid_rewrite unmarshalAll_Err. unfold group_error. naive_solver. Qed.

(** ** Properties *)

(** [C14] [BuildSnapshot] succeeds iff every non-empty spec of the five groups
    decodes and the library accepts the resources; the snapshot then holds,
    per type, exactly the messages of the non-empty specs, in order. *)
Theorem BuildSnapshot_Ok version ls cs rs srs es snap :
  BuildSnapshot version ls cs rs srs es = Ok snap ↔
  ∃ l c r sr e,
    decoded ListenerType ls l ∧ decoded ClusterType cs c ∧ decoded RouteType rs r ∧
    decoded ScopedRouteType srs sr ∧ decoded EndpointType es e ∧
    NewSnapshot version (list_to_map [(ListenerType, l); (ClusterType, c);
      (RouteType, r); (ScopedRouteType, sr); (EndpointType, e)]) = Ok snap.
Proof.
  unfold BuildSnapshot. repeat setoid_rewrite bind_Ok. repeat setoid_rewrite wrap_Ok.
  repeat setoid_rewrite unmarshalAll_Ok. naive_solver.
Qed.

(** [C15] The error paths of [BuildSnapshot]: it fails iff one group does not
    decode while all groups before it (in the order listeners, clusters,
    routes, scoped routes, endpoints) do, or the library rejects the decoded
    resources.  The error names the group and the index, counted over all
    specs of the group, of the first spec that does not decode. *)
Theorem BuildSnapshot_Err version ls cs rs srs es e :
  BuildSnapshot version ls cs rs srs es = Err e ↔
  group_error "listeners" ListenerType ls e ∨
  ∃ l, decoded ListenerType ls l ∧ (group_error "clusters" ClusterType cs e ∨
  ∃ c, decoded ClusterType cs c ∧ (group_error "routes" RouteType rs e ∨
  ∃ r, decoded RouteType rs r ∧ (group_error "scoped routes" ScopedRouteType srs e ∨
  ∃ sr, decoded ScopedRouteType srs sr ∧ (group_error "endpoints" EndpointType es e ∨
  ∃ en, decoded EndpointType es en ∧
    ∃ err, NewSnapshot version (list_to_map [(ListenerType, l); (ClusterType, c);
      (RouteType, r); (ScopedRouteType, sr); (EndpointType, en)]) = Err err ∧
    e = ErrWrap "new snapshot" err)))).
Proof.
  unfold BuildSnapshot. repeat setoid_rewrite bind_Err.
  repeat setoid_rewrite wrap_unmarshalAll_Err. setoid_rewrite wrap_Err.
  repeat setoid_rewrite wrap_Ok. repeat setoid_rewrite unmarshalAll_Ok. done.
Qed.
End snapshot.
