(* ===== verification/Controller.v ===== *)
(** * The reconciler: control-plane/internal/controller/envoyproxy_controller.go

    [Reconcile] reads the custom resources through the Kubernetes client,
    keeps those that target the proxy, synthesizes endpoint assignments,
    builds a snapshot and stores it in the xDS cache, and reports through the
    status conditions.  The Kubernetes client (controller-runtime) is the
    class [Client] over an abstract API state; [ClientLaws] states what its
    documentation promises.  All reads of one [Reconcile] see one API state
    here; Steps.v has the calls one by one.  Logging is not modelled. *)

From S2P Require Import Prelude GoStrings GoSha256 Types Eds Server Snapshot.

(** ** controller-runtime's client and apimachinery's helpers *)

Class Client (Api : Type) := {
  Get_EnvoyProxy : Api → NamespacedName → result error EnvoyProxy;
  List_Listener : Api → result error (list Listener);
  List_Cluster : Api → result error (list Cluster);
  List_RouteConfiguration : Api → result error (list RouteConfiguration);
  List_ScopedRouteConfiguration : Api → result error (list ScopedRouteConfiguration);
  List_ClusterLoadAssignment : Api → result error (list ClusterLoadAssignmentCR);
  (** [List] with [InNamespace(ns)] and [MatchingLabels(sel)] *)
  List_EndpointSlice : Api → string → gmap string string → result error (list EndpointSlice);
  (** [Status().Update(ctx, ep)] writes the server's answer back into [ep]. *)
  Status_Update : Api → EnvoyProxy → Api * EnvoyProxy * option error;
  IgnoreNotFound : error → option error;
  (** [meta.SetStatusCondition(&conditions, cond)] *)
  SetStatusCondition : list Condition → Condition → list Condition
}.

Section controller.
Context {Api Cache Resource Snapshot : Type}.
Context `{!Client Api, !SnapshotCache Cache Snapshot, !XDSLib Resource Snapshot}.

(** [EnvoyProxyReconciler]: the client's view of the API server, and the
    xDS server. *)
Record World := mkWorld { w_Api : Api; w_Server : Server Cache }.

(** ** Selecting resources *)

(** [func targetMatches(ref, itemNS, proxyNS, proxyName) bool] *)
Definition targetMatches (ref : TargetRef) (itemNS proxyNS proxyName : string) : bool :=
  let ns := if bool_decide (tr_Namespace ref = "") then itemNS else tr_Namespace ref in
  bool_decide (tr_Name ref = proxyName) && bool_decide (ns = proxyNS).

(** The loop of the four [collect] functions: raw specs and versions of the
    items that target the proxy. *)
Definition collect_loop {T} `{!XDSObject T} (proxyNS proxyName : string) (items : list T)
    : list string * list string :=
  foldl (λ '(specs, versions) item,
    if targetMatches (GetTargetRef item) (om_Namespace (GetObjectMeta item)) proxyNS proxyName
    then (specs ++ [GetSpecRaw item],
          versions ++ [om_ResourceVersion (GetObjectMeta item)])
    else (specs, versions)) ([], []) items.

Definition collectListeners (api : Api) (proxyNS proxyName : string)
    : result error (list string * list string) :=
  list ← List_Listener api; Ok (collect_loop proxyNS proxyName list).

Definition collectRoutes (api : Api) (proxyNS proxyName : string)
    : result error (list string * list string) :=
  list ← List_RouteConfiguration api; Ok (collect_loop proxyNS proxyName list).

Definition collectScopedRoutes (api : Api) (proxyNS proxyName : string)
    : result error (list string * list string) :=
  list ← List_ScopedRouteConfiguration api; Ok (collect_loop proxyNS proxyName list).

(** [collectClusters] also returns the matching items. *)
Definition collectClusters (api : Api) (proxyNS proxyName : string)
    : result error (list string * list string * list Cluster) :=
  list ← List_Cluster api;
  Ok (foldl (λ '(specs, versions, items) item,
    if targetMatches (cl_TargetRef item) (om_Namespace (cl_meta item)) proxyNS proxyName
    then (specs ++ [cl_Spec_Raw item],
          versions ++ [om_ResourceVersion (cl_meta item)],
          items ++ [item])
    else (specs, versions, items)) ([], [], []) list).

(** ** Endpoints *)

Definition service_label : string := "kubernetes.io/service-name".

(** Part 1: the manual CLA resources, and the names they block. *)
Definition manual_loop (proxyNS proxyName : string) (items : list ClusterLoadAssignmentCR)
    : list string * list string * gset string :=
  foldl (λ '(specs, versions, manualNames) item,
    if targetMatches (la_TargetRef item) (om_Namespace (la_meta item)) proxyNS proxyName
    then (specs ++ [la_Spec_Raw item],
          versions ++ [om_ResourceVersion (la_meta item)],
          {[ClusterName (la_Spec_Raw item)]} ∪ manualNames)
    else (specs, versions, manualNames)) ([], [], ∅) items.

(** Part 2: the clusters with a service reference that no manual name blocks. *)
Fixpoint synth_loop (api : Api) (manualNames : gset string) (clusterItems : list Cluster)
    (specs versions : list string) : result error (list string * list string) :=
  match clusterItems with
  | [] => Ok (specs, versions)
  | cluster :: clusterItems =>
      match cl_KubernetesServiceRef cluster with
      | None => synth_loop api manualNames clusterItems specs versions
      | Some ref =>
          let clusterName := ClusterName (cl_Spec_Raw cluster) in
          if bool_decide (clusterName = "") || bool_decide (clusterName ∈ manualNames)
          then synth_loop api manualNames clusterItems specs versions
          else
            let svcNS := if bool_decide (ks_Namespace ref = "")
                         then om_Namespace (cl_meta cluster) else ks_Namespace ref in
            slices ← wrap ("list endpointslices for " +:+ svcNS +:+ "/" +:+ ks_Name ref)
                       (List_EndpointSlice api svcNS {[service_label := ks_Name ref]});
            raw ← wrap ("marshal synthesized CLA for cluster " +:+ clusterName)
                    (Marshal (SynthesizeCLA clusterName slices (ks_Port ref)));
            synth_loop api manualNames clusterItems (specs ++ [raw])
              (versions ++ ((λ s, om_ResourceVersion (es_meta s)) <$> slices))
      end
  end.

Definition collectEndpoints (api : Api) (proxyNS proxyName : string)
    (clusterItems : list Cluster) : result error (list string * list string) :=
  claList ← List_ClusterLoadAssignment api;
  let '(specs, versions, manualNames) := manual_loop proxyNS proxyName claList in
  synth_loop api manualNames clusterItems specs versions.

(** ** Versions *)

(** [func computeVersion(groups ...[]string) string] *)
Definition computeVersion (groups : list (list string)) : string :=
  let written := foldl (λ h group, foldl (λ h v, h +:+ v) h group) "" groups in
  take_bytes 16 (EncodeToString (sha256 written)).

(** ** Reconciling *)

Definition nodeID (name namespace : string) : string := name +:+ "." +:+ namespace.

(** [func (r) setCondition(ctx, ep, ...)]: [ep] is updated in place, then
    sent to the API server; a failed update is only logged. *)
Definition setCondition (w : World) (ep : EnvoyProxy) (condType : string)
    (status : ConditionStatus) (reason msg : string) : World * EnvoyProxy :=
  let gen := om_Generation (ep_meta ep) in
  let ep1 := {|
    ep_meta := ep_meta ep;
    ep_Status := {|
      st_ObservedGeneration := gen;
      st_Conditions := SetStatusCondition (st_Conditions (ep_Status ep)) {|
        c_Type := condType; c_Status := status; c_Reason := reason;
        c_Message := msg; c_ObservedGeneration := gen |} |} |} in
  let '(api', ep2, _) := Status_Update (w_Api w) ep1 in
  ({| w_Api := api'; w_Server := w_Server w |}, ep2).

(** What one reconcile reads: the specs of the five groups and the version. *)
Record Collected := {
  co_listeners : list string;
  co_clusters : list string;
  co_routes : list string;
  co_scopedRoutes : list string;
  co_endpoints : list string;
  co_version : string
}.

(** Lines 71-92 of [Reconcile]. *)
Definition collect (api : Api) (proxyNS proxyName : string) : result error Collected :=
  '(listeners, lVers) ← wrap "collect listeners" (collectListeners api proxyNS proxyName);
  '(clusters, cVers, clusterItems) ←
    wrap "collect clusters" (collectClusters api proxyNS proxyName);
  '(routes, rVers) ← wrap "collect routes" (collectRoutes api proxyNS proxyName);
  '(scopedRoutes, srVers) ←
    wrap "collect scoped routes" (collectScopedRoutes api proxyNS proxyName);
  '(endpoints, eVers) ←
    wrap "collect endpoints" (collectEndpoints api proxyNS proxyName clusterItems);
  Ok {| co_listeners := listeners; co_clusters := clusters; co_routes := routes;
        co_scopedRoutes := scopedRoutes; co_endpoints := endpoints;
        co_version := computeVersion [lVers; cVers; rVers; srVers; eVers] |}.

Definition build (c : Collected) : result error Snapshot :=
  BuildSnapshot (co_version c) (co_listeners c) (co_clusters c) (co_routes c)
    (co_scopedRoutes c) (co_endpoints c).

(** [func (r *EnvoyProxyReconciler) Reconcile(ctx, req)] *)
Definition Reconcile (w : World) (req : NamespacedName) : World * option error :=
  match Get_EnvoyProxy (w_Api w) req with
  | Err err => (w, IgnoreNotFound err)
  | Ok ep =>
      let name := om_Name (ep_meta ep) in
      let namespace := om_Namespace (ep_meta ep) in
      let node := nodeID name namespace in
      match collect (w_Api w) namespace name with
      | Err err => (w, Some err)
      | Ok c =>
          match build c with
          | Err err =>
              let '(w1, _) := setCondition w ep ConditionReady ConditionFalse
                                "SnapshotBuildFailed" (Error err) in
              (w1, Some (ErrWrap "build snapshot" err))
          | Ok snap =>
              let '(cache', set_err) := SetSnapshot (srv_Cache (w_Server w)) node snap in
              let w1 := {| w_Api := w_Api w;
                           w_Server := mkServer cache' (srv_connected (w_Server w)) |} in
              match set_err with
              | Some err =>
                  let '(w2, _) := setCondition w1 ep ConditionReady ConditionFalse
                                    "SnapshotSetFailed" (Error err) in
                  (w2, Some (ErrWrap "set snapshot" err))
              | None =>
                  let connStatus := if IsConnected (w_Server w1) node
                                    then ConditionTrue else ConditionFalse in
                  let '(w2, ep2) := setCondition w1 ep ConditionConnected connStatus
                                      "StreamStatus" "" in
                  let '(w3, _) := setCondition w2 ep2 ConditionReady ConditionTrue
                                    "SnapshotReady" ("version=" +:+ co_version c) in
                  (w3, None)
              end
          end
      end
  end.

(** ** Watch handlers *)

(** [func (r) mapXDSResourceToProxy(ctx, obj)]; [tr] is the outcome of the
    assertion of [obj] to the interface with [GetTargetRef]. *)
Definition mapXDSResourceToProxy (obj : ObjectMeta) (tr : option TargetRef)
    : list NamespacedName :=
  match tr with
  | None => []
  | Some ref =>
      let ns := if bool_decide (tr_Namespace ref = "")
                then om_Namespace obj else tr_Namespace ref in
      [{| nn_Name := tr_Name ref; nn_Namespace := ns |}]
  end.

(** The handler on the kinds [SetupWithManager] watches with it. *)
Definition map_object {T} `{!XDSObject T} (obj : T) : list NamespacedName :=
  mapXDSResourceToProxy (GetObjectMeta obj) (Some (GetTargetRef obj)).

(** The loop of [mapEndpointSliceToProxies]. *)
Fixpoint slice_requests_loop (svcName sliceNS : string) (clusters : list Cluster)
    (seen : gset NamespacedName) (reqs : list NamespacedName) : list NamespacedName :=
  match clusters with
  | [] => reqs
  | cluster :: clusters =>
      match cl_KubernetesServiceRef cluster with
      | None => slice_requests_loop svcName sliceNS clusters seen reqs
      | Some ref =>
          let refNS := if bool_decide (ks_Namespace ref = "")
                       then om_Namespace (cl_meta cluster) else ks_Namespace ref in
          if bool_decide (ks_Name ref ≠ svcName) || bool_decide (refNS ≠ sliceNS)
          then slice_requests_loop svcName sliceNS clusters seen reqs
          else
            let tref := cl_TargetRef cluster in
            let targetNS := if bool_decide (tr_Namespace tref = "")
                            then om_Namespace (cl_meta cluster) else tr_Namespace tref in
            let key := {| nn_Name := tr_Name tref; nn_Namespace := targetNS |} in
            if bool_decide (key ∈ seen)
            then slice_requests_loop svcName sliceNS clusters seen reqs
            else slice_requests_loop svcName sliceNS clusters ({[key]} ∪ seen) (reqs ++ [key])
      end
  end.

Definition mapEndpointSliceToProxies (api : Api) (slice : EndpointSlice)
    : list NamespacedName :=
  match om_Labels (es_meta slice) !! service_label with
  | None => []
  | Some svcName =>
      match List_Cluster api with
      | Err _ => []
      | Ok clusters =>
          slice_requests_loop svcName (om_Namespace (es_meta slice)) clusters ∅ []
      end
  end.
End controller.

Arguments World : clear implicits.
Arguments mkWorld {Api Cache} _ _.

(** ** Lemmas *)

(** *** Selection *)

(** The proxy a reference in namespace [itemNS] points to. *)
Definition target_key (ref : TargetRef) (itemNS : string) : NamespacedName := {|
  nn_Name := tr_Name ref;
  nn_Namespace := if bool_decide (tr_Namespace ref = "") then itemNS else tr_Namespace ref |}.

Definition object_key {T} `{!XDSObject T} (obj : T) : NamespacedName :=
  target_key (GetTargetRef obj) (om_Namespace (GetObjectMeta obj)).

Lemma targetMatches_key ref itemNS ns name :
  targetMatches ref itemNS ns name = true ↔
  target_key ref itemNS = {| nn_Namespace := ns; nn_Name := name |}.
Proof.
  unfold targetMatches, target_key. rewrite andb_true_iff, !bool_decide_eq_true.
  naive_solver.
Qed.

Lemma map_object_key {T} `{!XDSObject T} (obj : T) : map_object obj = [object_key obj].
Proof. done. Qed.

(** The items that target the proxy, in list order. *)
Definition targeting {T} `{!XDSObject T} (key : NamespacedName) (items : list T) : list T :=
  filter (λ i, object_key i = key) items.

Lemma targeting_cons {T} `{!XDSObject T} key (i : T) items :
  targeting key (i :: items) =
  if targetMatches (GetTargetRef i) (om_Namespace (GetObjectMeta i))
       (nn_Namespace key) (nn_Name key)
  then i :: targeting key items else targeting key items.
Proof.
  unfold targeting. rewrite filter_cons. destruct key as [ns name]; simpl.
  destruct (targetMatches _ _ _ _) eqn:Hm.
  - apply targetMatches_key in Hm. by rewrite decide_True.
  - rewrite decide_False; [done|]. intros Hk. apply targetMatches_key in Hk. congruence.
Qed.

Lemma targeting_app {T} `{!XDSObject T} key (l k : list T) :
  targeting key (l ++ k) = targeting key l ++ targeting key k.
Proof. apply filter_app. Qed.

Lemma targeting_other {T} `{!XDSObject T} key (l1 l2 : list T) (o : option T) :
  (∀ x, o = Some x → object_key x ≠ key) →
  targeting key (l1 ++ option_list o ++ l2) = targeting key (l1 ++ l2).
Proof.
  intros Ho. rewrite !targeting_app. f_equal. destruct o as [x|]; [|done].
  simpl. unfold targeting at 1. rewrite filter_cons_False by (by apply Ho). done.
Qed.

Definition version_of {T} `{!XDSObject T} (i : T) : string :=
  om_ResourceVersion (GetObjectMeta i).

Lemma collect_loop_spec {T} `{!XDSObject T} ns name (items : list T) :
  collect_loop ns name items =
  (GetSpecRaw <$> targeting {| nn_Namespace := ns; nn_Name := name |} items,
   version_of <$> targeting {| nn_Namespace := ns; nn_Name := name |} items).
Proof.
  unfold collect_loop. set (key := {| nn_Namespace := ns; nn_Name := name |}).
  enough (∀ acc1 acc2, foldl _ (acc1, acc2) items =
    (acc1 ++ (GetSpecRaw <$> targeting key items),
     acc2 ++ (version_of <$> targeting key items))) as Hgen by apply Hgen.
  induction items as [|i items IH]; intros acc1 acc2; simpl; [by rewrite !app_nil_r|].
  rewrite targeting_cons. simpl. destruct (targetMatches _ _ _ _); [|apply IH].
  rewrite IH. unfold version_of. csimpl. by rewrite <-!(assoc_L (++)).
Qed.

Section controller_facts.
Context {Api Cache Resource Snapshot : Type}.
Context `{!Client Api, !SnapshotCache Cache Snapshot, !XDSLib Resource Snapshot}.
Implicit Types (api : Api) (w : World Api Cache).

Lemma collectClusters_spec api ns name :
  collectClusters api ns name =
  list ← List_Cluster api;
  let sel := targeting {| nn_Namespace := ns; nn_Name := name |} list in
  Ok (cl_Spec_Raw <$> sel, version_of <$> sel, sel).
Proof.
  unfold collectClusters. destruct (List_Cluster api) as [items|]; [|done]. simpl.
  f_equal. set (key := {| nn_Namespace := ns; nn_Name := name |}).
  enough (∀ acc1 acc2 acc3, foldl _ (acc1, acc2, acc3) items =
    (acc1 ++ (cl_Spec_Raw <$> targeting key items),
     acc2 ++ (version_of <$> targeting key items),
     acc3 ++ targeting key items)) as Hgen by apply Hgen.
  induction items as [|i items IH]; intros acc1 acc2 acc3; simpl;
    [by rewrite !app_nil_r|].
  rewrite targeting_cons. simpl. destruct (targetMatches _ _ _ _); [|apply IH].
  rewrite IH. unfold version_of. csimpl. by rewrite <-!(assoc_L (++)).
Qed.

(** *** Endpoints *)

Definition manual_names (key : NamespacedName) (items : list ClusterLoadAssignmentCR)
    : gset string :=
  list_to_set ((λ i, ClusterName (la_Spec_Raw i)) <$> targeting key items).

Lemma manual_loop_spec ns name items :
  let key := {| nn_Namespace := ns; nn_Name := name |} in
  manual_loop ns name items =
  (la_Spec_Raw <$> targeting key items, version_of <$> targeting key items,
   manual_names key items).
Proof.
  intros key. unfold manual_loop.
  enough (∀ acc1 acc2 acc3, foldl _ (acc1, acc2, acc3) items =
    (acc1 ++ (la_Spec_Raw <$> targeting key items),
     acc2 ++ (version_of <$> targeting key items),
     manual_names key items ∪ acc3)) as Hgen
    by (rewrite Hgen; by rewrite (right_id_L ∅ (∪))).
  unfold manual_names.
  induction items as [|i items IH]; intros acc1 acc2 acc3; simpl.
  { rewrite !app_nil_r. f_equal. set_solver. }
  rewrite targeting_cons. simpl. destruct (targetMatches _ _ _ _); [|apply IH].
  rewrite IH. unfold version_of. csimpl. rewrite <-!(assoc_L (++)). f_equal. set_solver.
Qed.

Definition service_ns (c : Cluster) (ref : KubernetesServiceRef) : string :=
  if bool_decide (ks_Namespace ref = "") then om_Namespace (cl_meta c) else ks_Namespace ref.

(** The clusters an assignment is synthesized for. *)
Definition auto (manual : gset string) (c : Cluster) : Prop :=
  is_Some (cl_KubernetesServiceRef c) ∧ ClusterName (cl_Spec_Raw c) ≠ "" ∧
  ClusterName (cl_Spec_Raw c) ∉ manual.
#[global] Instance auto_dec manual c : Decision (auto manual c).
Proof. unfold auto. apply _. Defined.

(** The spec and versions one such cluster contributes. *)
Definition synthesized (api : Api) (c : Cluster) (out : string * list string) : Prop :=
  ∃ ref slices, cl_KubernetesServiceRef c = Some ref ∧
    List_EndpointSlice api (service_ns c ref) {[service_label := ks_Name ref]} = Ok slices ∧
    Marshal (SynthesizeCLA (ClusterName (cl_Spec_Raw c)) slices (ks_Port ref)) = Ok out.1 ∧
    out.2 = (λ s, om_ResourceVersion (es_meta s)) <$> slices.

Lemma synth_loop_skip api manual c items specs vers :
  ¬ auto manual c →
  synth_loop api manual (c :: items) specs vers = synth_loop api manual items specs vers.
Proof.
  intros Hn. simpl. destruct (cl_KubernetesServiceRef c) as [ref|] eqn:Hr; [|done].
  destruct (bool_decide (ClusterName _ = "") || _) eqn:Hb; [done|].
  apply orb_false_iff in Hb as [?%bool_decide_eq_false_1 ?%bool_decide_eq_false_1].
  destruct Hn. split_and!; [eauto|done|done].
Qed.

Lemma synth_loop_auto api manual c items specs vers :
  auto manual c →
  ∃ ref, cl_KubernetesServiceRef c = Some ref ∧
  synth_loop api manual (c :: items) specs vers =
    slices ← wrap ("list endpointslices for " +:+ service_ns c ref +:+ "/" +:+ ks_Name ref)
               (List_EndpointSlice api (service_ns c ref) {[service_label := ks_Name ref]});
    raw ← wrap ("marshal synthesized CLA for cluster " +:+ ClusterName (cl_Spec_Raw c))
            (Marshal (SynthesizeCLA (ClusterName (cl_Spec_Raw c)) slices (ks_Port ref)));
    synth_loop api manual items (specs ++ [raw])
      (vers ++ ((λ s, om_ResourceVersion (es_meta s)) <$> slices)).
Proof.
  intros ([ref Hr] & Hne & Hm). exists ref. split; [done|]. simpl. rewrite Hr.
  by rewrite (bool_decide_false (_ = "")), (bool_decide_false (_ ∈ manual)) by done.
Qed.

Lemma synth_loop_Ok api manual items specs vers res :
  synth_loop api manual items specs vers = Ok res ↔
  ∃ outs, Forall2 (synthesized api) (filter (auto manual) items) outs ∧
    res = (specs ++ outs.*1, vers ++ mjoin outs.*2).
Proof.
  revert specs vers. induction items as [|c items IH]; intros specs vers.
  { simpl. split.
    - intros [= <-]. exists []. simpl. by rewrite !app_nil_r.
    - intros (outs & ->%Forall2_nil_inv_l & ->). simpl. by rewrite !app_nil_r. }
  destruct (decide (auto manual c)) as [Ha|Ha].
  - rewrite filter_cons_True by done.
    destruct (synth_loop_auto api manual c items specs vers Ha) as (ref & Hr & ->).
    split.
    + intros (slices & Hs%wrap_Ok & (raw & Hraw%wrap_Ok & Hl)%bind_Ok)%bind_Ok.
      apply IH in Hl as (outs & HF & ->).
      exists ((raw, (λ s, om_ResourceVersion (es_meta s)) <$> slices) :: outs).
      split; [constructor; [by exists ref, slices|done]|].
      csimpl. by rewrite <-!(assoc_L (++)).
    + intros (outs & HF & ->).
      apply Forall2_cons_inv_l in HF as ([raw v] & outs' & Hsy & HF & ->).
      destruct Hsy as (ref' & slices & Hr' & Hs & Hraw & Hv). simpl in Hraw, Hv. simplify_eq.
      rewrite Hs. simpl. rewrite Hraw. simpl. apply IH. exists outs'. split; [done|].
      csimpl. by rewrite <-!(assoc_L (++)).
  - rewrite filter_cons_False, synth_loop_skip by done. apply IH.
Qed.

Lemma collectEndpoints_Ok api ns name clusterItems res :
  let key := {| nn_Namespace := ns; nn_Name := name |} in
  collectEndpoints api ns name clusterItems = Ok res ↔
  ∃ manual outs, List_ClusterLoadAssignment api = Ok manual ∧
    Forall2 (synthesized api) (filter (auto (manual_names key manual)) clusterItems) outs ∧
    res = ((la_Spec_Raw <$> targeting key manual) ++ outs.*1,
           (version_of <$> targeting key manual) ++ mjoin outs.*2).
Proof.
  intros key. unfold collectEndpoints. rewrite bind_Ok.
  setoid_rewrite manual_loop_spec. setoid_rewrite synth_loop_Ok. naive_solver.
Qed.

(** *** Watch handlers *)

(** The cluster reads the endpoints of this service. *)
Definition refers (svcName ns : string) (c : Cluster) : Prop :=
  ∃ ref, cl_KubernetesServiceRef c = Some ref ∧ ks_Name ref = svcName ∧
    service_ns c ref = ns.

Lemma slice_requests_loop_spec svcName ns clusters seen reqs :
  NoDup reqs → (∀ k, k ∈ seen ↔ k ∈ reqs) →
  let res := slice_requests_loop svcName ns clusters seen reqs in
  NoDup res ∧
  ∀ k, k ∈ res ↔ k ∈ reqs ∨ ∃ c, c ∈ clusters ∧ refers svcName ns c ∧ object_key c = k.
Proof.
  revert seen reqs. induction clusters as [|c clusters IH]; intros seen reqs Hnd Hseen.
  { simpl. split; [done|]. intros k. split; [by left|].
    intros [?|(c & Hc & _)]; [done|by apply elem_of_nil in Hc]. }
  assert (∀ P : NamespacedName → Prop, (¬ refers svcName ns c) →
    (∀ k, P k ↔ k ∈ reqs ∨ ∃ c, c ∈ clusters ∧ refers svcName ns c ∧ object_key c = k) →
    ∀ k, P k ↔ k ∈ reqs ∨ ∃ c', c' ∈ c :: clusters ∧ refers svcName ns c' ∧
      object_key c' = k) as Hskip.
  { intros P Hn HP k. rewrite HP. setoid_rewrite elem_of_cons. naive_solver. }
  simpl. destruct (cl_KubernetesServiceRef c) as [ref|] eqn:Hr.
  2:{ destruct (IH seen reqs Hnd Hseen) as [H1 H2]. split; [done|].
      apply Hskip; [|done]. intros (ref & Hr' & _). congruence. }
  fold (service_ns c ref). destruct (_ || _) eqn:Hb.
  { destruct (IH seen reqs Hnd Hseen) as [H1 H2]. split; [done|].
    apply Hskip; [|done]. intros (ref' & Hr' & Hn & Hs). simplify_eq.
    apply orb_true_iff in Hb as [Hb|Hb]; by apply bool_decide_eq_true_1 in Hb. }
  apply orb_false_iff in Hb as [Hb1 Hb2].
  apply bool_decide_eq_false_1, dec_stable in Hb1.
  apply bool_decide_eq_false_1, dec_stable in Hb2.
  assert (refers svcName ns c) as Href by (by exists ref).
  change ({| nn_Namespace := _; nn_Name := tr_Name (cl_TargetRef c) |}) with (object_key c).
  case_bool_decide as Hk.
  - destruct (IH seen reqs Hnd Hseen) as [H1 H2]. split; [done|].
    intros k. rewrite H2. setoid_rewrite elem_of_cons. apply Hseen in Hk. naive_solver.
  - destruct (IH ({[object_key c]} ∪ seen) (reqs ++ [object_key c])) as [H1 H2].
    + rewrite Hseen in Hk. apply NoDup_app. split; [done|]. split; [|apply NoDup_singleton].
      intros x Hx ->%list_elem_of_singleton. done.
    + intros k. rewrite elem_of_union, elem_of_singleton, elem_of_app,
        list_elem_of_singleton, Hseen. naive_solver.
    + split; [done|]. intros k. rewrite H2, elem_of_app, list_elem_of_singleton.
      setoid_rewrite elem_of_cons. naive_solver.
Qed.

Lemma elem_of_mapEndpointSlice api slice clusters k :
  List_Cluster api = Ok clusters →
  k ∈ mapEndpointSliceToProxies api slice ↔
  ∃ svcName c, om_Labels (es_meta slice) !! service_label = Some svcName ∧
    c ∈ clusters ∧ refers svcName (om_Namespace (es_meta slice)) c ∧ object_key c = k.
Proof.
  intros Hl. unfold mapEndpointSliceToProxies. rewrite Hl.
  destruct (_ !! service_label) as [svcName|].
  - destruct (slice_requests_loop_spec svcName (om_Namespace (es_meta slice)) clusters ∅ [])
      as [_ ->]; [constructor|set_solver|].
    rewrite elem_of_nil. naive_solver.
  - rewrite elem_of_nil. naive_solver.
Qed.

(** *** Versions *)

Lemma computeVersion_concat groups :
  computeVersion groups =
  take_bytes 16 (EncodeToString (sha256 (foldr String.app "" (mjoin groups)))).
Proof.
  unfold computeVersion. do 3 f_equal.
  assert (∀ l acc, foldl (λ h v, h +:+ v) acc l = acc +:+ foldr String.app "" l) as Hin.
  { intros l. induction l as [|v l IH]; intros acc; simpl.
    - by rewrite string_app_nil_r.
    - by rewrite IH, string_app_assoc. }
  assert (∀ l k, foldr String.app "" (l ++ k) =
    foldr String.app "" l +:+ foldr String.app "" k) as Happ.
  { intros l k. induction l as [|v l IH]; [done|]. simpl. by rewrite IH, string_app_assoc. }
  enough (∀ gs acc, foldl (λ h group, foldl (λ h v, h +:+ v) h group) acc gs =
    acc +:+ foldr String.app "" (mjoin gs)) as Hgs by (by rewrite Hgs).
  intros gs. induction gs as [|g gs IH]; intros acc; simpl.
  - by rewrite string_app_nil_r.
  - by rewrite IH, Hin, Happ, string_app_assoc.
Qed.
End controller_facts.

(** *** Node ids *)

Lemma nodeID_inj n1 ns1 n2 ns2 :
  has_byte "." ns1 = false → has_byte "." ns2 = false →
  nodeID n1 ns1 = nodeID n2 ns2 → n1 = n2 ∧ ns1 = ns2.
Proof.
  unfold nodeID. intros H1 H2 Heq.
  assert (Split n1 "." ++ [ns1] = Split n2 "." ++ [ns2]) as [Hn ->]%app_inj_tail.
  { rewrite <-(Split_no_byte ns1 "."), <-(Split_no_byte ns2 ".") by done.
    rewrite <-!Split_app. by f_equal. }
  split; [|done]. by rewrite <-(Join_Split n1 "."), <-(Join_Split n2 "."), Hn.
Qed.
