(* ===== verification/Reconcile.v ===== *)
(** * What reconciling guarantees

    The laws of the Kubernetes client the controller relies on
    ([ClientLaws]), a store that satisfies them ([Store]), and the properties
    of the operations of Controller.v: which resources end up in a snapshot,
    what a reconcile changes on every outcome, what it reports, and how the
    snapshot version and the node id behave. *)

From S2P Require Import Prelude GoStrings GoJson GoSha256 Types Eds Server Snapshot Controller.

(** ** The client's contract *)

Definition proxy_key (ep : EnvoyProxy) : NamespacedName :=
  {| nn_Namespace := om_Namespace (ep_meta ep); nn_Name := om_Name (ep_meta ep) |}.

Definition find_cond (ty : string) (cs : list Condition) : option Condition :=
  head (filter (λ c, c_Type c = ty) cs).

(** Two API states hold the same resources, proxies aside. *)
Record same_resources {Api} `{!Client Api} (api api' : Api) : Prop := {
  same_listeners : List_Listener api = List_Listener api';
  same_clusters : List_Cluster api = List_Cluster api';
  same_routes : List_RouteConfiguration api = List_RouteConfiguration api';
  same_scoped : List_ScopedRouteConfiguration api = List_ScopedRouteConfiguration api';
  same_clas : List_ClusterLoadAssignment api = List_ClusterLoadAssignment api';
  same_slices : ∀ ns sel, List_EndpointSlice api ns sel = List_EndpointSlice api' ns sel
}.

#[global] Instance same_resources_equivalence {Api} `{!Client Api} :
  Equivalence (same_resources (Api := Api)).
Proof.
  split.
  - by intros api.
  - intros ? ? []. split; intros; by symmetry; auto.
  - intros ? ? ? [] []. split; intros; etrans; eauto.
Qed.

Class ClientLaws (Api : Type) `{!Client Api} := {
  (** [Get] returns the object it was asked for. *)
  get_key : ∀ (api : Api) k ep, Get_EnvoyProxy api k = Ok ep → proxy_key ep = k;
  (** A status update touches nothing but the status of its proxy. *)
  status_resources : ∀ (api api' : Api) ep ep' e,
    Status_Update api ep = (api', ep', e) → same_resources api api';
  status_other : ∀ (api api' : Api) ep ep' e k,
    Status_Update api ep = (api', ep', e) → k ≠ proxy_key ep →
    Get_EnvoyProxy api' k = Get_EnvoyProxy api k;
  status_presence : ∀ (api api' : Api) ep ep' e,
    Status_Update api ep = (api', ep', e) →
    is_Ok (Get_EnvoyProxy api' (proxy_key ep)) = is_Ok (Get_EnvoyProxy api (proxy_key ep));
  (** It leaves the identity of the object in memory alone. *)
  status_key : ∀ (api api' : Api) ep ep' e,
    Status_Update api ep = (api', ep', e) → proxy_key ep' = proxy_key ep;
  (** A successful one stores the status and returns the stored object. *)
  status_stored : ∀ (api api' : Api) ep ep',
    Status_Update api ep = (api', ep', None) →
    Get_EnvoyProxy api' (proxy_key ep) = Ok ep' ∧ ep_Status ep' = ep_Status ep;
  (** After a failed one the object in memory is what it was. *)
  status_failed : ∀ (api api' : Api) ep ep' err,
    Status_Update api ep = (api', ep', Some err) → ep' = ep;
  (** Either nothing is written, or the stored object gets a status that is not
      the one it had, and keeps its generation: the API server does not write
      an update that changes nothing. *)
  status_written : ∀ (api api' : Api) ep ep' e,
    Status_Update api ep = (api', ep', e) →
    Get_EnvoyProxy api' (proxy_key ep) = Get_EnvoyProxy api (proxy_key ep) ∨
    ∃ old new, Get_EnvoyProxy api (proxy_key ep) = Ok old ∧
      Get_EnvoyProxy api' (proxy_key ep) = Ok new ∧
      ep_Status new = ep_Status ep ∧ ep_Status new ≠ ep_Status old ∧
      om_Generation (ep_meta new) = om_Generation (ep_meta old);
  (** [client.IgnoreNotFound] drops an error or passes it on. *)
  ignore_not_found : ∀ err, IgnoreNotFound err = None ∨ IgnoreNotFound err = Some err;
  (** [meta.SetStatusCondition] sets the condition of its type. *)
  set_condition : ∀ cs c ty,
    find_cond ty (SetStatusCondition cs c) =
    if decide (ty = c_Type c) then Some c else find_cond ty cs;
  (** ... and changes nothing when that is the condition there is (the time of
      the last transition, which is not modelled, moves only with the status). *)
  set_same : ∀ cs c, find_cond (c_Type c) cs = Some c → SetStatusCondition cs c = cs
}.

(** *** A store that satisfies the contract *)

Record Store := {
  so_proxies : list EnvoyProxy;
  so_listeners : list Listener;
  so_clusters : list Cluster;
  so_routes : list RouteConfiguration;
  so_scoped : list ScopedRouteConfiguration;
  so_clas : list ClusterLoadAssignmentCR;
  so_slices : list EndpointSlice
}.

Definition find_proxy (k : NamespacedName) (l : list EnvoyProxy) : option EnvoyProxy :=
  head (filter (λ p, proxy_key p = k) l).

(** A write gives the object a new resource version. *)
Definition bump (m : ObjectMeta) : ObjectMeta := {|
  om_Name := om_Name m; om_Namespace := om_Namespace m;
  om_ResourceVersion := om_ResourceVersion m +:+ "'";
  om_Generation := om_Generation m; om_Labels := om_Labels m |}.

(** The status of [ep] for the proxy of its key; the same status is no write. *)
Definition with_status (ep : EnvoyProxy) (p : EnvoyProxy) : EnvoyProxy :=
  if bool_decide (proxy_key p = proxy_key ep) && bool_decide (ep_Status p ≠ ep_Status ep)
  then {| ep_meta := bump (ep_meta p); ep_Status := ep_Status ep |} else p.

Definition not_found : error := ErrLib "NotFound" "not found".
Definition conflict : error := ErrLib "Conflict" "the object has been modified".

(** The slice is in the namespace and carries the labels. *)
Definition slice_selected (ns : string) (sel : gmap string string) (s : EndpointSlice) : Prop :=
  om_Namespace (es_meta s) = ns ∧ sel ⊆ om_Labels (es_meta s).
#[global] Instance slice_selected_dec ns sel s : Decision (slice_selected ns sel s).
Proof. unfold slice_selected. apply _. Defined.

(** In its place, else at the end. *)
Fixpoint store_set_condition (cs : list Condition) (c : Condition) : list Condition :=
  match cs with
  | [] => [c]
  | c' :: cs =>
      if bool_decide (c_Type c' = c_Type c) then c :: cs else c' :: store_set_condition cs c
  end.

Definition store_client : Client Store := {|
  Get_EnvoyProxy st k :=
    match find_proxy k (so_proxies st) with Some p => Ok p | None => Err not_found end;
  List_Listener st := Ok (so_listeners st);
  List_Cluster st := Ok (so_clusters st);
  List_RouteConfiguration st := Ok (so_routes st);
  List_ScopedRouteConfiguration st := Ok (so_scoped st);
  List_ClusterLoadAssignment st := Ok (so_clas st);
  List_EndpointSlice st ns sel := Ok (filter (slice_selected ns sel) (so_slices st));
  Status_Update st ep :=
    match find_proxy (proxy_key ep) (so_proxies st) with
    | Some p =>
        if bool_decide (om_ResourceVersion (ep_meta ep) = om_ResourceVersion (ep_meta p))
        then ({| so_proxies := with_status ep <$> so_proxies st;
                 so_listeners := so_listeners st; so_clusters := so_clusters st;
                 so_routes := so_routes st; so_scoped := so_scoped st;
                 so_clas := so_clas st; so_slices := so_slices st |},
              with_status ep p, None)
        else (st, ep, Some conflict)
    | None => (st, ep, Some not_found)
    end;
  IgnoreNotFound err := if decide (err = not_found) then None else Some err;
  SetStatusCondition := store_set_condition
|}.

Lemma with_status_key ep p : proxy_key (with_status ep p) = proxy_key p.
Proof. unfold with_status. by case_match. Qed.

Lemma find_proxy_key k l p : find_proxy k l = Some p → proxy_key p = k.
Proof. intros H. by apply head_filter_elem in H as [? _]. Qed.

Lemma find_proxy_with_status ep k l :
  find_proxy k (with_status ep <$> l) = with_status ep <$> find_proxy k l.
Proof.
  unfold find_proxy. induction l as [|p l IH]; [done|]. csimpl. rewrite !filter_cons.
  rewrite with_status_key. by case_decide.
Qed.

Lemma with_status_id ep p : proxy_key p ≠ proxy_key ep → with_status ep p = p.
Proof. unfold with_status. intros. by rewrite bool_decide_false. Qed.

(** Written to its own proxy. *)
Lemma with_status_own ep p :
  proxy_key p = proxy_key ep →
  ep_Status (with_status ep p) = ep_Status ep ∧
  (with_status ep p = p ∨ ep_Status ep ≠ ep_Status p ∧
     om_Generation (ep_meta (with_status ep p)) = om_Generation (ep_meta p)).
Proof.
  intros Hk. unfold with_status. rewrite bool_decide_true by done. simpl.
  case_bool_decide as Hs; [|auto].
  split; [done|]. right. split; [congruence|done].
Qed.

Lemma find_cond_cons ty c cs :
  find_cond ty (c :: cs) = if decide (c_Type c = ty) then Some c else find_cond ty cs.
Proof. unfold find_cond. rewrite filter_cons. by case_decide. Qed.

Lemma find_cond_set cs c ty :
  find_cond ty (store_set_condition cs c) =
  if decide (ty = c_Type c) then Some c else find_cond ty cs.
Proof.
  induction cs as [|c' cs IH]; simpl.
  - rewrite find_cond_cons. repeat case_decide; congruence.
  - case_bool_decide; rewrite !find_cond_cons, ?IH; repeat case_decide; congruence.
Qed.

Lemma store_set_same cs c :
  find_cond (c_Type c) cs = Some c → store_set_condition cs c = cs.
Proof.
  induction cs as [|c' cs IH]; [done|]. rewrite find_cond_cons. simpl.
  case_decide; [rewrite bool_decide_true by done|rewrite bool_decide_false by done];
    intros; [congruence|by rewrite IH].
Qed.

Lemma store_client_laws : @ClientLaws Store store_client.
Proof.
  split; simpl.
  - intros api k ep. destruct (find_proxy _ _) as [p|] eqn:H; intros ?; simplify_eq.
    by apply find_proxy_key in H.
  - intros api api' ep ep' e ?. by repeat case_match; simplify_eq.
  - intros api api' ep ep' e k ? Hk. destruct (find_proxy (proxy_key ep) _); [|by simplify_eq].
    case_bool_decide; simplify_eq/=; [|done]. rewrite find_proxy_with_status.
    destruct (find_proxy k _) as [q|] eqn:Hq; [|done]. simpl.
    apply find_proxy_key in Hq. by rewrite with_status_id by congruence.
  - intros api api' ep ep' e ?. destruct (find_proxy (proxy_key ep) _) as [p|] eqn:Hp;
      [case_bool_decide|]; simplify_eq/=; rewrite ?find_proxy_with_status, ?Hp; done.
  - intros api api' ep ep' e ?. repeat case_match; simplify_eq/=; try done.
    rewrite with_status_key. by eapply find_proxy_key.
  - intros api api' ep ep' ?. destruct (find_proxy (proxy_key ep) _) as [p|] eqn:Hp;
      [case_bool_decide|]; simplify_eq/=.
    rewrite find_proxy_with_status, Hp. split; [done|]. by eapply with_status_own, find_proxy_key.
  - intros api api' ep ep' err ?. by repeat case_match; simplify_eq.
  - intros api api' ep ep' e ?. destruct (find_proxy _ _) as [p|] eqn:Hp;
      [|simplify_eq; left; by rewrite Hp].
    case_bool_decide; simplify_eq/=; [|left; by rewrite Hp].
    rewrite find_proxy_with_status, Hp. simpl. apply find_proxy_key in Hp.
    destruct (with_status_own ep p Hp) as [Hs [->|[Hne Hg]]]; [by left|right].
    exists p, (with_status ep p). rewrite Hs. auto.
  - intros err. case_decide; auto.
  - apply find_cond_set.
  - apply store_set_same.
Qed.

(** ** The outcomes of a reconcile *)

Section reconcile.
Context {Api Cache Resource Snapshot : Type}.
Context `{!Client Api, !SnapshotCache Cache Snapshot, !XDSLib Resource Snapshot}.
Implicit Types (api : Api) (w : World Api Cache).

Definition proxy_node (k : NamespacedName) : string := nodeID (nn_Name k) (nn_Namespace k).

Definition collect_for (api : Api) (k : NamespacedName) : result error Collected :=
  collect api (nn_Namespace k) (nn_Name k).

(** The snapshot a proxy is meant to have in an API state. *)
Definition desired (api : Api) (k : NamespacedName) : result error Snapshot :=
  c ← collect_for api k; build c.

Definition with_cache (w : World Api Cache) (c : Cache) : World Api Cache :=
  {| w_Api := w_Api w; w_Server := mkServer c (srv_connected (w_Server w)) |}.

Definition node_snapshot (w : World Api Cache) (n : string) : option Snapshot :=
  GetSnapshot (srv_Cache (w_Server w)) n.

(** One constructor per return statement of [Reconcile]. *)
Inductive outcome (w : World Api Cache) (req : NamespacedName)
    : World Api Cache → option error → Prop :=
| out_get err :
    Get_EnvoyProxy (w_Api w) req = Err err →
    outcome w req w (IgnoreNotFound err)
| out_collect ep err :
    Get_EnvoyProxy (w_Api w) req = Ok ep →
    collect_for (w_Api w) (proxy_key ep) = Err err →
    outcome w req w (Some err)
| out_build ep c err w' ep' :
    Get_EnvoyProxy (w_Api w) req = Ok ep →
    collect_for (w_Api w) (proxy_key ep) = Ok c → build c = Err err →
    setCondition w ep ConditionReady ConditionFalse "SnapshotBuildFailed" (Error err)
      = (w', ep') →
    outcome w req w' (Some (ErrWrap "build snapshot" err))
| out_set ep c snap cache' err w' ep' :
    Get_EnvoyProxy (w_Api w) req = Ok ep →
    collect_for (w_Api w) (proxy_key ep) = Ok c → build c = Ok snap →
    SetSnapshot (srv_Cache (w_Server w)) (proxy_node (proxy_key ep)) snap
      = (cache', Some err) →
    setCondition (with_cache w cache') ep ConditionReady ConditionFalse
      "SnapshotSetFailed" (Error err) = (w', ep') →
    outcome w req w' (Some (ErrWrap "set snapshot" err))
| out_ok ep c snap cache' w1 ep1 w2 ep2 :
    Get_EnvoyProxy (w_Api w) req = Ok ep →
    collect_for (w_Api w) (proxy_key ep) = Ok c → build c = Ok snap →
    SetSnapshot (srv_Cache (w_Server w)) (proxy_node (proxy_key ep)) snap = (cache', None) →
    setCondition (with_cache w cache') ep ConditionConnected
      (if IsConnected (w_Server w) (proxy_node (proxy_key ep))
       then ConditionTrue else ConditionFalse) "StreamStatus" "" = (w1, ep1) →
    setCondition w1 ep1 ConditionReady ConditionTrue "SnapshotReady"
      ("version=" +:+ co_version c) = (w2, ep2) →
    outcome w req w2 None.

Lemma Reconcile_outcome w req w' e : Reconcile w req = (w', e) → outcome w req w' e.
Proof.
  unfold Reconcile. destruct (Get_EnvoyProxy _ _) as [ep|err] eqn:Hg;
    [|intros; simplify_eq; by apply out_get].
  destruct (collect _ _ _) as [c|err] eqn:Hc;
    [|intros; simplify_eq; by eapply out_collect].
  destruct (build c) as [snap|err] eqn:Hb.
  - destruct (SetSnapshot _ _ _) as [cache' [err|]] eqn:Hs.
    + destruct (setCondition _ _ _ _ _ _) eqn:H1. intros; simplify_eq.
      by eapply out_set.
    + destruct (setCondition _ _ ConditionConnected _ _ _) as [w1 ep1] eqn:H1.
      destruct (setCondition w1 _ _ _ _ _) as [w2 ep2] eqn:H2. intros; simplify_eq.
      by eapply out_ok.
  - destruct (setCondition _ _ _ _ _ _) eqn:H1. intros; simplify_eq. by eapply out_build.
Qed.

Lemma setCondition_server w ep ty st r m w' ep' :
  setCondition w ep ty st r m = (w', ep') → w_Server w' = w_Server w.
Proof.
  unfold setCondition. destruct (Status_Update _ _) as [[??]?]. by intros; simplify_eq.
Qed.

Context `{!ClientLaws Api, !SnapshotCacheLaws Cache Snapshot}.

Lemma setCondition_api w ep ty st r m w' ep' :
  setCondition w ep ty st r m = (w', ep') →
  proxy_key ep' = proxy_key ep ∧
  same_resources (w_Api w) (w_Api w') ∧
  (∀ k, k ≠ proxy_key ep → Get_EnvoyProxy (w_Api w') k = Get_EnvoyProxy (w_Api w) k) ∧
  is_Ok (Get_EnvoyProxy (w_Api w') (proxy_key ep)) =
  is_Ok (Get_EnvoyProxy (w_Api w) (proxy_key ep)).
Proof.
  unfold setCondition. set (ep0 := {| ep_meta := ep_meta ep; ep_Status := _ |}).
  change (proxy_key ep) with (proxy_key ep0).
  destruct (Status_Update _ ep0) as [[api' ep2] e] eqn:Hu.
  intros; simplify_eq/=. split; [by eapply status_key|].
  split; [by eapply status_resources|].
  split; [intros; by eapply status_other|by eapply status_presence].
Qed.

Lemma outcome_key w req ep : Get_EnvoyProxy (w_Api w) req = Ok ep → proxy_key ep = req.
Proof. apply get_key. Qed.

Lemma collect_same api api' k : same_resources api api' → collect_for api k = collect_for api' k.
Proof.
  intros [H1 H2 H3 H4 H5 H6]. unfold collect_for, collect.
  unfold collectListeners, collectClusters, collectRoutes, collectScopedRoutes.
  rewrite H1, H2, H3, H4.
  assert (∀ ns name items, collectEndpoints api ns name items =
    collectEndpoints api' ns name items) as Hep.
  2:{ do 4 (apply bind_ext; intros ?; repeat case_match). by rewrite Hep. }
  intros ns name items. unfold collectEndpoints. rewrite H5.
  destruct (List_ClusterLoadAssignment api') as [clas|]; [|done]. simpl.
  destruct (manual_loop ns name clas) as [[specs vers] manual].
  revert specs vers. induction items as [|c items IH]; intros specs vers; [done|]; simpl.
  destruct (cl_KubernetesServiceRef c) as [ref|]; [|apply IH].
  case_match; [apply IH|]. rewrite H6.
  destruct (List_EndpointSlice api' _ _); [|done]. simpl.
  destruct (Marshal _); [|done]. simpl. apply IH.
Qed.

Lemma desired_same api api' k : same_resources api api' → desired api k = desired api' k.
Proof. intros H. unfold desired. by rewrite (collect_same api api'). Qed.

Lemma outcome_frame w req w' e :
  outcome w req w' e →
  same_resources (w_Api w) (w_Api w') ∧
  srv_connected (w_Server w') = srv_connected (w_Server w) ∧
  (∀ k, k ≠ req → Get_EnvoyProxy (w_Api w') k = Get_EnvoyProxy (w_Api w) k) ∧
  is_Ok (Get_EnvoyProxy (w_Api w') req) = is_Ok (Get_EnvoyProxy (w_Api w) req) ∧
  ∀ n, n ≠ proxy_node req → node_snapshot w' n = node_snapshot w n.
Proof.
  destruct 1 as [err Hg|ep err Hg Hc|ep c err w' ep' Hg Hc Hb H1|
    ep c snap cache' err w' ep' Hg Hc Hb Hs H1|
    ep c snap cache' w1 ep1 w2 ep2 Hg Hc Hb Hs H1 H2]; try done.
  all: pose proof (outcome_key _ _ _ Hg) as Hk; subst req.
  all: pose proof (setCondition_server _ _ _ _ _ _ _ _ H1) as Hsrv.
  all: apply setCondition_api in H1 as (Hk1 & HR1 & HG1 & HP1).
  all: unfold node_snapshot.
  - rewrite Hsrv. by split_and!.
  - rewrite Hsrv. simpl. split_and!; try done. intros n Hn. by eapply set_frame.
  - pose proof (setCondition_server _ _ _ _ _ _ _ _ H2) as Hsrv2.
    apply setCondition_api in H2 as (_ & HR2 & HG2 & HP2).
    rewrite Hk1 in HG2, HP2. rewrite Hsrv2, Hsrv. simpl. split_and!.
    + by etrans.
    + done.
    + intros k Hk. by rewrite HG2, HG1.
    + by rewrite HP2, HP1.
    + intros n Hn. by eapply set_frame.
Qed.

(** An error of the collection phase names the group it comes from. *)
Lemma collect_Err api k e :
  collect_for api k = Err e →
  ∃ group err, e = ErrWrap group err ∧
    group ∈ ["collect listeners"; "collect clusters"; "collect routes";
             "collect scoped routes"; "collect endpoints"].
Proof.
  unfold collect_for, collect. intros H.
  repeat (apply bind_Err in H as [(err & _ & ->)%wrap_Err|([] & _ & H)];
    [by eexists _, _; split; [done|set_solver]|]; repeat case_match); done.
Qed.

(** *** Status conditions *)

(** A status update does not fail when the object sent is the stored proxy, at
    its resource version, with another status (a stale one is a Conflict). *)
Definition updates_succeed : Prop :=
  ∀ (api : Api) ep stored, Get_EnvoyProxy api (proxy_key ep) = Ok stored →
    om_ResourceVersion (ep_meta ep) = om_ResourceVersion (ep_meta stored) →
    (Status_Update api ep).2 = None.

(** The condition of a type, without the generation it was observed at. *)
Definition cond (ty : string) (ep : EnvoyProxy) : option (ConditionStatus * string * string) :=
  (λ c, (c_Status c, c_Reason c, c_Message c)) <$> find_cond ty (st_Conditions (ep_Status ep)).

Lemma setCondition_stored w ep ty st r m w' ep' :
  updates_succeed → Get_EnvoyProxy (w_Api w) (proxy_key ep) = Ok ep →
  setCondition w ep ty st r m = (w', ep') →
  Get_EnvoyProxy (w_Api w') (proxy_key ep) = Ok ep' ∧
  cond ty ep' = Some (st, r, m) ∧ (∀ ty', ty' ≠ ty → cond ty' ep' = cond ty' ep).
Proof.
  intros Hup Hok. unfold setCondition. set (ep0 := {| ep_meta := ep_meta ep; ep_Status := _ |}).
  destruct (Status_Update (w_Api w) ep0) as [[api' ep2] e] eqn:Hu.
  intros; simplify_eq/=.
  assert (e = None) as ->. { specialize (Hup (w_Api w) ep0 ep Hok eq_refl). by rewrite Hu in Hup. }
  apply status_stored in Hu as [Hget Hst]. split; [done|].
  unfold cond. rewrite Hst. unfold ep0. simpl. split.
  - by rewrite set_condition, decide_True.
  - intros ty' Hty. by rewrite set_condition, decide_False.
Qed.

(** *** Collection *)

Lemma collect_for_Ok api k c :
  collect_for api k = Ok c ↔
  ∃ ls cs rs srs clas outs,
    List_Listener api = Ok ls ∧ List_Cluster api = Ok cs ∧
    List_RouteConfiguration api = Ok rs ∧
    List_ScopedRouteConfiguration api = Ok srs ∧
    List_ClusterLoadAssignment api = Ok clas ∧
    Forall2 (synthesized api) (filter (auto (manual_names k clas)) (targeting k cs)) outs ∧
    c = {| co_listeners := li_Spec_Raw <$> targeting k ls;
           co_clusters := cl_Spec_Raw <$> targeting k cs;
           co_routes := rc_Spec_Raw <$> targeting k rs;
           co_scopedRoutes := sr_Spec_Raw <$> targeting k srs;
           co_endpoints := (la_Spec_Raw <$> targeting k clas) ++ outs.*1;
           co_version := computeVersion
             [version_of <$> targeting k ls; version_of <$> targeting k cs;
              version_of <$> targeting k rs; version_of <$> targeting k srs;
              (version_of <$> targeting k clas) ++ mjoin outs.*2] |}.
Proof.
  unfold collect_for, collect, collectListeners, collectRoutes, collectScopedRoutes.
  rewrite collectClusters_spec. destruct k as [ns name]; simpl nn_Namespace; simpl nn_Name.
  split.
  - intros ([l lv] & Hl%wrap_Ok & ([[cl cv] items] & Hcl%wrap_Ok &
      ([r rv] & Hr%wrap_Ok & ([sr srv] & Hsr%wrap_Ok &
      ([e ev] & He%wrap_Ok & Hres)%bind_Ok)%bind_Ok)%bind_Ok)%bind_Ok)%bind_Ok.
    apply bind_Ok in Hl as (ls & ? & [= Hl]). apply bind_Ok in Hcl as (cs & ? & [= ? ? ?]).
    apply bind_Ok in Hr as (rs & ? & [= Hr]). apply bind_Ok in Hsr as (srs & ? & [= Hsr]).
    rewrite collect_loop_spec in Hl. rewrite collect_loop_spec in Hr.
    rewrite collect_loop_spec in Hsr. simplify_eq.
    apply collectEndpoints_Ok in He as (clas & outs & ? & ? & ?). simplify_eq.
    exists ls, cs, rs, srs, clas, outs. by split_and!.
  - intros (ls & cs & rs & srs & clas & outs & -> & -> & -> & -> & Hc & HF & ->).
    simpl. rewrite !collect_loop_spec.
    erewrite (proj2 (collectEndpoints_Ok _ _ _ _ _)) by (by eexists _, _). done.
Qed.

(** *** Endpoints with service references *)

(** The text of a JSON object without a member that folds to "name"; the
    JSON form of a ClusterLoadAssignment message is one, its fields being
    cluster_name, endpoints, named_endpoints and policy. *)
Definition nameless (raw : string) : Prop :=
  ∃ ms, raw = print (JObject ms) ∧ printable (N.to_nat maxNestingDepth) (JObject ms) ∧
    named ms = [].

Lemma nameless_ClusterName raw : nameless raw → ClusterName raw = "".
Proof.
  intros (ms & -> & Hp & Hn). rewrite ClusterName_print by done.
  unfold decode_name. by rewrite foldl_store_member, Hn.
Qed.

Lemma manual_names_nameless key clas :
  Forall (λ i, nameless (la_Spec_Raw i)) (targeting key clas) →
  ∀ n, n ∈ manual_names key clas → n = "".
Proof.
  intros HF n. unfold manual_names. rewrite elem_of_list_to_set, list_elem_of_fmap.
  intros (i & -> & Hi). rewrite Forall_forall in HF. by apply nameless_ClusterName, HF.
Qed.

(** ** Properties *)

(** [C4] Publication: when [Reconcile] returns no error for a proxy that
    exists, the cache holds for the proxy's node id exactly the snapshot
    built from the resources that target it, and that snapshot is still the
    desired one in the API state the reconcile leaves behind. *)
Theorem Reconcile_publishes w req ep w'
    (Hget : Get_EnvoyProxy (w_Api w) req = Ok ep)
    (Hrec : Reconcile w req = (w', None)) :
  ∃ snap, desired (w_Api w) req = Ok snap ∧
    node_snapshot w' (proxy_node req) = Some snap ∧
    desired (w_Api w') req = Ok snap.
Proof.
  apply Reconcile_outcome in Hrec.
  pose proof (outcome_frame _ _ _ _ Hrec) as (Hsame & _).
  inversion Hrec as [err Hg Heq| | | |ep0 c snap cache' w1 ep1 w2 ep2 Hg Hc Hb Hs H1 H2];
    simplify_eq; [congruence|].
  pose proof (outcome_key _ _ _ Hg) as <-.
  assert (desired (w_Api w) (proxy_key ep0) = Ok snap) as Hd.
  { unfold desired. rewrite Hc. done. }
  exists snap. split; [done|]. split; [|by rewrite <-(desired_same (w_Api w))].
  unfold node_snapshot. rewrite (setCondition_server _ _ _ _ _ _ _ _ H2).
  rewrite (setCondition_server _ _ _ _ _ _ _ _ H1). simpl. by eapply set_get.
Qed.

(** [C13] Failure atomicity: when [Reconcile] returns an error, every node keeps
    the snapshot it had, unless the error is that of the cache's
    [SetSnapshot]; and when reading the API failed, nothing at all is changed
    (no status is written either). *)
Theorem Reconcile_error_keeps w req w' e
    (Hrec : Reconcile w req = (w', Some e)) :
  (∃ err, e = ErrWrap "set snapshot" err ∧
     ∀ n, n ≠ proxy_node req → node_snapshot w' n = node_snapshot w n) ∨
  (∃ err, e = ErrWrap "build snapshot" err ∧ desired (w_Api w) req = Err err ∧
     w_Server w' = w_Server w) ∨
  w' = w.
Proof.
  apply Reconcile_outcome in Hrec.
  pose proof (outcome_frame _ _ _ _ Hrec) as (_ & _ & _ & _ & Hn).
  inversion Hrec as [| |ep c err w1 ep1 Hg Hc Hb H1|
    ep c snap cache' err w1 ep1 Hg Hc Hb Hs H1|]; simplify_eq; auto.
  - right; left. exists err. split; [done|].
    pose proof (outcome_key _ _ _ Hg) as <-. split; [|by eapply setCondition_server].
    unfold desired. by rewrite Hc.
  - left. by exists err.
Qed.

(** [C12] Isolation: whatever a reconcile of one proxy does, no other proxy
    (in namespaces without a dot, as Kubernetes requires) loses or changes its
    snapshot or its object, no resource is changed, and the connection set is
    untouched. *)
Theorem Reconcile_isolated w req w' e k
    (Hrec : Reconcile w req = (w', e))
    (Hdots : has_byte "." (nn_Namespace req) = false ∧ has_byte "." (nn_Namespace k) = false)
    (Hk : k ≠ req) :
  node_snapshot w' (proxy_node k) = node_snapshot w (proxy_node k) ∧
  Get_EnvoyProxy (w_Api w') k = Get_EnvoyProxy (w_Api w) k ∧
  same_resources (w_Api w) (w_Api w') ∧
  srv_connected (w_Server w') = srv_connected (w_Server w).
Proof.
  apply Reconcile_outcome, outcome_frame in Hrec as (HR & HC & HG & _ & Hn).
  split_and!; try done; [|by apply HG]. apply Hn. intros Heq.
  apply nodeID_inj in Heq as [H1 H2]; [|by apply Hdots..].
  destruct k, req; simpl in *; congruence.
Qed.

(** [C27] Status after a successful reconcile of a proxy that exists, when a
    status update of the stored object at its current resource version does not
    fail (a failed one is only logged): the stored proxy is Ready with the
    snapshot's version, and Connected mirrors the server's connection set;
    conditions of other types are as before. *)
Theorem Reconcile_reports w req ep w'
    (Hup : updates_succeed)
    (Hget : Get_EnvoyProxy (w_Api w) req = Ok ep)
    (Hrec : Reconcile w req = (w', None)) :
  ∃ ep' c, Get_EnvoyProxy (w_Api w') req = Ok ep' ∧
    collect_for (w_Api w) req = Ok c ∧
    cond ConditionReady ep' =
      Some (ConditionTrue, "SnapshotReady", "version=" +:+ co_version c) ∧
    cond ConditionConnected ep' =
      Some (if IsConnected (w_Server w) (proxy_node req)
            then ConditionTrue else ConditionFalse, "StreamStatus", "") ∧
    (∀ ty, ty ≠ ConditionReady → ty ≠ ConditionConnected → cond ty ep' = cond ty ep).
Proof.
  apply Reconcile_outcome in Hrec.
  inversion Hrec as [err Hg Heq| | | |ep0 c snap cache' w1 ep1 w2 ep2 Hg Hc Hb Hs H1 H2];
    simplify_eq; [congruence|].
  pose proof (outcome_key _ _ _ Hg) as <-. rewrite Hg in Hget. simplify_eq.
  pose proof (setCondition_api _ _ _ _ _ _ _ _ H1) as (Hk1 & _ & _ & Hp1).
  apply setCondition_stored in H1 as (Hg1 & Hc1 & Ho1);
    [|done..].
  rewrite <-Hk1 in Hg1. apply setCondition_stored in H2 as (Hg2 & Hc2 & Ho2); [|done..].
  rewrite Hk1 in Hg2. exists ep2, c. split_and!; try done.
  - by rewrite Ho2.
  - intros ty Hr Hcn. by rewrite Ho2, Ho1.
Qed.

(** [C18] Status after a reconcile that fails because the snapshot does not build,
    when a status update of the stored object at its current resource version
    does not fail: the stored proxy is not Ready, the message is the text of the
    build error, and Connected is as it was. *)
Theorem Reconcile_reports_build_failure w req ep w' err
    (Hup : updates_succeed)
    (Hget : Get_EnvoyProxy (w_Api w) req = Ok ep)
    (Hrec : Reconcile w req = (w', Some (ErrWrap "build snapshot" err))) :
  ∃ ep', Get_EnvoyProxy (w_Api w') req = Ok ep' ∧
    cond ConditionReady ep' = Some (ConditionFalse, "SnapshotBuildFailed", Error err) ∧
    cond ConditionConnected ep' = cond ConditionConnected ep.
Proof.
  apply Reconcile_outcome in Hrec.
  inversion Hrec as [e Hg Heq|ep0 e Hg Hc|ep0 c e w1 ep1 Hg Hc Hb H1|ep0 c snap cache' e w1 ep1 Hg Hc Hb Hs H1|]; simplify_eq;
    [congruence| |].
  - exfalso. apply collect_Err in Hc as (group & err' & Heq & Hin). simplify_eq.
    set_solver.
  - pose proof (outcome_key _ _ _ Hg) as <-. rewrite Hg in Hget. simplify_eq.
    apply setCondition_stored in H1 as (Hg1 & Hc1 & Ho1); [|done..].
    exists ep1. split_and!; try done. by apply Ho1.
Qed.

(** [C11] Exactness of the collection phase: it succeeds iff every list succeeds
    and every cluster that needs a synthesized assignment gets one; it then
    returns, in list order, the raw specs of exactly the listeners, clusters,
    routes and scoped routes whose target is the proxy, the specs of the
    manual assignments that target it followed by the synthesized ones, and
    the version of all their resource versions.  A cluster is synthesized iff
    it has a service reference and a non-empty name that no manual assignment
    of the proxy carries in its JSON field [name]. *)
Theorem collect_exact api k c :
  collect_for api k = Ok c ↔
  ∃ ls cs rs srs clas outs,
    List_Listener api = Ok ls ∧ List_Cluster api = Ok cs ∧
    List_RouteConfiguration api = Ok rs ∧
    List_ScopedRouteConfiguration api = Ok srs ∧
    List_ClusterLoadAssignment api = Ok clas ∧
    Forall2 (synthesized api) (filter (auto (manual_names k clas)) (targeting k cs)) outs ∧
    c = {| co_listeners := li_Spec_Raw <$> targeting k ls;
           co_clusters := cl_Spec_Raw <$> targeting k cs;
           co_routes := rc_Spec_Raw <$> targeting k rs;
           co_scopedRoutes := sr_Spec_Raw <$> targeting k srs;
           co_endpoints := (la_Spec_Raw <$> targeting k clas) ++ outs.*1;
           co_version := computeVersion
             [version_of <$> targeting k ls; version_of <$> targeting k cs;
              version_of <$> targeting k rs; version_of <$> targeting k srs;
              (version_of <$> targeting k clas) ++ mjoin outs.*2] |}.
Proof. apply collect_for_Ok. Qed.

(** [C40] Manual assignments block nothing: when the manual assignments of a
    proxy are JSON objects without a member [name] (the message's field is
    [cluster_name]), every cluster of the proxy with a service reference and a
    non-empty name is synthesized, also one whose assignment exists as a
    manual resource. *)
Theorem manual_CLA_never_blocks api k c
    (Hcla : ∀ clas, List_ClusterLoadAssignment api = Ok clas →
       Forall (λ i, nameless (la_Spec_Raw i)) (targeting k clas))
    (Hc : collect_for api k = Ok c) :
  ∃ cs manual outs, List_Cluster api = Ok cs ∧
    co_endpoints c = manual ++ outs.*1 ∧
    Forall2 (synthesized api)
      (filter (λ i, is_Some (cl_KubernetesServiceRef i) ∧ ClusterName (cl_Spec_Raw i) ≠ "")
         (targeting k cs)) outs.
Proof.
  apply collect_for_Ok in Hc
    as (ls & cs & rs & srs & clas & outs & _ & Hcs & _ & _ & Hclas & HF & ->).
  exists cs, (la_Spec_Raw <$> targeting k clas), outs. split_and!; [done|done|].
  specialize (Hcla _ Hclas). pose proof (manual_names_nameless k clas Hcla) as Hm.
  erewrite list_filter_iff; [exact HF|]. intros i. unfold auto. naive_solver.
Qed.

End reconcile.

Section handlers.
Context {Api : Type} `{!Client Api}.

(** [C21] The EndpointSlice handler enqueues every proxy at most once, and
    enqueues exactly the proxies targeted by a cluster whose service
    reference names the slice's service in the slice's namespace; a slice
    without the service label, or a failing cluster list, enqueues nothing. *)
Theorem mapEndpointSlice_exact api slice :
  NoDup (mapEndpointSliceToProxies api slice) ∧
  ∀ k, k ∈ mapEndpointSliceToProxies api slice ↔
    ∃ svcName clusters c, om_Labels (es_meta slice) !! service_label = Some svcName ∧
      List_Cluster api = Ok clusters ∧ c ∈ clusters ∧
      refers svcName (om_Namespace (es_meta slice)) c ∧ object_key c = k.
Proof.
  destruct (List_Cluster api) as [clusters|err] eqn:Hl.
  - split.
    + unfold mapEndpointSliceToProxies. rewrite Hl. case_match; [|constructor].
      apply slice_requests_loop_spec; [constructor|set_solver].
    + intros k. rewrite elem_of_mapEndpointSlice by done. naive_solver.
  - unfold mapEndpointSliceToProxies. rewrite Hl. case_match;
      (split; [constructor|]); intros k; rewrite elem_of_nil; naive_solver.
Qed.
End handlers.

(** The watch handler and the selection agree, for every kind of resource:
    a resource is collected for a proxy iff the handler, run on the resource,
    enqueues that proxy (and then nothing else); the reference's namespace
    defaults to the resource's own in both. *)
Theorem selection_matches_watch {T} `{!XDSObject T} (obj : T) (ns name : string) :
  targetMatches (GetTargetRef obj) (om_Namespace (GetObjectMeta obj)) ns name = true ↔
  map_object obj = [{| nn_Namespace := ns; nn_Name := name |}].
Proof. rewrite targetMatches_key, map_object_key. unfold object_key. split; congruence. Qed.

(** [C39] The snapshot version is always 16 lower-case hexadecimal digits, so the
    slice expression [[:16]] is in range, and it is a function of the
    concatenation of the resource versions alone: neither the boundaries between
    versions nor those between groups enter it. *)
Theorem computeVersion_shape groups :
  String.length (computeVersion groups) = 16 ∧
  Forall (λ c, is_hex_digit c = true)
    (String.list_ascii_of_string (computeVersion groups)) ∧
  ∀ groups', foldr String.app "" (mjoin groups') = foldr String.app "" (mjoin groups) →
    computeVersion groups' = computeVersion groups.
Proof.
  split; [|split].
  - unfold computeVersion.
    rewrite length_take_bytes, EncodeToString_length, sha256_length. lia.
  - unfold computeVersion. apply take_bytes_Forall, EncodeToString_hex, sha256_range.
  - intros groups' Heq. by rewrite !computeVersion_concat, Heq.
Qed.

(** ** Examples: a store with one proxy, and the witnesses *)

Section examples.
(** A library that tags specs with their type and rejects the spec [bad]. *)
Definition ex_snapshot : Type :=
  (string * gmap ResourceType (list (ResourceType * string)))%type.
Definition ex_lib : XDSLib (ResourceType * string) ex_snapshot := {|
  Unmarshal ty raw :=
    if decide (raw = "bad") then Err (ErrLib "" "syntax error") else Ok (ty, raw);
  Marshal cla := Ok ("synthesized " +:+ cla_ClusterName cla);
  NewSnapshot v m := Ok (v, m)
|}.

Definition ex_meta (name rv : string) : ObjectMeta := {|
  om_Name := name; om_Namespace := "default"; om_ResourceVersion := rv;
  om_Generation := 1; om_Labels := ∅ |}.
Definition ex_ref : TargetRef := {| tr_Name := "edge-proxy"; tr_Namespace := "" |}.
Definition ex_key : NamespacedName :=
  {| nn_Namespace := "default"; nn_Name := "edge-proxy" |}.
Definition ex_other : NamespacedName :=
  {| nn_Namespace := "default"; nn_Name := "other" |}.

Definition ex_proxy (name : string) : EnvoyProxy := {|
  ep_meta := ex_meta name "1";
  ep_Status := {| st_ObservedGeneration := 0; st_Conditions := [] |} |}.

Definition ex_listener (raw rv : string) (ref : TargetRef) : Listener := {|
  li_meta := ex_meta "l" rv; li_TargetRef := ref; li_Spec_Raw := raw |}.

Definition ex_cluster : Cluster := {|
  cl_meta := ex_meta "backend" "4"; cl_TargetRef := ex_ref;
  cl_KubernetesServiceRef :=
    Some {| ks_Name := "svc"; ks_Namespace := ""; ks_Port := Some 8080%Z |};
  cl_Spec_Raw := print ex_cluster_json |}.

(** A manual assignment for the same cluster. *)
Definition ex_cla_members : list (string * json) :=
  [("cluster_name", JString "backend"); ("endpoints", JArray [])].
Definition ex_cla : ClusterLoadAssignmentCR := {|
  la_meta := ex_meta "backend-cla" "5"; la_TargetRef := ex_ref;
  la_Spec_Raw := print (JObject ex_cla_members) |}.

Definition ex_store (listeners : list Listener) : Store := {|
  so_proxies := [ex_proxy "edge-proxy"; ex_proxy "other"];
  so_listeners := listeners;
  so_clusters := [ex_cluster]; so_routes := []; so_scoped := [];
  so_clas := [ex_cla]; so_slices := [ex_slice] |}.

Definition ex_good : Store := ex_store
  [ex_listener "listener_0" "2" ex_ref;
   ex_listener "listener_1" "3" {| tr_Name := "other"; tr_Namespace := "default" |}].
Definition ex_bad : Store := ex_store [ex_listener "bad" "2" ex_ref].

Local Existing Instance store_client.
Local Existing Instance store_client_laws.
Local Existing Instance ex_lib.
Local Existing Instance gmap_cache.
Local Existing Instance gmap_cache_laws.

Definition ex_world (st : Store) : World Store (gmap string ex_snapshot) :=
  {| w_Api := st; w_Server := NewServer |}.

Definition ex_run (st : Store) := Reconcile (ex_world st) ex_key.

Lemma ex_good_ok : ex_run ex_good = ((ex_run ex_good).1, None).
Proof. rewrite (surjective_pairing (ex_run ex_good)) at 1. f_equal. Defined.

Definition ex_build_err : error :=
  ErrWrap "listeners" (ErrWrap "item 0" (ErrLib "" "syntax error")).

Lemma ex_bad_err :
  ex_run ex_bad = ((ex_run ex_bad).1, Some (ErrWrap "build snapshot" ex_build_err)).
Proof. rewrite (surjective_pairing (ex_run ex_bad)) at 1. f_equal. Defined.

Lemma ex_updates : updates_succeed (Api := Store).
Proof.
  intros st ep stored. simpl. destruct (find_proxy _ _); [|done]. intros [= <-] Hv.
  by rewrite bool_decide_true.
Defined.

Lemma ex_get ls :
  Get_EnvoyProxy (w_Api (ex_world (ex_store ls))) ex_key = Ok (ex_proxy "edge-proxy").
Proof. vm_compute. reflexivity. Defined.

Lemma Reconcile_publishes_witness :
  ∃ snap, desired ex_good ex_key = Ok snap ∧
    node_snapshot (ex_run ex_good).1 "edge-proxy.default" = Some snap.
Proof.
  destruct (Reconcile_publishes (ex_world ex_good) ex_key (ex_proxy "edge-proxy")
    (ex_run ex_good).1 (ex_get _) ex_good_ok) as (snap & H1 & H2 & _).
  exists snap. split; [exact H1|exact H2].
Defined.

(** The published endpoints: the manual assignment and the synthesized one
    for the same cluster. *)
Example ex_good_endpoints :
  co_endpoints <$> collect_for ex_good ex_key =
  Ok [print (JObject ex_cla_members); "synthesized backend"].
Proof. vm_compute. reflexivity. Qed.

Lemma Reconcile_error_keeps_witness :
  (ex_run ex_bad).2 = Some (ErrWrap "build snapshot" ex_build_err) ∧
  w_Server (ex_run ex_bad).1 = w_Server (ex_world ex_bad).
Proof.
  split; [exact (f_equal snd ex_bad_err)|].
  destruct (Reconcile_error_keeps (ex_world ex_bad) ex_key _ _ ex_bad_err)
    as [(err & Heq & _)|[(err & _ & _ & H)|H]]; [discriminate Heq|exact H|].
  by rewrite H.
Defined.

Lemma Reconcile_isolated_witness :
  ex_other ≠ ex_key ∧
  node_snapshot (ex_run ex_good).1 (proxy_node ex_other) =
  node_snapshot (ex_world ex_good) (proxy_node ex_other).
Proof.
  split; [done|].
  apply (Reconcile_isolated (ex_world ex_good) ex_key _ _ ex_other ex_good_ok
    (conj eq_refl eq_refl) ltac:(done)).
Defined.

Lemma Reconcile_reports_witness :
  ∃ ep', Get_EnvoyProxy (w_Api (ex_run ex_good).1) ex_key = Ok ep' ∧
    cond ConditionConnected ep' = Some (ConditionFalse, "StreamStatus", "").
Proof.
  destruct (Reconcile_reports (ex_world ex_good) ex_key (ex_proxy "edge-proxy") _
    ex_updates (ex_get _) ex_good_ok) as (ep' & c & H1 & _ & _ & H2 & _).
  exists ep'. split; [exact H1|exact H2].
Defined.

Lemma Reconcile_reports_build_failure_witness :
  ∃ ep', Get_EnvoyProxy (w_Api (ex_run ex_bad).1) ex_key = Ok ep' ∧
    cond ConditionReady ep' =
      Some (ConditionFalse, "SnapshotBuildFailed", "listeners: item 0: syntax error").
Proof.
  destruct (Reconcile_reports_build_failure (ex_world ex_bad) ex_key
    (ex_proxy "edge-proxy") _ ex_build_err ex_updates (ex_get _) ex_bad_err)
    as (ep' & H1 & H2 & _).
  exists ep'. split; [exact H1|exact H2].
Defined.

Lemma ex_cla_nameless :
  ∀ clas, List_ClusterLoadAssignment ex_good = Ok clas →
    Forall (λ i, nameless (la_Spec_Raw i)) (targeting ex_key clas).
Proof.
  intros clas [= <-]. apply Forall_singleton. exists ex_cla_members.
  split; [done|]. split; [by vm_compute|done].
Defined.

(** The cluster [backend] has a manual assignment, and is synthesized too. *)
Lemma manual_CLA_never_blocks_witness :
  ∃ c cs manual outs, collect_for ex_good ex_key = Ok c ∧
    co_endpoints c = manual ++ outs.*1 ∧
    Forall2 (synthesized ex_good)
      (filter (λ i, is_Some (cl_KubernetesServiceRef i) ∧ ClusterName (cl_Spec_Raw i) ≠ "")
         (targeting ex_key cs)) outs.
Proof.
  destruct (collect_for ex_good ex_key) as [c|] eqn:Hc; [|by vm_compute in Hc].
  destruct (manual_CLA_never_blocks ex_good ex_key c ex_cla_nameless Hc)
    as (cs & manual & outs & _ & H1 & H2).
  exists c, cs, manual, outs. split; [reflexivity|split; [exact H1|exact H2]].
Defined.

(** Two listeners deleted, one created later: the resource versions 1 and 23
    are gone, the new one is 123. *)
Definition ex_before : Store :=
  ex_store [ex_listener "a" "1" ex_ref; ex_listener "b" "23" ex_ref].
Definition ex_after : Store := ex_store [ex_listener "c" "123" ex_ref].

(** The version does not change whenever the configuration does: two API
    states whose desired snapshots hold different listeners, reached by
    deleting resources and creating one with a later resource version, get
    the same snapshot version. *)
Theorem version_collision :
  ∃ c1 c2, collect_for ex_before ex_key = Ok c1 ∧ collect_for ex_after ex_key = Ok c2 ∧
    co_listeners c1 = ["a"; "b"] ∧ co_listeners c2 = ["c"] ∧
    co_version c1 = co_version c2.
Proof.
  destruct (collect_for ex_before ex_key) as [c1|] eqn:H1; [|by vm_compute in H1].
  destruct (collect_for ex_after ex_key) as [c2|] eqn:H2; [|by vm_compute in H2].
  exists c1, c2. vm_compute in H1. vm_compute in H2. simplify_eq/=. done.
Qed.

(** The version depends on the order in which the client lists resources. *)
Theorem computeVersion_order_sensitive :
  computeVersion [["1"; "2"]] ≠ computeVersion [["2"; "1"]].
Proof. vm_compute. discriminate. Qed.
End examples.
