(* ===== verification/System.v ===== *)
(** * Watches and what they enqueue

    [SetupWithManager] registers [mapXDSResourceToProxy] for the five resource
    kinds, [mapEndpointSliceToProxies] for EndpointSlices and the proxies
    themselves; controller-runtime turns every change of an object into
    requests (the handler runs on the old and on the new object).  Here are the
    changes of the API state, the requests their events cause, and the lemmas
    that say the handlers enqueue enough: a change that does not enqueue a
    proxy does not change what the proxy is meant to have.  Interleave.v has
    the queue and the workers.

    Assumed of the environment: a change concerns one object, and the order in
    which the client lists the others does not change with it. *)

From S2P Require Import Prelude GoStrings Types Eds Server Snapshot Controller Reconcile.

Section system.
Context {Api Cache Resource Snapshot : Type}.
Context `{!Client Api, !SnapshotCache Cache Snapshot, !XDSLib Resource Snapshot}.
Implicit Types (api : Api) (w : World Api Cache) (k req : NamespacedName).

(** ** Changes of the API state and the requests they cause *)

Inductive Kind := KListener | KCluster | KRoute | KScoped | KCLA | KSlice.

(** Everything but the objects of one kind reads the same. *)
Record same_but (kind : Kind) (api api' : Api) : Prop := {
  but_listener : kind ≠ KListener → List_Listener api = List_Listener api';
  but_cluster : kind ≠ KCluster → List_Cluster api = List_Cluster api';
  but_route : kind ≠ KRoute →
    List_RouteConfiguration api = List_RouteConfiguration api';
  but_scoped : kind ≠ KScoped →
    List_ScopedRouteConfiguration api = List_ScopedRouteConfiguration api';
  but_cla : kind ≠ KCLA →
    List_ClusterLoadAssignment api = List_ClusterLoadAssignment api';
  but_slice : kind ≠ KSlice →
    ∀ ns sel, List_EndpointSlice api ns sel = List_EndpointSlice api' ns sel;
  but_proxy : ∀ k, Get_EnvoyProxy api' k = Get_EnvoyProxy api k
}.

(** One object is created ([old = None]), deleted ([new = None]) or updated. *)
Definition list_changed {T} (l l' : result error (list T)) (old new : option T) : Prop :=
  ∃ l1 l2, l = Ok (l1 ++ option_list old ++ l2) ∧ l' = Ok (l1 ++ option_list new ++ l2).

(** [EnqueueRequestsFromMapFunc]: the handler on the old and the new object. *)
Definition requests {T} (handler : T → list NamespacedName) (old new : option T)
    : list NamespacedName :=
  (option_list old ≫= handler) ++ (option_list new ≫= handler).

(** No list that leaves out both versions of the slice changes. *)
Definition slices_changed (api api' : Api) (old new : option EndpointSlice) : Prop :=
  ∀ ns sel,
    (∀ s, old = Some s ∨ new = Some s → ¬ slice_selected ns sel s) →
    List_EndpointSlice api ns sel = List_EndpointSlice api' ns sel.

(** The watches of [SetupWithManager]: what an informer reports, with the old
    and the new object, ... *)
Inductive event :=
| EvProxy (k : NamespacedName)
| EvListener (old new : option Listener)
| EvCluster (old new : option Cluster)
| EvRoute (old new : option RouteConfiguration)
| EvScoped (old new : option ScopedRouteConfiguration)
| EvCLA (old new : option ClusterLoadAssignmentCR)
| EvSlice (old new : option EndpointSlice)
(** the reconciler's own write to the status of a proxy: an update of the
    proxy, which the watch without predicates reports like any other *)
| EvStatus (k : NamespacedName).

(** ... and the requests of its handler, run on the given API state. *)
Definition event_requests (api : Api) (ev : event) : list NamespacedName :=
  match ev with
  | EvProxy k => [k]
  | EvListener old new => requests map_object old new
  | EvCluster old new => requests map_object old new
  | EvRoute old new => requests map_object old new
  | EvScoped old new => requests map_object old new
  | EvCLA old new => requests map_object old new
  | EvSlice old new => requests (mapEndpointSliceToProxies api) old new
  | EvStatus k => [k]
  end.

(** The change of the API state, made by somebody else, an event stands for. *)
Inductive api_event (api api' : Api) : event → Prop :=
| change_proxy k :
    same_resources api api' →
    (∀ k', k' ≠ k → Get_EnvoyProxy api' k' = Get_EnvoyProxy api k') →
    has_byte "." (nn_Namespace k) = false →
    api_event api api' (EvProxy k)
| change_listener old new :
    same_but KListener api api' →
    list_changed (List_Listener api) (List_Listener api') old new →
    api_event api api' (EvListener old new)
| change_cluster old new :
    same_but KCluster api api' →
    list_changed (List_Cluster api) (List_Cluster api') old new →
    api_event api api' (EvCluster old new)
| change_route old new :
    same_but KRoute api api' →
    list_changed (List_RouteConfiguration api) (List_RouteConfiguration api') old new →
    api_event api api' (EvRoute old new)
| change_scoped old new :
    same_but KScoped api api' →
    list_changed (List_ScopedRouteConfiguration api)
      (List_ScopedRouteConfiguration api') old new →
    api_event api api' (EvScoped old new)
| change_cla old new :
    same_but KCLA api api' →
    list_changed (List_ClusterLoadAssignment api)
      (List_ClusterLoadAssignment api') old new →
    api_event api api' (EvCLA old new)
| change_slice old new :
    same_but KSlice api api' →
    slices_changed api api' old new →
    api_event api api' (EvSlice old new).

(** A change and the requests of its handler, run on the state it leaves. *)
Definition api_change (api api' : Api) (reqs : list NamespacedName) : Prop :=
  ∃ ev, api_event api api' ev ∧ reqs = event_requests api' ev.

(** ** Start-up and the goal *)

(** The world and the queue, with nobody working. *)
Record Sys := { sy_world : World Api Cache; sy_queue : gset NamespacedName }.

Definition with_api (w : World Api Cache) (api : Api) : World Api Cache :=
  {| w_Api := api; w_Server := w_Server w |}.
Definition with_server (w : World Api Cache) (srv : Server Cache) : World Api Cache :=
  {| w_Api := w_Api w; w_Server := srv |}.

(** Start-up: the queue holds every proxy there is (the initial list). *)
Definition sys_init (s : Sys) : Prop :=
  w_Server (sy_world s) = NewServer ∧
  ∀ k ep, Get_EnvoyProxy (w_Api (sy_world s)) k = Ok ep →
    k ∈ sy_queue s ∧ has_byte "." (nn_Namespace k) = false.

(** The proxy's node has the snapshot its resources call for. *)
Definition up_to_date (w : World Api Cache) (k : NamespacedName) : Prop :=
  ∃ snap, desired (w_Api w) k = Ok snap ∧ node_snapshot w (proxy_node k) = Some snap.

(** ** What a reconcile reads *)

Definition select {T} `{!XDSObject T} (k : NamespacedName) (l : result error (list T))
    : result error (list T) := targeting k <$> l.

Lemma collect_loop_select {T} `{!XDSObject T} ns name (l : result error (list T)) :
  (l ≫= λ items : list T, Ok (collect_loop ns name items)) =
  (λ sel : list T, (GetSpecRaw <$> sel, version_of <$> sel)) <$>
    select {| nn_Namespace := ns; nn_Name := name |} l.
Proof. destruct l; [|done]. simpl. by rewrite collect_loop_spec. Qed.

Lemma synth_loop_local api api' manual items specs vers :
  (∀ c ref, c ∈ items → cl_KubernetesServiceRef c = Some ref →
    List_EndpointSlice api (service_ns c ref) {[service_label := ks_Name ref]} =
    List_EndpointSlice api' (service_ns c ref) {[service_label := ks_Name ref]}) →
  synth_loop api manual items specs vers = synth_loop api' manual items specs vers.
Proof.
  revert specs vers. induction items as [|c items IH]; intros specs vers Hs; [done|].
  assert (∀ specs vers, synth_loop api manual items specs vers =
    synth_loop api' manual items specs vers) as IH'.
  { intros. apply IH. intros. apply Hs; [by right|done]. }
  simpl. destruct (cl_KubernetesServiceRef c) as [ref|] eqn:Hr; [|apply IH'].
  case_match; [apply IH'|]. fold (service_ns c ref).
  rewrite (Hs c ref) by (done || by left).
  apply bind_ext; intros slices. apply bind_ext; intros raw. apply IH'.
Qed.

(** Only the objects that target the proxy, and the slices of the services
    its clusters refer to, matter: two API states that agree on them. *)
Record unaffected (k : NamespacedName) (api api' : Api) : Prop := {
  un_listener : select k (List_Listener api) = select k (List_Listener api');
  un_cluster : select k (List_Cluster api) = select k (List_Cluster api');
  un_route : select k (List_RouteConfiguration api) = select k (List_RouteConfiguration api');
  un_scoped : select k (List_ScopedRouteConfiguration api) =
    select k (List_ScopedRouteConfiguration api');
  un_cla : select k (List_ClusterLoadAssignment api) =
    select k (List_ClusterLoadAssignment api');
  un_slice : ∀ cs c ref, List_Cluster api = Ok cs → c ∈ targeting k cs →
    cl_KubernetesServiceRef c = Some ref →
    List_EndpointSlice api (service_ns c ref) {[service_label := ks_Name ref]} =
    List_EndpointSlice api' (service_ns c ref) {[service_label := ks_Name ref]}
}.

Lemma same_unaffected k api api' : same_resources api api' → unaffected k api api'.
Proof. intros [H1 H2 H3 H4 H5 H6]. split; intros; auto; by rewrite ?H1, ?H2, ?H3, ?H4, ?H5. Qed.

Lemma collect_local api api' k : unaffected k api api' → collect_for api k = collect_for api' k.
Proof.
  destruct k as [ns name]. intros [H1 H2 H3 H4 H5 H6].
  unfold collect_for, collect, collectListeners, collectRoutes, collectScopedRoutes.
  simpl nn_Namespace; simpl nn_Name. rewrite !collect_loop_select, !collectClusters_spec.
  rewrite H1, H3, H4. apply bind_ext; intros [l lv].
  unfold select in H2. destruct (List_Cluster api) as [cs|], (List_Cluster api') as [cs'|];
    simplify_eq/=; [|done].
  rewrite <-H2. set (key := {| nn_Namespace := ns; nn_Name := name |}) in *.
  do 2 (apply bind_ext; intros [? ?]).
  assert (collectEndpoints api ns name (targeting key cs) =
          collectEndpoints api' ns name (targeting key cs)) as ->; [|done].
  unfold collectEndpoints. unfold select in H5.
  destruct (List_ClusterLoadAssignment api) as [clas|],
    (List_ClusterLoadAssignment api') as [clas'|]; simplify_eq/=; [|done].
  rewrite !manual_loop_spec. fold key. unfold manual_names. rewrite H5.
  apply synth_loop_local. intros c ref. by apply H6.
Qed.

(** ** The handlers enqueue enough *)

Lemma select_changed {T} `{!XDSObject T} k (l l' : result error (list T)) old new :
  list_changed l l' old new → k ∉ requests map_object old new →
  select k l = select k l'.
Proof.
  intros (l1 & l2 & -> & ->) Hk. unfold select. simpl. f_equal.
  unfold requests in Hk. rewrite elem_of_app in Hk.
  rewrite !targeting_other; [done|..]; intros x -> <-; apply Hk; [right|left];
    by left.
Qed.

Lemma slice_change_unread api api' k old new cs c ref :
  slices_changed api api' old new →
  List_Cluster api' = Ok cs → c ∈ targeting k cs → cl_KubernetesServiceRef c = Some ref →
  k ∉ requests (mapEndpointSliceToProxies api') old new →
  List_EndpointSlice api (service_ns c ref) {[service_label := ks_Name ref]} =
  List_EndpointSlice api' (service_ns c ref) {[service_label := ks_Name ref]}.
Proof.
  intros Hch Hcs Hc Hr Hk. apply Hch. intros s Hs [Hns Hsel].
  apply list_elem_of_filter in Hc as [Hkey Hc].
  assert (k ∈ mapEndpointSliceToProxies api' s) as Hin.
  { apply (elem_of_mapEndpointSlice api' s cs); [done|].
    exists (ks_Name ref), c. split_and!; [|done| |done].
    - by apply map_singleton_subseteq_l.
    - by exists ref. }
  apply Hk. unfold requests. rewrite elem_of_app, !list_elem_of_bind.
  destruct Hs as [-> | ->]; [left|right]; exists s; (split; [done|by left]).
Qed.

(** A change whose requests leave a proxy out does not change what the proxy
    is meant to have. *)
Lemma event_unaffected api api' ev k :
  api_event api api' ev → k ∉ event_requests api' ev → unaffected k api api'.
Proof.
  intros Hch Hk. destruct Hch as [k' Hs|old new Hb Hl|old new Hb Hl|old new Hb Hl|
    old new Hb Hl|old new Hb Hl|old new Hb Hl]; [by apply same_unaffected|..];
    destruct Hb as [B1 B2 B3 B4 B5 B6 _]; split;
    try (by rewrite ?B1, ?B2, ?B3, ?B4, ?B5 by done);
    try (by eapply select_changed);
    try (intros; by apply B6).
  intros cs c ref Hcs. rewrite B2 in Hcs by done. intros. by eapply slice_change_unread.
Qed.

Lemma event_proxy api api' ev k :
  api_event api api' ev → k ∉ event_requests api' ev →
  Get_EnvoyProxy api' k = Get_EnvoyProxy api k.
Proof.
  intros Hch Hk. destruct Hch as [k' _ Hg|old new []|old new []|old new []|old new []|
    old new []|old new []]; auto. apply Hg. set_solver.
Qed.

Lemma desired_local api api' reqs k :
  api_change api api' reqs → k ∉ reqs →
  desired api k = desired api' k ∧ Get_EnvoyProxy api' k = Get_EnvoyProxy api k.
Proof.
  intros (ev & Hch & ->) Hk. unfold desired.
  rewrite (collect_local api api') by (by eapply event_unaffected).
  split; [done|by eapply event_proxy].
Qed.

(** A proxy that exists after an event existed before, or the event is its own. *)
Lemma event_presence api api' ev k ep :
  api_event api api' ev → Get_EnvoyProxy api' k = Ok ep →
  (∃ ep0, Get_EnvoyProxy api k = Ok ep0) ∨
  (ev = EvProxy k ∧ has_byte "." (nn_Namespace k) = false).
Proof.
  intros Hch Hg. destruct Hch as [k' _ Hg' Hd|old new []|old new []|old new []|old new []|
    old new []|old new []]; try (left; exists ep; congruence).
  destruct (decide (k = k')) as [->|Hne].
  - by right.
  - left. exists ep. by rewrite <-Hg'.
Qed.

(** ** Streams change no snapshot *)

Lemma node_snapshot_stream w node n :
  node_snapshot (with_server w (StreamRequestFunc (w_Server w) node)) n = node_snapshot w n ∧
  node_snapshot (with_server w (StreamClosedFunc (w_Server w) node)) n = node_snapshot w n.
Proof.
  unfold node_snapshot, StreamRequestFunc, StreamClosedFunc.
  destruct node; simpl; [|done]. by case_bool_decide.
Qed.

(** The snapshot cache accepts every snapshot. *)
Definition cache_accepts : Prop :=
  ∀ (c : Cache) n snap, (SetSnapshot c n snap).2 = None.

(** ** Properties *)

(** [C5] Locality of a change: when a resource, a slice or a proxy changes and
    the watch handlers, run on its old and its new version, do not enqueue a
    proxy, that proxy's desired snapshot is the same before and after. *)
Theorem unqueued_unchanged api api' reqs k
    (Hch : api_change api api' reqs) (Hk : k ∉ reqs) :
  desired api' k = desired api k ∧ Get_EnvoyProxy api' k = Get_EnvoyProxy api k.
Proof. destruct (desired_local api api' reqs k Hch Hk) as [-> ?]. done. Qed.

End system.

(** ** Witnesses: the example store *)

Section examples.
Local Existing Instance store_client.
Local Existing Instance store_client_laws.
Local Existing Instance ex_lib.
Local Existing Instance gmap_cache.
Local Existing Instance gmap_cache_laws.

Definition ex_other_listener : Listener :=
  ex_listener "listener_1" "3" {| tr_Name := "other"; tr_Namespace := "default" |}.

(** The listener of the other proxy is deleted. *)
Definition ex_deleted : Store := ex_store [ex_listener "listener_0" "2" ex_ref].

Lemma ex_change : api_change ex_good ex_deleted [ex_other].
Proof.
  exists (EvListener (Some ex_other_listener) None). split; [|reflexivity].
  apply change_listener; [split; done|].
  exists [ex_listener "listener_0" "2" ex_ref], []. done.
Defined.

Definition ex_start : Sys (Api := Store) (Cache := gmap string ex_snapshot) :=
  {| sy_world := ex_world ex_good; sy_queue := {[ex_key; ex_other]} |}.

Lemma ex_start_init : sys_init ex_start.
Proof.
  split; [done|]. intros k ep Hg. simpl in Hg.
  destruct (find_proxy k _) as [p|] eqn:Hp; [|done]. simplify_eq.
  apply head_filter_elem in Hp as [<- Hp].
  apply elem_of_cons in Hp as [->|Hp]; [|apply list_elem_of_singleton in Hp as ->];
    (split; [set_solver|done]).
Defined.

Lemma ex_accepts : cache_accepts (Cache := gmap string ex_snapshot).
Proof. done. Defined.

Lemma unqueued_unchanged_witness :
  api_change ex_good ex_deleted [ex_other] ∧
  desired ex_deleted ex_key = desired ex_good ex_key.
Proof.
  split; [exact ex_change|].
  apply (unqueued_unchanged ex_good ex_deleted [ex_other] ex_key ex_change).
  by intros ?%list_elem_of_singleton.
Defined.

End examples.
