(* ===== verification/GoFlag.v ===== *)
(** * Go's package flag

    A flag set is a finite map from names to flags; parsing threads the
    variables the flags are bound to.  [Parse_exact] characterises the command
    lines that are accepted: a sequence of flag occurrences, each written with
    one or two dashes and with the value joined by [=] or in the next
    argument, then the rest. *)

From S2P Require Import Prelude GoStrings.

Section flags.
(** The variables. *)
Context {St : Type}.

(** [flag.Flag]: whether [Value.IsBoolFlag()], and [Value.Set]. *)
Record Flag := { fl_bool : bool; fl_set : string → St → result error St }.

Abbreviation FlagSet := (gmap string Flag).

(** [func (f *FlagSet) Var(value, name, usage)]; an error is a panic. *)
Definition Var (f : FlagSet) (name : string) (flag : Flag) : result error FlagSet :=
  if HasPrefix name "-" then Err (ErrLib "panic" ("flag begins with -: " +:+ name))
  else if has_byte "=" name then Err (ErrLib "panic" ("flag contains =: " +:+ name))
  else match f !! name with
       | Some _ => Err (ErrLib "panic" ("flag redefined: " +:+ name))
       | None => Ok (<[name := flag]> f)
       end.

(** [strconv.ParseBool] *)
Definition ParseBool (s : string) : option bool :=
  if bool_decide (s ∈ ["1"; "t"; "T"; "true"; "TRUE"; "True"]) then Some true
  else if bool_decide (s ∈ ["0"; "f"; "F"; "false"; "FALSE"; "False"]) then Some false
  else None.

Definition string_flag (set : string → St → St) : Flag :=
  {| fl_bool := false; fl_set := λ v st, Ok (set v st) |}.

Definition bool_flag (set : bool → St → St) : Flag :=
  {| fl_bool := true;
     fl_set := λ v st, match ParseBool v with
                       | Some b => Ok (set b st)
                       | None => Err (ErrLib "" "parse error")
                       end |}.

(** [flag.StringVar(p, name, value, usage)]: [p] is set to the default. *)
Definition StringVar (set : string → St → St) (name value : string) (c : FlagSet * St)
    : result error (FlagSet * St) :=
  f ← Var c.1 name (string_flag set); Ok (f, set value c.2).

(** [flag.BoolVar(p, name, value, usage)] *)
Definition BoolVar (set : bool → St → St) (name : string) (value : bool) (c : FlagSet * St)
    : result error (FlagSet * St) :=
  f ← Var c.1 name (bool_flag set); Ok (f, set value c.2).

(** Several flags, one after the other. *)
Fixpoint VarAll (f : FlagSet) (flags : list (string * Flag)) : result error FlagSet :=
  match flags with
  | [] => Ok f
  | (name, flag) :: flags => f ← Var f name flag; VarAll f flags
  end.

(** ** One argument *)

Inductive arg_kind :=
| ANotFlag
| ATerminator
| ABad
| AFlag (name : string) (value : option string).

(** The name up to the first [=], and what follows it. *)
Fixpoint cut_value (s : string) : string * option string :=
  match s with
  | "" => ("", None)
  | String c s =>
      if bool_decide (c = "="%char) then ("", Some s)
      else let '(name, value) := cut_value s in (String c name, value)
  end.

(** After the dashes. *)
Definition classify_name (s : string) : arg_kind :=
  match s with
  | "" => ABad
  | String c _ =>
      if bool_decide (c = "-"%char) || bool_decide (c = "="%char) then ABad
      else let '(name, value) := cut_value s in AFlag name value
  end.

Definition classify (s : string) : arg_kind :=
  match s with
  | String c (String c' r) =>
      if bool_decide (c = "-"%char)
      then if bool_decide (c' = "-"%char)
           then if bool_decide (r = "") then ATerminator else classify_name r
           else classify_name (String c' r)
      else ANotFlag
  | _ => ANotFlag
  end.

(** ** [func (f *FlagSet) parseOne()] and the loop of [Parse] *)

Inductive flag_error :=
| ErrHelp
| BadSyntax (arg : string)
| NotDefined (name : string)
| NeedsArgument (name : string)
| InvalidValue (name value : string) (err : error).

Definition set_flag (name : string) (flag : Flag) (value : string) (st : St)
    : result flag_error St :=
  match fl_set flag value st with
  | Ok st => Ok st
  | Err err => Err (InvalidValue name value err)
  end.

Fixpoint Parse (f : FlagSet) (args : list string) (st : St)
    : result flag_error (St * list string) :=
  match args with
  | [] => Ok (st, [])
  | s :: args' =>
      match classify s with
      | ANotFlag => Ok (st, args)
      | ATerminator => Ok (st, args')
      | ABad => Err (BadSyntax s)
      | AFlag name value =>
          match f !! name with
          | None =>
              if bool_decide (name = "help") || bool_decide (name = "h") then Err ErrHelp
              else Err (NotDefined name)
          | Some flag =>
              if fl_bool flag
              then st ← set_flag name flag (default "true" value) st; Parse f args' st
              else match value, args' with
                   | Some v, _ => st ← set_flag name flag v st; Parse f args' st
                   | None, v :: args'' => st ← set_flag name flag v st; Parse f args'' st
                   | None, [] => Err (NeedsArgument name)
                   end
          end
      end
  end.

(** ** The grammar *)

Inductive flag_value := Joined (v : string) | Separate (v : string) | Bare.
Record occurrence := { oc_double : bool; oc_name : string; oc_value : flag_value }.

Definition dashes (o : occurrence) : string := if oc_double o then "--" else "-".

Definition render (o : occurrence) : list string :=
  match oc_value o with
  | Joined v => [dashes o +:+ oc_name o +:+ "=" +:+ v]
  | Separate v => [dashes o +:+ oc_name o; v]
  | Bare => [dashes o +:+ oc_name o]
  end.

(** A name that can be written on the command line. *)
Definition flag_name (name : string) : Prop :=
  name ≠ "" ∧ HasPrefix name "-" = false ∧ has_byte "=" name = false.

(** A string flag has a value, a boolean flag has one only when joined. *)
Definition well_formed (f : FlagSet) (o : occurrence) : Prop :=
  flag_name (oc_name o) ∧
  ∃ flag, f !! oc_name o = Some flag ∧
    match oc_value o with
    | Joined _ => True
    | Separate _ => fl_bool flag = false
    | Bare => fl_bool flag = true
    end.

Definition value_of (o : occurrence) : string :=
  match oc_value o with Joined v | Separate v => v | Bare => "true" end.

(** The occurrences set their flags from left to right. *)
Fixpoint assign (f : FlagSet) (os : list occurrence) (st : St) : result flag_error St :=
  match os with
  | [] => Ok st
  | o :: os =>
      match f !! oc_name o with
      | Some flag => st ← set_flag (oc_name o) flag (value_of o) st; assign f os st
      | None => Err (NotDefined (oc_name o))
      end
  end.

(** What follows the flags, and what is left of it. *)
Definition stops (tail rest : list string) : Prop :=
  (tail = rest ∧ ∀ s, head rest = Some s → classify s = ANotFlag) ∨ tail = "--" :: rest.

(** ** Lemmas *)

Lemma Var_Ok f name flag f' :
  Var f name flag = Ok f' → f !! name = None ∧ f' = <[name := flag]> f.
Proof. unfold Var. repeat case_match; naive_solver. Qed.

(** Defining flags does not take any away; new ones come from the list. *)
Lemma VarAll_Ok f flags f' :
  VarAll f flags = Ok f' →
  f ⊆ f' ∧ ∀ name flag, f' !! name = Some flag →
    f !! name = Some flag ∨ (name, flag) ∈ flags.
Proof.
  revert f. induction flags as [|[name flag] flags IH]; intros f; simpl.
  { intros; simplify_eq. auto. }
  intros (f1 & [Hn ->]%Var_Ok & Hall)%bind_Ok. apply IH in Hall as [Hsub Hinv]. split.
  - etrans; [by apply insert_subseteq|done].
  - intros n fl [Hl|?]%Hinv; [|right; by right].
    apply lookup_insert_Some in Hl as [[-> ->]|[_ ?]]; [right; by left|by left].
Qed.

(** A name and its value, as written. *)
Definition joined (name : string) (value : option string) : string :=
  match value with None => name | Some v => name +:+ "=" +:+ v end.

Lemma cut_value_joined name value :
  has_byte "=" name = false → cut_value (joined name value) = (name, value).
Proof.
  unfold joined. induction name as [|c name IH]; [by destruct value|]. simpl.
  rewrite orb_false_iff, bool_decide_eq_false. intros [Hc Hn].
  destruct value as [v|]; [rewrite string_app_cons|]; simpl;
    rewrite bool_decide_false by congruence; by rewrite IH.
Qed.

Lemma cut_value_inv s name value :
  cut_value s = (name, value) → s = joined name value ∧ has_byte "=" name = false.
Proof.
  revert name value. induction s as [|c s IH]; intros name value; simpl.
  - intros; by simplify_eq.
  - case_bool_decide as Hc; [intros; by simplify_eq|].
    destruct (cut_value s) as [name' value']. intros; simplify_eq.
    destruct (IH _ _ eq_refl) as [-> Hn]. split; [by destruct value|].
    simpl. by rewrite Hn, bool_decide_false by congruence.
Qed.

Lemma classify_name_joined name value :
  flag_name name → classify_name (joined name value) = AFlag name value.
Proof.
  intros (Hne & Hd & Heq). pose proof (cut_value_joined name value Heq) as Hcut.
  destruct name as [|c name]; [done|]. simpl in Hd, Heq.
  apply orb_false_iff in Heq as [Hc%bool_decide_eq_false _].
  assert (joined (String c name) value = String c (joined name value)) as Hj
    by (by destruct value). rewrite Hj in *. unfold classify_name. rewrite Hcut.
  rewrite (bool_decide_false (c = "="%char)) by congruence.
  rewrite bool_decide_false; [done|]. intros ->. by rewrite bool_decide_true in Hd.
Qed.

Lemma classify_name_inv s name value :
  classify_name s = AFlag name value → s = joined name value ∧ flag_name name.
Proof.
  destruct s as [|c s]; [done|]. unfold classify_name.
  destruct (bool_decide (c = "-"%char) || _) eqn:Hc; [done|].
  apply orb_false_iff in Hc as [H1%bool_decide_eq_false H2%bool_decide_eq_false].
  destruct (cut_value (String c s)) as [n v] eqn:Hcut. intros; simplify_eq.
  apply cut_value_inv in Hcut as [Hs Heq]. split; [done|].
  unfold joined in Hs. destruct name as [|d name].
  { destruct value as [v|]; [rewrite string_app_nil_l, string_app_cons in Hs|]; congruence. }
  assert (c = d) as -> by (destruct value; [rewrite string_app_cons in Hs|]; congruence).
  split_and!; [done| |done]. simpl. by rewrite bool_decide_false.
Qed.

Lemma classify_name_terminator s : classify_name s ≠ ATerminator.
Proof. destruct s as [|c s]; [done|]. unfold classify_name. by repeat case_match. Qed.

Lemma classify_dashes (o : occurrence) value :
  flag_name (oc_name o) →
  classify (dashes o +:+ joined (oc_name o) value) = AFlag (oc_name o) value.
Proof.
  intros Hn. pose proof (classify_name_joined _ value Hn) as Hcl.
  destruct Hn as (Hne & Hd & _). destruct o as [double name v]; simpl in *.
  destruct name as [|c name]; [done|].
  assert (joined (String c name) value = String c (joined name value)) as Hj
    by (by destruct value). rewrite Hj in *. unfold dashes; simpl oc_double.
  destruct double; rewrite !string_app_cons, string_app_nil_l; unfold classify;
    rewrite bool_decide_true by done; [exact Hcl|].
  rewrite bool_decide_false; [done|]. by intros ->.
Qed.

Lemma classify_inv s :
  match classify s with
  | AFlag name value => flag_name name ∧ ∃ double, ∀ v,
      s = dashes {| oc_double := double; oc_name := name; oc_value := v |} +:+ joined name value
  | ATerminator => s = "--"
  | _ => True
  end.
Proof.
  destruct s as [|c [|c' r]]; [done..|]. unfold classify. case_bool_decide as H1; [subst|done].
  case_bool_decide as H2; [subst; case_bool_decide as H3; [by subst|]|].
  - destruct (classify_name r) as [| | |name value] eqn:Hcl; try done.
    { by apply classify_name_terminator in Hcl. }
    apply classify_name_inv in Hcl as [-> Hn]. split; [done|]. by exists true.
  - destruct (classify_name (String c' r)) as [| | |name value] eqn:Hcl; try done.
    { by apply classify_name_terminator in Hcl. }
    apply classify_name_inv in Hcl as [-> Hn]. split; [done|]. by exists false.
Qed.

(** Parsing a well-formed occurrence sets its flag. *)
Lemma Parse_render f o args st :
  well_formed f o →
  Parse f (render o ++ args) st = assign f [o] st ≫= Parse f args.
Proof.
  intros [Hn (flag & Hf & Hv)]. pose proof (classify_dashes o) as Hcl. simpl.
  unfold render, value_of. rewrite Hf.
  destruct o as [double name [v|v|]]; simpl in *;
    [specialize (Hcl (Some v) Hn)|specialize (Hcl None Hn)..]; unfold joined in Hcl;
    rewrite Hcl, Hf; [destruct (fl_bool flag)|rewrite Hv..];
    simpl; by destruct (set_flag _ _ _ _).
Qed.

Lemma Parse_renders f os args st :
  Forall (well_formed f) os →
  Parse f (mjoin (render <$> os) ++ args) st = assign f os st ≫= Parse f args.
Proof.
  intros Hos. revert st. induction Hos as [|o os Ho _ IH]; intros st; [done|].
  csimpl. rewrite <-app_assoc, Parse_render by done. simpl.
  destruct (f !! oc_name o) as [flag|]; [|done].
  destruct (set_flag _ _ _ _) as [st'|]; [|done]. simpl. apply IH.
Qed.

Lemma Parse_stops f tail rest st : stops tail rest → Parse f tail st = Ok (st, rest).
Proof.
  intros [[-> Hr]| ->]; [|done]. destruct rest as [|s rest]; [done|]. simpl.
  by rewrite (Hr s eq_refl).
Qed.

(** An argument that names a flag starts an occurrence, unless the value is
    missing. *)
Lemma classify_occurrence f s args name value flag :
  classify s = AFlag name value → f !! name = Some flag →
  (∃ o args', s :: args = render o ++ args' ∧ well_formed f o) ∨
  fl_bool flag = false ∧ value = None ∧ args = [].
Proof.
  intros Hcl Hf. pose proof (classify_inv s) as Hs. rewrite Hcl in Hs.
  destruct Hs as [Hn [double Hs]]. unfold joined in Hs. destruct value as [v|].
  - left. exists {| oc_double := double; oc_name := name; oc_value := Joined v |}, args.
    rewrite (Hs (Joined v)). split; [done|]. split; [done|]. by exists flag.
  - destruct (fl_bool flag) eqn:Hb; [|destruct args as [|v args]; [by right|]]; left.
    + exists {| oc_double := double; oc_name := name; oc_value := Bare |}, args.
      rewrite (Hs Bare). split; [done|]. split; [done|]. by exists flag.
    + exists {| oc_double := double; oc_name := name; oc_value := Separate v |}, args.
      rewrite (Hs (Separate v)). split; [done|]. split; [done|]. by exists flag.
Qed.

Lemma render_length o : 0 < length (render o).
Proof. destruct o as [? ? []]; simpl; lia. Qed.

(** Every accepted command line is made of occurrences. *)
Lemma Parse_Ok_inv f args st st' rest :
  Parse f args st = Ok (st', rest) →
  ∃ os tail, args = mjoin (render <$> os) ++ tail ∧ Forall (well_formed f) os ∧
    stops tail rest ∧ assign f os st = Ok st'.
Proof.
  revert st. induction (well_founded_ltof _ (@length string) args) as [args _ IH].
  unfold ltof in IH. intros st. destruct args as [|s args].
  { intros; simplify_eq/=. exists [], []. split_and!; try done. by left. }
  pose proof (classify_inv s) as Hcl. destruct (classify s) as [| | |name value] eqn:Hk.
  - simpl. rewrite Hk. intros; simplify_eq. exists [], (s :: args). split_and!; try done.
    left. split; [done|]. by intros ? [= <-].
  - simpl. rewrite Hk. intros; simplify_eq. exists [], ("--" :: rest).
    split_and!; try done. by right.
  - simpl. by rewrite Hk.
  - destruct (f !! name) as [flag|] eqn:Hf; [|simpl; rewrite Hk, Hf; by case_match].
    destruct (classify_occurrence f s args name value flag Hk Hf)
      as [(o & args' & Heq & Ho)|(Hb & -> & ->)]; [|by simpl; rewrite Hk, Hf, Hb].
    rewrite Heq in IH |- *. rewrite Parse_render by done.
    intros (st1 & Ha & Hp)%bind_Ok. apply IH in Hp as (os & tail & -> & Hos & Hst & Has).
    + exists (o :: os), tail. csimpl. rewrite <-app_assoc. split_and!; [done|by constructor|done|].
      simpl in Ha |- *. destruct (f !! oc_name o); [|done].
      apply bind_Ok in Ha as (st2 & -> & ?). by simplify_eq/=.
    + rewrite length_app. pose proof (render_length o). lia.
Qed.

(** The accepted command lines and their results. *)
Lemma Parse_spec f args st st' rest :
  Parse f args st = Ok (st', rest) ↔
  ∃ os tail, args = mjoin (render <$> os) ++ tail ∧ Forall (well_formed f) os ∧
    stops tail rest ∧ assign f os st = Ok st'.
Proof.
  split; [apply Parse_Ok_inv|]. intros (os & tail & -> & Hos & Hst & Ha).
  rewrite Parse_renders, Ha by done. by apply Parse_stops.
Qed.
End flags.
