(* ===== verification/Prog.v ===== *)
(** * Programs of calls

    Code whose calls matter one by one (the reconciler, [Server.Start], the
    helpers of the end-to-end tests) is a [prog]: a finite tree whose nodes are
    calls and whose leaves are results.  [interp] runs a program against a
    state; [behaves] says which calls with which answers a run may consist of,
    whatever the environment does. *)

From S2P Require Import Prelude.

Inductive prog (E : Type → Type) (R : Type) :=
| Ret (r : R)
| Ask {X : Type} (e : E X) (k : X → prog E R).
Arguments Ret {E R} r.
Arguments Ask {E R X} e k.

Fixpoint prog_bind {E A B} (f : A → prog E B) (p : prog E A) : prog E B :=
  match p with
  | Ret a => f a
  | Ask e k => Ask e (λ x, prog_bind f (k x))
  end.

Definition call {E : Type → Type} {X} (e : E X) : prog E X := Ask e Ret.

(** [if err != nil { return err }] after a call. *)
Definition attempt {E A B} (p : prog E (result error A)) (f : A → prog E (result error B))
    : prog E (result error B) :=
  prog_bind (λ r, match r with Ok a => f a | Err err => Ret (Err err) end) p.

(** [fmt.Errorf("prefix: %w", err)] on the error of a call. *)
Definition wrapping {E A} (prefix : string) (p : prog E (result error A))
    : prog E (result error A) := prog_bind (λ r, Ret (wrap prefix r)) p.

Declare Scope prog_scope.
Delimit Scope prog_scope with prog.
Notation "x ⇐ p ; q" := (prog_bind (λ x, q) p)
  (at level 20, p at level 100, q at level 200, right associativity) : prog_scope.
Notation "' x ⇐ p ; q" := (prog_bind (λ x, q) p)
  (at level 20, x pattern, p at level 100, q at level 200, right associativity) : prog_scope.
Notation "x ⇐? p ; q" := (attempt p (λ x, q))
  (at level 20, p at level 100, q at level 200, right associativity) : prog_scope.
Notation "' x ⇐? p ; q" := (attempt p (λ x, q))
  (at level 20, x pattern, p at level 100, q at level 200, right associativity) : prog_scope.

(** ** Running a program against a state *)

Section interp.
Context {E : Type → Type} {S : Type} (h : ∀ X, S → E X → S * X).

Fixpoint interp {R} (s : S) (p : prog E R) : S * R :=
  match p with
  | Ret r => (s, r)
  | Ask e k => let '(s', x) := h _ s e in interp s' (k x)
  end.

Lemma interp_bind {A B} s (f : A → prog E B) p :
  interp s (prog_bind f p) = let '(s', a) := interp s p in interp s' (f a).
Proof.
  revert s. induction p as [r|X e k IH]; intros s; simpl; [done|].
  destruct (h X s e). apply IH.
Qed.
End interp.

(** ** The runs of a program, with any answers *)

Inductive event_with (E : Type → Type) :=
| Answered {X : Type} (e : E X) (x : X).
Arguments Answered {E X} e x.

Section behaves.
Context {E : Type → Type}.
Implicit Types (tr : list (event_with E)).

(** The program may make the calls of [tr], get the answers there, and return
    [r]. *)
Fixpoint behaves {R} (p : prog E R) tr (r : R) : Prop :=
  match p with
  | Ret r' => tr = [] ∧ r = r'
  | Ask e k => ∃ x tr', tr = Answered e x :: tr' ∧ behaves (k x) tr' r
  end.

Lemma behaves_bind {A B} (f : A → prog E B) p tr b :
  behaves (prog_bind f p) tr b ↔
  ∃ tr1 a tr2, tr = tr1 ++ tr2 ∧ behaves p tr1 a ∧ behaves (f a) tr2 b.
Proof.
  revert tr. induction p as [r|X e k IH]; intros tr; simpl.
  - split; [intros Hb; by exists [], r, tr|]. by intros (? & ? & tr2 & -> & [-> ->] & Hb).
  - setoid_rewrite IH. split.
    + intros (x & ? & -> & tr1 & a & tr2 & -> & Hp & Hf).
      exists (Answered e x :: tr1), a, tr2. split; [done|]. split; [by exists x, tr1|done].
    + intros (? & a & tr2 & -> & (x & tr1 & -> & Hp) & Hf).
      exists x, (tr1 ++ tr2). split; [done|]. by exists tr1, a, tr2.
Qed.

(** What [interp] does is one of the runs. *)
Lemma interp_behaves {S R} (h : ∀ X, S → E X → S * X) s (p : prog E R) :
  ∃ tr, behaves p tr (interp h s p).2.
Proof.
  revert s. induction p as [r|X e k IH]; intros s; simpl; [by exists []|].
  destruct (h X s e) as [s' x]. destruct (IH x s') as [tr Htr]. by exists (Answered e x :: tr), x, tr.
Qed.
End behaves.
