(* ===== verification/Steps.v ===== *)
(** * Reconcile, one call at a time

    [Reconcile] of Controller.v reads the whole API in one go.  Here the same
    function is a program: a tree whose nodes are the calls it makes to the
    Kubernetes client and to the xDS server, in the order of the source, and
    whose leaves are its results.  Running the program without interruption is
    [Reconcile] again ([Reconcile_p_runs]); Interleave.v lets other things
    happen between two calls. *)

From S2P Require Import Prelude Prog GoStrings Types Eds Server Snapshot Controller Reconcile System.

Local Open Scope prog_scope.

(** ** The reads of the collection phase *)

(** [r.List(ctx, &list, ...)], by the type of the list. *)
Inductive read : Type → Type :=
| RListener : read (result error (list Listener))
| RCluster : read (result error (list Cluster))
| RRouteConfiguration : read (result error (list RouteConfiguration))
| RScopedRouteConfiguration : read (result error (list ScopedRouteConfiguration))
| RClusterLoadAssignment : read (result error (list ClusterLoadAssignmentCR))
| REndpointSlice (ns : string) (sel : gmap string string)
    : read (result error (list EndpointSlice)).

Section reads.
Context {Api : Type} `{!Client Api}.

Definition answer {X} (api : Api) (q : read X) : X :=
  match q in read X return X with
  | RListener => List_Listener api
  | RCluster => List_Cluster api
  | RRouteConfiguration => List_RouteConfiguration api
  | RScopedRouteConfiguration => List_ScopedRouteConfiguration api
  | RClusterLoadAssignment => List_ClusterLoadAssignment api
  | REndpointSlice ns sel => List_EndpointSlice api ns sel
  end.

(** All reads on one API state. *)
Fixpoint run_reads {R} (api : Api) (p : prog read R) : R :=
  match p with
  | Ret r => r
  | Ask q k => run_reads api (k (answer api q))
  end.

(** The first [n] reads on one API state. *)
Fixpoint advance {R} (api : Api) (n : nat) (p : prog read R) : prog read R :=
  match n, p with
  | S n, Ask q k => advance api n (k (answer api q))
  | _, _ => p
  end.
End reads.

Section programs.
Context {Resource Snapshot : Type} `{!XDSLib Resource Snapshot}.

Definition collectListeners_p (proxyNS proxyName : string)
    : prog read (result error (list string * list string)) :=
  list ⇐? call RListener; Ret (Ok (collect_loop proxyNS proxyName list)).

Definition collectClusters_p (proxyNS proxyName : string)
    : prog read (result error (list string * list string * list Cluster)) :=
  list ⇐? call RCluster;
  Ret (Ok (foldl (λ '(specs, versions, items) item,
    if targetMatches (cl_TargetRef item) (om_Namespace (cl_meta item)) proxyNS proxyName
    then (specs ++ [cl_Spec_Raw item],
          versions ++ [om_ResourceVersion (cl_meta item)],
          items ++ [item])
    else (specs, versions, items)) ([], [], []) list)).

Definition collectRoutes_p (proxyNS proxyName : string)
    : prog read (result error (list string * list string)) :=
  list ⇐? call RRouteConfiguration; Ret (Ok (collect_loop proxyNS proxyName list)).

Definition collectScopedRoutes_p (proxyNS proxyName : string)
    : prog read (result error (list string * list string)) :=
  list ⇐? call RScopedRouteConfiguration; Ret (Ok (collect_loop proxyNS proxyName list)).

(** One list of slices per synthesized cluster. *)
Fixpoint synth_loop_p (manualNames : gset string) (clusterItems : list Cluster)
    (specs versions : list string) : prog read (result error (list string * list string)) :=
  match clusterItems with
  | [] => Ret (Ok (specs, versions))
  | cluster :: clusterItems =>
      match cl_KubernetesServiceRef cluster with
      | None => synth_loop_p manualNames clusterItems specs versions
      | Some ref =>
          let clusterName := ClusterName (cl_Spec_Raw cluster) in
          if bool_decide (clusterName = "") || bool_decide (clusterName ∈ manualNames)
          then synth_loop_p manualNames clusterItems specs versions
          else
            let svcNS := if bool_decide (ks_Namespace ref = "")
                         then om_Namespace (cl_meta cluster) else ks_Namespace ref in
            slices ⇐? wrapping ("list endpointslices for " +:+ svcNS +:+ "/" +:+ ks_Name ref)
                       (call (REndpointSlice svcNS {[service_label := ks_Name ref]}));
            raw ⇐? Ret (wrap ("marshal synthesized CLA for cluster " +:+ clusterName)
                    (Marshal (SynthesizeCLA clusterName slices (ks_Port ref))));
            synth_loop_p manualNames clusterItems (specs ++ [raw])
              (versions ++ ((λ s, om_ResourceVersion (es_meta s)) <$> slices))
      end
  end.

Definition collectEndpoints_p (proxyNS proxyName : string) (clusterItems : list Cluster)
    : prog read (result error (list string * list string)) :=
  claList ⇐? call RClusterLoadAssignment;
  let '(specs, versions, manualNames) := manual_loop proxyNS proxyName claList in
  synth_loop_p manualNames clusterItems specs versions.

Definition collect_p (proxyNS proxyName : string) : prog read (result error Collected) :=
  '(listeners, lVers) ⇐? wrapping "collect listeners" (collectListeners_p proxyNS proxyName);
  '(clusters, cVers, clusterItems) ⇐?
    wrapping "collect clusters" (collectClusters_p proxyNS proxyName);
  '(routes, rVers) ⇐? wrapping "collect routes" (collectRoutes_p proxyNS proxyName);
  '(scopedRoutes, srVers) ⇐?
    wrapping "collect scoped routes" (collectScopedRoutes_p proxyNS proxyName);
  '(endpoints, eVers) ⇐?
    wrapping "collect endpoints" (collectEndpoints_p proxyNS proxyName clusterItems);
  Ret (Ok {| co_listeners := listeners; co_clusters := clusters; co_routes := routes;
        co_scopedRoutes := scopedRoutes; co_endpoints := endpoints;
        co_version := computeVersion [lVers; cVers; rVers; srVers; eVers] |}).

(** ** All calls of [Reconcile] *)

Inductive effect : Type → Type :=
| EGet (key : NamespacedName) : effect (result error EnvoyProxy)
| ERead {X} (q : read X) : effect X
| ESetSnapshot (node : string) (snap : Snapshot) : effect (option error)
| EIsConnected (node : string) : effect bool
(** the object in memory afterwards, and the error *)
| EStatusUpdate (ep : EnvoyProxy) : effect (EnvoyProxy * option error).

Fixpoint reading {R} (p : prog read R) : prog effect R :=
  match p with
  | Ret r => Ret r
  | Ask q k => Ask (ERead q) (λ x, reading (k x))
  end.
End programs.
Arguments effect : clear implicits.

Section reconciler.
Context {Api Cache Resource Snapshot : Type}.
Context `{!Client Api, !SnapshotCache Cache Snapshot, !XDSLib Resource Snapshot}.
Implicit Types (api : Api) (w : World Api Cache).

(** [func (r) setCondition(ctx, ep, ...)]: one status update. *)
Definition setCondition_p (ep : EnvoyProxy) (condType : string) (status : ConditionStatus)
    (reason msg : string) : prog (effect Snapshot) EnvoyProxy :=
  let gen := om_Generation (ep_meta ep) in
  let ep1 := {|
    ep_meta := ep_meta ep;
    ep_Status := {|
      st_ObservedGeneration := gen;
      st_Conditions := SetStatusCondition (st_Conditions (ep_Status ep)) {|
        c_Type := condType; c_Status := status; c_Reason := reason;
        c_Message := msg; c_ObservedGeneration := gen |} |} |} in
  '(ep2, _) ⇐ call (EStatusUpdate ep1); Ret ep2.

(** Lines 107-116: after [SetSnapshot] succeeded. *)
Definition report_p (ep : EnvoyProxy) (version : string)
    : prog (effect Snapshot) (option error) :=
  connected ⇐ call (EIsConnected (nodeID (om_Name (ep_meta ep)) (om_Namespace (ep_meta ep))));
  let connStatus := if connected : bool then ConditionTrue else ConditionFalse in
  ep2 ⇐ setCondition_p ep ConditionConnected connStatus "StreamStatus" "";
  _ ⇐ setCondition_p ep2 ConditionReady ConditionTrue "SnapshotReady"
        ("version=" +:+ version);
  Ret None.

(** Lines 94-116: from the collected resources on. *)
Definition publish_p (ep : EnvoyProxy) (collected : result error Collected)
    : prog (effect Snapshot) (option error) :=
  match collected with
  | Err err => Ret (Some err)
  | Ok c =>
      match build c with
      | Err err =>
          _ ⇐ setCondition_p ep ConditionReady ConditionFalse
                "SnapshotBuildFailed" (Error err);
          Ret (Some (ErrWrap "build snapshot" err))
      | Ok snap =>
          set_err ⇐ call (ESetSnapshot
            (nodeID (om_Name (ep_meta ep)) (om_Namespace (ep_meta ep))) snap);
          match set_err : option error with
          | Some err =>
              _ ⇐ setCondition_p ep ConditionReady ConditionFalse
                    "SnapshotSetFailed" (Error err);
              Ret (Some (ErrWrap "set snapshot" err))
          | None => report_p ep (co_version c)
          end
      end
  end.

(** [func (r *EnvoyProxyReconciler) Reconcile(ctx, req)] *)
Definition Reconcile_p (req : NamespacedName) : prog (effect Snapshot) (option error) :=
  got ⇐ call (EGet req);
  match got : result error EnvoyProxy with
  | Err err => Ret (IgnoreNotFound err)
  | Ok ep =>
      prog_bind (publish_p ep)
        (reading (collect_p (om_Namespace (ep_meta ep)) (om_Name (ep_meta ep))))
  end.

(** One call: its effect on the world and its answer. *)
Definition perform {X} (w : World Api Cache) (e : effect Snapshot X) : World Api Cache * X :=
  match e in effect _ X return World Api Cache * X with
  | EGet key => (w, Get_EnvoyProxy (w_Api w) key)
  | ERead q => (w, answer (w_Api w) q)
  | ESetSnapshot node snap =>
      let '(cache', set_err) := SetSnapshot (srv_Cache (w_Server w)) node snap in
      ({| w_Api := w_Api w; w_Server := mkServer cache' (srv_connected (w_Server w)) |},
       set_err)
  | EIsConnected node => (w, IsConnected (w_Server w) node)
  | EStatusUpdate ep =>
      let '(api', ep2, err) := Status_Update (w_Api w) ep in
      ({| w_Api := api'; w_Server := w_Server w |}, (ep2, err))
  end.

End reconciler.

Abbreviation run := (interp (λ X, perform (X := X))).

Section reconciler_facts.
Context {Api Cache Resource Snapshot : Type}.
Context `{!Client Api, !SnapshotCache Cache Snapshot, !XDSLib Resource Snapshot}.
Implicit Types (api : Api) (w : World Api Cache).

(** ** Running without interruption *)

Lemma run_reads_bind {A B} api (f : A → prog read B) p :
  run_reads api (prog_bind f p) = run_reads api (f (run_reads api p)).
Proof. induction p as [r|X q k IH]; simpl; [done|apply IH]. Qed.

Lemma run_reads_attempt {A B} api p (f : A → prog read (result error B)) :
  run_reads api (attempt p f) = run_reads api p ≫= λ a, run_reads api (f a).
Proof. unfold attempt. rewrite run_reads_bind. by destruct (run_reads api p). Qed.

Lemma run_reads_wrapping {A} api prefix (p : prog read (result error A)) :
  run_reads api (wrapping prefix p) = wrap prefix (run_reads api p).
Proof. unfold wrapping. by rewrite run_reads_bind. Qed.

Lemma synth_loop_p_run api manual items specs vers :
  run_reads api (synth_loop_p manual items specs vers) =
  synth_loop api manual items specs vers.
Proof.
  revert specs vers. induction items as [|c items IH]; intros specs vers; [done|].
  cbn [synth_loop_p synth_loop]. destruct (cl_KubernetesServiceRef c) as [ref|]; [|apply IH].
  case_match; [apply IH|]. rewrite run_reads_attempt, run_reads_wrapping.
  apply bind_ext; intros slices. rewrite run_reads_attempt.
  apply bind_ext; intros raw. apply IH.
Qed.

Lemma collectEndpoints_p_run api ns name items :
  run_reads api (collectEndpoints_p ns name items) = collectEndpoints api ns name items.
Proof.
  unfold collectEndpoints, collectEndpoints_p. rewrite run_reads_attempt.
  apply bind_ext; intros clas. destruct (manual_loop ns name clas) as [[??]?].
  by rewrite synth_loop_p_run.
Qed.

Lemma collect_p_run api ns name : run_reads api (collect_p ns name) = collect api ns name.
Proof.
  unfold collect_p, collect, collectListeners_p, collectClusters_p, collectRoutes_p,
    collectScopedRoutes_p.
  do 4 (rewrite run_reads_attempt, run_reads_wrapping, run_reads_attempt;
    apply bind_ext; intros; repeat case_match).
  rewrite run_reads_attempt, run_reads_wrapping, collectEndpoints_p_run. simplify_eq.
  by apply bind_ext; intros [].
Qed.

Lemma run_reading {R} w (p : prog read R) :
  run w (reading p) = (w, run_reads (w_Api w) p).
Proof. induction p as [r|X q k IH]; simpl; [done|apply IH]. Qed.

Lemma setCondition_p_run w ep ty st reason msg :
  run w (setCondition_p ep ty st reason msg) = setCondition w ep ty st reason msg.
Proof. unfold setCondition_p, setCondition. simpl. by destruct (Status_Update _ _) as [[??]?]. Qed.

Lemma report_p_run w ep version :
  run w (report_p ep version) =
  let '(w1, ep2) := setCondition w ep ConditionConnected
    (if IsConnected (w_Server w) (proxy_node (proxy_key ep))
     then ConditionTrue else ConditionFalse) "StreamStatus" "" in
  let '(w2, _) := setCondition w1 ep2 ConditionReady ConditionTrue "SnapshotReady"
    ("version=" +:+ version) in (w2, None).
Proof.
  unfold report_p. rewrite interp_bind. cbn [interp perform call]; cbv zeta.
  rewrite interp_bind, setCondition_p_run. unfold proxy_node; cbn [nn_Name nn_Namespace proxy_key].
  destruct (setCondition _ _ _ _ _ _) as [w1 ep2].
  by rewrite interp_bind, setCondition_p_run.
Qed.

Lemma Reconcile_p_runs w req : run w (Reconcile_p req) = Reconcile w req.
Proof.
  unfold Reconcile_p, Reconcile. rewrite interp_bind. cbn [interp perform call].
  destruct (Get_EnvoyProxy _ _) as [ep|]; [|done].
  rewrite interp_bind, run_reading, collect_p_run.
  destruct (collect _ _ _) as [c|]; [|done]. unfold publish_p.
  destruct (build c) as [snap|err].
  - rewrite interp_bind. cbn [interp perform call]. destruct (SetSnapshot _ _ _) as [cache' [err|]].
    + by rewrite interp_bind, setCondition_p_run.
    + by rewrite report_p_run.
  - by rewrite interp_bind, setCondition_p_run.
Qed.

(** ** What the reads depend on *)

(** Run on either state, the program gets answers it does not tell apart. *)
Fixpoint agree {R} (api api' : Api) (p : prog read R) : Prop :=
  match p with
  | Ret _ => True
  | Ask q k => k (answer api q) = k (answer api' q) ∧ agree api api' (k (answer api q))
  end.

Lemma agree_advance {R} api api' n (p : prog read R) :
  agree api api' p → advance api n p = advance api' n p.
Proof.
  revert p. induction n as [|n IH]; intros [r|X q k]; simpl; try done.
  intros [<- Ha]. by apply IH.
Qed.

Lemma agree_bind {A B} api api' (f : A → prog read B) p :
  agree api api' p → agree api api' (f (run_reads api p)) →
  agree api api' (prog_bind f p).
Proof.
  induction p as [r|X q k IH]; simpl; [done|]. intros [Hq Ha] Hf. rewrite Hq.
  split; [done|]. rewrite <-Hq. by apply IH.
Qed.

Lemma agree_attempt {A B} api api' p (f : A → prog read (result error B)) :
  agree api api' p → (∀ a, run_reads api p = Ok a → agree api api' (f a)) →
  agree api api' (attempt p f).
Proof.
  intros Hp Hf. apply agree_bind; [done|]. destruct (run_reads api p); [by apply Hf|done].
Qed.

Lemma agree_wrapping {A} api api' prefix (p : prog read (result error A)) :
  agree api api' p → agree api api' (wrapping prefix p).
Proof. intros. by apply agree_bind. Qed.

Lemma advance_run {R} api n (p : prog read R) :
  run_reads api (advance api n p) = run_reads api p.
Proof. revert p. induction n as [|n IH]; intros [r|X q k]; simpl; auto. Qed.

Lemma advance_S {R X} api n (p : prog read R) (q : read X) k :
  advance api n p = Ask q k → advance api (S n) p = k (answer api q).
Proof.
  revert p. induction n as [|n IH]; intros [r|Y q' k']; cbn; try done.
  - intros Heq. inversion Heq as [HX]. subst. apply (f_equal (advance api 1)) in Heq. done.
  - apply IH.
Qed.

Lemma collect_loop_agree {T} `{!XDSObject T} api api' ns name
    (q : read (result error (list T))) :
  select {| nn_Namespace := ns; nn_Name := name |} (answer api q) =
    select {| nn_Namespace := ns; nn_Name := name |} (answer api' q) →
  agree api api' (attempt (call q) (λ l, Ret (Ok (collect_loop ns name l)))).
Proof.
  unfold select. intros Hq. simpl.
  destruct (answer api q) as [l|], (answer api' q) as [l'|]; simplify_eq/=; [|done].
  by rewrite !collect_loop_spec, Hq.
Qed.

Lemma synth_loop_p_agree api api' manual items specs vers :
  (∀ c ref, c ∈ items → cl_KubernetesServiceRef c = Some ref →
    List_EndpointSlice api (service_ns c ref) {[service_label := ks_Name ref]} =
    List_EndpointSlice api' (service_ns c ref) {[service_label := ks_Name ref]}) →
  agree api api' (synth_loop_p manual items specs vers).
Proof.
  revert specs vers. induction items as [|c items IH]; intros specs vers Hs; [done|].
  assert (∀ specs vers, agree api api' (synth_loop_p manual items specs vers)) as IH'.
  { intros. apply IH. intros. apply Hs; [by right|done]. }
  cbn [synth_loop_p]. destruct (cl_KubernetesServiceRef c) as [ref|] eqn:Hr; [|apply IH'].
  case_match; [apply IH'|]. fold (service_ns c ref). apply agree_attempt.
  - apply agree_wrapping. simpl. by rewrite (Hs c ref) by (done || by left).
  - intros slices _. apply agree_attempt; [done|]. intros raw _. apply IH'.
Qed.

Lemma collectClusters_p_run api ns name :
  run_reads api (collectClusters_p ns name) = collectClusters api ns name.
Proof. unfold collectClusters_p. by rewrite run_reads_attempt. Qed.

Lemma collectClusters_p_agree api api' ns name :
  select {| nn_Namespace := ns; nn_Name := name |} (List_Cluster api) =
    select {| nn_Namespace := ns; nn_Name := name |} (List_Cluster api') →
  agree api api' (collectClusters_p ns name).
Proof.
  intros Hsel. pose proof (collectClusters_spec api ns name) as E1.
  pose proof (collectClusters_spec api' ns name) as E2.
  unfold collectClusters in E1, E2. unfold select in Hsel. simpl.
  destruct (List_Cluster api) as [cs|], (List_Cluster api') as [cs'|];
    simplify_eq/=; [|done]. by rewrite E1, E2, Hsel.
Qed.

Lemma collectEndpoints_p_agree api api' k items :
  select k (List_ClusterLoadAssignment api) = select k (List_ClusterLoadAssignment api') →
  (∀ c ref, c ∈ items → cl_KubernetesServiceRef c = Some ref →
    List_EndpointSlice api (service_ns c ref) {[service_label := ks_Name ref]} =
    List_EndpointSlice api' (service_ns c ref) {[service_label := ks_Name ref]}) →
  agree api api' (collectEndpoints_p (nn_Namespace k) (nn_Name k) items).
Proof.
  destruct k as [ns name]. unfold select. intros H5 H6. simpl.
  destruct (List_ClusterLoadAssignment api) as [clas|],
    (List_ClusterLoadAssignment api') as [clas'|]; simplify_eq/=; [|done].
  rewrite !manual_loop_spec. unfold manual_names. rewrite H5.
  split; [done|]. by apply synth_loop_p_agree.
Qed.

(** The collection phase tells two API states apart only by what concerns its
    proxy. *)
Lemma collect_p_agree api api' k :
  unaffected k api api' → agree api api' (collect_p (nn_Namespace k) (nn_Name k)).
Proof.
  intros [H1 H2 H3 H4 H5 H6]. destruct k as [ns name]. unfold collect_p.
  apply agree_attempt; [by apply agree_wrapping, collect_loop_agree|]. intros [l lv] _.
  apply agree_attempt; [by apply agree_wrapping, collectClusters_p_agree|].
  intros [[c cv] items]. rewrite run_reads_wrapping, collectClusters_p_run.
  intros Hcs%wrap_Ok.
  do 2 (apply agree_attempt; [by apply agree_wrapping, collect_loop_agree|]; intros [??] _).
  apply agree_attempt; [|by intros []]. apply agree_wrapping, collectEndpoints_p_agree; [done|].
  rewrite collectClusters_spec in Hcs.
  destruct (List_Cluster api) as [cs|] eqn:Hl; simplify_eq/=. intros. by eapply H6.
Qed.
End reconciler_facts.
