(* ===== verification/Interleave.v ===== *)
(** * Concurrent reconciles

    controller-runtime's work queue and workers around the programs of
    Steps.v.  A key that is added while it is being processed is only marked
    dirty; it is handed out again when its reconcile has returned, so a key is
    processed by one worker at a time, but any number of keys at once.
    Between two calls of a reconcile anything may happen: other reconciles
    make calls, resources change, streams open and close.  A change of the API
    state leaves an event, and the watch handler runs on it some time later, on
    the API state of then.

    A status update of a reconcile that changes the stored proxy leaves an
    event too: the watch of the proxies has no predicate, so the reconciler is
    triggered again by what it writes.  Converge.v shows that this comes to an
    end: every write of a reconcile that began after the last change takes the
    stored status closer to the one to be reported, and a status that is
    already there is not written. *)

From S2P Require Import Prelude Prog GoStrings Types Eds Server Snapshot Controller Reconcile System Steps.

Local Open Scope prog_scope.

Section interleave.
Context {Api Cache Resource Snapshot : Type}.
Context `{!Client Api, !SnapshotCache Cache Snapshot, !XDSLib Resource Snapshot}.
Implicit Types (api : Api) (w : World Api Cache) (k j : NamespacedName).

(** The rest of a reconcile. *)
Abbreviation Task := (prog (effect Snapshot) (option error)).
Implicit Types (p : Task) (t : gmap NamespacedName Task) (d : gset NamespacedName)
  (v : list event).

(** ** The transition system *)

Record Conc := mkConc {
  cc_world : World Api Cache;
  cc_dirty : gset NamespacedName;
  cc_tasks : gmap NamespacedName Task;
  (** events of the informers that no handler has seen yet *)
  cc_events : list event
}.

(** The watch event of a call: of a status update, when it has changed the
    stored proxy. *)
Definition echo {X} w w' (e : effect Snapshot X) : list event :=
  match e with
  | EStatusUpdate ep =>
      if decide (Get_EnvoyProxy (w_Api w') (proxy_key ep) =
                 Get_EnvoyProxy (w_Api w) (proxy_key ep))
      then [] else [EvStatus (proxy_key ep)]
  | _ => []
  end.

Inductive worker_step : Conc → Conc → Prop :=
(** a handler is run on an event, in any order, on the API state of then *)
| conc_deliver w d t v1 ev v2 :
    worker_step (mkConc w d t (v1 ++ ev :: v2))
      (mkConc w (list_to_set (event_requests (w_Api w) ev) ∪ d) t (v1 ++ v2))
(** [queue.Get]: a dirty key that is not being processed *)
| conc_dequeue w d t v k :
    k ∈ d → t !! k = None →
    worker_step (mkConc w d t v) (mkConc w (d ∖ {[k]}) (<[k := Reconcile_p k]> t) v)
(** one call of a reconcile *)
| conc_call w d t v k X (e : effect Snapshot X) c :
    t !! k = Some (Ask e c) →
    worker_step (mkConc w d t v)
      (mkConc (perform w e).1 d (<[k := c (perform w e).2]> t)
         (v ++ echo w (perform w e).1 e))
(** [queue.Done]; an error adds the key again *)
| conc_return w d t v k e :
    t !! k = Some (Ret e) →
    worker_step (mkConc w d t v)
      (mkConc w (match e with None => d | Some _ => {[k]} ∪ d end) (delete k t) v).

Inductive env_step : Conc → Conc → Prop :=
| conc_change w d t v api' ev :
    api_event (w_Api w) api' ev →
    env_step (mkConc w d t v) (mkConc (with_api w api') d t (v ++ [ev]))
(** resyncs *)
| conc_enqueue w d t v k :
    env_step (mkConc w d t v) (mkConc w ({[k]} ∪ d) t v)
| conc_request w d t v node :
    env_step (mkConc w d t v)
      (mkConc (with_server w (StreamRequestFunc (w_Server w) node)) d t v)
| conc_closed w d t v node :
    env_step (mkConc w d t v)
      (mkConc (with_server w (StreamClosedFunc (w_Server w) node)) d t v).

Definition conc_step (s s' : Conc) : Prop := worker_step s s' ∨ env_step s s'.

(** Nobody is working. *)
Definition idle (s : Sys) : Conc := mkConc (sy_world s) (sy_queue s) ∅ [].

(** The event is not that of the reconciler's own status update. *)
Definition foreign (ev : event) : Prop :=
  match ev with EvStatus _ => False | _ => True end.

(** The handler of some event of a change will enqueue the proxy. *)
Definition covered api v k : Prop :=
  ∃ ev, ev ∈ v ∧ foreign ev ∧ k ∈ event_requests api ev.

(** ** What a task may do *)

Definition allowed {X} k (e : effect Snapshot X) : Prop :=
  match e with
  | ESetSnapshot node _ => node = proxy_node k
  | EStatusUpdate ep => proxy_key ep = k
  | _ => True
  end.

Definition answers {X} (e : effect Snapshot X) : X → Prop :=
  match e in effect _ X return X → Prop with
  | EGet key => λ got, ∀ ep, got = Ok ep → proxy_key ep = key
  | EStatusUpdate ep => λ res, proxy_key res.1 = proxy_key ep
  | _ => λ _, True
  end.

Definition no_set {X} (e : effect Snapshot X) : Prop :=
  match e with ESetSnapshot _ _ => False | _ => True end.

(** It writes for its own proxy only. *)
Fixpoint confined k p : Prop :=
  match p with
  | Ret _ => True
  | Ask e c => allowed k e ∧ ∀ x, answers e x → confined k (c x)
  end.

(** It publishes nothing any more. *)
Fixpoint quiet p : Prop :=
  match p with
  | Ret _ => True
  | Ask e c => no_set e ∧ ∀ x, quiet (c x)
  end.

(** The condition Ready a published version is reported with. *)
Definition ready_as (version : string) (ep : EnvoyProxy) : Prop :=
  cond ConditionReady ep = Some (ConditionTrue, "SnapshotReady", "version=" +:+ version).

(** The object a [setCondition] sends. *)
Definition set_status (gen : Z) (c : Condition) (st : EnvoyProxyStatus) : EnvoyProxyStatus :=
  {| st_ObservedGeneration := gen; st_Conditions := SetStatusCondition (st_Conditions st) c |}.

Definition with_cond (ep : EnvoyProxy) (condType : string) (status : ConditionStatus)
    (reason msg : string) : EnvoyProxy :=
  let gen := om_Generation (ep_meta ep) in
  {| ep_meta := ep_meta ep;
     ep_Status := set_status gen {|
       c_Type := condType; c_Status := status; c_Reason := reason;
       c_Message := msg; c_ObservedGeneration := gen |} (ep_Status ep) |}.

Definition sent_connected (ep : EnvoyProxy) (connected : bool) : EnvoyProxy :=
  with_cond ep ConditionConnected (if connected then ConditionTrue else ConditionFalse)
    "StreamStatus" "".
Definition sent_ready (ep : EnvoyProxy) (version : string) : EnvoyProxy :=
  with_cond ep ConditionReady ConditionTrue "SnapshotReady" ("version=" +:+ version).

(** What is left of [report_p] once Connected is written, and before that, once
    the connection set has been looked up. *)
Definition ready_p (ep : EnvoyProxy) (version : string) : Task :=
  prog_bind (λ _, Ret None) ('(ep2, _) ⇐ call (EStatusUpdate (sent_ready ep version)); Ret ep2).
Definition connected_p (ep : EnvoyProxy) (version : string) (connected : bool) : Task :=
  prog_bind (λ ep2, ready_p ep2 version)
    ('(ep2, _) ⇐ call (EStatusUpdate (sent_connected ep connected)); Ret ep2).

(** It returns an error. *)
Fixpoint fails p : Prop :=
  match p with
  | Ret e => e ≠ None
  | Ask e c => ∀ x, fails (c x)
  end.

(** The reads left, when the ones so far were made on [api]. *)
Definition reads_left api (n : nat) k : prog read (result error Collected) :=
  advance api n (collect_p (nn_Namespace k) (nn_Name k)).

(** The stored proxy reports the version. *)
Definition ready_at w k version : Prop :=
  ∃ ep, Get_EnvoyProxy (w_Api w) k = Ok ep ∧ ready_as version ep.

(** The stored proxy reports the version of its resources. *)
Definition reported w k : Prop :=
  ∃ c, collect_for (w_Api w) k = Ok c ∧ ready_at w k (co_version c).

(** ... when the program, which holds the proxy as it is stored, has run. *)
Inductive report_stage w k version : Task → Prop :=
| rs_report ep :
    Get_EnvoyProxy (w_Api w) k = Ok ep → report_stage w k version (report_p ep version)
| rs_connected ep b :
    Get_EnvoyProxy (w_Api w) k = Ok ep → report_stage w k version (connected_p ep version b)
| rs_ready ep :
    Get_EnvoyProxy (w_Api w) k = Ok ep → report_stage w k version (ready_p ep version)
| rs_done : ready_at w k version → report_stage w k version (Ret None).

Definition reporting w k p : Prop :=
  ∃ c, collect_for (w_Api w) k = Ok c ∧ report_stage w k (co_version c) p.

(** The proxy is served and, unless status updates fail, says so. *)
Definition served w k : Prop :=
  up_to_date w k ∧ (updates_succeed (Api := Api) → reported w k).

(** Where a task can be that has missed nothing: before [Get]; reading, with
    every answer so far still right; bound to fail; or done publishing. *)
Inductive track w k : Task → Prop :=
| tr_start : track w k (Reconcile_p k)
| tr_reads ep n :
    Get_EnvoyProxy (w_Api w) k = Ok ep →
    track w k (prog_bind (publish_p ep) (reading (reads_left (w_Api w) n k)))
| tr_fails p : fails p → track w k p
| tr_quiet p :
    quiet p → up_to_date w k → (updates_succeed (Api := Api) → reporting w k p) →
    track w k p.

Definition on_track w k (o : option Task) : Prop :=
  match o with Some p => track w k p | None => served w k end.

(** Before [Get], or after it found nothing: a key that may name no proxy. *)
Definition unbound k p : Prop := p = Reconcile_p k ∨ ∃ e, p = Ret e.

Record settled (s : Conc) : Prop := {
  se_tasks : ∀ k p, cc_tasks s !! k = Some p →
    confined k p ∧ (has_byte "." (nn_Namespace k) = false ∨ unbound k p);
  se_proxies : ∀ k ep, Get_EnvoyProxy (w_Api (cc_world s)) k = Ok ep →
    has_byte "." (nn_Namespace k) = false ∧
    (k ∈ cc_dirty s ∨ covered (w_Api (cc_world s)) (cc_events s) k ∨
     on_track (cc_world s) k (cc_tasks s !! k))
}.

(** *** Programs of the reconciler *)

Lemma call_confined {X} k (e : effect Snapshot X) (f : X → Task) :
  allowed k e → (∀ x, answers e x → confined k (f x)) →
  confined k (prog_bind f (call e)).
Proof. done. Qed.

Lemma setCondition_confined k ep ty st r m (f : EnvoyProxy → Task) :
  proxy_key ep = k → (∀ ep', proxy_key ep' = k → confined k (f ep')) →
  confined k (prog_bind f (setCondition_p ep ty st r m)).
Proof. intros <- Hf. split; [done|]. intros [ep2 e] Hk. by apply Hf. Qed.

Lemma reading_confined {A} k (f : A → Task) (q : prog read A) :
  (∀ a, confined k (f a)) → confined k (prog_bind f (reading q)).
Proof. intros Hf. induction q as [a|X q c IH]; simpl; auto. Qed.

Lemma publish_confined k ep r : proxy_key ep = k → confined k (publish_p ep r).
Proof.
  intros Hk. destruct r as [c|err]; [|done]. unfold publish_p. destruct (build c) as [snap|err].
  - apply call_confined; [by subst|]. intros [err|] _.
    + by apply setCondition_confined.
    + apply call_confined; [done|]. intros connected _.
      by apply setCondition_confined; [done|]; intros; apply setCondition_confined.
  - by apply setCondition_confined.
Qed.

Lemma Reconcile_confined k : confined k (Reconcile_p k).
Proof.
  apply call_confined; [done|]. intros [ep|err] Hk; [|done].
  apply reading_confined. intros r. apply publish_confined. by apply Hk.
Qed.

Lemma report_quiet ep version : quiet (report_p ep version).
Proof. split; [done|]. intros connected. by repeat (split; [done|]; intros [??]). Qed.

(** *** Frames *)

Lemma ready_at_frame w w' k version :
  Get_EnvoyProxy (w_Api w') k = Get_EnvoyProxy (w_Api w) k →
  ready_at w k version → ready_at w' k version.
Proof. intros Hg (ep & He & ?). exists ep. by rewrite Hg. Qed.

Lemma report_stage_frame w w' k version p :
  Get_EnvoyProxy (w_Api w') k = Get_EnvoyProxy (w_Api w) k →
  report_stage w k version p → report_stage w' k version p.
Proof.
  intros Hg. destruct 1; [apply rs_report|apply rs_connected|apply rs_ready|apply rs_done];
    [congruence..|by eapply ready_at_frame].
Qed.

Lemma up_to_date_frame w w' k :
  unaffected k (w_Api w) (w_Api w') →
  node_snapshot w' (proxy_node k) = node_snapshot w (proxy_node k) →
  up_to_date w k → up_to_date w' k.
Proof.
  intros Hun Hn (snap & Hd & Hs). exists snap. rewrite Hn. split; [|done].
  unfold desired in *. by rewrite <-(collect_local (w_Api w)).
Qed.

Lemma on_track_frame w w' k o :
  unaffected k (w_Api w) (w_Api w') →
  Get_EnvoyProxy (w_Api w') k = Get_EnvoyProxy (w_Api w) k →
  node_snapshot w' (proxy_node k) = node_snapshot w (proxy_node k) →
  on_track w k o → on_track w' k o.
Proof.
  intros Hun Hg Hn. destruct o as [p|]; simpl.
  2: { intros [Hu Hr]. split; [by eapply up_to_date_frame|]. intros (c & Hc & Ha)%Hr.
    exists c. rewrite <-(collect_local (w_Api w)) by done. split; [done|by eapply ready_at_frame]. }
  destruct 1 as [|ep n Hk|p Hf|p Hq Hu Hr]; [constructor| |by apply tr_fails|].
  2: { apply tr_quiet; [done|by eapply up_to_date_frame|]. intros (c & Hc & Hl)%Hr.
    exists c. rewrite <-(collect_local (w_Api w)) by done. split; [done|].
    by eapply report_stage_frame. }
  unfold reads_left. rewrite (agree_advance (w_Api w) (w_Api w'));
    [apply tr_reads; congruence|].
  by apply collect_p_agree.
Qed.

(** *** Pending events *)

Lemma map_slice_same api api' slice :
  List_Cluster api = List_Cluster api' →
  mapEndpointSliceToProxies api slice = mapEndpointSliceToProxies api' slice.
Proof. intros Hl. unfold mapEndpointSliceToProxies. by rewrite Hl. Qed.

Lemma event_requests_same api api' ev :
  List_Cluster api = List_Cluster api' → event_requests api ev = event_requests api' ev.
Proof.
  intros Hl. destruct ev as [| | | | | |old new|]; try done. unfold event_requests, requests.
  f_equal; (apply list_bind_ext; [intros s; by apply map_slice_same|done]).
Qed.

(** A handler that would have enqueued the proxy for the sake of a cluster
    that has changed since: the change of the cluster enqueues it. *)
Lemma slice_requests_kept api api' old new slice k :
  list_changed (List_Cluster api) (List_Cluster api') old new →
  k ∈ mapEndpointSliceToProxies api slice →
  k ∈ mapEndpointSliceToProxies api' slice ∨ k ∈ requests map_object old new.
Proof.
  intros (l1 & l2 & Hl & Hl') (svc & c & Hsvc & Hc & Hr & Hk)%(elem_of_mapEndpointSlice _ _ _ _ Hl).
  rewrite !elem_of_app in Hc.
  assert (c ∈ l1 ++ option_list new ++ l2 ∨ old = Some c) as [Hc'|Ho].
  { rewrite !elem_of_app. destruct Hc as [?|[Hc|?]]; auto.
    destruct old; simpl in Hc; [|by apply elem_of_nil in Hc].
    apply list_elem_of_singleton in Hc as ->. by right. }
  - left. apply (elem_of_mapEndpointSlice _ _ _ _ Hl'). by exists svc, c.
  - right. unfold requests. rewrite elem_of_app, list_elem_of_bind. left. exists c.
    split; [|subst; by left]. rewrite map_object_key, Hk. by left.
Qed.

Lemma api_event_foreign api api' ev : api_event api api' ev → foreign ev.
Proof. by destruct 1. Qed.

Lemma event_requests_kept api api' ev ev' k :
  api_event api api' ev' → k ∈ event_requests api ev →
  k ∈ event_requests api' ev ∨ k ∈ event_requests api' ev'.
Proof.
  intros Hch Hk. destruct ev as [| | | | | |old new|]; try by left.
  assert (List_Cluster api = List_Cluster api' ∨
    ∃ o n, ev' = EvCluster o n ∧ list_changed (List_Cluster api) (List_Cluster api') o n)
    as [Hl|(o & n & -> & Hl)].
  { destruct Hch as [k' []|? ? []|? ? []|? ? []|? ? []|? ? []|? ? []]; auto; right; eauto. }
  { left. by rewrite <-(event_requests_same api api'). }
  unfold event_requests, requests in Hk |- *. fold (requests map_object o n).
  rewrite elem_of_app, !list_elem_of_bind in Hk |- *.
  destruct Hk as [(s & Hs & Hin)|(s & Hs & Hin)];
    (destruct (slice_requests_kept _ _ _ _ _ _ Hl Hs) as [?|?]; [left|by right]); eauto.
Qed.

(** No call of a reconcile changes the connection set. *)
Lemma perform_connected {X} w (e : effect Snapshot X) :
  srv_connected (w_Server (perform w e).1) = srv_connected (w_Server w).
Proof.
  destruct e; simpl; try done.
  - by destruct (SetSnapshot _ _ _).
  - by destruct (Status_Update _ _) as [[??]?].
Qed.

Lemma worker_connected s s' :
  worker_step s s' →
  srv_connected (w_Server (cc_world s')) = srv_connected (w_Server (cc_world s)).
Proof. destruct 1; try done. apply perform_connected. Qed.

Context `{!ClientLaws Api, !SnapshotCacheLaws Cache Snapshot}.

(** What one call changes. *)
Lemma perform_frame {X} w k (e : effect Snapshot X) w' x :
  perform w e = (w', x) → allowed k e →
  answers e x ∧ same_resources (w_Api w) (w_Api w') ∧
  (∀ j, j ≠ k → Get_EnvoyProxy (w_Api w') j = Get_EnvoyProxy (w_Api w) j) ∧
  (is_Ok (Get_EnvoyProxy (w_Api w') k) = is_Ok (Get_EnvoyProxy (w_Api w) k)) ∧
  (∀ n, n ≠ proxy_node k ∨ no_set e → node_snapshot w' n = node_snapshot w n).
Proof.
  intros Hp Ha. destruct e as [key|Y q|node snap|node|ep]; simpl in *; simplify_eq; try done.
  - split_and!; try done. intros ep. apply get_key.
  - destruct (SetSnapshot _ _ _) as [cache' e'] eqn:Hs. simplify_eq. split_and!; try done.
    intros n [Hn|[]]. unfold node_snapshot. by eapply set_frame.
  - destruct (Status_Update _ _) as [[api' ep2] e'] eqn:Hu. simplify_eq/=.
    split_and!; [by eapply status_key|by eapply status_resources| |
      by eapply status_presence|done]. intros j. by eapply status_other.
Qed.

(** *** Steps of a task *)

(** An update of the object as it is stored. *)
Lemma update_succeeds w ep stored :
  updates_succeed (Api := Api) → Get_EnvoyProxy (w_Api w) (proxy_key ep) = Ok stored →
  om_ResourceVersion (ep_meta ep) = om_ResourceVersion (ep_meta stored) →
  let r := perform w (EStatusUpdate ep) in
  Get_EnvoyProxy (w_Api r.1) (proxy_key ep) = Ok r.2.1 ∧ ep_Status r.2.1 = ep_Status ep.
Proof.
  intros Hup Hg Hv. specialize (Hup _ _ _ Hg Hv). simpl.
  destruct (Status_Update _ _) as [[api' ep2] err] eqn:Hu. simpl in *. subst err.
  by eapply status_stored.
Qed.

(** A call on the way to the report. *)
Lemma report_stage_step w k version p :
  updates_succeed (Api := Api) → report_stage w k version p →
  match p with
  | Ret _ => True
  | Ask e c => report_stage (perform w e).1 k version (c (perform w e).2)
  end.
Proof.
  intros Hup. destruct 1 as [ep Hg|ep b Hg|ep Hg|]; [by apply rs_connected| | |done];
    pose proof (get_key _ _ _ Hg) as <-.
  - pose proof (update_succeeds w (sent_connected ep b) ep Hup Hg eq_refl) as [Hg' _].
    cbn [connected_p prog_bind call]. destruct (perform w _) as [w' [ep2 err]]. by apply rs_ready.
  - pose proof (update_succeeds w (sent_ready ep version) ep Hup Hg eq_refl) as [Hg' Hs].
    cbn [ready_p prog_bind call]. destruct (perform w _) as [w' [ep2 err]]. apply rs_done.
    exists ep2. split; [done|]. simpl in Hs. unfold ready_as, cond. rewrite Hs. simpl.
    by rewrite set_condition, decide_True.
Qed.

Lemma reporting_done w k e : reporting w k (Ret e) → reported w k.
Proof. intros (c & Hc & Hr). exists c. split; [done|]. by inversion Hr. Qed.

Lemma reporting_step {X} w k (e : effect Snapshot X) c :
  updates_succeed (Api := Api) → allowed k e → reporting w k (Ask e c) →
  reporting (perform w e).1 k (c (perform w e).2).
Proof.
  intros Hup Ha (cl & Hc & Hr). exists cl. split; [|by apply (report_stage_step _ _ _ _ Hup Hr)].
  destruct (perform w e) as [w' x] eqn:Hp. rewrite <-Hc. symmetry.
  by apply collect_same, (perform_frame _ _ _ _ _ Hp Ha).
Qed.

Lemma publish_step w k ep n :
  Get_EnvoyProxy (w_Api w) k = Ok ep →
  match publish_p ep (run_reads (w_Api w) (reads_left (w_Api w) n k)) with
  | Ret e => e ≠ None
  | Ask e c => track (perform w e).1 k (c (perform w e).2)
  end.
Proof.
  intros Hg. pose proof (get_key _ _ _ Hg) as Hk.
  unfold reads_left. rewrite advance_run, collect_p_run.
  fold (collect_for (w_Api w) k). unfold publish_p.
  destruct (collect_for (w_Api w) k) as [c|err] eqn:Hc; [|done].
  destruct (build c) as [snap|err] eqn:Hb; simpl.
  - destruct (SetSnapshot _ _ _) as [cache' [err|]] eqn:Hs; simpl.
    + apply tr_fails. by intros [??].
    + apply tr_quiet; [apply report_quiet| |].
      * exists snap. unfold desired, node_snapshot. simpl. rewrite Hc.
        split; [done|]. subst k. by eapply set_get.
      * intros _. exists c. split; [done|by apply rs_report].
  - apply tr_fails. by destruct (Status_Update _ _) as [[??]?].
Qed.

Lemma track_step w k p ep0 :
  track w k p → confined k p → Get_EnvoyProxy (w_Api w) k = Ok ep0 →
  match p with
  | Ret e => e = None → served w k
  | Ask e c => track (perform w e).1 k (c (perform w e).2)
  end.
Proof.
  destruct 1 as [|ep n Hk|p Hf|p Hq Hu Hr]; intros Hc Hg.
  - pose proof (tr_reads w k ep0 0 Hg) as Ht. apply get_key in Hg as Hk.
    unfold Reconcile_p. cbn [prog_bind call perform fst snd]. rewrite Hg.
    unfold reads_left in Ht. cbn [advance] in Ht. rewrite <-Hk in Ht |- *. exact Ht.
  - pose proof (publish_step w k ep n Hk) as Hp.
    destruct (reads_left (w_Api w) n k) as [r|X q c] eqn:Hr; simpl in *.
    + destruct (publish_p ep r); [|done]. by intros ->.
    + apply advance_S in Hr. rewrite <-Hr. by apply (tr_reads w k ep (S n)).
  - destruct p as [e|X e c]; [by intros ->|]. by apply tr_fails.
  - destruct p as [e|X e c].
    { intros _. split; [done|]. intros ?. by eapply reporting_done, Hr. }
    destruct Hc as [Ha _], Hq as [Hn Hq].
    pose proof (reporting_step w k e c) as Hrs.
    destruct (perform w e) as [w' x] eqn:Hp. simpl. apply tr_quiet; [done| |by auto].
    destruct (perform_frame _ _ _ _ _ Hp Ha) as (_ & Hs & _ & _ & Hsn).
    eapply up_to_date_frame, Hu; [by apply same_unaffected|]. apply Hsn. by right.
Qed.

Lemma proxy_node_inj k j :
  has_byte "." (nn_Namespace k) = false → has_byte "." (nn_Namespace j) = false →
  proxy_node k = proxy_node j → k = j.
Proof.
  intros Hk Hj Heq. apply nodeID_inj in Heq as [??]; [|done..]. destruct k, j; simpl in *; congruence.
Qed.

Lemma unbound_step w k p :
  has_byte "." (nn_Namespace k) = false ∨ unbound k p →
  (∀ ep, Get_EnvoyProxy (w_Api w) k = Ok ep → has_byte "." (nn_Namespace k) = false) →
  match p with
  | Ret _ => True
  | Ask e c => has_byte "." (nn_Namespace k) = false ∨
      (no_set e ∧ unbound k (c (perform w e).2))
  end.
Proof.
  intros [?|[->|[e ->]]] Hg; [by destruct p; [|left]| |done].
  unfold Reconcile_p. cbn [prog_bind call perform fst snd].
  destruct (Get_EnvoyProxy (w_Api w) k) as [ep|err]; [left; by eapply Hg|].
  right. split; [done|]. right. by exists (IgnoreNotFound err).
Qed.

Lemma covered_same api api' v k :
  same_resources api api' → covered api v k → covered api' v k.
Proof.
  intros [_ Hl _ _ _ _] (ev & Hev & Hf & Hk). exists ev. split; [done|]. split; [done|].
  by rewrite <-(event_requests_same api).
Qed.

Lemma covered_app api v v' k : covered api v k → covered api (v ++ v') k.
Proof. intros (ev & Hev & ?). exists ev. split; [set_solver|done]. Qed.

Lemma settled_call w d t v k X (e : effect Snapshot X) c :
  t !! k = Some (Ask e c) → settled (mkConc w d t v) →
  settled (mkConc (perform w e).1 d (<[k := c (perform w e).2]> t)
    (v ++ echo w (perform w e).1 e)).
Proof.
  intros Ht [Htasks Hproxies]. simpl in *.
  destruct (Htasks _ _ Ht) as [Hcon Hdot]. pose proof Hcon as [Ha Hcon'].
  apply (unbound_step w) in Hdot; [|intros; by eapply Hproxies].
  pose proof (track_step w k (Ask e c)) as Htr.
  destruct (perform w e) as [w' x] eqn:Hp; simpl in *.
  destruct (perform_frame _ _ _ _ _ Hp Ha) as (Hans & Hs & Hother & Hpres & Hsn).
  assert (∀ j, covered (w_Api w) v j → covered (w_Api w') (v ++ echo w w' e) j) as Hcov.
  { intros j Hj. by eapply covered_app, covered_same. }
  split; simpl; intros j.
  - intros p. rewrite lookup_insert. case_decide as Hkj; [|apply Htasks].
    intros [= <-]. subst j. split; [by apply Hcon'|]. destruct Hdot as [?|[_ ?]]; auto.
  - intros ep Hg. destruct (decide (k = j)) as [<-|Hne].
    + rewrite Hg in Hpres. destruct (Get_EnvoyProxy (w_Api w) k) as [ep0|] eqn:Hg0; [|done].
      destruct (Hproxies _ _ Hg0) as [Hd Hk]. split; [done|].
      destruct Hk as [?|[Hk|Hk]]; [by left|right; left; by apply Hcov|right; right].
      rewrite Ht in Hk. rewrite lookup_insert_eq. rewrite Hp in Htr. by eapply Htr.
    + rewrite Hother in Hg by done. destruct (Hproxies _ _ Hg) as [Hd Hk]. split; [done|].
      destruct Hk as [?|[Hk|Hk]]; [by left|right; left; by apply Hcov|right; right].
      rewrite lookup_insert_ne by done. eapply on_track_frame, Hk; [by apply same_unaffected|by apply Hother|]. apply Hsn.
      destruct Hdot as [Hdk|[? _]]; [left|by right]. intros Heq.
      by apply Hne, proxy_node_inj.
Qed.

Lemma settled_dequeue w d t v k :
  t !! k = None → settled (mkConc w d t v) →
  settled (mkConc w (d ∖ {[k]}) (<[k := Reconcile_p k]> t) v).
Proof.
  intros Ht [Htasks Hproxies]. split; simpl in *; intros j.
  - intros p. rewrite lookup_insert. case_decide as Hkj; [|apply Htasks].
    intros [= <-]. subst j. split; [apply Reconcile_confined|right; by left].
  - intros ep Hg. destruct (Hproxies _ _ Hg) as [Hd Hk]. split; [done|].
    destruct (decide (k = j)) as [<-|Hne].
    + right. right. rewrite lookup_insert_eq. apply tr_start.
    + rewrite lookup_insert_ne by done. destruct Hk; [left; set_solver|by right].
Qed.

Lemma settled_return w d t v k e :
  t !! k = Some (Ret e) → settled (mkConc w d t v) →
  settled (mkConc w (match e with None => d | Some _ => {[k]} ∪ d end) (delete k t) v).
Proof.
  intros Ht [Htasks Hproxies]. split; simpl in *; intros j.
  - intros p [_ Hp]%lookup_delete_Some. by apply Htasks.
  - intros ep Hg. destruct (Hproxies _ _ Hg) as [Hd Hk]. split; [done|].
    destruct (decide (k = j)) as [<-|Hne].
    + destruct e as [err|]; [left; set_solver|].
      destruct Hk as [?|[?|Hk]]; [by left|by right; left|right; right].
      rewrite lookup_delete_eq. rewrite Ht in Hk.
      by apply (track_step w k (Ret None) ep Hk).
    + rewrite lookup_delete_ne by done. destruct Hk; [left; destruct e; set_solver|by right].
Qed.

Lemma settled_deliver w d t v1 ev v2 :
  settled (mkConc w d t (v1 ++ ev :: v2)) →
  settled (mkConc w (list_to_set (event_requests (w_Api w) ev) ∪ d) t (v1 ++ v2)).
Proof.
  intros [Htasks Hproxies]. split; [done|]. simpl in *. intros k ep Hg.
  destruct (Hproxies _ _ Hg) as [Hd Hk]. split; [done|].
  destruct Hk as [?|[(ev' & Hev & Hf & Hk)|?]]; [left; set_solver| |by right; right].
  apply elem_of_app in Hev as [Hev|[->|Hev]%elem_of_cons];
    [right; left|left; set_solver|right; left]; exists ev'; (split; [set_solver|done]).
Qed.

Lemma settled_change w d t v api' ev :
  api_event (w_Api w) api' ev → settled (mkConc w d t v) →
  settled (mkConc (with_api w api') d t (v ++ [ev])).
Proof.
  intros Hch [Htasks Hproxies]. split; [done|]. simpl in *. intros k ep Hg.
  assert (k ∈ event_requests api' ev → covered api' (v ++ [ev]) k) as Hnew.
  { intros Hk. exists ev. split; [set_solver|]. split; [by eapply api_event_foreign|done]. }
  destruct (event_presence _ _ _ _ _ Hch Hg) as [[ep0 Hg0]|[-> Hd]];
    [|split; [done|right; left; apply Hnew; by left]].
  destruct (Hproxies _ _ Hg0) as [Hd Hk]. split; [done|].
  destruct (decide (k ∈ event_requests api' ev)) as [?|Hn]; [right; left; by apply Hnew|].
  destruct Hk as [?|[(ev' & Hev & Hf & Hk)|Hk]]; [by left|right; left|right; right].
  - destruct (event_requests_kept _ _ _ _ _ Hch Hk) as [?|?]; [|done].
    exists ev'. split; [set_solver|done].
  - by eapply on_track_frame, Hk; [eapply event_unaffected|eapply event_proxy|].
Qed.

Lemma settled_server w d t v srv :
  (∀ n, node_snapshot (with_server w srv) n = node_snapshot w n) →
  settled (mkConc w d t v) → settled (mkConc (with_server w srv) d t v).
Proof.
  intros Hn [Htasks Hproxies]. split; [done|]. simpl in *. intros k ep Hg.
  destruct (Hproxies _ _ Hg) as [Hd Hk]. split; [done|].
  destruct Hk as [?|[?|?]]; [by left|by right; left|right; right].
  by apply (on_track_frame w); [apply same_unaffected| |apply Hn|].
Qed.

Lemma settled_env s s' : env_step s s' → settled s → settled s'.
Proof.
  destruct 1 as [w d t v api' ev Hch|w d t v k|w d t v node|w d t v node].
  - by apply settled_change.
  - intros [Htasks Hproxies]. split; [done|]. simpl in *. intros k' ep Hg.
    destruct (Hproxies _ _ Hg) as [Hd [?|?]]; (split; [done|]); [left; set_solver|by right].
  - apply settled_server, node_snapshot_stream.
  - apply settled_server, node_snapshot_stream.
Qed.

Lemma settled_step s s' : conc_step s s' → settled s → settled s'.
Proof.
  intros [Hs|Hs]; [|by apply settled_env]. destruct Hs.
  - by apply settled_deliver.
  - by apply settled_dequeue.
  - by apply settled_call.
  - by apply settled_return.
Qed.

Lemma settled_run s s' : sys_init s → rtc conc_step (idle s) s' → settled s'.
Proof.
  intros [_ Hq] Hrun. assert (settled (idle s)) as Hinv.
  { split; simpl; [done|]. intros k ep Hg. destruct (Hq k ep Hg). auto. }
  clear Hq. induction Hrun; eauto using settled_step.
Qed.

(** ** Uninterrupted runs *)

(** The watch events a program leaves when it runs without interruption. *)
Fixpoint echoes w p : list event :=
  match p with
  | Ret _ => []
  | Ask e c => echo w (perform w e).1 e ++ echoes (perform w e).1 (c (perform w e).2)
  end.

(** A task can always be run to its end. *)
Lemma task_runs w d t v k p :
  t !! k = Some p →
  rtc worker_step (mkConc w d t v)
    (mkConc (run w p).1 d (<[k := Ret (run w p).2]> t) (v ++ echoes w p)).
Proof.
  revert w t v. induction p as [e|X e c IH]; intros w t v Ht; simpl.
  - by rewrite insert_id, app_nil_r.
  - eapply rtc_l; [by apply (conc_call w d t v k X e c)|]. rewrite app_assoc.
    destruct (perform w e) as [w' x]. simpl.
    specialize (IH x w' (<[k := c x]> t) (v ++ echo w w' e)). rewrite insert_insert_eq in IH.
    apply IH, lookup_insert_eq.
Qed.

Lemma task_returns w d t v k p :
  t !! k = Some p →
  rtc worker_step (mkConc w d t v)
    (mkConc (run w p).1 (match (run w p).2 with None => d | Some _ => {[k]} ∪ d end)
       (delete k t) (v ++ echoes w p)).
Proof.
  intros Ht. etrans; [by apply (task_runs _ _ _ _ k)|]. apply rtc_once.
  rewrite <-(delete_insert_eq t k (Ret (run w p).2)). apply conc_return, lookup_insert_eq.
Qed.

(** Taking a key and working on it without interruption is a reconcile. *)
Lemma reconcile_runs w d t v k :
  k ∈ d → t !! k = None →
  rtc worker_step (mkConc w d t v)
    (mkConc (Reconcile w k).1
       (match (Reconcile w k).2 with None => d ∖ {[k]} | Some _ => d end) t
       (v ++ echoes w (Reconcile_p k))).
Proof.
  intros Hk Ht. eapply rtc_l; [by apply (conc_dequeue w d t v k)|].
  pose proof (task_returns w (d ∖ {[k]}) (<[k := Reconcile_p k]> t) v k _
    (lookup_insert_eq _ _ _)) as Hrun.
  rewrite Reconcile_p_runs, delete_insert_id in Hrun by done.
  destruct (Reconcile w k) as [w' [err|]]; simpl in *; [|done].
  by replace ({[k]} ∪ d ∖ {[k]}) with d in Hrun
    by (apply union_difference_singleton_L; done).
Qed.

(** A schedule without interruptions: the handler of the oldest event, or else
    the reconcile of some dirty key. *)
Definition turn (s : World Api Cache * gset NamespacedName * list event)
    : World Api Cache * gset NamespacedName * list event :=
  match s with
  | (w, d, ev :: v) => (w, list_to_set (event_requests (w_Api w) ev) ∪ d, v)
  | (w, d, []) =>
      match elements d with
      | [] => s
      | k :: _ =>
          ((Reconcile w k).1,
           match (Reconcile w k).2 with None => d ∖ {[k]} | Some _ => d end,
           echoes w (Reconcile_p k))
      end
  end.

Definition unworked (s : World Api Cache * gset NamespacedName * list event) : Conc :=
  mkConc s.1.1 s.1.2 ∅ s.2.

Lemma turns_run n s : rtc worker_step (unworked s) (unworked (Nat.iter n turn s)).
Proof.
  induction n as [|n IH]; [done|]. etrans; [exact IH|]. simpl.
  destruct (Nat.iter n turn s) as [[w d] [|ev v]]; unfold unworked; simpl.
  - destruct (elements d) as [|k ks] eqn:Hd; [done|]. simpl.
    apply (reconcile_runs w d ∅ [] k); [|done].
    rewrite <-elem_of_elements, Hd. by left.
  - apply rtc_once, (conc_deliver w d ∅ []).
Qed.

Lemma idle_stuck w s : ¬ worker_step (mkConc w ∅ ∅ []) s.
Proof.
  intros Hs. inversion Hs as [? ? ? v1 ev v2 Heq|? ? ? ? k Hk|? ? ? ? k ? ? ? Ht|? ? ? ? k ? Ht];
    subst; [|set_solver|by rewrite lookup_empty in Ht..].
  by destruct v1.
Qed.

(** ** Properties *)

(** [C1] Eventual consistency, with reconciles interrupted anywhere: from
    start-up, whatever the interleaving of the calls of any number of
    reconciles with resource changes, delayed watch events, spurious requests
    and stream events, every proxy is served the snapshot its resources call
    for, unless the handler of a pending event will enqueue it, it is waiting
    in the queue, or a reconcile of it is under way. *)
Theorem interleaved_up_to_date s0 s k ep
    (Hinit : sys_init s0) (Hrun : rtc conc_step (idle s0) s)
    (Hget : Get_EnvoyProxy (w_Api (cc_world s)) k = Ok ep)
    (Hevents : ¬ covered (w_Api (cc_world s)) (cc_events s) k)
    (Hclean : k ∉ cc_dirty s) (Hfree : cc_tasks s !! k = None) :
  up_to_date (cc_world s) k.
Proof.
  destruct (se_proxies _ (settled_run _ _ Hinit Hrun) k ep Hget) as [_ [?|[?|Hk]]]; [done..|].
  rewrite Hfree in Hk. by destruct Hk.
Qed.

End interleave.

(** ** Witnesses: a listener is deleted in the middle of a reconcile *)

Section examples.
Local Existing Instance store_client.
Local Existing Instance store_client_laws.
Local Existing Instance ex_lib.
Local Existing Instance gmap_cache.
Local Existing Instance gmap_cache_laws.

(** The listener of the proxy itself is gone. *)
Definition ex_stale : Store := ex_store [ex_other_listener].

Definition ex_event : event := EvListener (Some (ex_listener "listener_0" "2" ex_ref)) None.

Lemma ex_stale_change : api_event ex_good ex_stale ex_event.
Proof. apply change_listener; [split; done|]. exists [], [ex_other_listener]. done. Defined.

(** The reconcile has read the proxy and the listeners; no handler has seen the
    event yet. *)
Definition ex_task : prog (effect ex_snapshot) (option error) :=
  prog_bind (publish_p (ex_proxy "edge-proxy"))
    (reading (advance ex_good 1 (collect_p "default" "edge-proxy"))).

Definition ex_conc : Conc (Api := Store) (Cache := gmap string ex_snapshot)
    (Snapshot := ex_snapshot) :=
  mkConc (with_api (ex_world ex_good) ex_stale) ({[ex_key; ex_other]} ∖ {[ex_key]})
    {[ex_key := ex_task]} [ex_event].

Lemma ex_interrupted : rtc conc_step (idle ex_start) ex_conc.
Proof.
  eapply rtc_l; [left; apply (conc_dequeue _ _ _ _ ex_key); [set_solver|done]|].
  eapply rtc_l; [left; by apply (conc_call _ _ _ _ ex_key), lookup_insert_eq|].
  eapply rtc_l; [left; by apply (conc_call _ _ _ _ ex_key), lookup_insert_eq|].
  eapply rtc_l; [right; by apply conc_change, ex_stale_change|].
  rewrite !insert_insert_eq. reflexivity.
Defined.

(** The interrupted reconcile returns; the events of its status updates and
    the one of the listener are handled and the dirty keys are worked off,
    until there is nothing left to do. *)
Definition ex_w : World Store (gmap string ex_snapshot) := (run (cc_world ex_conc) ex_task).1.
Definition ex_rest : World Store (gmap string ex_snapshot) * gset NamespacedName * list event :=
  Nat.iter 20 turn (ex_w, cc_dirty ex_conc, [ex_event] ++ echoes (cc_world ex_conc) ex_task).

Definition ex_settled : Conc (Api := Store) (Cache := gmap string ex_snapshot)
    (Snapshot := ex_snapshot) := unworked ex_rest.

Lemma ex_settles : rtc conc_step (idle ex_start) ex_settled.
Proof.
  etrans; [exact ex_interrupted|]. eapply (rtc_subrel worker_step); [by left|].
  pose proof (task_returns (cc_world ex_conc) (cc_dirty ex_conc) (cc_tasks ex_conc)
    [ex_event] ex_key ex_task (lookup_singleton_eq _ _)) as Hret.
  replace (run (cc_world ex_conc) ex_task).2 with (@None error) in Hret
    by (vm_compute; reflexivity).
  replace (delete ex_key (cc_tasks ex_conc)) with
    (∅ : gmap NamespacedName (prog (effect ex_snapshot) (option error))) in Hret
    by (symmetry; apply delete_singleton_eq).
  etrans; [exact Hret|]. exact (turns_run 20 (ex_w, cc_dirty ex_conc,
    [ex_event] ++ echoes (cc_world ex_conc) ex_task)).
Defined.

Lemma ex_at_rest : ex_rest.1.2 = ∅ ∧ ex_rest.2 = [].
Proof. vm_compute. split; reflexivity. Defined.

Lemma interleaved_up_to_date_witness :
  (ex_key ∉ cc_dirty ex_settled) ∧ up_to_date (cc_world ex_settled) ex_key ∧
  (* the interrupted reconcile had published the deleted listener *)
  node_snapshot ex_w (proxy_node ex_key) ≠
  node_snapshot (cc_world ex_settled) (proxy_node ex_key).
Proof.
  assert (cc_dirty ex_settled = ∅ ∧ cc_events ex_settled = []) as [Hd Hv] by exact ex_at_rest.
  split; [by rewrite Hd|]. split; [|by vm_compute].
  destruct (Get_EnvoyProxy (w_Api (cc_world ex_settled)) ex_key) as [ep|] eqn:Hg;
    [|by vm_compute in Hg].
  refine (interleaved_up_to_date ex_start ex_settled ex_key ep ex_start_init ex_settles
    Hg _ _ eq_refl); [|by rewrite Hd].
  intros (ev & Hev & _). rewrite Hv in Hev. by apply elem_of_nil in Hev.
Defined.

(** ** A proxy that connects after its last reconcile *)

(** The reconciles of start-up, worked off to the end. *)
Definition ex_begin : World Store (gmap string ex_snapshot) * gset NamespacedName * list event :=
  (ex_world ex_good, {[ex_key; ex_other]}, []).
Definition ex_published : World Store (gmap string ex_snapshot) * gset NamespacedName * list event :=
  Nat.iter 20 turn ex_begin.
Definition ex_streaming : Conc (Api := Store) (Cache := gmap string ex_snapshot)
    (Snapshot := ex_snapshot) :=
  mkConc (with_server ex_published.1.1
    (StreamRequestFunc (w_Server ex_published.1.1) (Some (proxy_node ex_key)))) ∅ ∅ [].

Lemma ex_streams : rtc conc_step (idle ex_start) ex_streaming.
Proof.
  assert (ex_published.1.2 = ∅ ∧ ex_published.2 = []) as [Hd Hv]
    by (vm_compute; split; reflexivity).
  pose proof (turns_run 20 ex_begin : rtc worker_step _ (unworked ex_published)) as Hrun.
  destruct ex_published as [[w d] v] eqn:Hp. simpl in Hd, Hv. subst d v.
  etrans; [eapply (rtc_subrel worker_step), Hrun; by left|].
  apply rtc_once. right. unfold ex_streaming. rewrite Hp.
  apply (conc_request w ∅ ∅ [] (Some (proxy_node ex_key))).
Qed.

(** The condition Connected is not kept up: a stream that opens after the last
    reconcile enqueues nothing, so in a state in which nothing is left to do
    the proxy streams and its status says that it does not. *)
Theorem connected_status_stale :
  rtc conc_step (idle ex_start) ex_streaming ∧ (∀ s, ¬ worker_step ex_streaming s) ∧
  IsConnected (w_Server (cc_world ex_streaming)) (proxy_node ex_key) = true ∧
  (cond ConditionConnected <$> Get_EnvoyProxy (w_Api (cc_world ex_streaming)) ex_key) =
    Ok (Some (ConditionFalse, "StreamStatus", "")).
Proof.
  split; [exact ex_streams|]. split; [|split; vm_compute; reflexivity].
  intros s. apply idle_stuck.
Qed.

(** ** A handler that cannot list the clusters

    [mapEndpointSliceToProxies] logs the error and drops the event. *)

(** A store whose list of clusters can be made to fail. *)
Record Flaky := { fk_store : Store; fk_down : bool }.

Definition flaky_client : Client Flaky := {|
  Get_EnvoyProxy f k := Get_EnvoyProxy (fk_store f) k;
  List_Listener f := List_Listener (fk_store f);
  List_Cluster f := if fk_down f then Err (ErrLib "Timeout" "timeout")
                    else List_Cluster (fk_store f);
  List_RouteConfiguration f := List_RouteConfiguration (fk_store f);
  List_ScopedRouteConfiguration f := List_ScopedRouteConfiguration (fk_store f);
  List_ClusterLoadAssignment f := List_ClusterLoadAssignment (fk_store f);
  List_EndpointSlice f ns sel := List_EndpointSlice (fk_store f) ns sel;
  Status_Update f ep :=
    let '(st, ep', e) := Status_Update (fk_store f) ep in
    ({| fk_store := st; fk_down := fk_down f |}, ep', e);
  IgnoreNotFound := @IgnoreNotFound Store store_client;
  SetStatusCondition := @SetStatusCondition Store store_client
|}.
Local Existing Instance flaky_client.

(** The slice of the service, with a later resource version. *)
Definition ex_new_slice : EndpointSlice := {|
  es_meta := {| om_Name := om_Name (es_meta ex_slice); om_Namespace := om_Namespace (es_meta ex_slice);
                om_ResourceVersion := "99"; om_Generation := om_Generation (es_meta ex_slice);
                om_Labels := om_Labels (es_meta ex_slice) |};
  es_Endpoints := []; es_Ports := es_Ports ex_slice |}.

Definition with_slices (st : Store) (l : list EndpointSlice) : Store := {|
  so_proxies := so_proxies st; so_listeners := so_listeners st; so_clusters := so_clusters st;
  so_routes := so_routes st; so_scoped := so_scoped st; so_clas := so_clas st;
  so_slices := l |}.

Definition ex_flaky : World Flaky (gmap string ex_snapshot) :=
  foldl (λ w k, (Reconcile w k).1)
    {| w_Api := {| fk_store := ex_good; fk_down := false |}; w_Server := NewServer |}
    [ex_key; ex_other].
Definition ex_moved (down : bool) : Flaky :=
  {| fk_store := with_slices (fk_store (w_Api ex_flaky)) [ex_new_slice]; fk_down := down |}.
Definition ex_slice_event : event := EvSlice (Some ex_slice) (Some ex_new_slice).

Lemma ex_moves : api_event (w_Api ex_flaky) (ex_moved false) ex_slice_event.
Proof.
  assert (so_slices (fk_store (w_Api ex_flaky)) = [ex_slice]) as Hold by (vm_compute; reflexivity).
  assert (fk_down (w_Api ex_flaky) = false) as Hup by (vm_compute; reflexivity).
  unfold ex_moved, ex_slice_event. destruct (w_Api ex_flaky) as [st down].
  simpl in Hold, Hup. subst down.
  apply (change_slice _ _ (Some ex_slice) (Some ex_new_slice)).
  - split; done.
  - intros ns sel Hs. simpl. rewrite Hold. f_equal.
    rewrite !filter_cons_False; [done|..]; apply Hs; auto.
Qed.

(** Both proxies are published, the slice of the backend changes, and the list
    of clusters fails when the handler runs: it enqueues nothing, nothing else
    is to be done, and the proxy keeps its old endpoints. *)
Theorem dropped_event_stale :
  api_event (w_Api ex_flaky) (ex_moved false) ex_slice_event ∧
  up_to_date ex_flaky ex_key ∧
  event_requests (ex_moved false) ex_slice_event = [ex_key; ex_key] ∧
  event_requests (ex_moved true) ex_slice_event = [] ∧
  ¬ up_to_date (with_api ex_flaky (ex_moved false)) ex_key.
Proof.
  split; [exact ex_moves|]. split; [|split; [|split]].
  - eexists. split; vm_compute; reflexivity.
  - by vm_compute.
  - by vm_compute.
  - intros (snap & Hd & Hn). vm_compute in Hd, Hn. congruence.
Qed.
End examples.
