(* ===== verification/Converge.v ===== *)
(** * The workers come to rest

    Termination of the event handlers and workers of Interleave.v, the events
    of their own status updates included.  Every step makes the state smaller
    in the lexicographic order of: the tasks that began before the last change
    (each is a finite program), the conditions of the stored statuses that are
    not the ones to be reported ([wrong]), the pending events, the dirty keys,
    and the tasks.  A reconcile that began after the last change ([fresh])
    succeeds, so it adds no key, and every write of it that changes the stored
    status, so that its watch event comes back, makes that status less wrong. *)

From S2P Require Import Prelude Prog GoStrings Types Eds Server Snapshot Controller Reconcile System.
From S2P Require Import Steps Interleave.

Local Open Scope prog_scope.

Section converge.
Context {Api Cache Resource Snapshot : Type}.
Context `{!Client Api, !SnapshotCache Cache Snapshot, !XDSLib Resource Snapshot}.
Implicit Types (api : Api) (w : World Api Cache) (k j : NamespacedName).

Abbreviation Task := (prog (effect Snapshot) (option error)).
Abbreviation Conc := (Conc (Api := Api) (Cache := Cache) (Snapshot := Snapshot)).
Implicit Types (p : Task) (t told : gmap NamespacedName Task) (d K : gset NamespacedName)
  (v : list event) (st : EnvoyProxyStatus).

(** ** Tasks are finite *)

Definition next_of p p' : Prop :=
  match p with Ret _ => False | Ask e c => ∃ x, p' = c x end.

(** One task makes a call or is dropped. *)
Inductive task_step t : gmap NamespacedName Task → Prop :=
| ts_call k p p' : t !! k = Some p → next_of p p' → task_step t (<[k := p']> t)
| ts_return k p : t !! k = Some p → task_step t (delete k t).

Definition insert_acc k p : Prop :=
  ∀ t, t !! k = None → Acc (flip task_step) t → Acc (flip task_step) (<[k := p]> t).

Lemma insert_acc_step k p : (∀ p', next_of p p' → insert_acc k p') → insert_acc k p.
Proof.
  intros Hnext t Hk Ht. induction Ht as [t Hacc IHt]. constructor. intros t' Hs.
  destruct Hs as [j q q' Hj Hn|j q Hj]; destruct (decide (k = j)) as [<-|Hne].
  - rewrite lookup_insert_eq in Hj. injection Hj as ->. rewrite insert_insert_eq.
    apply Hnext; [exact Hn|exact Hk|]. by constructor.
  - rewrite lookup_insert_ne in Hj by exact Hne. rewrite insert_insert_ne by congruence.
    apply IHt; [by eapply ts_call|]. by rewrite lookup_insert_ne.
  - rewrite delete_insert_id by exact Hk. by constructor.
  - rewrite lookup_insert_ne in Hj by exact Hne. rewrite delete_insert_ne by congruence.
    apply IHt; [by eapply ts_return|]. by rewrite lookup_delete_ne.
Qed.

Lemma task_step_insert k p : insert_acc k p.
Proof.
  induction p as [r|X e c IH]; apply insert_acc_step; intros p'; [by intros []|].
  intros [x ->]. apply IH.
Qed.

Lemma task_step_wf t : Acc (flip task_step) t.
Proof.
  induction t as [|k p t Hk IH] using map_ind; [|by apply task_step_insert].
  constructor. intros t' Hs. destruct Hs; by simplify_map_eq.
Qed.

(** ** How far a status is from the one to be reported *)

Definition conn_cond (gen : Z) (connected : bool) : Condition := {|
  c_Type := ConditionConnected;
  c_Status := if connected then ConditionTrue else ConditionFalse;
  c_Reason := "StreamStatus"; c_Message := ""; c_ObservedGeneration := gen |}.
Definition ready_cond (gen : Z) (version : string) : Condition := {|
  c_Type := ConditionReady; c_Status := ConditionTrue; c_Reason := "SnapshotReady";
  c_Message := "version=" +:+ version; c_ObservedGeneration := gen |}.

Definition one_if_not (P : Prop) `{!Decision P} : nat := if decide P then 0 else 1.

(** The generation, Connected and Ready, one each. *)
Definition wrong (gen : Z) (connected : bool) (version : string) (st : EnvoyProxyStatus) : nat :=
  one_if_not (st_ObservedGeneration st = gen) +
  one_if_not (find_cond ConditionConnected (st_Conditions st) = Some (conn_cond gen connected)) +
  one_if_not (find_cond ConditionReady (st_Conditions st) = Some (ready_cond gen version)).

(** ... of the stored proxy, for the resources and the connections there are. *)
Definition wrong_at w k : nat :=
  match Get_EnvoyProxy (w_Api w) k, collect_for (w_Api w) k with
  | Ok ep, Ok c =>
      wrong (om_Generation (ep_meta ep)) (IsConnected (w_Server w) (proxy_node k))
        (co_version c) (ep_Status ep)
  | _, _ => 0
  end.

Definition total_wrong w K : nat := sum_list (wrong_at w <$> elements K).

Lemma sum_list_fmap_lt {A} (f g : A → nat) (l : list A) x :
  x ∈ l → f x < g x → (∀ y, y ∈ l → f y ≤ g y) → sum_list (f <$> l) < sum_list (g <$> l).
Proof.
  assert (∀ l, (∀ y, y ∈ l → f y ≤ g y) → sum_list (f <$> l) ≤ sum_list (g <$> l)) as Hle.
  { intros k Hk. induction k as [|y k IH]; csimpl; [done|].
    pose proof (Hk y ltac:(by left)). specialize (IH ltac:(intros; apply Hk; by right)). lia. }
  induction l as [|y l IH]; [by intros ?%elem_of_nil|]. intros Hin Hlt Hall. csimpl.
  pose proof (Hall y ltac:(by left)) as Hy.
  apply elem_of_cons in Hin as [->|Hin].
  - specialize (Hle l ltac:(intros; apply Hall; by right)). lia.
  - specialize (IH Hin Hlt ltac:(intros; apply Hall; by right)). lia.
Qed.

Lemma total_wrong_lt w w' K k :
  k ∈ K → wrong_at w' k < wrong_at w k → (∀ j, j ≠ k → wrong_at w' j = wrong_at w j) →
  total_wrong w' K < total_wrong w K.
Proof.
  intros Hk Hlt Hother. apply (sum_list_fmap_lt _ _ _ k); [by apply elem_of_elements|done|].
  intros j _. destruct (decide (j = k)) as [->|]; [lia|]. by rewrite Hother.
Qed.

Context `{!ClientLaws Api, !SnapshotCacheLaws Cache Snapshot}.

Lemma set_status_right gen c st :
  st_ObservedGeneration st = gen → find_cond (c_Type c) (st_Conditions st) = Some c →
  set_status gen c st = st.
Proof. intros <- Hc. unfold set_status. rewrite set_same by done. by destruct st. Qed.

Lemma find_cond_put gen c st ty :
  find_cond ty (st_Conditions (set_status gen c st)) =
  if decide (ty = c_Type c) then Some c else find_cond ty (st_Conditions st).
Proof. apply set_condition. Qed.

Lemma set_status_twice gen c st : set_status gen c (set_status gen c st) = set_status gen c st.
Proof. apply set_status_right; [done|]. by rewrite find_cond_put, decide_True. Qed.

(** Writing Connected: right, or less wrong than before. *)
Lemma wrong_connected gen b version st :
  set_status gen (conn_cond gen b) st ≠ st →
  wrong gen b version (set_status gen (conn_cond gen b) st) < wrong gen b version st.
Proof.
  intros Hne. unfold wrong, one_if_not. rewrite !find_cond_put. simpl.
  rewrite (decide_True (P := gen = gen)), (decide_True (P := Some _ = Some (conn_cond _ _))) by done.
  destruct (decide (st_ObservedGeneration st = gen)) as [Hg|]; [|repeat case_decide; lia].
  destruct (decide (find_cond ConditionConnected _ = _)) as [Hc|]; [|lia].
  destruct Hne. by apply set_status_right.
Qed.

Lemma wrong_reported gen b version st :
  wrong gen b version (set_status gen (ready_cond gen version)
    (set_status gen (conn_cond gen b) st)) = 0.
Proof.
  unfold wrong, one_if_not. rewrite !find_cond_put. simpl. by rewrite !decide_True by done.
Qed.

Lemma right_reported gen b version st :
  wrong gen b version st = 0 →
  set_status gen (ready_cond gen version) (set_status gen (conn_cond gen b) st) = st.
Proof.
  unfold wrong, one_if_not. repeat case_decide; [|lia..]. intros _.
  rewrite (set_status_right gen (conn_cond gen b)) by done. by apply set_status_right.
Qed.

(** ** A reconcile that began after the last change *)

(** Where it can be, with the proxy in memory as it is stored, or as far as
    the update of Connected has taken it (which may have failed). *)
Inductive fresh w k : Task → Prop :=
| fr_start : fresh w k (Reconcile_p k)
| fr_reads ep n :
    Get_EnvoyProxy (w_Api w) k = Ok ep → is_Ok (desired (w_Api w) k) = true →
    fresh w k (prog_bind (publish_p ep) (reading (reads_left (w_Api w) n k)))
| fr_report ep c :
    Get_EnvoyProxy (w_Api w) k = Ok ep → collect_for (w_Api w) k = Ok c →
    fresh w k (report_p ep (co_version c))
| fr_connected ep c :
    Get_EnvoyProxy (w_Api w) k = Ok ep → collect_for (w_Api w) k = Ok c →
    fresh w k (connected_p ep (co_version c) (IsConnected (w_Server w) (proxy_node k)))
| fr_ready stored ep c :
    Get_EnvoyProxy (w_Api w) k = Ok stored → collect_for (w_Api w) k = Ok c →
    proxy_key ep = k → om_Generation (ep_meta ep) = om_Generation (ep_meta stored) →
    ep_Status ep = set_status (om_Generation (ep_meta stored))
      (conn_cond (om_Generation (ep_meta stored)) (IsConnected (w_Server w) (proxy_node k)))
      (ep_Status stored) →
    fresh w k (ready_p ep (co_version c))
| fr_done : fresh w k (Ret None).

(** No watch event comes back, or the stored status is less wrong. *)
Definition closer w w' k v : Prop :=
  (v = [] ∧ wrong_at w' k = wrong_at w k) ∨ wrong_at w' k < wrong_at w k.

(** The client fails with NotFound only. *)
Definition only_not_found : Prop :=
  ∀ api k err, Get_EnvoyProxy api k = Err err → IgnoreNotFound err = None.

(** The resources of every proxy make up a snapshot. *)
Definition buildable api : Prop :=
  ∀ k ep, Get_EnvoyProxy api k = Ok ep → is_Ok (desired api k) = true.

(** The proxy is gone, or its resources make up a snapshot. *)
Definition reconcilable api k : Prop :=
  match Get_EnvoyProxy api k with
  | Ok _ => is_Ok (desired api k) = true
  | Err err => IgnoreNotFound err = None
  end.

Lemma buildable_reconcilable api k : only_not_found → buildable api → reconcilable api k.
Proof.
  intros Hnf Hb. unfold reconcilable. destruct (Get_EnvoyProxy api k) eqn:Hg; [by eapply Hb|].
  by eapply Hnf.
Qed.

Lemma IsConnected_same w w' n :
  srv_connected (w_Server w') = srv_connected (w_Server w) →
  IsConnected (w_Server w') n = IsConnected (w_Server w) n.
Proof. unfold IsConnected. by intros ->. Qed.

Lemma wrong_at_frame w w' k :
  same_resources (w_Api w) (w_Api w') →
  srv_connected (w_Server w') = srv_connected (w_Server w) →
  Get_EnvoyProxy (w_Api w') k = Get_EnvoyProxy (w_Api w) k →
  wrong_at w' k = wrong_at w k.
Proof.
  intros Hs Hc Hg. unfold wrong_at.
  by rewrite Hg, (IsConnected_same w w'), (collect_same (w_Api w) (w_Api w')).
Qed.

Lemma fresh_frame w w' k p :
  same_resources (w_Api w) (w_Api w') →
  srv_connected (w_Server w') = srv_connected (w_Server w) →
  Get_EnvoyProxy (w_Api w') k = Get_EnvoyProxy (w_Api w) k →
  fresh w k p → fresh w' k p.
Proof.
  intros Hs Hc Hg. destruct 1 as [|ep n Hk Hd|ep c Hk Hcl|ep c Hk Hcl|st ep c Hk Hcl|];
    rewrite <-?Hg, ?(collect_same (w_Api w) (w_Api w')) in * by done;
    try (by constructor).
  - unfold reads_left. rewrite (agree_advance (w_Api w) (w_Api w')).
    + apply fr_reads; [done|]. by rewrite <-(desired_same (w_Api w)).
    + by apply collect_p_agree, same_unaffected.
  - rewrite <-(IsConnected_same w w') by done. by apply fr_connected.
  - rewrite <-(IsConnected_same w w') in * by done. by eapply fr_ready.
Qed.

Lemma buildable_frame {X} w k (e : effect Snapshot X) :
  allowed k e → buildable (w_Api w) → buildable (w_Api (perform w e).1).
Proof.
  intros Ha Hb j ep. destruct (perform w e) as [w' x] eqn:Hp. simpl.
  destruct (perform_frame _ _ _ _ _ Hp Ha) as (_ & Hs & Hother & Hpres & _).
  rewrite <-(desired_same (w_Api w)) by done. intros Hg.
  destruct (decide (j = k)) as [->|Hne]; [|rewrite Hother in Hg by done; by eapply Hb].
  rewrite Hg in Hpres. destruct (Get_EnvoyProxy (w_Api w) k) eqn:Hg0; [by eapply Hb|done].
Qed.

(** What a status update does, whether it fails or not. *)
Lemma update_cases w ep stored k :
  proxy_key ep = k → Get_EnvoyProxy (w_Api w) k = Ok stored →
  om_Generation (ep_meta ep) = om_Generation (ep_meta stored) →
  let r := perform w (EStatusUpdate ep) in
  ∃ new, Get_EnvoyProxy (w_Api r.1) k = Ok new ∧
    om_Generation (ep_meta new) = om_Generation (ep_meta stored) ∧
    proxy_key r.2.1 = k ∧ om_Generation (ep_meta r.2.1) = om_Generation (ep_meta stored) ∧
    ep_Status r.2.1 = ep_Status ep ∧
    (new = stored ∨ ep_Status new = ep_Status ep ∧ ep_Status ep ≠ ep_Status stored).
Proof.
  intros <- Hg Hgen. simpl. destruct (Status_Update _ _) as [[api' ep2] err] eqn:Hu. simpl.
  assert (∃ new, Get_EnvoyProxy api' (proxy_key ep) = Ok new ∧
    om_Generation (ep_meta new) = om_Generation (ep_meta stored) ∧
    (new = stored ∨ ep_Status new = ep_Status ep ∧ ep_Status ep ≠ ep_Status stored))
    as (new & Hn & Hng & Hcase).
  { destruct (status_written _ _ _ _ _ Hu) as [He|(old & new & Ho & Hn & Hs & Hne & Hgn)].
    - exists stored. rewrite He. auto.
    - rewrite Hg in Ho. simplify_eq. exists new. rewrite <-Hs. auto. }
  exists new. pose proof (status_key _ _ _ _ _ Hu) as Hk. destruct err as [err|].
  - apply status_failed in Hu as ->. by split_and!.
  - apply status_stored in Hu as [Hg2 Hs2]. rewrite Hn in Hg2. injection Hg2 as ->.
    by split_and!.
Qed.

Lemma closer_update w k ep stored c :
  proxy_key ep = k → Get_EnvoyProxy (w_Api w) k = Ok stored →
  om_Generation (ep_meta ep) = om_Generation (ep_meta stored) →
  collect_for (w_Api w) k = Ok c →
  (ep_Status ep ≠ ep_Status stored →
   let wrong_now := wrong (om_Generation (ep_meta stored))
     (IsConnected (w_Server w) (proxy_node k)) (co_version c) in
   wrong_now (ep_Status ep) < wrong_now (ep_Status stored)) →
  let e := EStatusUpdate (Snapshot := Snapshot) ep in
  closer w (perform w e).1 k (echo w (perform w e).1 e).
Proof.
  intros Hk Hg Hgen Hc Hlt e. pose proof (perform_connected w e) as Hcon.
  destruct (perform_frame w k e _ _ (surjective_pairing _) Hk)
    as (_ & Hs & _ & _ & _).
  destruct (update_cases w ep stored k Hk Hg Hgen) as (new & Hn & Hng & _ & _ & _ & Hcase).
  fold e in Hn. destruct (perform w e) as [w' x]. simpl in *.
  destruct Hcase as [->|[Hst Hne]].
  - left. rewrite Hk, decide_True by congruence. split; [done|].
    apply wrong_at_frame; [done..|congruence].
  - right. unfold wrong_at. rewrite Hn, Hg, <-(collect_same (w_Api w) (w_Api w')), Hc by done.
    rewrite Hng, Hst, (IsConnected_same w w') by done. by apply Hlt.
Qed.

(** A call that is not a status update. *)
Lemma closer_silent {X} w k (e : effect Snapshot X) :
  match e with EStatusUpdate _ => False | _ => True end → allowed k e →
  closer w (perform w e).1 k (echo w (perform w e).1 e) ∧
  w_Api (perform w e).1 = w_Api w.
Proof.
  intros He _. assert (w_Api (perform w e).1 = w_Api w) as Hw.
  { destruct e; try done. simpl. by destruct (SetSnapshot _ _ _). }
  split; [|done]. left. split; [by destruct e|].
  apply wrong_at_frame; [by rewrite Hw|apply perform_connected|by rewrite Hw].
Qed.

Definition fresh_after w k p : Prop :=
  match p with
  | Ret e => e = None
  | Ask e c => fresh (perform w e).1 k (c (perform w e).2) ∧
      closer w (perform w e).1 k (echo w (perform w e).1 e)
  end.

Lemma publish_fresh w k ep n :
  cache_accepts (Cache := Cache) (Snapshot := Snapshot) →
  Get_EnvoyProxy (w_Api w) k = Ok ep → is_Ok (desired (w_Api w) k) = true →
  fresh_after w k (publish_p ep (run_reads (w_Api w) (reads_left (w_Api w) n k))).
Proof.
  intros Hset Hg Hd. unfold reads_left. rewrite advance_run, collect_p_run.
  fold (collect_for (w_Api w) k). unfold publish_p. unfold desired in Hd.
  destruct (collect_for (w_Api w) k) as [c|err] eqn:Hc; [|done]. simpl in Hd.
  destruct (build c) as [snap|err]; [|done]. pose proof (get_key _ _ _ Hg) as Hk.
  set (node := nodeID _ _). split.
  - specialize (Hset (srv_Cache (w_Server w)) node snap). simpl.
    destruct (SetSnapshot _ _ _) as [cache' e]. simpl in *. subst e. by apply fr_report.
  - apply closer_silent; [done|]. by subst k.
Qed.

Lemma fresh_update_connected w k ep c :
  Get_EnvoyProxy (w_Api w) k = Ok ep → collect_for (w_Api w) k = Ok c →
  fresh_after w k (connected_p ep (co_version c) (IsConnected (w_Server w) (proxy_node k))).
Proof.
  intros Hg Hc. pose proof (get_key _ _ _ Hg) as Hk. set (b := IsConnected _ _). split.
  - destruct (update_cases w (sent_connected ep b) ep k Hk Hg eq_refl)
      as (new & Hn & Hng & Hk2 & Hg2 & Hs2 & Hcase).
    pose proof (perform_connected w
      (EStatusUpdate (sent_connected ep b))) as Hcon.
    destruct (perform_frame w k (EStatusUpdate (sent_connected ep b))
      _ _ (surjective_pairing _) Hk) as (_ & Hs & _).
    destruct (perform w _) as [w' [ep2 err]]. cbn [fst snd] in *.
    apply (fr_ready w' k new); [done|by rewrite <-(collect_same (w_Api w))|done|congruence|].
    rewrite Hng, Hs2, (IsConnected_same w w') by done. fold b.
    destruct Hcase as [->|[-> _]]; [done|]. symmetry. apply set_status_twice.
  - apply (closer_update w k (sent_connected ep b) ep c Hk Hg eq_refl Hc).
    apply wrong_connected.
Qed.

Lemma fresh_update_ready w k stored ep c :
  Get_EnvoyProxy (w_Api w) k = Ok stored → collect_for (w_Api w) k = Ok c →
  proxy_key ep = k → om_Generation (ep_meta ep) = om_Generation (ep_meta stored) →
  ep_Status ep = set_status (om_Generation (ep_meta stored))
    (conn_cond (om_Generation (ep_meta stored)) (IsConnected (w_Server w) (proxy_node k)))
    (ep_Status stored) →
  fresh_after w k (ready_p ep (co_version c)).
Proof.
  intros Hg Hc Hk Hgen Hs. split.
  - cbn [ready_p prog_bind call]. destruct (perform w _) as [w' [ep2 err]]. apply fr_done.
  - apply (closer_update w k (sent_ready ep (co_version c)) stored c Hk Hg Hgen Hc).
    change (ep_Status (sent_ready ep (co_version c))) with
      (set_status (om_Generation (ep_meta ep)) (ready_cond (om_Generation (ep_meta ep))
        (co_version c)) (ep_Status ep)).
    rewrite Hs, Hgen. intros Hne. cbv zeta. rewrite wrong_reported.
    destruct (wrong _ _ _ (ep_Status stored)) eqn:Hw; [|lia].
    by destruct Hne; apply right_reported.
Qed.

Lemma fresh_step w k p :
  cache_accepts (Cache := Cache) (Snapshot := Snapshot) → reconcilable (w_Api w) k →
  fresh w k p → fresh_after w k p.
Proof.
  intros Hset Hb. unfold reconcilable in Hb.
  destruct 1 as [|ep n Hg Hd|ep c Hg Hc|ep c Hg Hc|stored ep c Hg Hc|]; [| | | | |done].
  - split; [|by apply closer_silent]. cbn [prog_bind call perform fst snd].
    destruct (Get_EnvoyProxy (w_Api w) k) as [ep|err] eqn:Hg; [|rewrite Hb; apply fr_done].
    pose proof (fr_reads w k ep 0 Hg Hb) as Ht.
    unfold reads_left in Ht. cbn [advance] in Ht. apply get_key in Hg as Hk.
    rewrite <-Hk in Ht |- *. exact Ht.
  - pose proof (publish_fresh w k ep n Hset Hg Hd) as Hp.
    destruct (reads_left (w_Api w) n k) as [r|X q c] eqn:Hr; [done|].
    split; [|by apply closer_silent]. simpl.
    apply advance_S in Hr. rewrite <-Hr. by apply (fr_reads w k ep (S n)).
  - split; [|by apply closer_silent]. simpl.
    pose proof (fr_connected w k ep c Hg Hc) as Hf. apply get_key in Hg as <-. exact Hf.
  - by apply fresh_update_connected.
  - by eapply fresh_update_ready.
Qed.

(** ** A reconcile of a proxy whose status is right *)

(** What a task of its own proxy leaves unchanged when no watch event comes back. *)
Lemma silent_call {X} w k (e : effect Snapshot X) :
  allowed k e → echo w (perform w e).1 e = [] →
  Get_EnvoyProxy (w_Api (perform w e).1) k = Get_EnvoyProxy (w_Api w) k.
Proof.
  intros Ha. destruct e as [| |node snap| |ep]; try done; simpl in *.
  - by destruct (SetSnapshot _ _ _).
  - rewrite Ha. by case_decide.
Qed.

Lemma fresh_silent w k p ep :
  cache_accepts (Cache := Cache) (Snapshot := Snapshot) →
  Get_EnvoyProxy (w_Api w) k = Ok ep → is_Ok (desired (w_Api w) k) = true →
  confined k p → fresh w k p → wrong_at w k = 0 →
  echoes w p = [] ∧ (run w p).2 = None ∧
  Get_EnvoyProxy (w_Api (run w p).1) k = Get_EnvoyProxy (w_Api w) k.
Proof.
  intros Hset. revert w. induction p as [e|X e c IH]; intros w Hg Hd Hcon Hf Hw.
  { split; [done|]. split; [|done]. simpl. apply (fresh_step w k (Ret e) Hset); [|done].
    unfold reconcilable. by rewrite Hg. }
  destruct Hcon as [Ha Hcon].
  destruct (fresh_step w k _ Hset ltac:(unfold reconcilable; by rewrite Hg) Hf) as [Hf' Hcl].
  destruct Hcl as [[He Hw']|Hlt]; [|lia].
  pose proof (silent_call w k e Ha He) as Hg'.
  destruct (perform_frame w k e _ _ (surjective_pairing _) Ha) as (Hans & Hs & _).
  simpl echoes. rewrite He. cbn [interp app]. destruct (perform w e) as [w1 x]. simpl in *.
  rewrite <-Hg'. apply IH; [congruence|by rewrite <-(desired_same (w_Api w))|by apply Hcon|done|lia].
Qed.

(** An update of the stored object that goes through. *)
Lemma update_stored w sent ep k :
  updates_succeed (Api := Api) → Get_EnvoyProxy (w_Api w) k = Ok ep →
  ep_meta sent = ep_meta ep →
  let r := perform w (EStatusUpdate (Snapshot := Snapshot) sent) in
  Get_EnvoyProxy (w_Api r.1) k = Ok r.2.1 ∧ ep_Status r.2.1 = ep_Status sent ∧
  om_Generation (ep_meta r.2.1) = om_Generation (ep_meta ep) ∧
  same_resources (w_Api w) (w_Api r.1) ∧
  srv_connected (w_Server r.1) = srv_connected (w_Server w).
Proof.
  intros Hup Hg Hm. pose proof (get_key _ _ _ Hg) as Hk.
  assert (proxy_key sent = k) as Hks by (unfold proxy_key in *; by rewrite Hm).
  destruct (update_succeeds w sent ep Hup) as [Hg1 Hs1]; [by rewrite Hks|by rewrite Hm|].
  destruct (update_cases w sent ep k Hks Hg) as (_ & _ & _ & _ & Hgen & _); [by rewrite Hm|].
  destruct (perform_frame w k (EStatusUpdate (Snapshot := Snapshot) sent) _ _
    (surjective_pairing _) Hks) as (_ & Hr & _).
  rewrite Hks in Hg1. split_and!; try done. apply perform_connected.
Qed.

(** The status after both updates went through. *)
Lemma report_right w k ep c :
  updates_succeed (Api := Api) →
  Get_EnvoyProxy (w_Api w) k = Ok ep → collect_for (w_Api w) k = Ok c →
  wrong_at (run w (report_p ep (co_version c))).1 k = 0.
Proof.
  intros Hup Hg Hc. pose proof (get_key _ _ _ Hg) as Hk.
  change (report_p ep (co_version c)) with (prog_bind (connected_p ep (co_version c))
    (call (EIsConnected (Snapshot := Snapshot) (proxy_node (proxy_key ep))))).
  rewrite Hk. set (b := IsConnected (w_Server w) (proxy_node k)). cbn [prog_bind call interp perform].
  destruct (update_stored w (sent_connected ep b) ep k Hup Hg eq_refl)
    as (Hg1 & Hs1 & Hgen1 & Hr1 & Hc1).
  unfold connected_p. fold b. cbn [prog_bind call interp].
  destruct (perform w _) as [w1 [ep1 err1]]. cbn [fst snd] in *.
  destruct (update_stored w1 (sent_ready ep1 (co_version c)) ep1 k Hup Hg1 eq_refl)
    as (Hg2 & Hs2 & Hgen2 & Hr2 & Hc2).
  unfold ready_p. cbn [prog_bind call interp].
  destruct (perform w1 _) as [w2 [ep2 err2]]. cbn [fst snd prog_bind interp] in *.
  unfold wrong_at. rewrite Hg2, <-(collect_same (w_Api w)), Hc by (by etrans).
  rewrite (IsConnected_same w w2) by congruence. fold b. rewrite Hs2, Hgen2.
  change (ep_Status (sent_ready ep1 (co_version c))) with
    (set_status (om_Generation (ep_meta ep1))
      (ready_cond (om_Generation (ep_meta ep1)) (co_version c)) (ep_Status ep1)).
  rewrite Hs1, Hgen1. apply wrong_reported.
Qed.

(** The end of a successful reconcile. *)
Lemma reconcile_published w k ep w' :
  Get_EnvoyProxy (w_Api w) k = Ok ep → outcome w k w' None →
  ∃ snap, desired (w_Api w') k = Ok snap ∧ node_snapshot w' (proxy_node k) = Some snap.
Proof.
  intros Hg Ho. pose proof (outcome_frame _ _ _ _ Ho) as (Hsame & _).
  inversion Ho as [err Hg' Heq| | | |ep0 c snap cache' w1 ep1 w2 ep2 Hg' Hc Hb Hs H1 H2];
    simplify_eq; [congruence|].
  pose proof (outcome_key _ _ _ Hg') as <-. exists snap. split.
  - rewrite <-(desired_same (w_Api w)) by done. unfold desired. by rewrite Hc.
  - unfold node_snapshot. rewrite (setCondition_server _ _ _ _ _ _ _ _ H2).
    rewrite (setCondition_server _ _ _ _ _ _ _ _ H1). simpl. by eapply set_get.
Qed.

Lemma reconciled_right w k ep w' :
  updates_succeed (Api := Api) → Get_EnvoyProxy (w_Api w) k = Ok ep →
  Reconcile w k = (w', None) →
  ∃ ep', Get_EnvoyProxy (w_Api w') k = Ok ep' ∧ wrong_at w' k = 0 ∧
    ∃ snap, desired (w_Api w') k = Ok snap ∧ node_snapshot w' (proxy_node k) = Some snap.
Proof.
  intros Hup Hg Ho%Reconcile_outcome.
  pose proof (reconcile_published w k ep w' Hg Ho) as Hpub.
  pose proof (outcome_frame _ _ _ _ Ho) as (_ & _ & _ & Hok & _).
  rewrite Hg in Hok. destruct (Get_EnvoyProxy (w_Api w') k) as [ep'|] eqn:Hg'; [|done].
  exists ep'. split; [done|]. split; [|done].
  inversion Ho as [err Hg2 Heq| | | |ep0 c snap cache' w1 ep1 w2 ep2 Hg2 Hc Hb Hs H1 H2];
    simplify_eq; [congruence|].
  rewrite Hg in Hg2. injection Hg2 as <-. pose proof (outcome_key _ _ _ Hg) as <-.
  pose proof (report_right (with_cache w cache') _ ep c Hup Hg Hc) as Hw.
  rewrite report_p_run in Hw.
  change (IsConnected (w_Server (with_cache w cache')) (proxy_node (proxy_key ep))) with
    (IsConnected (w_Server w) (proxy_node (proxy_key ep))) in Hw.
  by rewrite H1, H2 in Hw.
Qed.

(** ** Nothing changes but what the workers do *)

(** Only the tasks of [told] may have begun before the last change; all keys
    there are to work on, now or later, are in [K]. *)
Record calm told K (s : Conc) : Prop := {
  ca_settled : settled s;
  ca_buildable : buildable (w_Api (cc_world s));
  ca_old : told ⊆ cc_tasks s;
  ca_fresh : ∀ k p, cc_tasks s !! k = Some p → told !! k = None → fresh (cc_world s) k p;
  ca_dirty : cc_dirty s ⊆ K;
  ca_tasks : ∀ k, is_Some (cc_tasks s !! k) → k ∈ K;
  ca_events : ∀ ev k, ev ∈ cc_events s → k ∈ event_requests (w_Api (cc_world s)) ev → k ∈ K
}.

Lemma calm_dequeue told K w d t v k :
  k ∈ d → t !! k = None → calm told K (mkConc w d t v) →
  calm told K (mkConc w (d ∖ {[k]}) (<[k := Reconcile_p k]> t) v).
Proof.
  intros Hk Ht [Hs Hb Ho Hf Hd HK Hv].
  split; simpl in *; [by apply settled_dequeue|done| | |set_solver| |done].
  - etrans; [exact Ho|by apply insert_subseteq].
  - intros j p. rewrite lookup_insert. case_decide as Hkj; [|by apply Hf].
    subst. intros [= <-] _. constructor.
  - intros j. rewrite lookup_insert. case_decide as Hkj; [|by apply HK]. set_solver.
Qed.

(** The keys of the event of a call. *)
Lemma echo_keys {X} w w' k (e : effect Snapshot X) api ev j :
  allowed k e → ev ∈ echo w w' e → j ∈ event_requests api ev → j = k.
Proof.
  intros Ha. destruct e as [| | | |ep]; try by intros ?%elem_of_nil. simpl in *.
  case_decide; [by intros ?%elem_of_nil|]. intros ->%list_elem_of_singleton.
  intros ->%list_elem_of_singleton. done.
Qed.

Lemma calm_call_keys told K w d t v k X (e : effect Snapshot X) c :
  t !! k = Some (Ask e c) → calm told K (mkConc w d t v) →
  let s' := mkConc (perform w e).1 d (<[k := c (perform w e).2]> t)
    (v ++ echo w (perform w e).1 e) in
  (∀ j, is_Some (cc_tasks s' !! j) → j ∈ K) ∧
  (∀ ev j, ev ∈ cc_events s' → j ∈ event_requests (w_Api (cc_world s')) ev → j ∈ K).
Proof.
  intros Ht [Hs _ _ _ _ HK Hv]. destruct (se_tasks _ Hs k _ Ht) as [[Ha _] _]. simpl in *.
  assert (k ∈ K) as Hk by (by apply HK; eexists). split.
  - intros j. rewrite lookup_insert. case_decide; [by subst|apply HK].
  - intros ev j [Hev|Hev]%elem_of_app Hj; [|by rewrite (echo_keys w _ k e _ ev j Ha Hev Hj)].
    eapply Hv; [done|]. rewrite (event_requests_same _ (w_Api (perform w e).1)); [done|].
    by destruct (perform_frame w k e _ _ (surjective_pairing _) Ha) as (_ & [] & _).
Qed.

Lemma calm_call_other w k X (e : effect Snapshot X) j p :
  allowed k e → j ≠ k → fresh w j p →
  fresh (perform w e).1 j p ∧ wrong_at (perform w e).1 j = wrong_at w j.
Proof.
  intros Ha Hj Hf.
  destruct (perform_frame w k e _ _ (surjective_pairing _) Ha) as (_ & Hs & Hg & _).
  pose proof (perform_connected w e).
  split; [eapply fresh_frame, Hf|apply wrong_at_frame]; auto.
Qed.

(** A call of a task that began after the last change. *)
Lemma calm_call_fresh told K w d t v k X (e : effect Snapshot X) c :
  cache_accepts (Cache := Cache) (Snapshot := Snapshot) → only_not_found →
  t !! k = Some (Ask e c) → told !! k = None → calm told K (mkConc w d t v) →
  calm told K (mkConc (perform w e).1 d (<[k := c (perform w e).2]> t)
    (v ++ echo w (perform w e).1 e)) ∧
  (total_wrong (perform w e).1 K < total_wrong w K ∨
   echo w (perform w e).1 e = [] ∧ total_wrong (perform w e).1 K = total_wrong w K).
Proof.
  intros Hset Hnf Ht Hn Hc. destruct (calm_call_keys _ _ _ _ _ _ _ _ _ _ Ht Hc) as [HK' Hv'].
  destruct Hc as [Hs Hb Ho Hf Hd HK Hv]. simpl in *.
  destruct (se_tasks _ Hs k _ Ht) as [[Ha _] _].
  destruct (fresh_step w k _ Hset (buildable_reconcilable _ _ Hnf Hb) (Hf _ _ Ht Hn))
    as [Hfr Hcl].
  assert (∀ j, j ≠ k → wrong_at (perform w e).1 j = wrong_at w j) as Hw.
  { intros j Hj. apply (calm_call_other w k X e j (Ret None) Ha Hj), fr_done. }
  split; [split; simpl|].
  - by apply settled_call.
  - by eapply buildable_frame.
  - by apply insert_subseteq_r.
  - intros j p. rewrite lookup_insert. case_decide as Hkj; [by subst; intros [= <-]|].
    intros Hj Hjn. apply (calm_call_other w k X e j p Ha); auto.
  - done.
  - done.
  - done.
  - destruct Hcl as [[-> He]|Hlt]; [right; split; [done|]|left].
    + unfold total_wrong. f_equal. apply list_fmap_ext. intros i j _.
      destruct (decide (j = k)) as [->|]; auto.
    + apply (total_wrong_lt _ _ _ k); [by apply HK; eexists|done|done].
Qed.

(** A call of a task that may have begun before it. *)
Lemma calm_call_old told K w d t v k X (e : effect Snapshot X) c :
  t !! k = Some (Ask e c) → is_Some (told !! k) → calm told K (mkConc w d t v) →
  calm (<[k := c (perform w e).2]> told) K
    (mkConc (perform w e).1 d (<[k := c (perform w e).2]> t)
      (v ++ echo w (perform w e).1 e)).
Proof.
  intros Ht Hn Hc. destruct (calm_call_keys _ _ _ _ _ _ _ _ _ _ Ht Hc) as [HK' Hv'].
  destruct Hc as [Hs Hb Ho Hf Hd HK Hv]. simpl in *.
  destruct (se_tasks _ Hs k _ Ht) as [[Ha _] _].
  split; simpl; [by apply settled_call|by eapply buildable_frame|by apply insert_mono| |done..].
  intros j p. rewrite !lookup_insert. case_decide as Hkj; [done|].
  intros Hj Hjn. apply (calm_call_other w k X e j p Ha); auto.
Qed.

Lemma calm_return told K w d t v k e :
  t !! k = Some (Ret e) → calm told K (mkConc w d t v) →
  calm (delete k told) K
    (mkConc w (match e with None => d | Some _ => {[k]} ∪ d end) (delete k t) v).
Proof.
  intros Ht [Hs Hb Ho Hf Hd HK Hv].
  split; simpl in *; [by apply settled_return|done|by apply delete_mono| | | |done].
  - intros j p [Hne Hj]%lookup_delete_Some. rewrite lookup_delete_ne by done. by apply Hf.
  - assert (k ∈ K) by (by apply HK; eexists). destruct e; set_solver.
  - intros j [p [_ Hj]%lookup_delete_Some]. apply HK. by eexists.
Qed.

Lemma calm_deliver told K w d t v1 ev v2 :
  calm told K (mkConc w d t (v1 ++ ev :: v2)) →
  calm told K (mkConc w (list_to_set (event_requests (w_Api w) ev) ∪ d) t (v1 ++ v2)).
Proof.
  intros [Hs Hb Ho Hf Hd HK Hv]. split; simpl in *; [by apply settled_deliver|done..| | |].
  - intros k [Hk%elem_of_list_to_set|?]%elem_of_union; [|by apply Hd].
    eapply Hv; [|done]. set_solver.
  - done.
  - intros ev' k Hev. apply Hv. set_solver.
Qed.

Lemma stuck_idle s :
  (∀ s', ¬ worker_step s s') → cc_dirty s = ∅ ∧ cc_tasks s = ∅ ∧ cc_events s = [].
Proof.
  destruct s as [w d t v]. intros Hstuck. simpl. assert (t = ∅) as ->.
  { apply map_empty. intros k. destruct (t !! k) as [[e|X e c]|] eqn:Ht; [| |done];
      edestruct Hstuck; [by eapply conc_return|by eapply conc_call]. }
  split; [|split; [done|]].
  - apply set_eq. intros k. split; [|set_solver]. intros Hk.
    edestruct Hstuck. by eapply conc_dequeue.
  - destruct v as [|ev v]; [done|]. edestruct Hstuck. apply (conc_deliver w d ∅ [] ev v).
Qed.

(** ** Termination *)

(** Induction on the older tasks, what is wrong, the pending events, the dirty
    keys and all tasks. *)
Lemma calm_terminates told K w d t v :
  cache_accepts (Cache := Cache) (Snapshot := Snapshot) → only_not_found →
  calm told K (mkConc w d t v) → sn worker_step (mkConc w d t v).
Proof.
  intros Hset Hnf. revert w d t v.
  induction (task_step_wf told) as [told _ IHtold]. unfold flip in IHtold. intros w.
  remember (total_wrong w K) as n eqn:Hn. revert w Hn.
  induction n as [n IHn] using lt_wf_ind. intros w Hn d t v. revert w Hn d t.
  induction v as [v IHv] using (well_founded_induction (well_founded_ltof _ length)).
  unfold ltof in IHv. intros w Hn d. revert w Hn.
  induction d as [d IHd] using (well_founded_induction set_wf). intros w Hn t. revert w Hn.
  induction (task_step_wf t) as [t _ IHt]. unfold flip in IHt.
  intros w Hn Hc. constructor. intros s' Hs.
  inversion Hs as [w0 d0 t0 v1 ev v2|w0 d0 t0 v0 k Hk Ht|w0 d0 t0 v0 k X e c Ht|
    w0 d0 t0 v0 k e Ht]; subst; clear Hs.
  - eapply IHv; [rewrite !length_app; simpl; lia|done|by eapply calm_deliver].
  - apply IHd; [set_solver|done|by apply calm_dequeue].
  - destruct (told !! k) as [p|] eqn:Hold.
    + assert (p = Ask e c) as ->.
      { pose proof (lookup_weaken _ _ _ _ Hold (ca_old _ _ _ Hc)) as Ht'. simpl in Ht'. congruence. }
      eapply IHtold; [|by apply (calm_call_old told K w d t v k X e c Ht); [eexists|]].
      eapply ts_call; [done|by eexists].
    + destruct (calm_call_fresh told K w d t v k X e c Hset Hnf Ht Hold Hc) as [Hc' Hlt].
      destruct Hlt as [Hlt|[He Heq]]; [by eapply IHn|].
      rewrite He, app_nil_r in Hc' |- *. apply IHt; [|done..]. eapply ts_call; [done|by eexists].
  - pose proof (calm_return told K w d t v k e Ht Hc) as Hc'.
    destruct (told !! k) as [p|] eqn:Hold.
    + eapply IHtold, Hc'. by eapply ts_return.
    + rewrite delete_id in Hc' by done.
      assert (e = None) as ->.
      { apply (fresh_step w k (Ret e) Hset); [|by apply Hc].
        by apply buildable_reconcilable, Hc. }
      apply IHt; [by eapply ts_return|done|done].
Qed.

(** ** Properties *)


(** [C2] Convergence: at any moment of a run of Interleave.v, when every proxy's
    resources make up a snapshot, the snapshot cache accepts snapshots and the
    client fails with NotFound only, every schedule of the event handlers and
    workers comes to an end if nothing else happens, although every status
    update that changes a proxy triggers the reconciler again and may also
    fail; at the end no event is pending, the queue is empty, no reconcile is
    under way and every proxy is up to date; and when a status update of the
    stored object at its current resource version does not fail, its status
    says that it is Ready, with the version of its resources. *)
Theorem workers_converge s0 s
    (Hinit : sys_init s0) (Hrun : rtc conc_step (idle s0) s)
    (Hset : cache_accepts (Cache := Cache) (Snapshot := Snapshot)) (Hnf : only_not_found)
    (Hb : buildable (w_Api (cc_world s))) :
  sn worker_step s ∧
  ∀ s', rtc worker_step s s' → (∀ s'', ¬ worker_step s' s'') →
    cc_events s' = [] ∧ cc_dirty s' = ∅ ∧ cc_tasks s' = ∅ ∧
    ∀ k ep, Get_EnvoyProxy (w_Api (cc_world s')) k = Ok ep →
      up_to_date (cc_world s') k ∧
      (updates_succeed (Api := Api) →
        ∃ c, collect_for (w_Api (cc_world s')) k = Ok c ∧
          cond ConditionReady ep =
            Some (ConditionTrue, "SnapshotReady", "version=" +:+ co_version c)).
Proof.
  pose proof (settled_run _ _ Hinit Hrun) as Hs. split.
  - destruct s as [w d t v].
    set (K := d ∪ dom t ∪ list_to_set (v ≫= event_requests (w_Api w))).
    apply (calm_terminates t K); [done..|].
    split; simpl; [done..| |set_solver| |].
    + intros k p Hk. by rewrite Hk.
    + intros k Hk%elem_of_dom. set_solver.
    + intros ev k Hev Hk. apply elem_of_union_r, elem_of_list_to_set, list_elem_of_bind. by exists ev.
  - intros s' Hrun' Hstuck. destruct (stuck_idle s' Hstuck) as (Hd & Ht & Hv).
    split_and!; [done..|]. intros k ep Hg. assert (settled s') as Hs'.
    { eapply settled_run; [done|]. etrans; [done|]. eapply rtc_subrel, Hrun'. by left. }
    destruct (se_proxies _ Hs' k ep Hg) as [_ Hk]. rewrite Hd, Ht, Hv, lookup_empty in Hk.
    destruct Hk as [?|[(ev & Hev & _)|[Hu Hr]]]; [set_solver|by apply elem_of_nil in Hev|].
    split; [done|]. intros (c & Hc & ep' & Hg' & Hready)%Hr. exists c.
    rewrite Hg in Hg'. injection Hg' as <-. by split.
Qed.
End converge.

(** ** Witness: the reconcile interrupted in Interleave.v *)

Section examples.
Local Existing Instance store_client.
Local Existing Instance store_client_laws.
Local Existing Instance ex_lib.
Local Existing Instance gmap_cache.
Local Existing Instance gmap_cache_laws.


Lemma ex_not_found : only_not_found (Api := Store).
Proof.
  intros st k err. simpl. destruct (find_proxy k _); [done|]. intros [= <-].
  by rewrite decide_True.
Defined.

Lemma ex_buildable : buildable (Snapshot := ex_snapshot) (w_Api (cc_world ex_conc)).
Proof.
  intros k ep. simpl. destruct (find_proxy k _) as [p|] eqn:Hp; [|done]. intros _.
  apply head_filter_elem in Hp as [<- Hp].
  apply elem_of_cons in Hp as [->|Hp]; [|apply list_elem_of_singleton in Hp as ->];
    vm_compute; reflexivity.
Defined.

Lemma workers_converge_witness :
  cc_tasks ex_conc !! ex_key = Some ex_task ∧ sn worker_step ex_conc.
Proof.
  split; [reflexivity|].
  apply (workers_converge ex_start ex_conc ex_start_init ex_interrupted ex_accepts
    ex_not_found ex_buildable).
Defined.


(** ** Lists without an order

    [ClientLaws] and [list_changed] assume that lists keep their order.  The
    manager's client lists from informer caches, which promise none. *)

Definition reversed (w : World Store (gmap string ex_snapshot))
    : World Store (gmap string ex_snapshot) :=
  let st := w_Api w in
  with_api w {| so_proxies := so_proxies st; so_listeners := reverse (so_listeners st);
    so_clusters := so_clusters st; so_routes := so_routes st; so_scoped := so_scoped st;
    so_clas := so_clas st; so_slices := so_slices st |}.

Definition ex_two : World Store (gmap string ex_snapshot) :=
  ex_world (ex_store [ex_listener "a" "1" ex_ref; ex_listener "b" "2" ex_ref]).
Definition ex_two_1 := (Reconcile ex_two ex_key).1.
Definition ex_two_2 := (Reconcile (reversed ex_two_1) ex_key).1.

(** The version in the message of Ready depends on the order: when the same two
    listeners come in another order at the next reconcile, it is written anew
    and the reconciler triggers itself; in the same order it does not. *)
Theorem unordered_lists_retrigger :
  echoes ex_two_1 (Reconcile_p ex_key) = [] ∧
  echoes (reversed ex_two_1) (Reconcile_p ex_key) = [EvStatus ex_key] ∧
  echoes (reversed ex_two_2) (Reconcile_p ex_key) = [EvStatus ex_key].
Proof. split_and!; vm_compute; reflexivity. Qed.
End examples.
