(* ===== verification/Serve.v ===== *)
(** * Server.Start, call by call, and the log adapter

    [Start] of Server.v is the outcome of [Start]; here it is the sequence of
    calls to go-control-plane, gRPC and net that leads to it, as a program of
    Prog.v.  The answers of [net.Listen] and of the [select] are free. *)

From S2P Require Import Prelude Prog Server.

Local Open Scope prog_scope.

(** ** [cacheLogger]: go-control-plane's levels on logr's *)

Inductive log_entry :=
| LogInfo (v : nat) (msg : string)
| LogError (err msg : string).

Section logger.
(** [fmt.Sprintf] and [fmt.Errorf(...).Error()]: the same text *)
Context {Args : Type} (Sprintf : string → Args → string).

Definition Debugf (format : string) (args : Args) : log_entry := LogInfo 2 (Sprintf format args).
Definition Infof (format : string) (args : Args) : log_entry := LogInfo 1 (Sprintf format args).
Definition Warnf (format : string) (args : Args) : log_entry := LogInfo 0 (Sprintf format args).
Definition Errorf (format : string) (args : Args) : log_entry :=
  LogError (Sprintf format args) "xDS cache error".

(** logr shows an entry when its level is at most the sink's; errors always. *)
Definition shown (verbosity : nat) (e : log_entry) : bool :=
  match e with LogInfo v _ => Nat.leb v verbosity | LogError _ _ => true end.

(** A sink that shows a message of the cache shows every more severe one. *)
Lemma cacheLogger_severity verbosity f a :
  (shown verbosity (Debugf f a) = true → shown verbosity (Infof f a) = true) ∧
  (shown verbosity (Infof f a) = true → shown verbosity (Warnf f a) = true) ∧
  shown verbosity (Errorf f a) = true.
Proof. unfold shown, Debugf, Infof. rewrite !Nat.leb_le. split_and!; [lia|done..]. Qed.
End logger.

(** ** [Start] *)

Inductive start_call : Type → Type :=
(** [serverv3.NewServer(ctx, s.Cache, cb)] with the two callbacks *)
| NewXDSServer : start_call unit
(** [grpc.NewServer(KeepaliveParams{}, MaxConcurrentStreams(n))] *)
| NewGRPCServer (maxConcurrentStreams : Z) : start_call unit
| RegisterADS : start_call unit
| Listen (network addr : string) : start_call (option error)
(** [go func() { errCh <- grpcSrv.Serve(lis) }()] *)
| GoServe : start_call unit
| Select : start_call select_case
| GracefulStop : start_call unit.

Definition Start_p (addr : string) : prog start_call (option error) :=
  _ ⇐ call NewXDSServer;
  _ ⇐ call (NewGRPCServer 1000);
  _ ⇐ call RegisterADS;
  listen ⇐ call (Listen "tcp" addr);
  match listen : option error with
  | Some err => Ret (Some (ErrWrap ("xDS listen on " +:+ addr) err))
  | None =>
      _ ⇐ call GoServe;
      sel ⇐ call Select;
      match sel : select_case with
      | CtxDone => _ ⇐ call GracefulStop; Ret None
      | ErrCh err => Ret err
      end
  end.

(** The calls of a run, with the free answers chosen. *)
Inductive start_event :=
| EvXDSServer | EvGRPCServer (n : Z) | EvRegister | EvListen (network addr : string)
| EvServe | EvSelect | EvStop.

Definition event_of {X} (listen : option error) (sel : select_case) (c : start_call X)
    : start_event * X :=
  match c in start_call X return start_event * X with
  | NewXDSServer => (EvXDSServer, ())
  | NewGRPCServer n => (EvGRPCServer n, ())
  | RegisterADS => (EvRegister, ())
  | Listen network addr => (EvListen network addr, listen)
  | GoServe => (EvServe, ())
  | Select => (EvSelect, sel)
  | GracefulStop => (EvStop, ())
  end.

(** The state of a run is the list of its calls. *)
Definition serve_call (listen : option error) (sel : select_case) X (log : list start_event)
    (c : start_call X) : list start_event * X :=
  let '(ev, x) := event_of listen sel c in (log ++ [ev], x).

(** Every run of [Start]: the service is registered and the address bound
    before anything is served, nothing is served when it cannot be bound, and
    the server is stopped exactly when the context ended; the result is that
    of [Start]. *)
Theorem Start_p_run addr listen sel :
  interp (serve_call listen sel) [] (Start_p addr) =
  ([EvXDSServer; EvGRPCServer 1000; EvRegister; EvListen "tcp" addr] ++
   match listen with
   | Some _ => []
   | None => [EvServe; EvSelect] ++ match sel with CtxDone => [EvStop] | ErrCh _ => [] end
   end, Start addr listen sel).
Proof. by destruct listen, sel. Qed.
