(* ===== verification/Main.v ===== *)
(** * control-plane/cmd/main.go

    Command line, start-up and shutdown of the control plane.  The flags of
    [main] are defined and parsed with GoFlag.v; the flags of the libraries
    (kubeconfig, those of [zap.Options.BindFlags]) are parameters.  The set-up
    calls of controller-runtime are the class [Runtime]; the xDS server is a
    location that set-up hands to the reconciler and to the goroutine that
    starts it.  After set-up the
    process is the xDS goroutine, the manager and the signal handler: a
    transition system whose end is the exit status. *)

From S2P Require Import Prelude GoStrings Types Eds Server Snapshot Controller Reconcile System GoFlag.

(** ** Flags and options *)

Record Flags := {
  metricsAddr : string;
  probeAddr : string;
  xdsAddr : string;
  enableLeaderElection : bool
}.

(** The defaults of lines 55-58. *)
Definition default_flags : Flags := {|
  metricsAddr := "0"; probeAddr := ":8081"; xdsAddr := ":18000";
  enableLeaderElection := false |}.

Definition zero_flags : Flags := {|
  metricsAddr := ""; probeAddr := ""; xdsAddr := ""; enableLeaderElection := false |}.

Definition set_metricsAddr (v : string) (f : Flags) : Flags := {|
  metricsAddr := v; probeAddr := probeAddr f; xdsAddr := xdsAddr f;
  enableLeaderElection := enableLeaderElection f |}.
Definition set_probeAddr (v : string) (f : Flags) : Flags := {|
  metricsAddr := metricsAddr f; probeAddr := v; xdsAddr := xdsAddr f;
  enableLeaderElection := enableLeaderElection f |}.
Definition set_xdsAddr (v : string) (f : Flags) : Flags := {|
  metricsAddr := metricsAddr f; probeAddr := probeAddr f; xdsAddr := v;
  enableLeaderElection := enableLeaderElection f |}.
Definition set_enableLeaderElection (v : bool) (f : Flags) : Flags := {|
  metricsAddr := metricsAddr f; probeAddr := probeAddr f; xdsAddr := xdsAddr f;
  enableLeaderElection := v |}.

Section command_line.
(** The variables of the libraries' flags, and the flags: those their packages
    define on loading, and those of [opts.BindFlags]. *)
Context {X : Type} (x0 : X) (init_flags zap_flags : list (string * Flag (St := X))).

Definition on_flags {V} (set : V → Flags → Flags) (v : V) (st : Flags * X) : Flags * X :=
  (set v st.1, st.2).

Definition on_lib (flag : Flag (St := X)) : Flag (St := Flags * X) := {|
  fl_bool := fl_bool flag;
  fl_set := λ v st, x ← fl_set flag v st.2; Ok (st.1, x) |}.

(** Lines 50-62: the flag set and the variables when [flag.Parse] is called. *)
Definition define_flags : result error (gmap string (Flag (St := Flags * X)) * (Flags * X)) :=
  f ← VarAll ∅ (prod_map id on_lib <$> init_flags);
  c ← StringVar (on_flags set_metricsAddr) "metrics-bind-address" "0" (f, (zero_flags, x0));
  c ← StringVar (on_flags set_probeAddr) "health-probe-bind-address" ":8081" c;
  c ← StringVar (on_flags set_xdsAddr) "xds-bind-address" ":18000" c;
  c ← BoolVar (on_flags set_enableLeaderElection) "leader-elect" false c;
  f ← VarAll c.1 (prod_map id on_lib <$> zap_flags);
  Ok (f, c.2).

Inductive command_result :=
| Panic (err : error)
| Quit (code : Z)
| Command (f : Flags) (x : X).

(** Lines 50-63; [flag.CommandLine] exits on an error. *)
Definition command_line (args : list string) : command_result :=
  match define_flags with
  | Err err => Panic err
  | Ok (fs, st) =>
      match Parse fs args st with
      | Ok ((f, x), _) => Command f x
      | Err ErrHelp => Quit 0
      | Err _ => Quit 2
      end
  end.

(** ** Lemmas on the command line *)

(** The value the last occurrence of a flag gives, or the default. *)
Definition last_value {A} (decode : string → option A) (name : string) (value : A)
    (os : list occurrence) : A :=
  foldl (λ acc o, if bool_decide (oc_name o = name)
                  then default acc (decode (value_of o)) else acc) value os.

Definition flags_from (f : Flags) (os : list occurrence) : Flags := {|
  metricsAddr := last_value Some "metrics-bind-address" (metricsAddr f) os;
  probeAddr := last_value Some "health-probe-bind-address" (probeAddr f) os;
  xdsAddr := last_value Some "xds-bind-address" (xdsAddr f) os;
  enableLeaderElection := last_value ParseBool "leader-elect" (enableLeaderElection f) os |}.

(** The flag a name stands for. *)
Definition main_flag (name : string) (flag : Flag (St := Flags * X)) : Prop :=
  name = "metrics-bind-address" ∧ flag = string_flag (on_flags set_metricsAddr) ∨
  name = "health-probe-bind-address" ∧ flag = string_flag (on_flags set_probeAddr) ∨
  name = "xds-bind-address" ∧ flag = string_flag (on_flags set_xdsAddr) ∨
  name = "leader-elect" ∧ flag = bool_flag (on_flags set_enableLeaderElection).

Lemma define_flags_Ok fs st :
  define_flags = Ok (fs, st) →
  st = (default_flags, x0) ∧
  (∀ name flag, main_flag name flag → fs !! name = Some flag) ∧
  (∀ name flag, fs !! name = Some flag →
    main_flag name flag ∨ ∃ lib, flag = on_lib lib).
Proof.
  unfold define_flags, StringVar, BoolVar. intros H.
  apply bind_Ok in H as (f0 & Hinit%VarAll_Ok & H).
  do 4 (let E := fresh in let V := fresh in
    apply bind_Ok in H as (? & E & H); apply bind_Ok in E as (? & V & E);
    apply Var_Ok in V as [? ->]; injection E as <-; simpl in * ).
  apply bind_Ok in H as (f5 & [Hsub Hinv]%VarAll_Ok & H). simplify_eq/=.
  destruct Hinit as [_ H0]. split; [done|]. split.
  - intros name flag Hm. eapply lookup_weaken, Hsub. unfold main_flag in Hm.
    destruct_or!; destruct_and!; subst; by simplify_map_eq.
  - intros name flag [Hl|Hl]%Hinv.
    + repeat (apply lookup_insert_Some in Hl as [[<- <-]|[_ Hl]]; [left; unfold main_flag; naive_solver|]).
      apply H0 in Hl as [Hl|Hl]; [by rewrite lookup_empty in Hl|].
      apply list_elem_of_fmap in Hl as ([n lib] & ? & _). right. exists lib. by simplify_eq/=.
    + apply list_elem_of_fmap in Hl as ([n lib] & ? & _). right. exists lib. by simplify_eq/=.
Qed.

Definition main_names : list string :=
  ["metrics-bind-address"; "health-probe-bind-address"; "xds-bind-address"; "leader-elect"].

Lemma defined_flag fs st name flag :
  define_flags = Ok (fs, st) → fs !! name = Some flag →
  main_flag name flag ∨ (name ∉ main_names) ∧ ∃ lib, flag = on_lib lib.
Proof.
  intros (_ & Hmain & Hall)%define_flags_Ok Hf.
  destruct (decide (name ∈ main_names)) as [Hin|Hnin].
  - left. assert (∃ flag', main_flag name flag') as [flag' Hm].
    { unfold main_names in Hin. unfold main_flag. rewrite !elem_of_cons in Hin.
      destruct_or!; [naive_solver..|by apply elem_of_nil in Hin]. }
    pose proof (Hmain _ _ Hm) as Hf'. by simplify_eq.
  - right. split; [done|]. destruct (Hall _ _ Hf) as [Hm|?]; [|done].
    destruct Hnin. unfold main_flag in Hm. unfold main_names. set_solver.
Qed.

(** Setting one flag. *)
Lemma set_flags fs st o flag f x f1 x1 :
  define_flags = Ok (fs, st) → fs !! oc_name o = Some flag →
  set_flag (oc_name o) flag (value_of o) (f, x) = Ok (f1, x1) → f1 = flags_from f [o].
Proof.
  intros Hdef Hf Hset. unfold set_flag in Hset.
  destruct (fl_set flag _ _) as [st1|] eqn:Hs; [|done]. simplify_eq.
  unfold flags_from, last_value; simpl.
  destruct (defined_flag _ _ _ _ Hdef Hf)
    as [[[Hn ->]|[[Hn ->]|[[Hn ->]|[Hn ->]]]]|[Hn [lib ->]]].
  1-4: rewrite !Hn; simpl in Hs; repeat case_match; simplify_eq/=; by destruct f.
  simpl in Hs. apply bind_Ok in Hs as (? & _ & ?). simplify_eq/=.
  unfold main_names in Hn. rewrite !bool_decide_false by set_solver. by destruct f1.
Qed.

(** Setting the flags from left to right leaves the last values. *)
Lemma assign_flags fs st os f x f' x' :
  define_flags = Ok (fs, st) → assign fs os (f, x) = Ok (f', x') → f' = flags_from f os.
Proof.
  intros Hdef. revert f x.
  induction os as [|o os IH]; intros f x; simpl; [intros; simplify_eq; by destruct f'|].
  destruct (fs !! oc_name o) as [flag|] eqn:Hf; [|done].
  intros ([f1 x1] & Hset & Has)%bind_Ok. apply IH in Has as ->.
  by apply (set_flags fs st) in Hset as ->.
Qed.

(** ** Properties of the command line *)

(** A command line for given flags. *)
Definition render_flags (f : Flags) : list occurrence := [
  {| oc_double := true; oc_name := "metrics-bind-address"; oc_value := Joined (metricsAddr f) |};
  {| oc_double := true; oc_name := "health-probe-bind-address"; oc_value := Separate (probeAddr f) |};
  {| oc_double := false; oc_name := "xds-bind-address"; oc_value := Joined (xdsAddr f) |};
  {| oc_double := false; oc_name := "leader-elect";
     oc_value := Joined (if enableLeaderElection f then "true" else "false") |}].

(** [C29] The command line, exactly: when the libraries' flags can be defined
    beside those of [main], the accepted command lines are the sequences of
    flag occurrences (one or two dashes, the value joined by [=] or, for flags
    that are not boolean, in the next argument whatever it looks like),
    followed by nothing, a first non-flag argument, or [--]; each flag then
    has the value of its last occurrence, or its default. *)
Theorem command_line_exact fs st args f x
    (Hdef : define_flags = Ok (fs, st)) :
  (command_line args = Command f x ↔
    ∃ os tail rest, args = mjoin (render <$> os) ++ tail ∧ Forall (well_formed fs) os ∧
      stops tail rest ∧ assign fs os (default_flags, x0) = Ok (f, x)) ∧
  (∀ os, assign fs os (default_flags, x0) = Ok (f, x) → f = flags_from default_flags os).
Proof.
  pose proof (define_flags_Ok _ _ Hdef) as [-> _].
  split; [|intros os; by eapply assign_flags].
  unfold command_line. rewrite Hdef. split.
  - destruct (Parse fs args _) as [[[f1 x1] rest]|[]] eqn:Hp; intros; simplify_eq.
    apply Parse_spec in Hp as (os & tail & ? & ? & ? & ?). by exists os, tail, rest.
  - intros (os & tail & rest & Hargs). by rewrite (proj2 (Parse_spec fs args _ (f, x) rest))
      by (by exists os, tail).
Qed.

(** Every combination of flag values can be asked for: the rendered
    command line sets exactly these flags and leaves those of the libraries
    alone, whatever the strings are. *)
Theorem command_line_roundtrip fs st f (Hdef : define_flags = Ok (fs, st)) :
  command_line (mjoin (render <$> render_flags f)) = Command f x0.
Proof.
  unfold command_line. rewrite Hdef. destruct (define_flags_Ok _ _ Hdef) as (-> & Hmain & _).
  pose proof (Hmain "metrics-bind-address" _ ltac:(left; done)) as H1.
  pose proof (Hmain "health-probe-bind-address" _ ltac:(right; left; done)) as H2.
  pose proof (Hmain "xds-bind-address" _ ltac:(right; right; left; done)) as H3.
  pose proof (Hmain "leader-elect" _ ltac:(right; right; right; done)) as H4.
  rewrite <-(app_nil_r (mjoin _)), Parse_renders.
  - unfold render_flags. simpl. rewrite H1, H2, H3, H4. unfold set_flag; simpl.
    by destruct f as [m p x []].
  - unfold render_flags. repeat (apply Forall_cons_2; [|]); [..|apply Forall_nil_2].
    all: by (split; [split_and!; done|]; eexists; split; [eassumption|]).
Qed.
End command_line.

(** The fields of [ctrl.Options] that are set ([Scheme] apart). *)
Record Options := {
  HealthProbeBindAddress : string;
  LeaderElection : bool;
  LeaderElectionID : string
}.

Definition manager_options (f : Flags) : Options := {|
  HealthProbeBindAddress := probeAddr f;
  LeaderElection := enableLeaderElection f;
  LeaderElectionID := "545d2aa8.mesh.iglin.io" |}.

(** ** The one xDS server

    [xds.NewServer] returns a pointer that [main] puts into the reconciler and
    calls [Start] on: the servers that have been allocated, and a location. *)

Definition Loc : Type := nat.

(** controller.EnvoyProxyReconciler *)
Record EnvoyProxyReconciler (RClient RScheme : Type) := {
  r_Client : RClient;
  r_Scheme : RScheme;
  XDSServer : Loc
}.
Arguments r_Client {RClient RScheme} _.
Arguments r_Scheme {RClient RScheme} _.
Arguments XDSServer {RClient RScheme} _.

Class Runtime (Mgr RClient RScheme : Type) := {
  (** what [ctrl.GetConfigOrDie] finds; the configuration is only passed on *)
  GetConfig : option error;
  NewManager : Options → result error Mgr;
  GetClient : Mgr → RClient;
  GetScheme : Mgr → RScheme;
  (** the builder of [SetupWithManager] up to [Complete(r)] *)
  Complete : Mgr → EnvoyProxyReconciler RClient RScheme → option error;
  AddHealthzCheck : Mgr → string → option error;
  AddReadyzCheck : Mgr → string → option error
}.

(** ** Set-up *)

Section setup.
Context {Mgr RClient RScheme Cache Snapshot : Type}.
Context `{!Runtime Mgr RClient RScheme, !SnapshotCache Cache Snapshot}.
Implicit Types (heap : list (Server Cache)) (mgr : Mgr)
  (r : EnvoyProxyReconciler RClient RScheme).

(** [&Server{...}] *)
Definition new_server heap : Loc * list (Server Cache) := (length heap, heap ++ [NewServer]).

(** [os.Exit(1)] with the message logged before, or the running parts: the
    allocated servers, the manager with its reconciler, and the server to be
    started with its address. *)
Inductive setup_result :=
| Exit (msg : string) (err : error)
| Started heap mgr r (xdsSrv : Loc) (addr : string).

(** [main], lines 67-99. *)
Definition setup (f : Flags) : setup_result :=
  let '(xdsSrv, heap) := new_server [] in
  match GetConfig with
  | Some err => Exit "unable to get kubeconfig" err
  | None =>
      match NewManager (manager_options f) with
      | Err err => Exit "Failed to create manager" err
      | Ok mgr =>
          let r := {| r_Client := GetClient mgr; r_Scheme := GetScheme mgr;
                      XDSServer := xdsSrv |} in
          match Complete mgr r with
          | Some err => Exit "Failed to set up EnvoyProxy controller" err
          | None =>
              match AddHealthzCheck mgr "healthz" with
              | Some err => Exit "Failed to set up health check" err
              | None =>
                  match AddReadyzCheck mgr "readyz" with
                  | Some err => Exit "Failed to set up ready check" err
                  | None => Started heap mgr r xdsSrv (xdsAddr f)
                  end
              end
          end
      end
  end.

(** What has been set up when the process starts: the reconciler writes to the
    server that is started, a new one, on the requested address. *)
Lemma setup_Started f heap mgr r xdsSrv addr :
  setup f = Started heap mgr r xdsSrv addr →
  NewManager (manager_options f) = Ok mgr ∧ r_Client r = GetClient mgr ∧
  XDSServer r = xdsSrv ∧ heap !! xdsSrv = Some NewServer ∧ addr = xdsAddr f.
Proof. unfold setup. simpl. repeat case_match; intros; by simplify_eq. Qed.

(** The metrics address given on the command line has no influence. *)
Lemma metrics_address_unused f m : setup (set_metricsAddr m f) = setup f.
Proof. done. Qed.
End setup.
Arguments setup_result : clear implicits.

(** ** The running process *)

Record Proc := {
  ctx_done : bool;
  xds_running : bool;
  exit_code : option Z
}.

(** After line 99: the goroutine and the manager are about to run. *)
Definition proc_init : Proc :=
  {| ctx_done := false; xds_running := true; exit_code := None |}.

Section process.
(** The outcome of [net.Listen], and when [mgr.Start] may return what. *)
Context (addr : string) (listen : option error) (mgr_returns : bool → option error → Prop).

Definition exit_with (p : Proc) (code : Z) : Proc :=
  {| ctx_done := ctx_done p; xds_running := xds_running p; exit_code := Some code |}.

(** The goroutine of lines 102-107. *)
Definition xds_goroutine (p : Proc) (sel : select_case) : Proc :=
  match Start addr listen sel with
  | Some _ => exit_with p 1
  | None => {| ctx_done := ctx_done p; xds_running := false; exit_code := exit_code p |}
  end.

(** Lines 110-114: [main] returns, or exits with an error. *)
Definition main_end (p : Proc) (err : option error) : Proc :=
  exit_with p (match err with Some _ => 1 | None => 0 end).

Inductive proc_step (p : Proc) : Proc → Prop :=
(** [ctrl.SetupSignalHandler]: the first signal cancels the context, a second
    one exits. *)
| step_signal :
    exit_code p = None → ctx_done p = false →
    proc_step p {| ctx_done := true; xds_running := xds_running p; exit_code := None |}
| step_second_signal :
    exit_code p = None → ctx_done p = true →
    proc_step p (exit_with p 1)
| step_xds sel :
    exit_code p = None → xds_running p = true → (sel = CtxDone → ctx_done p = true) →
    proc_step p (xds_goroutine p sel)
| step_manager err :
    exit_code p = None → mgr_returns (ctx_done p) err →
    proc_step p (main_end p err).

(** ** Lemmas *)

Hypothesis (Hmgr : ¬ mgr_returns false None).

Definition proc_ok (p : Proc) : Prop :=
  (exit_code p = Some 0%Z → ctx_done p = true) ∧
  (exit_code p = None ∨ exit_code p = Some 0%Z ∨ exit_code p = Some 1%Z) ∧
  (xds_running p = false → listen = None).

Lemma Start_listens sel : Start addr listen sel = None → listen = None.
Proof. unfold Start. by destruct listen. Qed.

Lemma proc_ok_exit p code :
  (code = 0%Z → ctx_done p = true) → code = 0%Z ∨ code = 1%Z → proc_ok p →
  proc_ok (exit_with p code).
Proof.
  intros Hz Hc (_ & _ & H3). split_and!; simpl; [|right|exact H3].
  - intros [= ->]. auto.
  - destruct Hc as [-> | ->]; auto.
Qed.

Lemma proc_ok_step p p' : proc_step p p' → proc_ok p → proc_ok p'.
Proof.
  intros Hs Hok. destruct Hs as [He Hc|He Hc|sel He Hx Hsel|err He Hm].
  - destruct Hok as (_ & _ & H3). split_and!; simpl; [done|by left|exact H3].
  - apply proc_ok_exit; [done|by right|done].
  - unfold xds_goroutine. destruct (Start _ _ sel) eqn:E.
    + apply proc_ok_exit; [done|by right|done].
    + split_and!; simpl; [by rewrite He|by left|]. intros _. by eapply Start_listens.
  - apply proc_ok_exit; [|destruct err; auto|done]. intros Hz. destruct err; [done|].
    destruct (ctx_done p) eqn:Hd; [done|]. by destruct Hmgr.
Qed.

Lemma proc_ok_run p : rtc proc_step proc_init p → proc_ok p.
Proof.
  intros Hrun. assert (proc_ok proc_init) as Hok by (split_and!; simpl; [done|by left|done]).
  revert Hok. generalize proc_init Hrun. clear Hrun. intros q Hrun.
  induction Hrun; eauto using proc_ok_step.
Qed.
End process.

(** ** Properties *)

(** [C31] Exit status, for every interleaving of signals, the xDS goroutine and
    the manager (which returns nil only once its context is cancelled): the
    status is 0 or 1, it is 0 only after a signal; and when the xDS address
    cannot be listened on, the goroutine is still to run while the process
    lives and can only end the process with status 1. *)
Theorem exit_status addr listen mgr_returns p
    (Hmgr : ¬ mgr_returns false None)
    (Hrun : rtc (proc_step addr listen mgr_returns) proc_init p) :
  (∀ c, exit_code p = Some c → c = 0%Z ∧ ctx_done p = true ∨ c = 1%Z) ∧
  (∀ e, listen = Some e → exit_code p = None →
    xds_running p = true ∧ ∀ sel, xds_goroutine addr listen p sel = exit_with p 1).
Proof.
  destruct (proc_ok_run addr listen mgr_returns Hmgr p Hrun) as (H1 & H2 & H3). split.
  - intros c Hc. rewrite Hc in *. destruct H2 as [|[|]]; simplify_eq; [left|right]; auto.
  - intros e -> He. split; [|done]. destruct (xds_running p); [done|]. by discriminate H3.
Qed.

(** *** Witnesses *)

(** Flags the libraries define. *)
Definition ex_init_flags : list (string * Flag (St := unit)) :=
  [("kubeconfig", string_flag (λ _ _, ()))].
Definition ex_zap_flags : list (string * Flag (St := unit)) :=
  [("zap-devel", bool_flag (λ _ _, ())); ("zap-log-level", string_flag (λ _ _, ()))].

Lemma ex_flags_defined :
  ∃ fs st, define_flags () ex_init_flags ex_zap_flags = Ok (fs, st).
Proof. eexists _, _. vm_compute. reflexivity. Defined.

Definition ex_flags : Flags := {|
  metricsAddr := "0"; probeAddr := "-x"; xdsAddr := ":18001"; enableLeaderElection := true |}.

(** The last occurrence counts, and the value may look like a flag. *)
Lemma command_line_exact_witness :
  command_line () ex_init_flags ex_zap_flags
    ["-xds-bind-address=:1"; "--leader-elect"; "--health-probe-bind-address"; "-x";
     "-xds-bind-address"; ":18001"; "--"; "-h"] = Command ex_flags () ∧
  ∃ os, ex_flags = flags_from default_flags os.
Proof.
  split; [vm_compute; reflexivity|]. destruct ex_flags_defined as (fs & st & Hdef).
  destruct (command_line_exact () ex_init_flags ex_zap_flags fs st
    ["-xds-bind-address=:1"; "--leader-elect"; "--health-probe-bind-address"; "-x";
     "-xds-bind-address"; ":18001"; "--"; "-h"] ex_flags () Hdef) as [[H _] Hlast].
  destruct (H ltac:(vm_compute; reflexivity)) as (os & _ & _ & _ & _ & _ & Ha).
  exists os. exact (Hlast os Ha).
Defined.

Lemma command_line_roundtrip_witness :
  command_line () ex_init_flags ex_zap_flags (mjoin (render <$> render_flags ex_flags)) =
  Command ex_flags ().
Proof.
  destruct ex_flags_defined as (fs & st & Hdef).
  exact (command_line_roundtrip () ex_init_flags ex_zap_flags fs st ex_flags Hdef).
Defined.

(** A manager that returns nil once its context is cancelled, or fails. *)
Definition ex_mgr_returns (ctx : bool) (err : option error) : Prop :=
  match err with None => ctx = true | Some _ => True end.

Definition ex_stopped : Proc :=
  {| ctx_done := true; xds_running := true; exit_code := Some 0%Z |}.

(** A signal, then the manager returns: the process may exit while the xDS
    server is still stopping. *)
Lemma ex_shutdown : rtc (proc_step ":18000" None ex_mgr_returns) proc_init ex_stopped.
Proof.
  eapply rtc_l; [by apply step_signal|]. apply rtc_once.
  apply (step_manager _ _ _ {| ctx_done := true; xds_running := true; exit_code := None |} None);
    done.
Defined.

Lemma exit_status_witness :
  exit_code ex_stopped = Some 0%Z ∧ (0%Z = 0%Z ∧ ctx_done ex_stopped = true ∨ 0%Z = 1%Z).
Proof.
  split; [reflexivity|].
  apply (exit_status ":18000" None ex_mgr_returns ex_stopped); [discriminate|exact ex_shutdown|].
  reflexivity.
Defined.
