(* ===== verification/ControlPlane.v ===== *)
(** * The control plane as a whole

    [main] of cmd/main.go from its arguments on, and the process it starts: the
    control loop of Interleave.v, the streams of Server.v and the goroutines of
    Main.v run side by side.  The reconciler publishes to the xDS server at one
    location and the streams are served from the server at another; that they
    are the same is the wiring of [main].  When they are, every run of the whole
    is, for each component, a run of that component ([plane_run_projects]), so
    the components' theorems hold in the composition. *)

From S2P Require Import Prelude Prog GoStrings Types Eds Server Snapshot Controller Reconcile System.
From S2P Require Import GoFlag Steps Interleave Main.

(** ** [main], up to the start of the manager *)

Section main.
Context {Mgr RClient RScheme Cache Snapshot X : Type}.
Context `{!Runtime Mgr RClient RScheme, !SnapshotCache Cache Snapshot}.
Context (x0 : X) (init_flags zap_flags : list (string * Flag (St := X))).

Inductive main_result :=
| MainPanics (err : error)
| MainExits (code : Z)
| MainRuns (heap : list (Server Cache)) (mgr : Mgr)
    (r : EnvoyProxyReconciler RClient RScheme) (xdsSrv : Loc) (addr : string).

Definition main (args : list string) : main_result :=
  match command_line x0 init_flags zap_flags args with
  | Panic err => MainPanics err
  | Quit code => MainExits code
  | Command f _ =>
      match setup (Snapshot := Snapshot) f with
      | Exit _ _ => MainExits 1
      | Started heap mgr r xdsSrv addr => MainRuns heap mgr r xdsSrv addr
      end
  end.

Lemma main_MainRuns args heap mgr r xdsSrv addr :
  main args = MainRuns heap mgr r xdsSrv addr →
  XDSServer r = xdsSrv ∧ heap !! xdsSrv = Some NewServer ∧
  ∃ f x, command_line x0 init_flags zap_flags args = Command f x ∧ addr = xdsAddr f.
Proof.
  unfold main. destruct (command_line _ _ _ args) as [| |f x]; [done..|].
  destruct (setup f) as [|heap' mgr' r' l' addr'] eqn:Hs; [done|]. intros; simplify_eq.
  apply setup_Started in Hs as (_ & _ & ? & ? & ?). split; [done|]. split; [done|]. by exists f, x.
Qed.
End main.

Section plane.
Context {Api Cache Resource Snapshot : Type}.
Context `{!Client Api, !SnapshotCache Cache Snapshot, !XDSLib Resource Snapshot}.
(** The outcome of [net.Listen] by address, and when [mgr.Start] may return what. *)
Context (Listen : string → option error) (mgr_returns : bool → option error → Prop).

Abbreviation Conc := (Conc (Api := Api) (Cache := Cache) (Snapshot := Snapshot)).
Implicit Types (c : Conc) (p : Proc) (st : gmap Z (option string)).

(** ** The running process

    The steps allow more than happens: workers may run before the manager has
    become leader, and streams may open while the server stops. *)

Record Plane := mkPlane {
  pl_proc : Proc;
  (** the control loop, its world with the server of the reconciler *)
  pl_conc : Conc;
  (** the server the streams are served from, when it is another one *)
  pl_other : option (Server Cache);
  pl_streams : gmap Z (option string);
  pl_delta : gmap Z (option string)
}.

Definition srv_of c : Server Cache := w_Server (cc_world c).

Definition with_srv c (srv : Server Cache) : Conc :=
  mkConc (with_server (cc_world c) srv) (cc_dirty c) (cc_tasks c) (cc_events c).

(** The server that has been started, and a callback's change of it. *)
Definition served (pl : Plane) : Server Cache := default (srv_of (pl_conc pl)) (pl_other pl).

Definition with_served (pl : Plane) (srv : Server Cache) : Plane :=
  match pl_other pl with
  | None => mkPlane (pl_proc pl) (with_srv (pl_conc pl) srv) None (pl_streams pl) (pl_delta pl)
  | Some _ => mkPlane (pl_proc pl) (pl_conc pl) (Some srv) (pl_streams pl) (pl_delta pl)
  end.

Inductive plane_step (addr : string) : Plane → Plane → Prop :=
(** a watch handler or a worker of the manager *)
| plane_work p c c' o st dl :
    exit_code p = None → worker_step c c' →
    plane_step addr (mkPlane p c o st dl) (mkPlane p c' o st dl)
(** the API server: a change, or a request of a resync *)
| plane_api p c c' o st dl :
    exit_code p = None → env_step c c' → srv_of c' = srv_of c →
    plane_step addr (mkPlane p c o st dl) (mkPlane p c' o st dl)
(** a proxy: streams exist while the xDS server runs and is bound *)
| plane_stream p c o st dl srv' st' dl' :
    exit_code p = None → xds_running p = true → Listen addr = None →
    stream_step
      {| cn_server := served (mkPlane p c o st dl); cn_streams := st; cn_delta := dl |}
      {| cn_server := srv'; cn_streams := st'; cn_delta := dl' |} →
    plane_step addr (mkPlane p c o st dl) (with_served (mkPlane p c o st' dl') srv')
(** a signal, the goroutine of the xDS server (which stops gracefully: once the
    streams are gone) or the end of [main] *)
| plane_proc p p' c o st dl :
    proc_step addr (Listen addr) mgr_returns p p' →
    (xds_running p = true → xds_running p' = false → st = ∅ ∧ dl = ∅) →
    plane_step addr (mkPlane p c o st dl) (mkPlane p' c o st dl).

(** What [main] hands over (the servers, the reconciler's and the started one)
    and the queue of the initial list. *)
Definition plane_init (api : Api) (q : gset NamespacedName) (heap : list (Server Cache))
    (reconciler started : Loc) : Plane :=
  let at_loc l := default NewServer (heap !! l) in
  mkPlane proc_init
    (idle {| sy_world := {| w_Api := api; w_Server := at_loc reconciler |}; sy_queue := q |})
    (if decide (reconciler = started) then None else Some (at_loc started)) ∅ ∅.

(** The streams and the connected set, without the cache. *)
Definition conn_of (pl : Plane) : Server.Conn (Cache := Cache) := {|
  cn_server := mkServer (NewSnapshotCache false) (srv_connected (srv_of (pl_conc pl)));
  cn_streams := pl_streams pl; cn_delta := pl_delta pl |}.

(** ** Lemmas *)

(** The callbacks do not look at the cache. *)
Lemma StreamRequest_cache (s : Server Cache) node (cache : Cache) :
  mkServer cache (srv_connected (StreamRequestFunc s node)) =
  StreamRequestFunc (mkServer cache (srv_connected s)) node.
Proof. destruct node as [n|]; simpl; [|done]. by case_bool_decide. Qed.

Lemma StreamClosed_cache (s : Server Cache) node (cache : Cache) :
  mkServer cache (srv_connected (StreamClosedFunc s node)) =
  StreamClosedFunc (mkServer cache (srv_connected s)) node.
Proof. destruct node as [n|]; simpl; [|done]. by case_bool_decide. Qed.

Lemma stream_step_cache (cache : Cache) (s s' : Server Cache) st st' dl dl' :
  stream_step {| cn_server := s; cn_streams := st; cn_delta := dl |}
    {| cn_server := s'; cn_streams := st'; cn_delta := dl' |} →
  stream_step
    {| cn_server := mkServer cache (srv_connected s); cn_streams := st; cn_delta := dl |}
    {| cn_server := mkServer cache (srv_connected s'); cn_streams := st'; cn_delta := dl' |}.
Proof.
  inversion 1; subst; rewrite ?StreamRequest_cache, ?StreamClosed_cache;
    solve [by apply stream_open|by eapply stream_request|by apply stream_closed|
      by apply delta_open|by eapply delta_request|by eapply delta_closed].
Qed.

(** For the control loop, a stream is an arbitrary call of the callbacks. *)
Lemma stream_env c st dl srv' st' dl' :
  stream_step {| cn_server := srv_of c; cn_streams := st; cn_delta := dl |}
    {| cn_server := srv'; cn_streams := st'; cn_delta := dl' |} →
  rtc conc_step c (with_srv c srv').
Proof.
  destruct c as [[api srv] d t v]. unfold srv_of, with_srv, with_server. simpl.
  inversion 1; subst; try done; apply rtc_once; right.
  - apply (conc_request {| w_Api := api; w_Server := srv |}).
  - apply (conc_closed {| w_Api := api; w_Server := srv |}).
Qed.

(** Streams only while the server is up. *)
Definition streams_served (addr : string) (pl : Plane) : Prop :=
  (Listen addr ≠ None → pl_streams pl = ∅) ∧
  (xds_running (pl_proc pl) = false → pl_streams pl = ∅).

Lemma streams_served_step addr pl pl' :
  plane_step addr pl pl' → streams_served addr pl → streams_served addr pl'.
Proof.
  destruct 1 as [| |p c o st dl srv' st' dl' He Hx Hl Hs|p p' c o st dl Hs Hst];
    try done; intros [H1 H2].
  - split; destruct o; simpl; try done; by rewrite Hx.
  - split; [exact H1|]. simpl in *. intros Hx'. destruct (xds_running p) eqn:Hx; [|auto].
    by apply Hst.
Qed.

(** The runs of the components a run consists of, and one server throughout. *)
Record projects addr (pl0 pl : Plane) : Prop := {
  pj_conc : rtc conc_step (pl_conc pl0) (pl_conc pl);
  pj_conn : rtc stream_step (conn_of pl0) (conn_of pl);
  pj_proc : rtc (proc_step addr (Listen addr) mgr_returns) (pl_proc pl0) (pl_proc pl);
  pj_one : pl_other pl = None
}.

Lemma plane_step_projects addr pl pl' :
  plane_step addr pl pl' → pl_other pl = None → projects addr pl pl'.
Proof.
  destruct 1 as [p c c' o st dl He Hw|p c c' o st dl He Hn Hsrv|
    p c o st dl srv' st' dl' He Hx Hl Hs|p p' c o st dl Hs Hst]; simpl; intros ->;
    split; simpl; try done.
  - apply rtc_once. by left.
  - unfold conn_of; simpl. unfold srv_of. by rewrite (worker_connected _ _ Hw).
  - apply rtc_once. by right.
  - unfold conn_of; simpl. by rewrite Hsrv.
  - by eapply stream_env.
  - by apply rtc_once, stream_step_cache.
  - by apply rtc_once.
Qed.

Lemma plane_run_projects addr pl pl' :
  rtc (plane_step addr) pl pl' → pl_other pl = None → projects addr pl pl'.
Proof.
  induction 1 as [|pl1 pl2 pl3 Hs _ IH]; intros Ho; [by split|].
  destruct (plane_step_projects _ _ _ Hs Ho) as [? ? ? Ho2].
  destruct (IH Ho2). split; [by etrans..|done].
Qed.

Lemma plane_run_served addr pl pl' :
  rtc (plane_step addr) pl pl' → streams_served addr pl → streams_served addr pl'.
Proof. induction 1; eauto using streams_served_step. Qed.

Lemma exited_stuck addr pl pl' :
  exit_code (pl_proc pl) ≠ None → ¬ plane_step addr pl pl'.
Proof.
  intros He Hs. destruct Hs as [| | |p p' c o st dl Hs]; simpl in *; try done. by destruct Hs.
Qed.

(** ** Properties *)

Context {Mgr RClient RScheme X : Type}.
Context `{!Runtime Mgr RClient RScheme, !ClientLaws Api, !SnapshotCacheLaws Cache Snapshot}.

(** [C3] End to end: when [main] starts on a command line, and the manager's
    initial list queues the proxies there are, then at every later moment of
    the process, on every interleaving of API changes, watch handlers, workers,
    streams, signals and goroutines: the server listens, if at all, on the
    requested address, and the streams are served from the server the
    reconciler publishes to and asks for connections; every proxy has the
    snapshot its resources call for, unless it is pending (event, queue or
    reconcile); a node is reported as connected only while a stream of it is
    open, and streams are open only while the server is up; the process has
    ended with status 0 only after a signal, and else with 1, and nothing
    happens after that. *)
Theorem main_end_to_end (x0 : X) init_flags zap_flags args heap (mgr : Mgr)
    (r : EnvoyProxyReconciler RClient RScheme) xdsSrv addr api q pl
    (Hmain : main x0 init_flags zap_flags args = MainRuns heap mgr r xdsSrv addr)
    (Hlist : ∀ k ep, Get_EnvoyProxy api k = Ok ep →
       k ∈ q ∧ has_byte "." (nn_Namespace k) = false)
    (Hmgr : ¬ mgr_returns false None)
    (Hrun : rtc (plane_step addr) (plane_init api q heap (XDSServer r) xdsSrv) pl) :
  (∃ f x, command_line x0 init_flags zap_flags args = Command f x ∧ addr = xdsAddr f) ∧
  served pl = srv_of (pl_conc pl) ∧
  (∀ k ep, Get_EnvoyProxy (w_Api (cc_world (pl_conc pl))) k = Ok ep →
    up_to_date (cc_world (pl_conc pl)) k ∨
    covered (w_Api (cc_world (pl_conc pl))) (cc_events (pl_conc pl)) k ∨
    k ∈ cc_dirty (pl_conc pl) ∨ is_Some (cc_tasks (pl_conc pl) !! k)) ∧
  (∀ n, IsConnected (srv_of (pl_conc pl)) n = true →
    n ≠ "" ∧ (∃ id, pl_streams pl !! id = Some (Some n)) ∧
    Listen addr = None ∧ xds_running (pl_proc pl) = true) ∧
  (∀ code, exit_code (pl_proc pl) = Some code →
    (code = 0%Z ∧ ctx_done (pl_proc pl) = true ∨ code = 1%Z) ∧ ∀ pl', ¬ plane_step addr pl pl').
Proof.
  destruct (main_MainRuns _ _ _ _ _ _ _ _ _ Hmain) as (Hr & Hnew & f & x & Hcl & Ha).
  unfold plane_init in Hrun. rewrite Hr, Hnew, decide_True in Hrun by done. simpl in Hrun.
  destruct (plane_run_projects _ _ _ Hrun eq_refl) as [Hconc Hconn Hproc Hone]. split_and!.
  - by exists f, x.
  - unfold served. by rewrite Hone.
  - intros k ep Hg.
    assert (sys_init {| sy_world := {| w_Api := api; w_Server := NewServer |}; sy_queue := q |})
      as Hinit by done.
    destruct (se_proxies _ (settled_run _ _ Hinit Hconc) k ep Hg) as [_ [?|[?|Ht]]]; auto.
    destruct (cc_tasks (pl_conc pl) !! k); [|left; by destruct Ht]. right; right; right. by eexists.
  - intros n Hn. apply bool_decide_eq_true_1 in Hn.
    destruct (tracked_run _ Hconn n Hn) as [Hne [id Hid]].
    assert (streams_served addr pl) as [Hl Hx] by (by eapply plane_run_served).
    split; [done|]. split; [by exists id|]. simpl in Hid. split.
    + destruct (Listen addr); [|done]. by rewrite Hl in Hid.
    + destruct (xds_running (pl_proc pl)); [done|]. by rewrite Hx in Hid.
  - intros code He. destruct (proc_ok_run _ _ _ Hmgr _ Hproc) as (H1 & H2 & _).
    split; [|intros pl'; apply exited_stuck; by rewrite He]. rewrite He in *.
    destruct H2 as [|[|]]; simplify_eq; [left|right]; auto.
Qed.
End plane.

(** ** Witnesses: a proxy connects while its reconcile begins *)

Section examples.
Local Existing Instance store_client.
Local Existing Instance store_client_laws.
Local Existing Instance ex_lib.
Local Existing Instance gmap_cache.
Local Existing Instance gmap_cache_laws.

(** A runtime on which every call succeeds. *)
Definition ex_runtime : Runtime unit unit unit := {|
  GetConfig := None; NewManager _ := Ok (); GetClient _ := (); GetScheme _ := ();
  Complete _ _ := None;
  AddHealthzCheck _ _ := None; AddReadyzCheck _ _ := None |}.
Local Existing Instance ex_runtime.

Abbreviation ex_cache := (gmap string ex_snapshot).

(** Every address but one can be listened on. *)
Definition ex_listen (addr : string) : option error :=
  if bool_decide (addr = ":1") then Some (ErrLib "" "address already in use") else None.

Definition ex_args : list string := ["--xds-bind-address=:18001"; "-leader-elect"].

Definition ex_reconciler : EnvoyProxyReconciler unit unit :=
  {| r_Client := (); r_Scheme := (); XDSServer := 0 |}.

Lemma ex_main :
  main (Cache := ex_cache) () ex_init_flags ex_zap_flags ex_args =
  MainRuns [NewServer] () ex_reconciler 0 ":18001".
Proof. vm_compute. reflexivity. Defined.

Definition ex_plane : Plane (Api := Store) (Cache := ex_cache) (Snapshot := ex_snapshot) :=
  plane_init ex_good {[ex_key; ex_other]} [NewServer] 0 0.

Definition ex_connected : Server ex_cache :=
  StreamRequestFunc (StreamRequestFunc NewServer None) (Some (proxy_node ex_key)).

Definition ex_begun : Plane (Api := Store) (Cache := ex_cache) (Snapshot := ex_snapshot) :=
  mkPlane {| ctx_done := true; xds_running := true; exit_code := None |}
    (mkConc {| w_Api := ex_good; w_Server := ex_connected |} ({[ex_key; ex_other]} ∖ {[ex_key]})
      {[ex_key := Reconcile_p ex_key]} [])
    None {[1%Z := Some (proxy_node ex_key)]} ∅.

Lemma ex_begins : rtc (plane_step ex_listen ex_mgr_returns ":18001") ex_plane ex_begun.
Proof.
  eapply rtc_l; [by apply plane_work; [|apply (conc_dequeue _ _ _ _ ex_key); [set_solver|]]|].
  eapply rtc_l; [by apply plane_stream; [| | |apply (stream_open _ _ _ 1%Z)]|].
  eapply rtc_l; [by apply plane_stream; [| | |apply (stream_request _ _ _ 1%Z None None);
    [apply lookup_insert_eq|left]]|].
  eapply rtc_l; [by apply plane_stream; [| | |apply (stream_request _ _ _ 1%Z None
    (Some (proxy_node ex_key))); [apply lookup_insert_eq|left]]|].
  eapply rtc_l; [by apply plane_proc; [apply step_signal|]|].
  unfold with_served. cbn [pl_other pl_proc pl_conc pl_streams pl_delta with_srv with_server].
  rewrite ?insert_insert_eq. reflexivity.
Defined.

Lemma main_end_to_end_witness :
  IsConnected (srv_of (pl_conc ex_begun)) (proxy_node ex_key) = true ∧
  ex_listen ":18001" = None ∧ ∃ id, pl_streams ex_begun !! id = Some (Some (proxy_node ex_key)).
Proof.
  assert (IsConnected (srv_of (pl_conc ex_begun)) (proxy_node ex_key) = true) as Hn
    by (vm_compute; reflexivity).
  split; [exact Hn|].
  destruct (main_end_to_end ex_listen ex_mgr_returns () ex_init_flags ex_zap_flags ex_args
    [NewServer] () ex_reconciler 0 ":18001" ex_good {[ex_key; ex_other]} ex_begun ex_main
    (proj2 ex_start_init) ltac:(discriminate) ex_begins) as (_ & _ & _ & Hconn & _).
  destruct (Hconn _ Hn) as (_ & Hid & Hl & _). split; [exact Hl|exact Hid].
Defined.
End examples.
