(* ===== verification/ProtoParser.v ===== *)
(** * crd-gen/internal/parser/parser.go

    The registry of proto messages and enums.  The syntax trees come from
    [github.com/emicklei/proto]; its [Parse] is a parameter and [Visitee] has
    the node types the source looks at.  [filepath.WalkDir] is modelled over a
    tree of directory entries. *)

From S2P Require Import Prelude GoStrings.

(** ** Syntax trees of the proto library *)

(** [c.Lines] of a [*proto.Comment], or nil. *)
Definition Comment : Type := option (list string).

Inductive Visitee :=
| VPackage (Name : string)
| VMessage (Name : string) (comment : Comment) (Elements : list Visitee)
| VNormalField (Name Type_ : string) (Repeated : bool) (comment : Comment)
| VMapField (Name KeyType Type_ : string) (comment : Comment)
| VOneof (Elements : list Visitee)
| VOneOfField (Name Type_ : string) (comment : Comment)
| VEnum (Name : string) (Elements : list Visitee)
| VEnumField (Name : string)
| VOther.

(** ** Data *)

Record Field := {
  f_Name : string;
  f_Type : string;
  f_Repeated : bool;
  f_MapKey : string;
  f_MapValue : string;
  f_Comment : string
}.

Record Message := {
  m_FullName : string;
  m_Name : string;
  m_Package : string;
  m_Fields : list Field;
  m_Comment : string
}.

Record Enum := { e_FullName : string; e_Values : list string }.

Record Registry := { Messages : gmap string Message; Enums : gmap string Enum }.

Definition empty_registry : Registry := {| Messages := ∅; Enums := ∅ |}.

(** ** Operations *)

(** [func qualify(name, pkg, parentFQN string) string] *)
Definition qualify (name pkg parentFQN : string) : string :=
  if bool_decide (parentFQN ≠ "") then parentFQN +:+ "." +:+ name
  else if bool_decide (pkg ≠ "") then pkg +:+ "." +:+ name
  else name.

(** [func commentText(c *proto.Comment) string] *)
Definition commentText (c : Comment) : string :=
  match c with None => "" | Some lines => TrimSpace (Join lines " ") end.

(** The members of a oneof, lines 116-124. *)
Definition oneof_field (fields : list Field) (oe : Visitee) : list Field :=
  match oe with
  | VOneOfField name ty comment =>
      fields ++ [{| f_Name := name; f_Type := ty; f_Repeated := false; f_MapKey := "";
                    f_MapValue := ""; f_Comment := commentText comment |}]
  | _ => fields
  end.

(** The switch over the elements of a message, lines 100-125. *)
Definition message_field (fields : list Field) (el : Visitee) : list Field :=
  match el with
  | VNormalField name ty repeated comment =>
      fields ++ [{| f_Name := name; f_Type := ty; f_Repeated := repeated; f_MapKey := "";
                    f_MapValue := ""; f_Comment := commentText comment |}]
  | VMapField name key ty _ =>
      fields ++ [{| f_Name := name; f_Type := "map"; f_Repeated := false; f_MapKey := key;
                    f_MapValue := ty; f_Comment := "" |}]
  | VOneof elements => foldl oneof_field fields elements
  | _ => fields
  end.

Definition enum_value (values : list string) (el : Visitee) : list string :=
  match el with VEnumField name => values ++ [name] | _ => values end.

Definition make_message (name pkg fqn : string) (comment : Comment) (elements : list Visitee)
    : Message := {|
  m_FullName := fqn; m_Name := name; m_Package := pkg;
  m_Fields := foldl message_field [] elements;
  m_Comment := commentText comment |}.

Definition make_enum (fqn : string) (elements : list Visitee) : Enum := {|
  e_FullName := fqn; e_Values := foldl enum_value [] elements |}.

(** One iteration of [collectElements]; a message's own elements are walked
    with the message as parent. *)
Fixpoint collectElement (pkg parentFQN : string) (reg : Registry) (elem : Visitee) : Registry :=
  match elem with
  | VMessage name comment elements =>
      let fqn := qualify name pkg parentFQN in
      let msg := make_message name pkg fqn comment elements in
      foldl (collectElement pkg fqn)
        {| Messages := <[fqn := msg]> (Messages reg); Enums := Enums reg |} elements
  | VEnum name elements =>
      let fqn := qualify name pkg parentFQN in
      {| Messages := Messages reg; Enums := <[fqn := make_enum fqn elements]> (Enums reg) |}
  | _ => reg
  end.

(** [func collectElements(elements, pkg, parentFQN, reg)] *)
Definition collectElements (elements : list Visitee) (pkg parentFQN : string) (reg : Registry)
    : Registry := foldl (collectElement pkg parentFQN) reg elements.

(** The first package clause of a file, lines 75-81. *)
Fixpoint file_package (elements : list Visitee) : string :=
  match elements with
  | [] => ""
  | VPackage name :: _ => name
  | _ :: elements => file_package elements
  end.

(** ** Walking the proto directory *)

(** What [filepath.WalkDir] finds: a file with the outcome of opening and
    reading it, or a directory with the error of [os.ReadDir], if any, and its
    entries in the order [os.ReadDir] gives them. *)
Inductive FSNode :=
| FSFile (content : result error string)
| FSDir (err : option error) (entries : list (string * FSNode)).

Definition IsDir (n : FSNode) : bool :=
  match n with FSDir _ _ => true | FSFile _ => false end.

(** [filepath.WalkDir] below its root, with the state its callback changes; the
    callback gets the path, the entry and the error, and is not assumed to ask
    for [SkipDir] or [SkipAll]. *)
Fixpoint walkDir {S} (fn : S → string → FSNode → option error → S * option error)
    (path : string) (n : FSNode) (s : S) : S * option error :=
  match fn s path n None, n with
  | (s, Some err), _ => (s, Some err)
  | (s, None), FSFile _ => (s, None)
  | (s, None), FSDir derr entries =>
      let '(s, err) :=
        match derr with Some e => fn s path n (Some e) | None => (s, None) end in
      match err with
      | Some err => (s, Some err)
      | None =>
          foldl (λ acc entry,
            match acc with
            | (s, Some err) => (s, Some err)
            | (s, None) => walkDir fn (filepath_Join [path; entry.1]) entry.2 s
            end) (s, None) entries
      end
  end.

Section parser.
(** [proto.NewParser(f).Parse()] on the contents of a file. *)
Context (Parse : string → result error (list Visitee)).

(** [func parseFile(path string, reg *Registry)] *)
Definition parseFile (content : result error string) (reg : Registry) : Registry :=
  match content with
  | Err _ => reg
  | Ok text =>
      match Parse text with
      | Err _ => reg
      | Ok elements => collectElements elements (file_package elements) "" reg
      end
  end.

(** The callback of [ParseDir]. *)
Definition parse_entry (reg : Registry) (path : string) (n : FSNode) (err : option error)
    : Registry * option error :=
  if bool_decide (err ≠ None) || IsDir n || negb (HasSuffix path ".proto") then (reg, err)
  else match n with
       | FSFile content => (parseFile content reg, None)
       | FSDir _ _ => (reg, err)
       end.

(** [func ParseDir(dir string) ( *Registry, error )]; [root] is what [os.Lstat]
    says of [dir]. *)
Definition ParseDir (dir : string) (root : result error FSNode) : Registry * option error :=
  match root with
  | Err e => (empty_registry, Some e)
  | Ok n => walkDir parse_entry dir n empty_registry
  end.
End parser.

(** ** Reference: the declarations of a file, in source order *)

Fixpoint decl_messages (pkg parent : string) (e : Visitee) : list Message :=
  match e with
  | VMessage name comment elements =>
      let fqn := qualify name pkg parent in
      make_message name pkg fqn comment elements :: (elements ≫= decl_messages pkg fqn)
  | _ => []
  end.

Fixpoint decl_enums (pkg parent : string) (e : Visitee) : list Enum :=
  match e with
  | VMessage name _ elements => elements ≫= decl_enums pkg (qualify name pkg parent)
  | VEnum name elements => [make_enum (qualify name pkg parent) elements]
  | _ => []
  end.

Definition add_messages (m : gmap string Message) (l : list Message) : gmap string Message :=
  foldl (λ m x, <[m_FullName x := x]> m) m l.
Definition add_enums (m : gmap string Enum) (l : list Enum) : gmap string Enum :=
  foldl (λ m x, <[e_FullName x := x]> m) m l.

(** Pre-order of a walk; the entries of an unreadable directory are unknown. *)
Fixpoint preorder (path : string) (n : FSNode) : list (string * FSNode) :=
  (path, n) ::
  match n with
  | FSDir None entries =>
      entries ≫= λ e, preorder (filepath_Join [path; e.1]) e.2
  | _ => []
  end.

Definition dir_error (n : FSNode) : option error :=
  match n with FSDir err _ => err | FSFile _ => None end.

(** What comes before the first unreadable directory. *)
Fixpoint readable (l : list (string * FSNode)) : list (string * FSNode) :=
  match l with
  | [] => []
  | (p, n) :: l => match dir_error n with Some _ => [] | None => (p, n) :: readable l end
  end.

Definition proto_source (e : string * FSNode) : option string :=
  match e.2 with
  | FSFile (Ok text) => if HasSuffix e.1 ".proto" then Some text else None
  | _ => None
  end.

(** The texts of the proto files a walk reads, in order. *)
Definition proto_sources (dir : string) (n : FSNode) : list string :=
  omap proto_source (readable (preorder dir n)).

(** ** Lemmas *)

Section visitee_ind.
Context (P : Visitee → Prop).
Context (Hmsg : ∀ name c els, Forall P els → P (VMessage name c els)).
Context (Hother : ∀ e, (∀ name c els, e ≠ VMessage name c els) → P e).

Fixpoint Visitee_ind' (e : Visitee) : P e.
Proof.
  destruct e as [|name c els| | | | | | |];
    [by apply Hother| |by apply Hother..].
  apply Hmsg. revert els. fix go 1.
  intros [|x els]; constructor; [apply Visitee_ind'|apply go].
Defined.
End visitee_ind.

Section fsnode_ind.
Context (P : FSNode → Prop).
Context (Hfile : ∀ c, P (FSFile c)).
Context (Hdir : ∀ err es, Forall (λ e, P e.2) es → P (FSDir err es)).

Fixpoint FSNode_ind' (n : FSNode) : P n.
Proof.
  destruct n as [c|err es]; [apply Hfile|]. apply Hdir. revert es. fix go 1.
  intros [|x es]; constructor; [apply FSNode_ind'|apply go].
Defined.
End fsnode_ind.

Lemma add_messages_app m l k : add_messages m (l ++ k) = add_messages (add_messages m l) k.
Proof. apply foldl_app. Qed.
Lemma add_enums_app m l k : add_enums m (l ++ k) = add_enums (add_enums m l) k.
Proof. apply foldl_app. Qed.

(** The last declaration of a name wins. *)
Lemma lookup_add_messages m l k :
  add_messages m l !! k =
  match last (filter (λ x, m_FullName x = k) l) with Some x => Some x | None => m !! k end.
Proof.
  induction l as [|x l IH] using rev_ind; [done|].
  rewrite add_messages_app, filter_app. simpl. rewrite filter_cons, filter_nil. case_decide as Hk.
  - rewrite last_snoc. subst. by rewrite lookup_insert_eq.
  - rewrite app_nil_r, lookup_insert_ne by done. apply IH.
Qed.

Lemma lookup_add_enums m l k :
  add_enums m l !! k =
  match last (filter (λ x, e_FullName x = k) l) with Some x => Some x | None => m !! k end.
Proof.
  induction l as [|x l IH] using rev_ind; [done|].
  rewrite add_enums_app, filter_app. simpl. rewrite filter_cons, filter_nil. case_decide as Hk.
  - rewrite last_snoc. subst. by rewrite lookup_insert_eq.
  - rewrite app_nil_r, lookup_insert_ne by done. apply IH.
Qed.

Definition add_decls (reg : Registry) (ms : list Message) (es : list Enum) : Registry :=
  {| Messages := add_messages (Messages reg) ms; Enums := add_enums (Enums reg) es |}.

Lemma add_decls_app reg ms1 es1 ms2 es2 :
  add_decls reg (ms1 ++ ms2) (es1 ++ es2) = add_decls (add_decls reg ms1 es1) ms2 es2.
Proof. unfold add_decls. by rewrite add_messages_app, add_enums_app. Qed.

Lemma add_decls_nil reg : add_decls reg [] [] = reg.
Proof. by destruct reg. Qed.

Lemma collect_fold pkg parent els reg :
  Forall (λ e, ∀ reg, collectElement pkg parent reg e =
    add_decls reg (decl_messages pkg parent e) (decl_enums pkg parent e)) els →
  foldl (collectElement pkg parent) reg els =
  add_decls reg (els ≫= decl_messages pkg parent) (els ≫= decl_enums pkg parent).
Proof.
  intros Hels. revert reg. induction Hels as [|e els He _ IH]; intros reg.
  - by rewrite add_decls_nil.
  - csimpl. by rewrite He, IH, add_decls_app.
Qed.

Lemma collectElement_decls e pkg parent reg :
  collectElement pkg parent reg e =
  add_decls reg (decl_messages pkg parent e) (decl_enums pkg parent e).
Proof.
  revert parent reg. induction e as [name c els IH|e He] using Visitee_ind'; intros parent reg.
  - simpl. rewrite collect_fold; [done|]. eapply Forall_impl; [exact IH|]. simpl. auto.
  - destruct e; try (by rewrite add_decls_nil); [by destruct (He Name comment Elements)|done].
Qed.

Lemma collectElements_decls els pkg parent reg :
  collectElements els pkg parent reg =
  add_decls reg (els ≫= decl_messages pkg parent) (els ≫= decl_enums pkg parent).
Proof.
  apply collect_fold, Forall_forall. intros e _ reg'. apply collectElement_decls.
Qed.

Section parser_facts.
Context (Parse : string → result error (list Visitee)).

Definition file_messages (text : string) : list Message :=
  match Parse text with
  | Ok els => els ≫= decl_messages (file_package els) ""
  | Err _ => []
  end.
Definition file_enums (text : string) : list Enum :=
  match Parse text with
  | Ok els => els ≫= decl_enums (file_package els) ""
  | Err _ => []
  end.

Lemma parseFile_decls text reg :
  parseFile Parse (Ok text) reg = add_decls reg (file_messages text) (file_enums text).
Proof.
  unfold file_messages, file_enums. simpl. destruct (Parse text) as [els|];
    [apply collectElements_decls|by rewrite add_decls_nil].
Qed.

Definition entry_step (acc : Registry * option error) (e : string * FSNode)
    : Registry * option error :=
  match acc with
  | (reg, Some err) => (reg, Some err)
  | (reg, None) =>
      match dir_error e.2 with
      | Some err => (reg, Some err)
      | None =>
          (match proto_source e with
           | Some text => add_decls reg (file_messages text) (file_enums text)
           | None => reg
           end, None)
      end
  end.

Lemma entry_step_stop reg err l : foldl entry_step (reg, Some err) l = (reg, Some err).
Proof. by induction l. Qed.

Lemma parse_entry_file reg path content :
  parse_entry Parse reg path (FSFile content) None = entry_step (reg, None) (path, FSFile content).
Proof.
  unfold parse_entry, entry_step, proto_source. simpl.
  destruct (HasSuffix path ".proto"), content as [text|]; try done.
  simpl. by rewrite <-parseFile_decls.
Qed.

Lemma walkDir_fold n path reg :
  walkDir (parse_entry Parse) path n reg = foldl entry_step (reg, None) (preorder path n).
Proof.
  revert path reg. induction n as [content|err es IH] using FSNode_ind'; intros path reg.
  - change (foldl _ _ _) with (entry_step (reg, None) (path, FSFile content)).
    rewrite <-parse_entry_file. simpl.
    by destruct (parse_entry _ _ _ _ _) as [? []].
  - simpl. destruct err as [err|]; [done|]. unfold proto_source; simpl.
    enough (∀ acc, foldl (λ acc entry, match acc with
        | (s, Some err) => (s, Some err)
        | (s, None) => walkDir (parse_entry Parse) (filepath_Join [path; entry.1]) entry.2 s
        end) acc es =
      foldl entry_step acc (es ≫= λ e, preorder (filepath_Join [path; e.1]) e.2)) as H
      by apply H.
    induction IH as [|[name n] es Hn _ IHes]; intros acc; [done|].
    csimpl. rewrite foldl_app, <-IHes. f_equal. destruct acc as [reg' [err|]];
      [by rewrite entry_step_stop|apply Hn].
Qed.

Lemma entry_steps l reg :
  foldl entry_step (reg, None) l =
  (let sources := omap proto_source (readable l) in
   add_decls reg (sources ≫= file_messages) (sources ≫= file_enums),
   head (omap dir_error l.*2)).
Proof.
  revert reg. induction l as [|[p n] l IH]; intros reg; [by rewrite add_decls_nil|].
  csimpl. destruct (dir_error n) as [err|] eqn:Hd.
  - by rewrite entry_step_stop, add_decls_nil.
  - rewrite IH. csimpl. destruct (proto_source (p, n)) as [text|]; [|done].
    csimpl. by rewrite add_decls_app.
Qed.

Lemma ParseDir_decls dir n :
  ParseDir Parse dir (Ok n) =
  (let sources := proto_sources dir n in
   add_decls empty_registry (sources ≫= file_messages) (sources ≫= file_enums),
   head (omap dir_error (preorder dir n).*2)).
Proof. unfold ParseDir. by rewrite walkDir_fold, entry_steps. Qed.
End parser_facts.

(** *** Names *)

(** A type's full name is its name in the scope of its package. *)
Definition in_package (pkg fqn : string) : Prop := pkg = "" ∨ ∃ t, fqn = pkg +:+ "." +:+ t.

Record registry_ok (reg : Registry) : Prop := {
  ok_message : ∀ k m, Messages reg !! k = Some m →
    m_FullName m = k ∧ in_package (m_Package m) k ∧
    (k = m_Name m ∨ ∃ p, k = p +:+ "." +:+ m_Name m);
  ok_enum : ∀ k e, Enums reg !! k = Some e → e_FullName e = k
}.

Lemma qualify_in_package name pkg parent :
  parent = "" ∨ in_package pkg parent → in_package pkg (qualify name pkg parent).
Proof.
  unfold qualify, in_package. intros Hp. case_bool_decide as H1.
  - destruct Hp as [|[|[t ->]]]; [done|by left|]. right. exists (t +:+ "." +:+ name).
    by rewrite !string_app_assoc.
  - case_bool_decide; [right; by exists name|left]. by destruct pkg.
Qed.

Lemma qualify_name name pkg parent :
  qualify name pkg parent = name ∨ ∃ p, qualify name pkg parent = p +:+ "." +:+ name.
Proof. unfold qualify. case_bool_decide; [eauto|]. case_bool_decide; eauto. Qed.

Lemma decl_messages_ok e pkg parent m :
  parent = "" ∨ in_package pkg parent → m ∈ decl_messages pkg parent e →
  m_Package m = pkg ∧ in_package pkg (m_FullName m) ∧
  (m_FullName m = m_Name m ∨ ∃ p, m_FullName m = p +:+ "." +:+ m_Name m).
Proof.
  revert parent. induction e as [name c els IH|e He] using Visitee_ind'; intros parent Hp.
  - simpl. rewrite elem_of_cons, list_elem_of_bind. intros [->|(e & Hm & He)].
    + simpl. split; [done|]. split; [by apply qualify_in_package|apply qualify_name].
    + rewrite Forall_forall in IH. eapply IH; [done| |done].
      right. by apply qualify_in_package.
  - destruct e; try (by intros ?%elem_of_nil). by destruct (He Name comment Elements).
Qed.

Lemma registry_ok_add reg ms es :
  registry_ok reg →
  (∀ m, m ∈ ms → in_package (m_Package m) (m_FullName m) ∧
    (m_FullName m = m_Name m ∨ ∃ p, m_FullName m = p +:+ "." +:+ m_Name m)) →
  registry_ok (add_decls reg ms es).
Proof.
  intros [H1 H2] Hms. split; simpl.
  - intros k m. rewrite lookup_add_messages. destruct (last _) as [x|] eqn:Hl; [|apply H1].
    intros [= ->]. apply last_Some_elem_of, list_elem_of_filter in Hl as [<- Hm].
    split; [done|]. by apply Hms.
  - intros k e. rewrite lookup_add_enums. destruct (last _) as [x|] eqn:Hl; [|apply H2].
    intros [= ->]. by apply last_Some_elem_of, list_elem_of_filter in Hl as [<- _].
Qed.

(** ** Properties *)

(** [C22] The registry [ParseDir] returns: the error is that of the first
    directory, in walk order, that cannot be read, and only files before it
    count; a name is bound to the last message (enum) declared under it, nested
    declarations included, in the [.proto] files that open and parse, in walk
    order; other files change nothing and are not reported. *)
Theorem ParseDir_exact Parse dir n :
  let '(reg, err) := ParseDir Parse dir (Ok n) in
  let sources := proto_sources dir n in
  err = head (omap dir_error (preorder dir n).*2) ∧
  (∀ k, Messages reg !! k =
    last (filter (λ m, m_FullName m = k) (sources ≫= file_messages Parse))) ∧
  (∀ k, Enums reg !! k =
    last (filter (λ e, e_FullName e = k) (sources ≫= file_enums Parse))).
Proof.
  rewrite ParseDir_decls. simpl. split_and!; [done|..]; intros k.
  - rewrite lookup_add_messages, lookup_empty. by destruct (last _).
  - rewrite lookup_add_enums, lookup_empty. by destruct (last _).
Qed.

(** [C23] Registry invariant: whatever the directory holds and however the walk
    ends, every message is registered under its own full name, which lies in
    the message's package and ends in the message's simple name; every enum is
    registered under its own full name. *)
Theorem ParseDir_registry_ok Parse dir root : registry_ok (ParseDir Parse dir root).1.
Proof.
  assert (registry_ok empty_registry) as Hempty.
  { split; intros ? ?; simpl; by rewrite lookup_empty. }
  destruct root as [n|]; [|done]. rewrite ParseDir_decls. simpl.
  apply registry_ok_add; [done|]. intros m (text & Hm & _)%list_elem_of_bind.
  unfold file_messages in Hm. destruct (Parse text) as [els|]; [|by apply elem_of_nil in Hm].
  apply list_elem_of_bind in Hm as (e & Hm & _).
  apply decl_messages_ok in Hm as (<- & ? & ?); [done|by left].
Qed.

(** *** An example: nested types, a oneof, a map and a file that does not parse *)

Section examples.
Definition ex_file : list Visitee := [
  VPackage "demo.v1";
  VMessage "Node" (Some [" A node."]) [
    VNormalField "id" "string" false (Some [" Its id. "]);
    VMapField "labels" "string" "google.protobuf.Any" (Some ["dropped"]);
    VOneof [VOneOfField "kind" "Kind" None; VOther];
    VEnum "Kind" [VEnumField "LEAF"; VOther; VEnumField "INNER"];
    VNormalField "children" "Node" true None]].

Definition ex_Parse (text : string) : result error (list Visitee) :=
  if decide (text = "node") then Ok ex_file else Err (ErrLib "" "syntax error").

Definition ex_tree : FSNode := FSDir None [
  ("broken.proto", FSFile (Ok "garbage"));
  ("notes.txt", FSFile (Ok "node"));
  ("sub", FSDir None [("node.proto", FSFile (Ok "node"))])].

Definition ex_registry : Registry := (ParseDir ex_Parse "proto" (Ok ex_tree)).1.

Example ex_names :
  (elements (dom (Messages ex_registry)), elements (dom (Enums ex_registry))) =
  (["demo.v1.Node"], ["demo.v1.Node.Kind"]).
Proof. vm_compute. reflexivity. Qed.

Example ex_fields :
  (λ m, (m_Comment m, (λ f, (f_Name f, f_Type f, f_MapValue f, f_Comment f)) <$> m_Fields m))
    <$> Messages ex_registry !! "demo.v1.Node" =
  Some ("A node.",
    [("id", "string", "", "Its id."); ("labels", "map", "google.protobuf.Any", "");
     ("kind", "Kind", "", ""); ("children", "Node", "", "")]).
Proof. vm_compute. reflexivity. Qed.
End examples.
