(* ===== verification/Schema.v ===== *)
(** * crd-gen/internal/schema/convert.go

    Proto messages to OpenAPI schemas.  The schemas of the well-known types are
    package-level objects handed out by pointer, and [msgSchema] writes the
    field's comment through the pointer it gets: the state [store] holds their
    current contents, and a pointer is either to one of them ([Shared]) or to
    an object of its own ([Fresh]).  No other object is written to once a
    second pointer to it exists. *)

From S2P Require Import Prelude GoStrings ProtoParser.

(** ** apiextensions: [JSONSchemaProps] *)

Inductive sref (A : Type) :=
| Fresh (a : A)
| Shared (name : string).
Arguments Fresh {A} a.
Arguments Shared {A} name.

(** The fields of the struct the sources set; [Items] and
    [AdditionalProperties] are pointers, the [Properties] are held by value.
    The bounds are integral floats, [Enum] has the raw JSON of the values. *)
Inductive JSONSchemaProps := mkProps {
  p_Type : string;
  p_Format : string;
  p_Description : string;
  p_Properties : gmap string JSONSchemaProps;
  p_Items : option (sref JSONSchemaProps);
  p_AdditionalProperties : option (sref JSONSchemaProps);
  p_Enum : list string;
  p_XPreserveUnknownFields : option bool;
  p_Required : list string;
  p_Minimum : option Z;
  p_Maximum : option Z
}.

Definition ptr : Type := sref JSONSchemaProps.

(** The contents of the objects [wellKnownSchemas] points to. *)
Abbreviation store := (gmap string JSONSchemaProps).

Definition typed (ty format : string) : JSONSchemaProps :=
  mkProps ty format "" ∅ None None [] None [] None None.

Definition preserving (ty : string) : JSONSchemaProps :=
  mkProps ty "" "" ∅ None None [] (Some true) [] None None.

Definition array_of (items : ptr) : JSONSchemaProps :=
  mkProps "array" "" "" ∅ (Some items) None [] None [] None None.

Definition map_of (values : ptr) : JSONSchemaProps :=
  mkProps "object" "" "" ∅ None (Some values) [] None [] None None.

(** [Schema{Type: "object", ..., Properties: props}] *)
Definition object_of (description : string) (props : gmap string JSONSchemaProps)
    (preserve : option bool) : JSONSchemaProps :=
  mkProps "object" "" description props None None [] preserve [] None None.

Definition enum_of (values : list string) : JSONSchemaProps :=
  mkProps "string" "" "" ∅ None None values None [] None None.

Definition with_Description (d : string) (s : JSONSchemaProps) : JSONSchemaProps :=
  mkProps (p_Type s) (p_Format s) d (p_Properties s) (p_Items s) (p_AdditionalProperties s)
    (p_Enum s) (p_XPreserveUnknownFields s) (p_Required s) (p_Minimum s) (p_Maximum s).

(** [*p] *)
Definition load (st : store) (p : ptr) : JSONSchemaProps :=
  match p with Fresh s => s | Shared name => default (typed "" "") (st !! name) end.

(** [p.Description = d] *)
Definition store_Description (d : string) (p : ptr) (st : store) : ptr * store :=
  match p with
  | Fresh s => (Fresh (with_Description d s), st)
  | Shared name => (Shared name, alter (with_Description d) name st)
  end.

(** ** Conversion *)

(** [func scalarSchema(t string) *JSONSchemaProps] *)
Definition scalarSchema (t : string) : option JSONSchemaProps :=
  if bool_decide (t = "string") then Some (typed "string" "")
  else if bool_decide (t = "bytes") then Some (typed "string" "byte")
  else if bool_decide (t = "bool") then Some (typed "boolean" "")
  else if bool_decide (t ∈ ["int32"; "sint32"; "sfixed32"]) then Some (typed "integer" "int32")
  else if bool_decide (t ∈ ["int64"; "sint64"; "sfixed64"]) then Some (typed "integer" "int64")
  else if bool_decide (t ∈ ["uint32"; "fixed32"]) then Some (typed "integer" "int32")
  else if bool_decide (t ∈ ["uint64"; "fixed64"]) then Some (typed "integer" "int64")
  else if bool_decide (t = "float") then Some (typed "number" "float")
  else if bool_decide (t = "double") then Some (typed "number" "double")
  else None.

(** [var wellKnownSchemas], as initialised *)
Definition wellKnown_list : list (string * JSONSchemaProps) := [
  ("google.protobuf.Any", preserving "object");
  ("google.protobuf.Struct", preserving "object");
  ("google.protobuf.Value", preserving "");
  ("google.protobuf.Duration", typed "string" "");
  ("google.protobuf.Timestamp", typed "string" "date-time");
  ("google.protobuf.Empty", typed "object" "");
  ("google.protobuf.StringValue", typed "string" "");
  ("google.protobuf.BoolValue", typed "boolean" "");
  ("google.protobuf.Int32Value", typed "integer" "int32");
  ("google.protobuf.UInt32Value", typed "integer" "int32");
  ("google.protobuf.Int64Value", typed "integer" "int64");
  ("google.protobuf.UInt64Value", typed "integer" "int64");
  ("google.protobuf.FloatValue", typed "number" "float");
  ("google.protobuf.DoubleValue", typed "number" "double");
  ("google.protobuf.BytesValue", typed "string" "byte");
  ("google.protobuf.ListValue", array_of (Fresh (preserving "")))].
Definition wellKnownSchemas : store := list_to_map wellKnown_list.

Section convert.
Context (reg : Registry).

(** [func inRegistry(name string, reg) bool] *)
Definition inRegistry (name : string) : bool :=
  bool_decide (is_Some (Messages reg !! name)) || bool_decide (is_Some (Enums reg !! name)).

(** The loop of [resolveFQN], with [i] counting down from [len(parts)]. *)
Fixpoint walk_up (parts : list string) (typeName : string) (i : nat) : option string :=
  match i with
  | 0 => None
  | S i' =>
      let candidate := Join (take i parts) "." +:+ "." +:+ typeName in
      if inRegistry candidate then Some candidate else walk_up parts typeName i'
  end.

(** [func resolveFQN(typeName, pkg, msgFQN string, reg) string] *)
Definition resolveFQN (typeName pkg msgFQN : string) : string :=
  if inRegistry typeName then typeName
  else
    let parts := Split msgFQN "." in
    match (if bool_decide (msgFQN ≠ "") then walk_up parts typeName (length parts) else None) with
    | Some candidate => candidate
    | None =>
        let parts := Split pkg "." in
        match walk_up parts typeName (length parts) with
        | Some candidate => candidate
        | None => typeName
        end
    end.

(** The raw JSON of an enum value. *)
Definition enum_json (v : string) : string := String "034" (v +:+ String "034" "").

Section body.
(** [msgSchema] for a message with the names already expanded. *)
Context (rec : Message → gset string → store → option (JSONSchemaProps * store)).

(** [func resolveMessageOrEnum(typeName, pkg, msgFQN, reg, visited)] *)
Definition resolveMessageOrEnum (typeName pkg msgFQN : string) (visited : gset string)
    (st : store) : option (ptr * store) :=
  let typeName := TrimPrefix typeName "." in
  if bool_decide (is_Some (st !! typeName)) then Some (Shared typeName, st)
  else
    let fqn := resolveFQN typeName pkg msgFQN in
    if bool_decide (fqn ∈ visited) then Some (Fresh (preserving "object"), st)
    else
      match Messages reg !! fqn with
      | Some msg =>
          '(s, st) ← rec msg ({[fqn]} ∪ visited) st;
          Some (Fresh s, st)
      | None =>
          match Enums reg !! fqn with
          | Some enum => Some (Fresh (enum_of (enum_json <$> e_Values enum)), st)
          | None => Some (Fresh (preserving "object"), st)
          end
      end.

(** [func resolveType(typeName, repeated, pkg, msgFQN, reg, visited)] *)
Definition resolveType (typeName : string) (repeated : bool) (pkg msgFQN : string)
    (visited : gset string) (st : store) : option (ptr * store) :=
  '(s, st) ← match scalarSchema typeName with
             | Some s => Some (Fresh s, st)
             | None => resolveMessageOrEnum typeName pkg msgFQN visited st
             end;
  Some (if repeated then Fresh (array_of s) else s, st).

(** One iteration of the field loop of [msgSchema]. *)
Definition field_schema (msg : Message) (visited : gset string) (field : Field) (st : store)
    : option (JSONSchemaProps * store) :=
  '(fs, st) ←
    (if bool_decide (f_Type field = "map") then
       '(val, st) ← resolveType (f_MapValue field) false (m_Package msg) (m_FullName msg)
                      visited st;
       Some (Fresh (map_of val), st)
     else
       resolveType (f_Type field) (f_Repeated field) (m_Package msg) (m_FullName msg)
         visited st);
  let '(fs, st) := if bool_decide (f_Comment field ≠ "")
                   then store_Description (f_Comment field) fs st else (fs, st) in
  Some (load st fs, st).

Fixpoint fields_loop (msg : Message) (visited : gset string) (fields : list Field)
    (props : gmap string JSONSchemaProps) (st : store)
    : option (gmap string JSONSchemaProps * store) :=
  match fields with
  | [] => Some (props, st)
  | field :: fields =>
      '(s, st) ← field_schema msg visited field st;
      fields_loop msg visited fields (<[f_Name field := s]> props) st
  end.

Definition msgSchema_body (msg : Message) (visited : gset string) (st : store)
    : option (JSONSchemaProps * store) :=
  '(props, st) ← fields_loop msg visited (m_Fields msg) ∅ st;
  Some (object_of (m_Comment msg) props
          (if bool_decide (size props = 0) then Some true else None), st).
End body.

(** [func msgSchema(msg, reg, visited)]; [fuel] bounds the nesting, and [None]
    says it was too small. *)
Fixpoint msgSchema (fuel : nat) (msg : Message) (visited : gset string) (st : store)
    : option (JSONSchemaProps * store) :=
  match fuel with
  | 0 => None
  | S fuel => msgSchema_body (msgSchema fuel) msg visited st
  end.

(** [func MessageToSchema(msg, reg)]; the fuel is shown to be enough. *)
Definition MessageToSchema (msg : Message) (st : store) : option (JSONSchemaProps * store) :=
  msgSchema (S (size (Messages reg))) msg ∅ st.
End convert.

(** ** Termination: the fuel is enough *)

Section termination.
Context (reg : Registry).
Implicit Types (rec : Message → gset string → store → option (JSONSchemaProps * store)).

(** The recursive calls with the names [visited] return. *)
Definition returns rec (visited : gset string) : Prop :=
  ∀ fqn msg st, Messages reg !! fqn = Some msg → fqn ∉ visited →
    is_Some (rec msg ({[fqn]} ∪ visited) st).

Definition extends rec rec' : Prop :=
  ∀ msg visited st r, rec msg visited st = Some r → rec' msg visited st = Some r.

Lemma resolveType_returns rec ty rep pkg fqn visited st :
  returns rec visited → is_Some (resolveType reg rec ty rep pkg fqn visited st).
Proof.
  intros Hrec. unfold resolveType. destruct (scalarSchema ty); [by eexists|].
  unfold resolveMessageOrEnum. case_bool_decide; [by eexists|].
  case_bool_decide as Hv; [by eexists|].
  destruct (Messages reg !! _) as [msg|] eqn:Hm.
  - destruct (Hrec _ _ st Hm Hv) as [[s st'] ->]. by eexists.
  - destruct (Enums reg !! _); by eexists.
Qed.

Lemma field_schema_returns rec msg visited f st :
  returns rec visited → is_Some (field_schema reg rec msg visited f st).
Proof.
  intros Hrec. unfold field_schema.
  destruct (resolveType_returns rec (f_MapValue f) false (m_Package msg) (m_FullName msg)
    visited st Hrec) as [[s1 st1] H1].
  destruct (resolveType_returns rec (f_Type f) (f_Repeated f) (m_Package msg)
    (m_FullName msg) visited st Hrec) as [[s2 st2] H2].
  destruct (bool_decide (f_Type f = "map")); [rewrite H1|rewrite H2]; simpl;
    (destruct (bool_decide (f_Comment f ≠ "")); [|by eexists]);
    try destruct (store_Description _ _ _); by eexists.
Qed.

Lemma fields_loop_returns rec msg visited fields props st :
  returns rec visited → is_Some (fields_loop reg rec msg visited fields props st).
Proof.
  intros Hrec. revert props st. induction fields as [|f fields IH]; intros props st;
    [by eexists|].
  simpl. destruct (field_schema_returns rec msg visited f st Hrec) as [[s st'] ->]. apply IH.
Qed.

Lemma body_returns rec msg visited st :
  returns rec visited → is_Some (msgSchema_body reg rec msg visited st).
Proof.
  intros Hrec. unfold msgSchema_body.
  destruct (fields_loop_returns rec msg visited (m_Fields msg) ∅ st Hrec) as [[s st'] ->].
  by eexists.
Qed.

(** Every nested call marks a further message. *)
Lemma msgSchema_returns fuel msg visited st :
  size (dom (Messages reg) ∖ visited) < fuel → is_Some (msgSchema reg fuel msg visited st).
Proof.
  revert msg visited st. induction fuel as [|fuel IH]; intros msg visited st Hf; [lia|].
  apply body_returns. intros fqn m st' Hm Hv. apply IH.
  assert (dom (Messages reg) ∖ ({[fqn]} ∪ visited) ⊂ dom (Messages reg) ∖ visited) as Hsub.
  { apply elem_of_dom_2 in Hm. set_solver. }
  apply subset_size in Hsub. lia.
Qed.

Lemma resolveType_extends rec rec' ty rep pkg fqn visited st r :
  extends rec rec' → resolveType reg rec ty rep pkg fqn visited st = Some r →
  resolveType reg rec' ty rep pkg fqn visited st = Some r.
Proof.
  intros Hext. unfold resolveType. destruct (scalarSchema ty); [done|].
  unfold resolveMessageOrEnum. case_bool_decide; [done|]. case_bool_decide; [done|].
  destruct (Messages reg !! _) as [m|]; [|done]. simpl.
  destruct (rec m _ st) as [r'|] eqn:Hr; [|done]. by rewrite (Hext _ _ _ _ Hr).
Qed.

Lemma field_schema_extends rec rec' msg visited f st r :
  extends rec rec' → field_schema reg rec msg visited f st = Some r →
  field_schema reg rec' msg visited f st = Some r.
Proof.
  intros Hext. unfold field_schema. destruct (bool_decide (f_Type f = "map")).
  - destruct (resolveType reg rec _ _ _ _ _ _) as [r'|] eqn:Hr; [|done].
    by rewrite (resolveType_extends _ _ _ _ _ _ _ _ _ Hext Hr).
  - destruct (resolveType reg rec _ _ _ _ _ _) as [r'|] eqn:Hr; [|done].
    by rewrite (resolveType_extends _ _ _ _ _ _ _ _ _ Hext Hr).
Qed.

Lemma fields_loop_extends rec rec' msg visited fields props st r :
  extends rec rec' → fields_loop reg rec msg visited fields props st = Some r →
  fields_loop reg rec' msg visited fields props st = Some r.
Proof.
  intros Hext. revert props st. induction fields as [|f fields IH]; intros props st; [done|].
  simpl. destruct (field_schema reg rec msg visited f st) as [[s st']|] eqn:Hf; [|done].
  rewrite (field_schema_extends _ _ _ _ _ _ _ Hext Hf). apply IH.
Qed.

Lemma msgSchema_extends fuel : extends (msgSchema reg fuel) (msgSchema reg (S fuel)).
Proof.
  induction fuel as [|fuel IH]; intros msg visited st r; [done|].
  change (msgSchema_body reg (msgSchema reg fuel) msg visited st = Some r →
    msgSchema_body reg (msgSchema reg (S fuel)) msg visited st = Some r).
  unfold msgSchema_body. destruct (fields_loop _ _ _ _ _ _ _) as [[p st']|] eqn:Hf; [|done].
  by rewrite (fields_loop_extends _ _ _ _ _ _ _ _ IH Hf).
Qed.

Lemma msgSchema_fuel fuel fuel' msg visited st r :
  fuel ≤ fuel' → msgSchema reg fuel msg visited st = Some r →
  msgSchema reg fuel' msg visited st = Some r.
Proof. induction 1; [done|]. intros. apply msgSchema_extends. auto. Qed.
End termination.
