(* ===== verification/Visited.v ===== *)
(** * crd-gen/internal/schema/convert.go: the [visited] maps

    [visited] is a Go map: [resolveMessageOrEnum] writes to the map it is given,
    and [msgSchema] hands every field a clone.  Schema.v passes the set of names
    by value.  Here the maps are objects on a heap, written to and cloned as in
    the source, and the result is the same ([MessageToSchema_visited]). *)

From S2P Require Import Prelude GoStrings ProtoParser Schema.

(** The maps made so far, by address. *)
Abbreviation Heap := (list (gset string)).
Implicit Types (h : Heap) (v : nat).

(** [make(map[string]bool)] *)
Definition make_map h : nat * Heap := (length h, h ++ [∅]).

(** [visited[name] = true] *)
Definition mark (name : string) v h : Heap := alter (λ m, {[name]} ∪ m) v h.

(** [func cloneVisited(v map[string]bool) map[string]bool] *)
Definition cloneVisited v h : nat * Heap :=
  let '(c, h') := make_map h in
  (c, foldl (λ h k, mark k c h) h' (elements (h !!! v))).

Section convert.
Context (reg : Registry).

Section body.
Context (rec : Message → nat → Heap → store → option (JSONSchemaProps * Heap * store)).

Definition resolveMessageOrEnum_h (typeName pkg msgFQN : string) (visited : nat) h (st : store)
    : option (ptr * Heap * store) :=
  let typeName := TrimPrefix typeName "." in
  if bool_decide (is_Some (st !! typeName)) then Some (Shared typeName, h, st)
  else
    let fqn := resolveFQN reg typeName pkg msgFQN in
    if bool_decide (fqn ∈ h !!! visited) then Some (Fresh (preserving "object"), h, st)
    else
      match Messages reg !! fqn with
      | Some msg =>
          '(s, h, st) ← rec msg visited (mark fqn visited h) st;
          Some (Fresh s, h, st)
      | None =>
          match Enums reg !! fqn with
          | Some enum => Some (Fresh (enum_of (enum_json <$> e_Values enum)), h, st)
          | None => Some (Fresh (preserving "object"), h, st)
          end
      end.

Definition resolveType_h (typeName : string) (repeated : bool) (pkg msgFQN : string)
    (visited : nat) h (st : store) : option (ptr * Heap * store) :=
  '(s, h, st) ← match scalarSchema typeName with
                | Some s => Some (Fresh s, h, st)
                | None => resolveMessageOrEnum_h typeName pkg msgFQN visited h st
                end;
  Some (if repeated then Fresh (array_of s) else s, h, st).

Definition field_schema_h (msg : Message) (visited : nat) (field : Field) h (st : store)
    : option (JSONSchemaProps * Heap * store) :=
  let '(c, h) := cloneVisited visited h in
  '(fs, h, st) ←
    (if bool_decide (f_Type field = "map") then
       '(val, h, st) ← resolveType_h (f_MapValue field) false (m_Package msg) (m_FullName msg)
                         c h st;
       Some (Fresh (map_of val), h, st)
     else
       resolveType_h (f_Type field) (f_Repeated field) (m_Package msg) (m_FullName msg) c h st);
  let '(fs, st) := if bool_decide (f_Comment field ≠ "")
                   then store_Description (f_Comment field) fs st else (fs, st) in
  Some (load st fs, h, st).

Fixpoint fields_loop_h (msg : Message) (visited : nat) (fields : list Field)
    (props : gmap string JSONSchemaProps) h (st : store)
    : option (gmap string JSONSchemaProps * Heap * store) :=
  match fields with
  | [] => Some (props, h, st)
  | field :: fields =>
      '(s, h, st) ← field_schema_h msg visited field h st;
      fields_loop_h msg visited fields (<[f_Name field := s]> props) h st
  end.

Definition msgSchema_body_h (msg : Message) (visited : nat) h (st : store)
    : option (JSONSchemaProps * Heap * store) :=
  '(props, h, st) ← fields_loop_h msg visited (m_Fields msg) ∅ h st;
  Some (object_of (m_Comment msg) props
          (if bool_decide (size props = 0) then Some true else None), h, st).
End body.

Fixpoint msgSchema_h (fuel : nat) (msg : Message) (visited : nat) h (st : store)
    : option (JSONSchemaProps * Heap * store) :=
  match fuel with
  | 0 => None
  | S fuel => msgSchema_body_h (msgSchema_h fuel) msg visited h st
  end.

(** [func MessageToSchema(msg, reg)], with the maps. *)
Definition MessageToSchema_h (msg : Message) (st : store) : option (JSONSchemaProps * store) :=
  let '(visited, h) := make_map [] in
  '(s, _, st) ← msgSchema_h (S (size (Messages reg))) msg visited h st; Some (s, st).

(** ** The maps a call was given access to are kept *)

(** The same result, and the heap has only grown. *)
Definition sim {A} h (r : option (A * store)) (rh : option (A * Heap * store)) : Prop :=
  match r with
  | None => rh = None
  | Some (a, st) => ∃ h', rh = Some (a, h', st) ∧ h `prefix_of` h'
  end.

Lemma sim_ret {A} h (a : A) st : sim h (Some (a, st)) (Some (a, h, st)).
Proof. by exists h. Qed.

Lemma sim_bind {A B} h r rh (f : A * store → option (B * store)) fh :
  sim h r rh →
  (∀ a st h', h `prefix_of` h' → sim h' (f (a, st)) (fh (a, h', st))) →
  sim h (r ≫= f) (rh ≫= fh).
Proof.
  intros Hr Hf. destruct r as [[a st]|]; simpl in *; [|by rewrite Hr].
  destruct Hr as (h' & -> & Hh). simpl. specialize (Hf a st h' Hh).
  destruct (f (a, st)) as [[b st']|]; simpl in *; [|done].
  destruct Hf as (h'' & -> & Hh'). exists h''. split; [done|]. by etrans.
Qed.

(** A call may write to the last map: the ones before are kept. *)
Lemma sim_weaken {A} h1 h2 r (rh : option (A * Heap * store)) :
  h1 `prefix_of` h2 → sim h2 r rh → sim h1 r rh.
Proof.
  intros Hh Hs. destruct r as [[a st]|]; [|done]. destruct Hs as (h' & -> & ?).
  exists h'. split; [done|]. by etrans.
Qed.

Definition rec_sim (rec : Message → gset string → store → option (JSONSchemaProps * store))
    (rec_h : Message → nat → Heap → store → option (JSONSchemaProps * Heap * store)) : Prop :=
  ∀ msg v h st m, h !! v = Some m → sim h (rec msg m st) (rec_h msg v h st).

Lemma mark_last name h m : mark name (length h) (h ++ [m]) = h ++ [{[name]} ∪ m].
Proof. unfold mark. rewrite <-(Nat.add_0_r (length h)). by rewrite list.alter_app_r. Qed.

(** The clone is a new map of the same names. *)
Lemma cloneVisited_spec v h m : h !! v = Some m → cloneVisited v h = (length h, h ++ [m]).
Proof.
  intros Hv. unfold cloneVisited, make_map. rewrite (list_lookup_total_correct _ _ _ Hv).
  assert (∀ ks m0, foldl (λ h' k, mark k (length h) h') (h ++ [m0]) ks =
    h ++ [list_to_set ks ∪ m0]) as ->.
  { induction ks as [|k ks IH]; intros m0; simpl.
    - by rewrite (left_id_L ∅ (∪)).
    - rewrite mark_last, IH. do 2 f_equal. set_solver. }
  by rewrite list_to_set_elements_L, (right_id_L ∅ (∪)).
Qed.

Lemma prefix_last h (m : gset string) : h `prefix_of` h ++ [m].
Proof. by eexists. Qed.

Section sim.
Context rec rec_h (Hrec : rec_sim rec rec_h).

Lemma resolveMessageOrEnum_sim ty pkg fqn h m st :
  sim h (resolveMessageOrEnum reg rec ty pkg fqn m st)
    (resolveMessageOrEnum_h rec_h ty pkg fqn (length h) (h ++ [m]) st).
Proof.
  unfold resolveMessageOrEnum, resolveMessageOrEnum_h.
  rewrite list_lookup_total_middle by done. pose proof (prefix_last h m).
  case_bool_decide; [by eexists|]. case_bool_decide; [by eexists|].
  destruct (Messages reg !! _) as [msg|]; [|destruct (Enums reg !! _); by eexists].
  rewrite mark_last. eapply sim_weaken; [apply prefix_last|].
  apply sim_bind; [apply Hrec, list_lookup_middle; done|]. intros. apply sim_ret.
Qed.

Lemma resolveType_sim ty rep pkg fqn h m st :
  sim h (resolveType reg rec ty rep pkg fqn m st)
    (resolveType_h rec_h ty rep pkg fqn (length h) (h ++ [m]) st).
Proof.
  unfold resolveType, resolveType_h. apply sim_bind; [|intros; apply sim_ret].
  destruct (scalarSchema ty) as [s|]; [|apply resolveMessageOrEnum_sim].
  eexists. split; [done|apply prefix_last].
Qed.

Lemma field_schema_sim msg v m f h st :
  h !! v = Some m →
  sim h (field_schema reg rec msg m f st) (field_schema_h rec_h msg v f h st).
Proof.
  intros Hv. unfold field_schema, field_schema_h. rewrite (cloneVisited_spec _ _ _ Hv).
  apply sim_bind.
  - case_bool_decide; [|apply resolveType_sim].
    apply sim_bind; [apply resolveType_sim|]. intros. apply sim_ret.
  - intros fs st' h' _. case_bool_decide; [|apply sim_ret].
    destruct (store_Description _ _ _). apply sim_ret.
Qed.

Lemma fields_loop_sim msg v m fs props h st :
  h !! v = Some m →
  sim h (fields_loop reg rec msg m fs props st) (fields_loop_h rec_h msg v fs props h st).
Proof.
  revert props h st. induction fs as [|f fs IH]; intros props h st Hv; [apply sim_ret|].
  apply sim_bind; [by apply field_schema_sim|]. intros s st' h' Hh.
  apply IH. by eapply prefix_lookup_Some.
Qed.

Lemma msgSchema_body_sim : rec_sim (msgSchema_body reg rec) (msgSchema_body_h rec_h).
Proof.
  intros msg v h st m Hv. apply sim_bind; [by apply fields_loop_sim|]. intros. apply sim_ret.
Qed.
End sim.

Lemma msgSchema_sim fuel : rec_sim (msgSchema reg fuel) (msgSchema_h fuel).
Proof. induction fuel as [|fuel IH]; [by intros ????|]. by apply msgSchema_body_sim. Qed.

(** ** Property *)

(** [C9] The converter with its mutable [visited] maps, written to by
    [resolveMessageOrEnum] and cloned for every field, computes what the
    converter computes that passes the visited names by value: no field sees
    the names a field before it has visited. *)
Theorem MessageToSchema_visited msg st : MessageToSchema_h msg st = MessageToSchema reg msg st.
Proof.
  unfold MessageToSchema_h, MessageToSchema, make_map. rewrite app_nil_l, length_nil.
  pose proof (msgSchema_sim (S (size (Messages reg))) msg 0 [∅] st ∅ eq_refl) as Hsim.
  destruct (msgSchema reg _ msg ∅ st) as [[s st']|]; simpl in Hsim |- *.
  - destruct Hsim as (h' & Hs & _). by rewrite Hs.
  - by rewrite Hsim.
Qed.
End convert.
