(* ===== verification/SchemaFacts.v ===== *)
(** * What the schema converter guarantees

    The shape of a schema (everything but the descriptions) does not depend on
    the shared well-known objects, and is that of a store-free reference; the
    schemas are structural; properties, descriptions and enum values; how type
    names resolve.  The properties of Schema.v are at the end. *)

From S2P Require Import Prelude GoStrings GoJson ProtoParser Schema.

(** ** The shape of a schema: everything but the descriptions *)

(** The description is dropped, a pointer to a well-known object becomes the
    object. *)
Fixpoint shape (s : JSONSchemaProps) : JSONSchemaProps :=
  let shape_ptr (p : ptr) : ptr :=
    match p with
    | Fresh s => Fresh (shape s)
    | Shared name => Fresh (default (typed "" "") (wellKnownSchemas !! name))
    end in
  mkProps (p_Type s) (p_Format s) "" (shape <$> p_Properties s)
    (shape_ptr <$> p_Items s) (shape_ptr <$> p_AdditionalProperties s)
    (p_Enum s) (p_XPreserveUnknownFields s) (p_Required s) (p_Minimum s) (p_Maximum s).

Definition ptr_shape (p : ptr) : JSONSchemaProps :=
  match p with
  | Fresh s => shape s
  | Shared name => default (typed "" "") (wellKnownSchemas !! name)
  end.

(** The contents of the pointers when the schema is marshalled. *)
Fixpoint deref (st : store) (s : JSONSchemaProps) : JSONSchemaProps :=
  let deref_ptr (p : ptr) : ptr :=
    match p with
    | Fresh s => Fresh (deref st s)
    | Shared name => Fresh (load st (Shared name))
    end in
  mkProps (p_Type s) (p_Format s) (p_Description s) (deref st <$> p_Properties s)
    (deref_ptr <$> p_Items s) (deref_ptr <$> p_AdditionalProperties s)
    (p_Enum s) (p_XPreserveUnknownFields s) (p_Required s) (p_Minimum s) (p_Maximum s).

(** Only descriptions of the well-known objects have been written. *)
Definition store_ok (st : store) : Prop := with_Description "" <$> st = wellKnownSchemas.

(** *** The schema of a type without the shared objects *)

Section reference.
Context (reg : Registry).

Section body.
Context (rec : Message → gset string → JSONSchemaProps).

Definition ref_named (typeName pkg msgFQN : string) (visited : gset string)
    : JSONSchemaProps :=
  match wellKnownSchemas !! TrimPrefix typeName "." with
  | Some s => s
  | None =>
      let fqn := resolveFQN reg (TrimPrefix typeName ".") pkg msgFQN in
      if bool_decide (fqn ∈ visited) then preserving "object"
      else match Messages reg !! fqn, Enums reg !! fqn with
           | Some msg, _ => rec msg ({[fqn]} ∪ visited)
           | None, Some enum => enum_of (enum_json <$> e_Values enum)
           | None, None => preserving "object"
           end
  end.

Definition ref_type (typeName pkg msgFQN : string) (visited : gset string)
    : JSONSchemaProps :=
  match scalarSchema typeName with
  | Some s => s
  | None => ref_named typeName pkg msgFQN visited
  end.

Definition ref_field (msg : Message) (visited : gset string) (f : Field)
    : JSONSchemaProps :=
  let ty name := ref_type name (m_Package msg) (m_FullName msg) visited in
  if bool_decide (f_Type f = "map") then map_of (Fresh (ty (f_MapValue f)))
  else if f_Repeated f then array_of (Fresh (ty (f_Type f))) else ty (f_Type f).

(** The last field of a name counts. *)
Definition ref_props (msg : Message) (visited : gset string)
    : gmap string JSONSchemaProps :=
  list_to_map (reverse ((λ f, (f_Name f, ref_field msg visited f)) <$> m_Fields msg)).

Definition ref_body (msg : Message) (visited : gset string) : JSONSchemaProps :=
  object_of "" (ref_props msg visited)
    (match m_Fields msg with [] => Some true | _ => None end).
End body.

(** Messages nested deeper than [depth] are not described. *)
Fixpoint ref_schema (depth : nat) (msg : Message) (visited : gset string)
    : JSONSchemaProps :=
  match depth with
  | 0 => preserving "object"
  | S depth => ref_body (ref_schema depth) msg visited
  end.
End reference.

(** *** Lemmas on shapes *)

Lemma wellKnown_shapes : shape <$> wellKnownSchemas = wellKnownSchemas.
Proof. unfold wellKnownSchemas. rewrite <-list_to_map_fmap. f_equal. Qed.

Lemma elem_of_wellKnown name s :
  wellKnownSchemas !! name = Some s → (name, s) ∈ wellKnown_list.
Proof. apply elem_of_list_to_map_2. Qed.

Lemma wellKnown_no_description : with_Description "" <$> wellKnownSchemas = wellKnownSchemas.
Proof. unfold wellKnownSchemas. rewrite <-list_to_map_fmap. f_equal. Qed.

(** From here on only the lemmas above look inside. *)
#[local] Opaque wellKnownSchemas.

Lemma store_ok_init : store_ok wellKnownSchemas.
Proof. apply wellKnown_no_description. Qed.

Lemma shape_with_Description d s : shape (with_Description d s) = shape s.
Proof. by destruct s. Qed.

Lemma store_ok_lookup st name :
  store_ok st → wellKnownSchemas !! name = with_Description "" <$> st !! name.
Proof. intros <-. apply lookup_fmap. Qed.

Lemma store_ok_is_Some st name :
  store_ok st → is_Some (st !! name) ↔ is_Some (wellKnownSchemas !! name).
Proof. intros ->%(store_ok_lookup _ name). by rewrite fmap_is_Some. Qed.

Lemma store_ok_alter st d name : store_ok st → store_ok (alter (with_Description d) name st).
Proof.
  unfold store_ok. intros <-. apply map_eq. intros k. rewrite !lookup_fmap.
  destruct (decide (name = k)) as [->|?].
  - rewrite lookup_alter_eq. by destruct (st !! k).
  - by rewrite lookup_alter_ne.
Qed.

Lemma shape_load st p : store_ok st → shape (load st p) = ptr_shape p.
Proof.
  intros Hst. destruct p as [s|name]; [done|]. simpl.
  pose proof (store_ok_lookup _ name Hst) as Hn. destruct (st !! name) as [s|]; simpl in *.
  - rewrite <-(shape_with_Description "").
    assert (shape <$> wellKnownSchemas !! name = wellKnownSchemas !! name) as Hs.
    { by rewrite <-lookup_fmap, wellKnown_shapes. }
    rewrite Hn in Hs |- *. simpl in *. congruence.
  - by rewrite Hn.
Qed.

Lemma shape_array p : shape (array_of p) = array_of (Fresh (ptr_shape p)).
Proof. by destruct p. Qed.

Lemma shape_map p : shape (map_of p) = map_of (Fresh (ptr_shape p)).
Proof. by destruct p. Qed.

Lemma shape_scalar t s : scalarSchema t = Some s → shape s = s ∧ p_Description s = "".
Proof. unfold scalarSchema. intros. repeat case_match; by simplify_eq. Qed.

(** Writing a description keeps the store and the shape of the pointer. *)
Lemma store_Description_ok d p st p' st' :
  store_Description d p st = (p', st') → store_ok st →
  store_ok st' ∧ ptr_shape p' = ptr_shape p.
Proof.
  destruct p as [s|name]; simpl; intros ? Hst; simplify_eq.
  - split; [done|]. apply shape_with_Description.
  - split; [by apply store_ok_alter|done].
Qed.

Section shapes.
Context (reg : Registry).
Context (rec : Message → gset string → store → option (JSONSchemaProps * store)).
Context (ref : Message → gset string → JSONSchemaProps).
Hypothesis (Hrec : ∀ msg visited st s st',
  rec msg visited st = Some (s, st') → store_ok st →
  store_ok st' ∧ shape s = ref msg visited).

Lemma resolveType_shape ty rep pkg fqn visited st p st' :
  resolveType reg rec ty rep pkg fqn visited st = Some (p, st') → store_ok st →
  store_ok st' ∧
  ptr_shape p = if rep then array_of (Fresh (ref_type reg ref ty pkg fqn visited))
                else ref_type reg ref ty pkg fqn visited.
Proof.
  intros H Hst. assert (∃ q, store_ok st' ∧ ptr_shape q = ref_type reg ref ty pkg fqn visited ∧
    p = if rep then Fresh (array_of q) else q) as (q & ? & Hq & ->); last first.
  { split; [done|]. rewrite <-Hq. destruct rep; [apply shape_array|done]. }
  unfold resolveType, ref_type in *. destruct (scalarSchema ty) as [s|] eqn:Hs.
  { simplify_eq/=. exists (Fresh s). split; [done|]. by apply shape_scalar in Hs as [? _]. }
  unfold resolveMessageOrEnum, ref_named in *.
  pose proof (store_ok_is_Some st (TrimPrefix ty ".") Hst) as Hk.
  case_bool_decide as Hw.
  { simplify_eq/=. eexists. split; [done|]. split; [|done]. simpl.
    apply Hk in Hw as [s ->]. done. }
  destruct (wellKnownSchemas !! _) as [w|]; [destruct Hw; apply Hk; eauto|].
  case_bool_decide.
  { simplify_eq/=. by exists (Fresh (preserving "object")). }
  destruct (Messages reg !! _) as [m|].
  - simpl in H. destruct (rec m _ st) as [[s st1]|] eqn:Hr; simplify_eq/=.
    apply Hrec in Hr as [? ?]; [|done]. by exists (Fresh s).
  - destruct (Enums reg !! _) as [enum|]; simplify_eq/=.
    + by exists (Fresh (enum_of (enum_json <$> e_Values enum))).
    + by exists (Fresh (preserving "object")).
Qed.

Lemma field_schema_shape msg visited f st s st' :
  field_schema reg rec msg visited f st = Some (s, st') → store_ok st →
  store_ok st' ∧ shape s = ref_field reg ref msg visited f.
Proof.
  intros H Hst. unfold field_schema in H.
  assert (∃ p st1, store_ok st1 ∧ ptr_shape p = ref_field reg ref msg visited f ∧
    (let '(fs, st) := if bool_decide (f_Comment f ≠ "")
                     then store_Description (f_Comment f) p st1 else (p, st1) in
    Some (load st fs, st)) = Some (s, st')) as (p & st1 & Hst1 & Hp & H1).
  { unfold ref_field. destruct (bool_decide (f_Type f = "map")).
    - destruct (resolveType _ _ _ _ _ _ _ _) as [[p st1]|] eqn:Hr; [|done].
      apply resolveType_shape in Hr as [? Hp]; [|done]. exists (Fresh (map_of p)), st1.
      split; [done|]. split; [|exact H]. etrans; [apply (shape_map p)|]. by rewrite Hp.
    - destruct (resolveType _ _ _ _ _ _ _ _) as [[p st1]|] eqn:Hr; [|done].
      apply resolveType_shape in Hr as [? Hp]; [|done]. by exists p, st1. }
  clear H. destruct (if bool_decide _ then _ else _) as [p' st2] eqn:Hd. simplify_eq.
  assert (store_ok st' ∧ ptr_shape p' = ptr_shape p) as [? Heq].
  { case_bool_decide; [by eapply store_Description_ok|by simplify_eq]. }
  split; [done|]. by rewrite shape_load, Heq, Hp.
Qed.

Lemma fields_loop_shape msg visited fields props st props' st' :
  fields_loop reg rec msg visited fields props st = Some (props', st') → store_ok st →
  store_ok st' ∧
  shape <$> props' =
    foldl (λ m f, <[f_Name f := ref_field reg ref msg visited f]> m) (shape <$> props) fields.
Proof.
  revert props st. induction fields as [|f fields IH]; intros props st; simpl.
  { intros; by simplify_eq. }
  destruct (field_schema reg rec msg visited f st) as [[s st1]|] eqn:Hf; [|done].
  intros Hl Hst. apply field_schema_shape in Hf as [Hst1 Hs]; [|done].
  apply IH in Hl as [? ->]; [|done]. by rewrite fmap_insert, Hs.
Qed.
End shapes.

Lemma foldl_insert_list_to_map {A B} (g : A → string * B) l :
  foldl (λ m x, <[(g x).1 := (g x).2]> m) ∅ l =@{gmap string B} list_to_map (reverse (g <$> l)).
Proof.
  induction l as [|x l IH] using rev_ind; [done|].
  rewrite foldl_snoc, IH, fmap_app, reverse_app. simpl. by destruct (g x).
Qed.

Lemma msgSchema_shape reg fuel msg visited st s st' :
  msgSchema reg fuel msg visited st = Some (s, st') → store_ok st →
  store_ok st' ∧ shape s = ref_schema reg fuel msg visited.
Proof.
  revert msg visited st s st'. induction fuel as [|fuel IH]; intros msg visited st s st'; [done|].
  simpl. unfold msgSchema_body. destruct (fields_loop _ _ _ _ _ _ _) as [[props st1]|] eqn:Hl;
    [|done].
  intros ? Hst; simplify_eq/=.
  apply (fields_loop_shape reg _ (ref_schema reg fuel)) in Hl as [? Hp]; [|exact IH|done].
  split; [done|]. rewrite fmap_empty in Hp.
  assert (shape <$> props = ref_props reg (ref_schema reg fuel) msg visited) as Hp'.
  { etrans; [exact Hp|]. apply (foldl_insert_list_to_map
      (λ f, (f_Name f, ref_field reg (ref_schema reg fuel) msg visited f))). }
  unfold ref_body, object_of. simpl. f_equal; [exact Hp'|].
  assert (size props = size (shape <$> props)) as -> by (by rewrite map_size_fmap).
  rewrite Hp'. unfold ref_props. destruct (m_Fields msg) as [|f fs]; [done|].
  rewrite bool_decide_false; [done|]. rewrite map_size_empty_iff, fmap_cons, reverse_cons.
  intros Hn%(f_equal dom). rewrite dom_list_to_map_L, dom_empty_L, fmap_app in Hn. set_solver.
Qed.

(** *** Induction on schemas *)

Fixpoint schema_size (s : JSONSchemaProps) : nat :=
  let ptr_size (p : option ptr) : nat :=
    match p with Some (Fresh s) => schema_size s | _ => 0 end in
  S (map_fold (λ _ c n, schema_size c + n) 0 (p_Properties s) +
     ptr_size (p_Items s) + ptr_size (p_AdditionalProperties s)).

Lemma map_fold_size (m : gmap string JSONSchemaProps) k c :
  m !! k = Some c → schema_size c ≤ map_fold (λ _ c n, schema_size c + n) 0 m.
Proof.
  intros Hk. rewrite <-(insert_delete_id m k c) by done.
  rewrite map_fold_insert_L; [lia| |apply lookup_delete_eq].
  intros. lia.
Qed.

(** The schema is a part of the other. *)
Inductive child : JSONSchemaProps → JSONSchemaProps → Prop :=
| child_property s k c : p_Properties s !! k = Some c → child c s
| child_items s c : p_Items s = Some (Fresh c) → child c s
| child_additional s c : p_AdditionalProperties s = Some (Fresh c) → child c s.

Lemma child_size c s : child c s → schema_size c < schema_size s.
Proof.
  destruct 1 as [[] k c Hk|[] c Hc|[] c Hc]; simpl in *.
  - apply map_fold_size in Hk. lia.
  - rewrite Hc. lia.
  - rewrite Hc. lia.
Qed.

Lemma schema_ind (P : JSONSchemaProps → Prop) :
  (∀ s, (∀ c, child c s → P c) → P s) → ∀ s, P s.
Proof.
  intros H s.
  induction (well_founded_ltof _ schema_size s) as [s _ IH]. apply H. intros c Hc.
  apply IH. by apply child_size.
Qed.

Lemma shape_deref st s : store_ok st → shape (deref st s) = shape s.
Proof.
  intros Hst. induction s as [s IH] using schema_ind.
  assert (∀ p : ptr, (∀ c, p = Fresh c → child c s) →
    ptr_shape (match p with Fresh c => Fresh (deref st c)
               | Shared n => Fresh (load st (Shared n)) end) = ptr_shape p) as Hptr.
  { intros [c|n] Hc; simpl.
    - by apply IH, Hc.
    - apply (shape_load st (Shared n) Hst). }
  destruct s as [ty fmt d props items addl enum pres req mn mx]. simpl in *. f_equal.
  - rewrite <-map_fmap_compose. apply map_fmap_ext. intros k c Hk. by eapply IH, child_property.
  - destruct items as [p|]; [|done]. simpl. do 2 f_equal.
    specialize (Hptr p). destruct p as [c|n]; simpl in *.
    + by rewrite Hptr by (intros ? [= <-]; by apply child_items).
    + by rewrite Hptr.
  - destruct addl as [p|]; [|done]. simpl. do 2 f_equal.
    specialize (Hptr p). destruct p as [c|n]; simpl in *.
    + by rewrite Hptr by (intros ? [= <-]; by apply child_additional).
    + by rewrite Hptr.
Qed.

(** ** Structural schemas *)

Definition schema_types : list string :=
  ["object"; "array"; "string"; "integer"; "number"; "boolean"].

(** What the API server asks of every node of a CRD schema, as far as the
    converter sets its fields. *)
Record node_ok (s : JSONSchemaProps) : Prop := {
  ok_type : p_Type s ∈ schema_types ∨
    (p_Type s = "" ∧ p_XPreserveUnknownFields s = Some true);
  ok_items : is_Some (p_Items s) ↔ p_Type s = "array";
  ok_properties : p_Properties s ≠ ∅ →
    p_Type s = "object" ∧ p_AdditionalProperties s = None ∧
    p_XPreserveUnknownFields s = None;
  ok_additional : is_Some (p_AdditionalProperties s) → p_Type s = "object";
  ok_enum_type : p_Enum s ≠ [] → p_Type s = "string"
}.

(** Nothing points to a shared object, and all parts are in order. *)
Inductive structural (s : JSONSchemaProps) : Prop :=
| structural_node :
    node_ok s →
    (∀ n, p_Items s ≠ Some (Shared n)) →
    (∀ n, p_AdditionalProperties s ≠ Some (Shared n)) →
    (∀ c, child c s → structural c) →
    structural s.

Lemma child_with_Description c d s : child c (with_Description d s) → child c s.
Proof.
  destruct s; simpl. inversion 1; simplify_eq/=;
    [by eapply child_property|by apply child_items|by apply child_additional].
Qed.

Lemma structural_with_Description d s : structural s → structural (with_Description d s).
Proof.
  destruct s. intros [[] ? ? Hc]. constructor; [by split|done..|].
  intros c ?%child_with_Description. auto.
Qed.

Lemma structural_leaf s :
  node_ok s → p_Properties s = ∅ → p_Items s = None → p_AdditionalProperties s = None →
  structural s.
Proof.
  intros Hs Hp Hi Ha. constructor; [done|congruence..|].
  inversion 1; simplify_eq; [|congruence..]. rewrite Hp in *. by simplify_map_eq.
Qed.

Lemma structural_typed ty fmt :
  ty ∈ schema_types → ty ≠ "array" → structural (typed ty fmt).
Proof. intros. apply structural_leaf; [|done..]. split; simpl; auto; [|done..]. split; [by intros []|done]. Qed.

Lemma structural_preserving ty :
  ty = "" ∨ ty = "object" → structural (preserving ty).
Proof.
  intros Hty. apply structural_leaf; [|done..]. split; simpl; [|split|done..].
  - destruct Hty as [->| ->]; [by right|left; set_solver].
  - by intros [].
  - destruct Hty; naive_solver.
Qed.

Lemma structural_array c : structural c → structural (array_of (Fresh c)).
Proof.
  intros. constructor; [|done..|].
  - split; simpl; [left; set_solver|split; eauto|done|by intros []|done].
  - inversion 1; simplify_map_eq; done.
Qed.

Lemma structural_map c : structural c → structural (map_of (Fresh c)).
Proof.
  intros. constructor; [|done..|].
  - split; simpl; [left; set_solver|split; [by intros []|done]|done..].
  - inversion 1; simplify_map_eq; done.
Qed.

Lemma structural_object d props pres :
  (props ≠ ∅ → pres = None) → (∀ k c, props !! k = Some c → structural c) →
  structural (object_of d props pres).
Proof.
  intros Hpres Hprops. constructor; [|done..|].
  - split; simpl; [left; set_solver|split; [by intros []|done]|auto|done..].
  - inversion 1; simplify_eq/=; eauto.
Qed.

Lemma structural_enum vs : structural (enum_of vs).
Proof.
  apply structural_leaf; [|done..].
  split; simpl; [left; set_solver|split; [by intros []|done]|done|by intros []|done].
Qed.

Lemma structural_scalar t s : scalarSchema t = Some s → structural s.
Proof.
  unfold scalarSchema. intros. repeat case_match; simplify_eq;
    (apply structural_typed; [set_solver|done]).
Qed.

Lemma structural_wellKnown name s : wellKnownSchemas !! name = Some s → structural s.
Proof.
  intros Hs%elem_of_wellKnown.
  repeat (apply elem_of_cons in Hs as [[= _ ->]|Hs]; [|]); [..|by apply elem_of_nil in Hs];
    try (apply structural_typed; [set_solver|done]);
    try (apply structural_preserving; by auto).
  apply structural_array, structural_preserving. by left.
Qed.

Lemma structural_ref_type reg rec ty pkg fqn visited :
  (∀ msg visited, structural (rec msg visited)) →
  structural (ref_type reg rec ty pkg fqn visited).
Proof.
  intros Hrec. unfold ref_type. destruct (scalarSchema ty) as [s|] eqn:Hs;
    [by eapply structural_scalar|].
  unfold ref_named. destruct (wellKnownSchemas !! _) eqn:Hw; [by eapply structural_wellKnown|].
  case_bool_decide; [apply structural_preserving; by right|].
  destruct (Messages reg !! _); [apply Hrec|].
  destruct (Enums reg !! _); [apply structural_enum|apply structural_preserving; by right].
Qed.

Lemma structural_ref reg depth msg visited : structural (ref_schema reg depth msg visited).
Proof.
  revert msg visited. induction depth as [|depth IH]; intros msg visited; simpl.
  { apply structural_preserving. by right. }
  apply structural_object.
  - unfold ref_props. by destruct (m_Fields msg).
  - unfold ref_props. intros k c Hc%elem_of_list_to_map_2.
    rewrite elem_of_reverse, list_elem_of_fmap in Hc. destruct Hc as (f & [= -> ->] & _).
    unfold ref_field. case_bool_decide; [apply structural_map|destruct (f_Repeated f);
      [apply structural_array|]]; by apply structural_ref_type.
Qed.

Lemma structural_load st n : store_ok st → structural (load st (Shared n)) ∨ st !! n = None.
Proof.
  intros Hst. pose proof (store_ok_lookup st n Hst) as Hn. simpl.
  destruct (st !! n) as [s|]; [left|by right]. simpl in *.
  apply structural_wellKnown in Hn. apply (structural_with_Description (p_Description s)) in Hn.
  by destruct s.
Qed.

(** All pointers of a schema lead somewhere. *)
Definition ptr_ok (p : option ptr) : Prop :=
  ∀ n, p = Some (Shared n) → is_Some (wellKnownSchemas !! n).

Lemma structural_deref_ptr st (p : ptr) c :
  store_ok st → (∀ c, p = Fresh c → structural (deref st c)) →
  structural (ptr_shape p) →
  match p with Fresh s => Fresh (deref st s) | Shared n => Fresh (load st (Shared n)) end
    = Fresh c →
  structural c.
Proof.
  intros Hst HF Hs Heq. destruct p as [c'|n]; [injection Heq as <-; by apply HF|].
  injection Heq as <-. destruct (structural_load st n Hst) as [?|Hn]; [done|].
  pose proof (store_ok_lookup st n Hst) as Hw. rewrite Hn in Hw. simpl in Hs. rewrite Hw in Hs.
  rewrite Hn. done.
Qed.

Lemma structural_deref st s : store_ok st → structural (shape s) → structural (deref st s).
Proof.
  intros Hst. induction s as [s IH] using schema_ind.
  destruct s as [ty fmt d props items addl enum pres req mn mx].
  intros [[H1 H2 H3 H4 H5] _ _ Hc]. constructor.
  - clear Hst IH Hc. simpl in *. rewrite fmap_empty_iff in H3.
    rewrite fmap_is_Some in H2, H4. split; simpl; [done| | | |done].
    + by rewrite fmap_is_Some.
    + rewrite fmap_empty_iff. intros (? & Ha & ?)%H3. split_and!; try done. by destruct addl.
    + by rewrite fmap_is_Some.
  - intros n. by destruct items as [[]|].
  - intros n. by destruct addl as [[]|].
  - intros x Hx. inversion Hx as [? k c Hk|? c Hk|? c Hk]; subst; simpl in Hk.
    + rewrite lookup_fmap_Some in Hk. destruct Hk as (c' & <- & Hk). apply IH.
      * by eapply child_property.
      * apply Hc. eapply (child_property _ k). simpl. by rewrite lookup_fmap, Hk.
    + destruct items as [p|]; [|done]. injection Hk as Hk.
      eapply (structural_deref_ptr st p); [done| | |exact Hk].
      * intros c' ->. apply IH; [by apply child_items|]. apply Hc. by apply child_items.
      * apply Hc, child_items. by destruct p.
    + destruct addl as [p|]; [|done]. injection Hk as Hk.
      eapply (structural_deref_ptr st p); [done| | |exact Hk].
      * intros c' ->. apply IH; [by apply child_additional|]. apply Hc. by apply child_additional.
      * apply Hc, child_additional. by destruct p.
Qed.

(** ** Descriptions and names of properties *)

Section descriptions.
Context (reg : Registry).
Context (rec : Message → gset string → store → option (JSONSchemaProps * store)).

Lemma resolveType_shared ty rep pkg fqn visited st n st' :
  resolveType reg rec ty rep pkg fqn visited st = Some (Shared n, st') → is_Some (st' !! n).
Proof.
  unfold resolveType. destruct (scalarSchema ty) as [s|]; [by destruct rep|].
  unfold resolveMessageOrEnum. set (name := TrimPrefix ty "."). clearbody name.
  case_bool_decide; [destruct rep; [done|]; by intros [= <- <-]|].
  case_bool_decide; [by destruct rep|]. destruct (Messages reg !! _) as [m|].
  - simpl. destruct (rec m _ st) as [[]|]; [|done]. by destruct rep.
  - destruct (Enums reg !! _); by destruct rep.
Qed.

Lemma load_described d (p : ptr) st p' st' :
  (∀ n, p = Shared n → is_Some (st !! n)) → store_Description d p st = (p', st') →
  p_Description (load st' p') = d.
Proof.
  intros Hn. destruct p as [s|n]; simpl; intros; simplify_eq; simpl.
  - by destruct s.
  - rewrite lookup_alter_eq. destruct (Hn n eq_refl) as [s ->]. by destruct s.
Qed.

(** A field's comment becomes the description; a field without one that is
    repeated, a map or a scalar has none. *)
Lemma field_schema_description msg visited f st s st' :
  field_schema reg rec msg visited f st = Some (s, st') →
  (f_Comment f ≠ "" → p_Description s = f_Comment f) ∧
  (f_Comment f = "" →
    f_Repeated f = true ∨ f_Type f = "map" ∨ is_Some (scalarSchema (f_Type f)) →
    p_Description s = "").
Proof.
  unfold field_schema. intros H.
  assert (∃ p st1, (∀ n, p = Shared n → is_Some (st1 !! n)) ∧
    (let '(fs, st) := if bool_decide (f_Comment f ≠ "")
                     then store_Description (f_Comment f) p st1 else (p, st1) in
    Some (load st fs, st)) = Some (s, st') ∧
    (f_Repeated f = true ∨ f_Type f = "map" ∨ is_Some (scalarSchema (f_Type f)) →
     ∃ s0, p = Fresh s0 ∧ p_Description s0 = "")) as (p & st1 & Hp & H1 & Hd).
  {
    destruct (decide (f_Type f = "map")) as [Hm|Hm].
    - rewrite (bool_decide_true (f_Type f = "map")) in H by done.
      destruct (resolveType _ _ _ _ _ _ _ _) as [[p st1]|] eqn:Hr; [|done].
      exists (Fresh (map_of p)), st1. split; [done|]. split; [exact H|]. eauto.
    - rewrite (bool_decide_false (f_Type f = "map")) in H by done.
      destruct (resolveType _ _ _ _ _ _ _ _) as [[p st1]|] eqn:Hr; [|done].
      exists p, st1. split; [intros n ->; by eapply resolveType_shared|].
      split; [exact H|]. unfold resolveType in Hr. intros [Hrep|[?|[s0 Hs]]]; [|done|].
      + rewrite Hrep in Hr. apply bind_Some in Hr as ([q st2] & _ & [= <- <-]). eauto.
      + rewrite Hs in Hr. simplify_eq/=. destruct (f_Repeated f); [eauto|].
        exists s0. split; [done|]. by eapply shape_scalar. }
  clear H. split; intros Hc.
  - rewrite bool_decide_true in H1 by done.
    destruct (store_Description _ _ _) as [p' st2] eqn:Hs. simplify_eq.
    by eapply load_described.
  - rewrite bool_decide_false in H1 by naive_solver. simplify_eq.
    intros (s0 & -> & ?)%Hd. done.
Qed.

(** With distinct names, every field has its schema in the result. *)
Lemma fields_loop_lookup msg visited fields props st props' st' :
  fields_loop reg rec msg visited fields props st = Some (props', st') →
  NoDup (f_Name <$> fields) →
  (∀ f, f ∈ fields → ∃ st1 s st2, field_schema reg rec msg visited f st1 = Some (s, st2) ∧
    props' !! f_Name f = Some s) ∧
  (∀ k, k ∉ f_Name <$> fields → props' !! k = props !! k).
Proof.
  revert props st. induction fields as [|f fields IH]; intros props st; simpl.
  { intros ? _. simplify_eq. split; [by intros f ?%elem_of_nil|done]. }
  destruct (field_schema reg rec msg visited f st) as [[s st1]|] eqn:Hf; [|done].
  intros Hl [Hn Hnd]%NoDup_cons. destruct (IH _ _ Hl Hnd) as [H1 H2]. split.
  - intros g [->|Hg]%elem_of_cons; [|auto]. exists st, s, st1. split; [done|].
    rewrite H2 by done. apply lookup_insert_eq.
  - intros k Hk. rewrite H2 by set_solver. apply lookup_insert_ne. set_solver.
Qed.
End descriptions.

(** ** Name resolution *)

(** The names a type can have in the scopes around a name, innermost first. *)
Definition enclosing (typeName scope : string) : list string :=
  let parts := Split scope "." in
  (λ i, Join (take i parts) "." +:+ "." +:+ typeName) <$> reverse (seq 1 (length parts)).

Section resolution.
Context (reg : Registry).

Definition registered (names : list string) : option string :=
  head (filter (λ n, inRegistry reg n = true) names).

Lemma registered_cons n names :
  registered (n :: names) = if inRegistry reg n then Some n else registered names.
Proof.
  unfold registered. rewrite filter_cons. by destruct (inRegistry reg n).
Qed.

Lemma registered_app l k :
  registered (l ++ k) = match registered l with Some n => Some n | None => registered k end.
Proof.
  induction l as [|n l IH]; [done|]. rewrite <-app_comm_cons, !registered_cons, IH.
  by destruct (inRegistry reg n).
Qed.

Lemma registered_None names :
  registered names = None ↔ ∀ n, n ∈ names → inRegistry reg n = false.
Proof.
  induction names as [|n names IH]; [split; [by intros _ n ?%elem_of_nil|done]|].
  rewrite registered_cons. setoid_rewrite elem_of_cons.
  destruct (inRegistry reg n) eqn:Hn.
  - split; [done|]. intros H. rewrite H in Hn; [done|by left].
  - rewrite IH. naive_solver.
Qed.

Lemma walk_up_registered parts ty i :
  walk_up reg parts ty i =
  registered ((λ i, Join (take i parts) "." +:+ "." +:+ ty) <$> reverse (seq 1 i)).
Proof.
  induction i as [|i IH]; [done|].
  rewrite seq_S, reverse_app. simpl reverse. simpl app.
  rewrite fmap_cons, registered_cons, <-IH. done.
Qed.

Lemma resolveFQN_registered ty pkg fqn :
  fqn ≠ "" →
  resolveFQN reg ty pkg fqn =
  default ty (registered (ty :: enclosing ty fqn ++ enclosing ty pkg)).
Proof.
  intros Hf. unfold resolveFQN. rewrite bool_decide_true by done.
  rewrite !walk_up_registered, registered_cons, registered_app. unfold enclosing.
  destruct (inRegistry reg ty); [done|]. by destruct (registered _).
Qed.

(** The scopes of a package are scopes of every type in it. *)
Lemma enclosing_package ty pkg t n :
  n ∈ enclosing ty pkg → n ∈ enclosing ty (pkg +:+ "." +:+ t).
Proof.
  unfold enclosing. rewrite !list_elem_of_fmap. intros (i & -> & Hi).
  rewrite elem_of_reverse, elem_of_seq in Hi. exists i.
  change ("." +:+ t) with (String "." t). rewrite Split_app, length_app, elem_of_reverse, elem_of_seq, take_app_le by lia.
  split; [done|lia].
Qed.
End resolution.

(** ** Enum values as JSON *)

(** Letters, digits and underscores: the bytes of a proto identifier. *)
Definition ident_byte (c : ascii) : bool :=
  in_range 65 90 c || in_range 97 122 c || in_range 48 57 c || bool_decide (c = "_"%char).

Fixpoint ident (s : string) : bool :=
  match s with "" => true | String c s => ident_byte c && ident s end.

Lemma ident_byte_range c :
  ident_byte c = true → (32 ≤ code c < 128)%N ∧ c ≠ quote ∧ c ≠ backslash.
Proof.
  unfold ident_byte, in_range. rewrite !orb_true_iff, !andb_true_iff, !N.leb_le.
  intros H. assert ((48 ≤ code c ≤ 57) ∨ (65 ≤ code c ≤ 90) ∨ (95 ≤ code c ≤ 122) ∧
    code c ≠ 92)%N as Hc.
  { destruct H as [[[|]|]| ->%bool_decide_eq_true_1]; [lia..|].
    change (code "_") with 95%N. lia. }
  split_and!; [lia|lia| |]; intros ->; unfold quote, backslash in Hc;
    vm_compute in Hc; naive_solver.
Qed.

Lemma ident_escape s : ident s = true → escape s = s ∧ ascii_string s = true.
Proof.
  induction s as [|c s IH]; [done|]. simpl. intros [Hc Hs]%andb_prop.
  destruct (IH Hs) as [IH1 IH2]. apply ident_byte_range in Hc as ([Hlo Hhi] & Hq & Hb).
  split.
  - unfold escape_byte. rewrite (bool_decide_false (c = quote)), (bool_decide_false (c = backslash))
      by done.
    simpl orb. destruct (N.ltb_spec (code c) 32); [lia|].
    rewrite string_app_cons, string_app_nil_l. by rewrite IH1.
  - rewrite IH2, andb_true_r. by apply N.ltb_lt.
Qed.

Lemma enum_json_parse v : ident v = true → parse (enum_json v) = Ok (JString v).
Proof.
  intros [He Ha]%ident_escape. rewrite <-(parse_print (JString v)).
  - simpl. unfold print_string, enum_json, quote. by rewrite He.
  - simpl. by rewrite Ha.
Qed.

(** ** Properties *)

Lemma MessageToSchema_returns reg msg st : is_Some (MessageToSchema reg msg st).
Proof.
  apply msgSchema_returns. rewrite <-size_dom. apply Nat.lt_succ_r, subseteq_size. set_solver.
Qed.

(** [C8] Termination: for every registry, message and state of the shared
    objects the conversion returns, recursive and mutually recursive messages
    included, and a nesting depth of the number of registered messages plus
    one is enough: no larger one changes the result. *)
Theorem MessageToSchema_total reg msg st :
  ∃ s st', MessageToSchema reg msg st = Some (s, st') ∧
    ∀ fuel, size (Messages reg) < fuel → msgSchema reg fuel msg ∅ st = Some (s, st').
Proof.
  destruct (MessageToSchema_returns reg msg st) as [[s st'] Hs].
  exists s, st'. split; [done|]. intros fuel Hf. by eapply msgSchema_fuel; [|exact Hs].
Qed.

(** [C7] Equivalence with the store-free reference: from any state of the shared
    objects that conversions can leave behind, the conversion again leaves one
    (only descriptions of the well-known objects are written), and the schema,
    marshalled then or after any number of further conversions, is the
    reference schema of the message up to descriptions. *)
Theorem MessageToSchema_shape reg msg st s st'
    (Hst : store_ok st) (Hs : MessageToSchema reg msg st = Some (s, st')) :
  store_ok st' ∧
  ∀ later, store_ok later →
    shape (deref later s) = ref_schema reg (S (size (Messages reg))) msg ∅.
Proof.
  apply msgSchema_shape in Hs as [Hst' Hs]; [|done]. split; [done|].
  intros later Hl. by rewrite shape_deref.
Qed.

(** [C10] The schemas are structural: every node of the marshalled schema has a
    type or preserves unknown fields, arrays and only arrays have items, a node
    with properties is an object without additional properties and without the
    preserve flag, additional properties occur on objects, enumerations on
    strings; whatever the registry holds. *)
Theorem MessageToSchema_structural reg msg st s st' later
    (Hst : store_ok st) (Hs : MessageToSchema reg msg st = Some (s, st'))
    (Hl : store_ok later) :
  structural (deref later s).
Proof.
  apply msgSchema_shape in Hs as [_ Hs]; [|done]. apply structural_deref; [done|].
  rewrite Hs. apply structural_ref.
Qed.

(** [C34] Properties and descriptions: the schema of a message is an object with
    the message's comment; it preserves unknown fields iff the message has no
    fields; when field names are distinct it has exactly one property per
    field, whose description is the field's comment, and a repeated, map or
    scalar field without comment has none. *)
Theorem MessageToSchema_properties reg msg st s st'
    (Hnd : NoDup (f_Name <$> m_Fields msg))
    (Hs : MessageToSchema reg msg st = Some (s, st')) :
  p_Type s = "object" ∧ p_Description s = m_Comment msg ∧
  (p_XPreserveUnknownFields s = Some true ↔ m_Fields msg = []) ∧
  dom (p_Properties s) = list_to_set (f_Name <$> m_Fields msg) ∧
  ∀ f, f ∈ m_Fields msg → ∃ p, p_Properties s !! f_Name f = Some p ∧
    (f_Comment f ≠ "" → p_Description p = f_Comment f) ∧
    (f_Comment f = "" →
      f_Repeated f = true ∨ f_Type f = "map" ∨ is_Some (scalarSchema (f_Type f)) →
      p_Description p = "").
Proof.
  unfold MessageToSchema in Hs. simpl in Hs.
  apply bind_Some in Hs as ([props st1] & Hl & [= <- _]). simpl.
  destruct (fields_loop_lookup _ _ _ _ _ _ _ _ _ Hl Hnd) as [H1 H2].
  assert (dom props = list_to_set (f_Name <$> m_Fields msg)) as Hdom.
  { apply set_eq. intros k. rewrite elem_of_dom, elem_of_list_to_set.
    destruct (decide (k ∈ f_Name <$> m_Fields msg)) as [Hk|Hk].
    - split; [done|]. intros (f & -> & Hf)%list_elem_of_fmap.
      destruct (H1 f Hf) as (? & p & ? & _ & ->). eauto.
    - rewrite H2, lookup_empty by done. split; [by intros []|done]. }
  split_and!; try done.
  - case_bool_decide as Hz; split; try done.
    + intros _. rewrite <-size_dom, Hdom, size_list_to_set, length_fmap in Hz by done.
      by apply nil_length_inv.
    + intros Hf. destruct Hz. by rewrite <-size_dom, Hdom, Hf.
  - intros f Hf. destruct (H1 f Hf) as (st2 & p & st3 & Hp & Hk). exists p. split; [done|].
    by eapply field_schema_description.
Qed.

(** [C35] Name resolution: for a message of a named package, the type name
    resolves to itself when it is registered as written, else to its
    registered name in the innermost enclosing message or package, and stays as
    it is when there is none; the separate walk over the package finds nothing
    that the walk over the enclosing names does not. *)
Theorem resolveFQN_scoping reg ty pkg fqn
    (Hpkg : pkg ≠ "") (Hin : in_package pkg fqn) :
  resolveFQN reg ty pkg fqn = default ty (registered reg (ty :: enclosing ty fqn)) ∧
  (resolveFQN reg ty pkg fqn ≠ ty → inRegistry reg (resolveFQN reg ty pkg fqn) = true).
Proof.
  destruct Hin as [|[t ->]]; [done|].
  assert (resolveFQN reg ty pkg (pkg +:+ "." +:+ t) =
    default ty (registered reg (ty :: enclosing ty (pkg +:+ "." +:+ t)))) as Heq.
  { rewrite resolveFQN_registered by (by destruct pkg).
    rewrite !registered_cons, registered_app. destruct (inRegistry reg ty); [done|].
    destruct (registered reg (enclosing ty (pkg +:+ _))) eqn:Hn; [done|].
    rewrite registered_None in Hn. destruct (registered reg (enclosing ty pkg)) as [n|] eqn:Hp;
      [|done].
    apply head_filter_elem in Hp as [Hr Hp]. rewrite Hn in Hr; [done|].
    by apply enclosing_package. }
  split; [done|]. rewrite Heq. destruct (registered reg _) as [n|] eqn:Hr; [|done]. intros _.
  by apply head_filter_elem in Hr as [? _].
Qed.

(** [C37] Enum schemas: a field of an enum type gets a string schema whose
    enumeration, decoded as JSON, is the list of the enum's values in order. *)
Theorem enum_schema_values reg rec ty pkg fqn visited st enum
    (Hwk : st !! TrimPrefix ty "." = None)
    (Hv : resolveFQN reg (TrimPrefix ty ".") pkg fqn ∉ visited)
    (Hm : Messages reg !! resolveFQN reg (TrimPrefix ty ".") pkg fqn = None)
    (He : Enums reg !! resolveFQN reg (TrimPrefix ty ".") pkg fqn = Some enum)
    (Hid : Forall (λ v, ident v = true) (e_Values enum)) :
  ∃ s, resolveMessageOrEnum reg rec ty pkg fqn visited st = Some (Fresh s, st) ∧
    p_Type s = "string" ∧
    parse <$> p_Enum s = (λ v, Ok (JString v)) <$> e_Values enum.
Proof.
  exists (enum_of (enum_json <$> e_Values enum)). split_and!; [|done|].
  - unfold resolveMessageOrEnum. rewrite Hwk, bool_decide_false by (by intros []).
    by rewrite bool_decide_false, Hm, He.
  - simpl. rewrite <-list_fmap_compose. apply list_fmap_ext. intros i v Hi.
    apply enum_json_parse. by eapply (proj1 (Forall_lookup _ _) Hid).
Qed.

(** *** The descriptions of well-known types leak *)

Lemma wellKnown_names n :
  is_Some (wellKnownSchemas !! n) → TrimPrefix n "." = n ∧ scalarSchema n = None ∧ n ≠ "map".
Proof.
  intros [s Hs%elem_of_wellKnown].
  repeat (apply elem_of_cons in Hs as [[= -> _]|Hs];
    [split_and!; [vm_compute; reflexivity..|done]|]).
  by apply elem_of_nil in Hs.
Qed.

Lemma field_schema_wellKnown reg rec msg visited f st s0 :
  st !! f_Type f = Some s0 → is_Some (wellKnownSchemas !! f_Type f) → f_Repeated f = false →
  field_schema reg rec msg visited f st =
  if bool_decide (f_Comment f ≠ "")
  then Some (with_Description (f_Comment f) s0,
             <[f_Type f := with_Description (f_Comment f) s0]> st)
  else Some (s0, st).
Proof.
  intros Hst (Ht & Hsc & Hm)%wellKnown_names Hr. unfold field_schema.
  rewrite (bool_decide_false (f_Type f = "map")) by done.
  unfold resolveType. rewrite Hsc. unfold resolveMessageOrEnum.
  rewrite Ht, (bool_decide_true (is_Some (st !! f_Type f))) by eauto. rewrite Hr. simpl.
  case_bool_decide; simpl.
  - rewrite lookup_alter_eq, Hst. simpl. do 2 f_equal. apply map_eq. intros k.
    destruct (decide (k = f_Type f)) as [->|?].
    + by rewrite lookup_alter_eq, lookup_insert_eq, Hst.
    + by rewrite lookup_alter_ne, lookup_insert_ne.
  - by rewrite Hst.
Qed.

(** Descriptions leak between fields of a well-known type: in a message
    with a commented field of such a type followed by an uncommented one of the
    same type, the second gets the comment of the first, and the comment stays
    in the shared object for every later conversion. *)
Theorem description_leak reg msg f1 f2 n st
    (Hn : is_Some (wellKnownSchemas !! n)) (Hst : store_ok st)
    (Hf : m_Fields msg = [f1; f2])
    (H1 : f_Type f1 = n ∧ f_Repeated f1 = false ∧ f_Comment f1 ≠ "")
    (H2 : f_Type f2 = n ∧ f_Repeated f2 = false ∧ f_Comment f2 = "") :
  ∃ s st', MessageToSchema reg msg st = Some (s, st') ∧
    p_Description <$> p_Properties s !! f_Name f2 = Some (f_Comment f1) ∧
    p_Description <$> st' !! n = Some (f_Comment f1).
Proof.
  destruct H1 as (<- & Hr1 & Hc1), H2 as (Ht2 & Hr2 & Hc2).
  pose proof Hn as [s0 Hs0]%(store_ok_is_Some st _ Hst).
  unfold MessageToSchema. simpl. unfold msgSchema_body. rewrite Hf. simpl.
  rewrite (field_schema_wellKnown _ _ _ _ f1 st s0) by done.
  rewrite bool_decide_true by done. simpl.
  rewrite (field_schema_wellKnown _ _ _ _ f2 _ (with_Description (f_Comment f1) s0)).
  - rewrite bool_decide_false by naive_solver. simpl. eexists _, _. split; [done|].
    simpl. rewrite !lookup_insert_eq. by destruct s0.
  - rewrite Ht2. apply lookup_insert_eq.
  - by rewrite Ht2.
  - done.
Qed.

(** *** The bare name comes first *)

(** The rule of the comment on [resolveFQN], that of the proto language: the
    enclosing scopes first, then the name as written. *)
Definition resolve_innermost (reg : Registry) (ty fqn : string) : string :=
  default ty (registered reg (enclosing ty fqn ++ [ty])).

Definition ex_scopes : Registry := {|
  Messages := {["Kind" := {| m_FullName := "Kind"; m_Name := "Kind"; m_Package := "";
                             m_Fields := []; m_Comment := "" |}]};
  Enums := {["demo.v1.Node.Kind" := {| e_FullName := "demo.v1.Node.Kind"; e_Values := [] |}]} |}.

(** The code departs from the rule its comment states: a type nested in the
    message is hidden by a registered top-level type of the same bare name; the
    two agree whenever the bare name is not registered. *)
Theorem resolveFQN_bare_first :
  resolveFQN ex_scopes "Kind" "demo.v1" "demo.v1.Node" = "Kind" ∧
  resolve_innermost ex_scopes "Kind" "demo.v1.Node" = "demo.v1.Node.Kind" ∧
  ∀ reg ty pkg t, inRegistry reg ty = false → pkg ≠ "" →
    resolveFQN reg ty pkg (pkg +:+ "." +:+ t) =
    resolve_innermost reg ty (pkg +:+ "." +:+ t).
Proof.
  split_and!; [vm_compute; reflexivity..|]. intros reg ty pkg t Hty Hpkg.
  rewrite resolveFQN_registered by (by destruct pkg). unfold resolve_innermost.
  rewrite registered_cons, !registered_app, Hty, registered_cons, Hty.
  destruct (registered reg (enclosing ty (pkg +:+ _))) eqn:Hn; [done|].
  destruct (registered reg (enclosing ty pkg)) as [n|] eqn:Hp; [|done].
  apply head_filter_elem in Hp as [Hr Hp]. rewrite registered_None in Hn.
  rewrite Hn in Hr; [done|]. by apply enclosing_package.
Qed.

(** ** Witnesses *)

#[local] Transparent wellKnownSchemas.

Section examples.

(** The example registry's only message, with nested and recursive types. *)
Definition ex_node : Message :=
  default {| m_FullName := ""; m_Name := ""; m_Package := ""; m_Fields := []; m_Comment := "" |}
    (Messages ex_registry !! "demo.v1.Node").

Definition ex_schema : JSONSchemaProps * gmap string JSONSchemaProps :=
  default (typed "" "", ∅) (MessageToSchema ex_registry ex_node wellKnownSchemas).

Lemma ex_schema_ok :
  MessageToSchema ex_registry ex_node wellKnownSchemas = Some (ex_schema.1, ex_schema.2).
Proof.
  unfold ex_schema.
  destruct (MessageToSchema_returns ex_registry ex_node wellKnownSchemas) as [[s st'] ->]. done.
Defined.

(** The node's children are nodes whose own children are unconstrained. *)
Example ex_schema_children :
  (λ p, (p_Type p, (λ i, match i with
     | Fresh c => (p_Type c, (λ g, p_Type g) <$> p_Properties c !! "children")
     | Shared n => (n, None) end) <$> p_Items p)) <$> p_Properties ex_schema.1 !! "children"
  = Some ("array", Some ("object", Some "array")).
Proof. vm_compute. reflexivity. Qed.

Lemma MessageToSchema_shape_witness :
  store_ok ex_schema.2 ∧
  shape (deref ex_schema.2 ex_schema.1) =
  ref_schema ex_registry (S (size (Messages ex_registry))) ex_node ∅.
Proof.
  destruct (MessageToSchema_shape ex_registry ex_node wellKnownSchemas _ _
    store_ok_init ex_schema_ok) as [H1 H2].
  split; [exact H1|exact (H2 _ H1)].
Defined.

Lemma MessageToSchema_structural_witness :
  structural (deref wellKnownSchemas ex_schema.1).
Proof.
  exact (MessageToSchema_structural ex_registry ex_node wellKnownSchemas _ _ wellKnownSchemas
    store_ok_init ex_schema_ok store_ok_init).
Defined.

Lemma MessageToSchema_properties_witness :
  length (m_Fields ex_node) = 4 ∧ p_Description ex_schema.1 = "A node." ∧
  dom (p_Properties ex_schema.1) = list_to_set ["id"; "labels"; "kind"; "children"].
Proof.
  assert (NoDup (f_Name <$> m_Fields ex_node)) as Hnd.
  { apply (bool_decide_unpack _). vm_compute. exact I. }
  split; [vm_compute; reflexivity|].
  destruct (MessageToSchema_properties ex_registry ex_node wellKnownSchemas _ _ Hnd ex_schema_ok)
    as (_ & H1 & _ & H2 & _).
  split; [exact H1|exact H2].
Defined.

Lemma resolveFQN_scoping_witness :
  resolveFQN ex_registry "Kind" "demo.v1" "demo.v1.Node" = "demo.v1.Node.Kind" ∧
  inRegistry ex_registry (resolveFQN ex_registry "Kind" "demo.v1" "demo.v1.Node") = true.
Proof.
  split; [vm_compute; reflexivity|].
  apply (resolveFQN_scoping ex_registry "Kind" "demo.v1" "demo.v1.Node").
  - discriminate.
  - right. exists "Node". reflexivity.
  - vm_compute. discriminate.
Defined.

Definition ex_kind : Enum :=
  {| e_FullName := "demo.v1.Node.Kind"; e_Values := ["LEAF"; "INNER"] |}.

Lemma enum_schema_values_witness :
  ∃ s, resolveMessageOrEnum ex_registry (λ _ _ _, None) "Kind" "demo.v1" "demo.v1.Node" ∅
         wellKnownSchemas = Some (Fresh s, wellKnownSchemas) ∧
    p_Type s = "string" ∧
    parse <$> p_Enum s = [Ok (JString "LEAF"); Ok (JString "INNER")].
Proof.
  apply (enum_schema_values ex_registry (λ _ _ _, None) "Kind" "demo.v1" "demo.v1.Node" ∅
    wellKnownSchemas ex_kind).
  - vm_compute. reflexivity.
  - set_solver.
  - vm_compute. reflexivity.
  - vm_compute. reflexivity.
  - repeat constructor.
Defined.

Definition ex_any (name comment : string) : Field := {|
  f_Name := name; f_Type := "google.protobuf.Any"; f_Repeated := false; f_MapKey := "";
  f_MapValue := ""; f_Comment := comment |}.

Definition ex_two : Message := {|
  m_FullName := "demo.v1.Two"; m_Name := "Two"; m_Package := "demo.v1";
  m_Fields := [ex_any "filter" "The filter."; ex_any "route" ""]; m_Comment := "" |}.

Lemma description_leak_witness :
  ∃ s st', MessageToSchema ex_registry ex_two wellKnownSchemas = Some (s, st') ∧
    p_Description <$> p_Properties s !! "route" = Some "The filter." ∧
    p_Description <$> st' !! "google.protobuf.Any" = Some "The filter.".
Proof.
  apply (description_leak ex_registry ex_two (ex_any "filter" "The filter.") (ex_any "route" "")
    "google.protobuf.Any" wellKnownSchemas).
  - by exists (preserving "object").
  - exact store_ok_init.
  - reflexivity.
  - by split_and!.
  - by split_and!.
Defined.

End examples.
