(* ===== verification/Generator.v ===== *)
(** * crd-gen/internal/generator/generator.go and crd-gen/cmd/root.go

    From a proto directory to CRD manifests.  The operating system's file
    operations are the class [OS] over an abstract state, YAML encoding, the
    Unicode lower-case table and the quoting of [%q] are parameters; progress
    messages are not modelled. *)

From S2P Require Import Prelude GoStrings ProtoParser Schema SchemaFacts Types Eds.

(** ** CustomResourceDefinition, as far as the generator fills it *)

Record CRDNames := {
  cn_Kind : string;
  cn_ListKind : string;
  cn_Plural : string;
  cn_Singular : string
}.

Record CRDVersion := {
  cv_Name : string;
  cv_Served : bool;
  cv_Storage : bool;
  cv_OpenAPIV3Schema : JSONSchemaProps;
  (** [Subresources.Status] is set *)
  cv_Status : bool
}.

Record CustomResourceDefinition := {
  crd_APIVersion : string;
  crd_TypeKind : string;
  crd_Name : string;
  crd_Annotations : gmap string string;
  crd_Group : string;
  crd_Names : CRDNames;
  crd_Scope : string;
  crd_Versions : list CRDVersion
}.

(** The manifest with the pointers of its schemas followed. *)
Definition deref_crd (st : store) (crd : CustomResourceDefinition) : CustomResourceDefinition := {|
  crd_APIVersion := crd_APIVersion crd; crd_TypeKind := crd_TypeKind crd;
  crd_Name := crd_Name crd; crd_Annotations := crd_Annotations crd;
  crd_Group := crd_Group crd; crd_Names := crd_Names crd; crd_Scope := crd_Scope crd;
  crd_Versions := (λ v, {|
    cv_Name := cv_Name v; cv_Served := cv_Served v; cv_Storage := cv_Storage v;
    cv_OpenAPIV3Schema := deref st (cv_OpenAPIV3Schema v); cv_Status := cv_Status v |})
    <$> crd_Versions crd |}.

(** ** Configuration *)

Record Config := {
  cfg_ProtoDir : string;
  cfg_OutDir : string;
  cfg_Group : string;
  cfg_Version : string;
  cfg_Messages : list string;
  cfg_KindExtraProps : gmap string (gmap string JSONSchemaProps)
}.

(** [var blockedMessages] *)
Definition blockedMessages : gmap string bool :=
  {["envoy.config.bootstrap.v3.Bootstrap" := true]}.

Definition blocked (fqn : string) : bool := default false (blockedMessages !! fqn).

(** An object with a description, required names and properties. *)
Definition required_object (description : string) (required : list string)
    (props : gmap string JSONSchemaProps) : JSONSchemaProps :=
  mkProps "object" "" description props None None [] None required None None.

Definition described (ty description : string) : JSONSchemaProps :=
  with_Description description (typed ty "").

(** The bounds of [kubernetesServiceRef.port]. *)
Definition port_schema : JSONSchemaProps :=
  mkProps "integer" "int32"
    "Port to expose as Envoy endpoints. If omitted, the first port of the Service is used."
    ∅ None None [] None [] (Some 1%Z) (Some 65535%Z).

Definition kubernetesServiceRef_schema : JSONSchemaProps :=
  required_object "Auto-discovers endpoints from a Kubernetes Service and synthesises a ClusterLoadAssignment in memory. The cluster spec must use type: EDS with ads: {} as the eds_config source."
    ["name"]
    (list_to_map [
      ("name", described "string" "Name of the Kubernetes Service.");
      ("namespace", described "string"
         "Namespace of the Service. Defaults to the Cluster CR's namespace.");
      ("port", port_schema)]).

(** [func kindExtraProps()] of cmd/root.go *)
Definition kindExtraProps : gmap string (gmap string JSONSchemaProps) :=
  {["Cluster" := {["kubernetesServiceRef" := kubernetesServiceRef_schema]}]}.

(** ** The operating system *)

Class OS (Sys : Type) := {
  (** [os.Lstat] and what a walk below the path finds *)
  Lstat : Sys → string → result error FSNode;
  (** [os.MkdirAll(path, 0o755)] *)
  MkdirAll : Sys → string → Sys * option error;
  (** [os.WriteFile(path, data, 0o644)] *)
  WriteFile : Sys → string → string → Sys * option error;
  (** What reading a file gives (not called by the generator). *)
  Contents : Sys → string → option string
}.

Section generator.
Context {Sys : Type} `{!OS Sys}.
Context (Parse : string → result error (list Visitee)).
Context (yaml_Marshal : CustomResourceDefinition → result error string).
Context (unicode_lower Quote : string → string).

Definition plural_of (msg : Message) : string := ToLower unicode_lower (m_Name msg) +:+ "s".

(** The reference to the proxy, lines 86-94. *)
Definition targetRef_schema : JSONSchemaProps :=
  required_object "Reference to the EnvoyProxy CR that this resource is assigned to." ["name"]
    (list_to_map [
      ("name", described "string" "Name of the EnvoyProxy CR.");
      ("namespace", described "string" "Namespace of the EnvoyProxy CR. Defaults to the namespace of this resource.")]).

(** [topLevelProps] after the loop over the extra properties of the kind. *)
Definition topLevelProps (spec : JSONSchemaProps) (extra : gmap string JSONSchemaProps)
    : gmap string JSONSchemaProps :=
  extra ∪ list_to_map [
    ("targetRef", targetRef_schema); ("spec", spec); ("status", preserving "object")].

(** [func buildCRD(msg, cfg, reg)]; [None] would be the converter running out
    of its depth bound. *)
Definition buildCRD (msg : Message) (cfg : Config) (reg : Registry) (st : store)
    : option (CustomResourceDefinition * store) :=
  let kind := m_Name msg in
  let plural := ToLower unicode_lower kind +:+ "s" in
  let singular := ToLower unicode_lower kind in
  '(specSchema, st) ← MessageToSchema reg msg st;
  let extra := default ∅ (cfg_KindExtraProps cfg !! kind) in
  let topLevelSchema := required_object "" ["targetRef"] (topLevelProps specSchema extra) in
  Some ({|
    crd_APIVersion := "apiextensions.k8s.io/v1";
    crd_TypeKind := "CustomResourceDefinition";
    crd_Name := plural +:+ "." +:+ cfg_Group cfg;
    crd_Annotations := {["mesh.iglin.io/proto-source" := m_FullName msg]};
    crd_Group := cfg_Group cfg;
    crd_Names := {| cn_Kind := kind; cn_ListKind := kind +:+ "List";
                    cn_Plural := plural; cn_Singular := singular |};
    crd_Scope := "Namespaced";
    crd_Versions := [{|
      cv_Name := cfg_Version cfg; cv_Served := true; cv_Storage := true;
      cv_OpenAPIV3Schema := topLevelSchema; cv_Status := true |}] |}, st).

(** [func marshalCRD(crd)]; the encoder follows the pointers. *)
Definition marshalCRD (crd : CustomResourceDefinition) (st : store) : result error string :=
  data ← yaml_Marshal (deref_crd st crd);
  Ok ("---" +:+ String "010" data).

Definition out_path (cfg : Config) (msg : Message) : string :=
  filepath_Join [cfg_OutDir cfg; plural_of msg +:+ "." +:+ cfg_Group cfg +:+ ".yaml"].

Definition not_found_error (fqn : string) : error :=
  ErrLib "" ("message " +:+ Quote fqn +:+
    " not found in proto directory — check the fully-qualified name").

(** The depth bound of the converter does not run out. *)
Definition out_of_depth : error := ErrLib "depth" "out of depth".

(** The loop of [Run]. *)
Fixpoint run_loop (cfg : Config) (reg : Registry) (fqns : list string) (os : Sys) (st : store)
    : Sys * store * option error :=
  match fqns with
  | [] => (os, st, None)
  | fqn :: fqns =>
      if blocked fqn then run_loop cfg reg fqns os st
      else
        match Messages reg !! fqn with
        | None => (os, st, Some (not_found_error fqn))
        | Some msg =>
            match buildCRD msg cfg reg st with
            | None => (os, st, Some out_of_depth)
            | Some (crd, st) =>
                match marshalCRD crd st with
                | Err err => (os, st, Some (ErrWrap ("marshaling CRD for " +:+ fqn) err))
                | Ok data =>
                    match WriteFile os (out_path cfg msg) data with
                    | (os, Some err) =>
                        (os, st, Some (ErrWrap ("writing " +:+ out_path cfg msg) err))
                    | (os, None) => run_loop cfg reg fqns os st
                    end
                end
            end
        end
  end.

(** [func Run(cfg Config) error] *)
Definition Run (cfg : Config) (os : Sys) (st : store) : Sys * store * option error :=
  match ParseDir Parse (cfg_ProtoDir cfg) (Lstat os (cfg_ProtoDir cfg)) with
  | (_, Some err) =>
      (os, st, Some (ErrWrap ("parsing proto directory " +:+ Quote (cfg_ProtoDir cfg)) err))
  | (reg, None) =>
      match MkdirAll os (cfg_OutDir cfg) with
      | (os, Some err) =>
          (os, st, Some (ErrWrap ("creating output directory " +:+ Quote (cfg_OutDir cfg)) err))
      | (os, None) => run_loop cfg reg (cfg_Messages cfg) os st
      end
  end.

(** The command's [RunE] *)
Definition RunE (cfg : Config) (os : Sys) (st : store) : Sys * store * option error :=
  Run {| cfg_ProtoDir := cfg_ProtoDir cfg; cfg_OutDir := cfg_OutDir cfg;
         cfg_Group := cfg_Group cfg; cfg_Version := cfg_Version cfg;
         cfg_Messages := cfg_Messages cfg; cfg_KindExtraProps := kindExtraProps |} os st.
End generator.

(** ** Contracts *)

Class OSLaws (Sys : Type) `{!OS Sys} := {
  write_contents : ∀ (os os' : Sys) p d,
    WriteFile os p d = (os', None) → Contents os' p = Some d;
  write_other : ∀ (os os' : Sys) p d e q,
    WriteFile os p d = (os', e) → q ≠ p → Contents os' q = Contents os q;
  mkdir_contents : ∀ (os os' : Sys) p e q,
    MkdirAll os p = (os', e) → Contents os' q = Contents os q
}.

(** A file system that satisfies them: a proto tree, the files written so far
    and the paths that cannot be written. *)
Record Disk := { dk_tree : FSNode; dk_files : gmap string string; dk_readonly : gset string }.

Definition disk_os : OS Disk := {|
  Lstat dk _ := Ok (dk_tree dk);
  MkdirAll dk _ := (dk, None);
  WriteFile dk p d :=
    if bool_decide (p ∈ dk_readonly dk) then (dk, Some (ErrLib "" "permission denied"))
    else ({| dk_tree := dk_tree dk; dk_files := <[p := d]> (dk_files dk);
             dk_readonly := dk_readonly dk |}, None);
  Contents dk p := dk_files dk !! p
|}.

Lemma disk_os_laws : @OSLaws Disk disk_os.
Proof.
  split; simpl.
  - intros dk dk' p d. case_bool_decide; intros; simplify_eq/=. apply lookup_insert_eq.
  - intros dk dk' p d e q. case_bool_decide; intros; simplify_eq/=; [done|].
    by apply lookup_insert_ne.
  - intros. by simplify_eq.
Qed.

(** ** Lemmas *)

Lemma structural_required_object d req props :
  (∀ k c, props !! k = Some c → structural c) → structural (required_object d req props).
Proof.
  intros Hprops. constructor; [|done..|].
  - split; simpl; [left; set_solver|split; [by intros []|done]|done..].
  - inversion 1; simplify_eq/=; eauto.
Qed.

Lemma shape_required_object d req props :
  shape (required_object d req props) = required_object "" req (shape <$> props).
Proof. done. Qed.

Lemma structural_described ty d :
  ty ∈ schema_types → ty ≠ "array" → structural (shape (described ty d)).
Proof.
  intros. unfold described. rewrite (shape_with_Description d). by apply (structural_typed ty).
Qed.

(** A schema all of whose listed properties have structural shapes. *)
Lemma structural_listed d req l :
  Forall (λ kc, structural (shape kc.2)) l →
  structural (shape (required_object d req (list_to_map l))).
Proof.
  intros Hl. rewrite shape_required_object. apply structural_required_object.
  intros k c. rewrite lookup_fmap_Some. intros (c' & <- & Hc%elem_of_list_to_map_2).
  rewrite Forall_forall in Hl. by apply (Hl (k, c')).
Qed.

(** One goal per listed property that is not a described scalar. *)
Ltac listed :=
  apply structural_listed; repeat (apply Forall_cons_2; [unfold snd|]); try apply Forall_nil_2;
  try (apply structural_described; [set_solver|done]).

Lemma structural_targetRef : structural (shape targetRef_schema).
Proof. listed. Qed.

Lemma structural_extra kind k c :
  default ∅ (kindExtraProps !! kind) !! k = Some c →
  k = "kubernetesServiceRef" ∧ structural (shape c).
Proof.
  unfold kindExtraProps. destruct (decide (kind = "Cluster")) as [->|?].
  - rewrite lookup_singleton_eq. simpl. intros [<- <-]%lookup_singleton_Some. split; [done|].
    listed.
    apply structural_leaf; [|done..].
    split; simpl; [left; set_solver|split; [by intros []|done]|done|by intros []|done].
  - by rewrite lookup_singleton_ne.
Qed.

Lemma structural_topLevel spec kind :
  structural (shape spec) →
  structural (shape (required_object "" ["targetRef"]
    (topLevelProps spec (default ∅ (kindExtraProps !! kind))))).
Proof.
  intros Hspec. rewrite shape_required_object. apply structural_required_object.
  intros k c. rewrite lookup_fmap_Some. intros (c' & <- & Hc). unfold topLevelProps in Hc.
  apply lookup_union_Some_raw in Hc as [Hc|[_ Hc%elem_of_list_to_map_2]];
    [by apply structural_extra in Hc as [_ ?]|].
  assert (Forall (λ kc, structural (shape kc.2))
    [("targetRef", targetRef_schema); ("spec", spec); ("status", preserving "object")]) as Hl.
  { repeat (apply Forall_cons_2; [unfold snd|]); [apply structural_targetRef|done| |apply Forall_nil_2].
    apply structural_preserving. by right. }
  rewrite Forall_forall in Hl. by apply (Hl (k, c')).
Qed.

(** The generator's own properties are not overwritten. *)
Lemma topLevelProps_base spec kind :
  let props := topLevelProps spec (default ∅ (kindExtraProps !! kind)) in
  props !! "targetRef" = Some targetRef_schema ∧ props !! "spec" = Some spec ∧
  props !! "status" = Some (preserving "object").
Proof.
  unfold topLevelProps. generalize targetRef_schema (preserving "object"). intros tr pr. simpl.
  assert (∀ k, k ≠ "kubernetesServiceRef" → default ∅ (kindExtraProps !! kind) !! k = None) as Hk.
  { intros k Hne. destruct (default ∅ _ !! k) eqn:He; [|done].
    by apply structural_extra in He as []. }
  rewrite !lookup_union_r by (by apply Hk). by simplify_map_eq.
Qed.

Section generator_facts.
Context {Sys : Type} `{!OS Sys, !OSLaws Sys}.
Context (Parse : string → result error (list Visitee)).
Context (yaml_Marshal : CustomResourceDefinition → result error string).
Context (unicode_lower Quote : string → string).

Definition requested (reg : Registry) (fqns : list string) (fqn : string) (msg : Message) : Prop :=
  fqn ∈ fqns ∧ blocked fqn = false ∧ Messages reg !! fqn = Some msg.

(** The bytes are the encoding of the message's CRD. *)
Definition file_of (cfg : Config) (reg : Registry) (msg : Message) (data : string) : Prop :=
  ∃ st1 crd st2, store_ok st1 ∧ store_ok st2 ∧
    buildCRD unicode_lower msg cfg reg st1 = Some (crd, st2) ∧
    marshalCRD yaml_Marshal crd st2 = Ok data.

Lemma buildCRD_store cfg reg msg st crd st' :
  buildCRD unicode_lower msg cfg reg st = Some (crd, st') → store_ok st → store_ok st'.
Proof.
  unfold buildCRD. intros ([s st1] & Hs & [= _ <-])%bind_Some Hst.
  by apply msgSchema_shape in Hs as [? _].
Qed.

Lemma buildCRD_returns cfg reg msg st : is_Some (buildCRD unicode_lower msg cfg reg st).
Proof.
  unfold buildCRD. destruct (MessageToSchema_returns reg msg st) as [[s st'] ->]. by eexists.
Qed.

Abbreviation run_loop := (run_loop yaml_Marshal unicode_lower Quote).
Abbreviation out_path := (out_path unicode_lower).

(** A successful loop, path by path: the file of a requested message that goes
    there, or what was there before when there is none. *)
Lemma run_loop_ok cfg reg fqns os st os' st' :
  run_loop cfg reg fqns os st = (os', st', None) → store_ok st →
  store_ok st' ∧
  (∀ fqn, fqn ∈ fqns → blocked fqn = false → is_Some (Messages reg !! fqn)) ∧
  ∀ p,
    (∃ fqn msg data, requested reg fqns fqn msg ∧ out_path cfg msg = p ∧
      file_of cfg reg msg data ∧ Contents os' p = Some data) ∨
    ((∀ fqn msg, requested reg fqns fqn msg → out_path cfg msg ≠ p) ∧
     Contents os' p = Contents os p).
Proof.
  revert os st. induction fqns as [|fqn fqns IH]; intros os st; simpl.
  { intros [= <- <-] Hst. split_and!; [done|by intros ? ?%elem_of_nil|].
    intros p. right. split; [|done]. by intros ? ? [?%elem_of_nil _]. }
  destruct (blocked fqn) eqn:Hb.
  { intros Hl Hst. destruct (IH _ _ Hl Hst) as (? & H1 & H2). split_and!; [done|..].
    - intros x [->|?]%elem_of_cons ?; [congruence|auto].
    - intros p. destruct (H2 p) as [(x & m & d & (? & ? & ?) & ?)|[Hn ?]]; [left|right].
      + exists x, m, d. split; [|done]. split_and!; [by right|done..].
      + split; [|done]. intros x m ([->|?]%elem_of_cons & ? & ?); [congruence|].
        by eapply Hn; split_and!. }
  destruct (Messages reg !! fqn) as [msg|] eqn:Hm; [|done].
  destruct (buildCRD _ _ _ _ _) as [[crd st1]|] eqn:Hc; [|done].
  destruct (marshalCRD _ _ _) as [data|] eqn:Hd; [|done].
  destruct (WriteFile _ _ _) as [os1 [err|]] eqn:Hw; [done|].
  intros Hl Hst. pose proof (buildCRD_store _ _ _ _ _ _ Hc Hst) as Hst1.
  destruct (IH _ _ Hl Hst1) as (? & H1 & H2). split_and!; [done|..].
  - intros x [->|?]%elem_of_cons ?; [by eexists|auto].
  - intros p. destruct (H2 p) as [(x & m & d & (? & ? & ?) & ?)|[Hn Hp]].
    { left. exists x, m, d. split; [|done]. split_and!; [by right|done..]. }
    destruct (decide (p = out_path cfg msg)) as [->|Hne].
    + left. exists fqn, msg, data. split; [split_and!; [by left|done..]|].
      split; [done|]. split; [by exists st, crd, st1|]. rewrite Hp. by eapply write_contents.
    + right. split; [|rewrite Hp; by eapply write_other].
      intros x m ([->|?]%elem_of_cons & ? & ?); [by simplify_eq|].
      by eapply Hn; split_and!.
Qed.

(** On every outcome only files of requested messages change. *)
Lemma run_loop_frame cfg reg fqns os st os' st' e p :
  run_loop cfg reg fqns os st = (os', st', e) →
  (∀ fqn msg, requested reg fqns fqn msg → out_path cfg msg ≠ p) →
  Contents os' p = Contents os p.
Proof.
  revert os st. induction fqns as [|fqn fqns IH]; intros os st; simpl; [by intros [= <- <- <-]|].
  intros Hl Hp. assert (∀ x m, requested reg fqns x m → out_path cfg m ≠ p) as Hp'.
  { intros x m (? & ? & ?). apply (Hp x m). split_and!; [by right|done..]. }
  destruct (blocked fqn) eqn:Hb; [by eapply IH|].
  destruct (Messages reg !! fqn) as [msg|] eqn:Hm; [|by simplify_eq].
  destruct (buildCRD _ _ _ _ _) as [[crd st1]|]; [|by simplify_eq].
  destruct (marshalCRD _ _ _) as [data|]; [|by simplify_eq].
  assert (out_path cfg msg ≠ p) as Hne by (apply (Hp fqn msg); split_and!; [by left|done..]).
  destruct (WriteFile _ _ _) as [os1 [err|]] eqn:Hw; simplify_eq;
    [by eapply write_other|]. rewrite (IH _ _ Hl Hp'). by eapply write_other.
Qed.

(** The loop over two lists. *)
Lemma run_loop_app cfg reg l k os st :
  run_loop cfg reg (l ++ k) os st =
  match run_loop cfg reg l os st with
  | (os, st, None) => run_loop cfg reg k os st
  | r => r
  end.
Proof.
  revert os st. induction l as [|fqn l IH]; intros os st; [done|]. simpl.
  destruct (blocked fqn); [apply IH|]. destruct (Messages reg !! fqn); [|done].
  destruct (buildCRD _ _ _ _ _) as [[crd st1]|]; [|done].
  destruct (marshalCRD _ _ _); [|done].
  destruct (WriteFile _ _ _) as [os1 [err|]]; [done|apply IH].
Qed.

Abbreviation Run := (Run Parse yaml_Marshal unicode_lower Quote).

(** The registry [Run] works with. *)
Definition parsed (cfg : Config) (os : Sys) : Registry :=
  (ParseDir Parse (cfg_ProtoDir cfg) (Lstat os (cfg_ProtoDir cfg))).1.

Lemma Run_ok cfg os st os' st' :
  Run cfg os st = (os', st', None) → store_ok st →
  (∀ fqn, fqn ∈ cfg_Messages cfg → blocked fqn = false →
    is_Some (Messages (parsed cfg os) !! fqn)) ∧
  ∀ p,
    (∃ fqn msg data, requested (parsed cfg os) (cfg_Messages cfg) fqn msg ∧
      out_path cfg msg = p ∧ file_of cfg (parsed cfg os) msg data ∧ Contents os' p = Some data) ∨
    ((∀ fqn msg, requested (parsed cfg os) (cfg_Messages cfg) fqn msg → out_path cfg msg ≠ p) ∧
     Contents os' p = Contents os p).
Proof.
  intros Hrun Hst. unfold Generator.Run in Hrun. unfold parsed.
  destruct (ParseDir _ _ _) as [reg [err|]]; [done|]. simpl.
  destruct (MkdirAll _ _) as [os1 [err|]] eqn:Hmk; [done|].
  apply run_loop_ok in Hrun as (_ & H1 & H2); [|done]. split; [done|].
  intros p. destruct (H2 p) as [?|[Hn ->]]; [by left|right]. split; [done|].
  by eapply mkdir_contents.
Qed.

Lemma Run_frame cfg os st os' st' e p :
  Run cfg os st = (os', st', e) →
  (∀ fqn msg, requested (parsed cfg os) (cfg_Messages cfg) fqn msg → out_path cfg msg ≠ p) →
  Contents os' p = Contents os p.
Proof.
  unfold Generator.Run, parsed. destruct (ParseDir _ _ _) as [reg [err|]]; [by intros; simplify_eq|].
  simpl. destruct (MkdirAll _ _) as [os1 [err|]] eqn:Hmk.
  - intros ? _. simplify_eq. by eapply mkdir_contents.
  - intros Hl Hp. rewrite (run_loop_frame _ _ _ _ _ _ _ _ _ Hl Hp). by eapply mkdir_contents.
Qed.

(** What makes a CRD acceptable to the API server. *)
Record crd_for (cfg : Config) (reg : Registry) (msg : Message) (crd : CustomResourceDefinition)
    (v : CRDVersion) (spec : JSONSchemaProps) : Prop := {
  cf_version : crd_Versions crd = [v];
  cf_version_name : cv_Name v = cfg_Version cfg;
  cf_served : cv_Served v = true;
  cf_storage : cv_Storage v = true;
  cf_group : crd_Group crd = cfg_Group cfg;
  cf_kind : cn_Kind (crd_Names crd) = m_Name msg;
  cf_name : crd_Name crd = cn_Plural (crd_Names crd) +:+ "." +:+ crd_Group crd;
  cf_required : p_Required (cv_OpenAPIV3Schema v) = ["targetRef"];
  cf_targetRef : p_Properties (cv_OpenAPIV3Schema v) !! "targetRef" = Some targetRef_schema;
  cf_spec : p_Properties (cv_OpenAPIV3Schema v) !! "spec" = Some spec;
  cf_status : p_Properties (cv_OpenAPIV3Schema v) !! "status" = Some (preserving "object");
  cf_shape : shape spec = ref_schema reg (S (size (Messages reg))) msg ∅;
  cf_structural : ∀ later, store_ok later → structural (deref later (cv_OpenAPIV3Schema v))
}.

Lemma buildCRD_for msg cfg reg st crd st' :
  cfg_KindExtraProps cfg = kindExtraProps → store_ok st →
  buildCRD unicode_lower msg cfg reg st = Some (crd, st') →
  ∃ v spec, crd_for cfg reg msg crd v spec.
Proof.
  intros Hextra Hst Hb. unfold buildCRD in Hb.
  apply bind_Some in Hb as ([spec st1] & Hs & [= <- _]).
  apply msgSchema_shape in Hs as [_ Hs]; [|done]. rewrite Hextra.
  destruct (topLevelProps_base spec (m_Name msg)) as (H1 & H2 & H3).
  eexists _, spec. split; [reflexivity..|exact H1|exact H2|exact H3|exact Hs|].
  intros later Hl. apply structural_deref; [done|]. apply structural_topLevel.
  rewrite Hs. apply structural_ref.
Qed.

(** ** Properties *)

(** [C24] A run that reports success has found every requested message that is
    not blocked, and the file of each holds the YAML of its CRD after a
    document separator, provided no other requested message goes to the same
    path; nothing but the files of requested messages has changed. *)
Theorem Run_generates cfg os st os' st'
    (Hst : store_ok st) (Hrun : Run cfg os st = (os', st', None)) :
  let reg := parsed cfg os in
  (∀ fqn, fqn ∈ cfg_Messages cfg → blocked fqn = false → is_Some (Messages reg !! fqn)) ∧
  (∀ fqn msg, requested reg (cfg_Messages cfg) fqn msg →
    (∀ fqn' msg', requested reg (cfg_Messages cfg) fqn' msg' →
      out_path cfg msg' = out_path cfg msg → msg' = msg) →
    ∃ data, file_of cfg reg msg data ∧ Contents os' (out_path cfg msg) = Some data) ∧
  (∀ p, (∀ fqn msg, requested reg (cfg_Messages cfg) fqn msg → out_path cfg msg ≠ p) →
    Contents os' p = Contents os p).
Proof.
  intros reg. destruct (Run_ok _ _ _ _ _ Hrun Hst) as [H1 H2]. split_and!; [done|..].
  - intros fqn msg Hreq Huniq. destruct (H2 (out_path cfg msg))
      as [(fqn' & msg' & data & Hreq' & Hp & Hf & Hc)|[Hn _]]; [|by destruct (Hn _ _ Hreq)].
    rewrite (Huniq _ _ Hreq' Hp) in Hf. eauto.
  - intros p Hp. destruct (H2 p) as [(fqn' & msg' & data & Hreq' & <- & _)|[_ ->]]; [|done].
    by destruct (Hp _ _ Hreq').
Qed.

(** A requested message that is neither blocked nor registered stops the
    run with an error naming it, after the files of the messages before it
    have been written and before any later one is; a blocked message does not
    stop it, registered or not. *)
Theorem Run_stops_at_missing cfg os os1 st reg pre fqn post os2 st2
    (Hparse : ParseDir Parse (cfg_ProtoDir cfg) (Lstat os (cfg_ProtoDir cfg)) = (reg, None))
    (Hmk : MkdirAll os (cfg_OutDir cfg) = (os1, None))
    (Hmsgs : cfg_Messages cfg = pre ++ fqn :: post)
    (Hpre : run_loop cfg reg pre os1 st = (os2, st2, None))
    (Hreg : Messages reg !! fqn = None) :
  Run cfg os st =
  if blocked fqn then run_loop cfg reg post os2 st2
  else (os2, st2, Some (not_found_error Quote fqn)).
Proof.
  unfold Generator.Run. rewrite Hparse, Hmk, Hmsgs, run_loop_app, Hpre. simpl.
  by rewrite Hreg.
Qed.

(** [C26] A generated CRD is one the API server can accept: it is named
    [plural.group], has exactly one version, served and stored, whose schema is
    structural when marshalled at any later point, requires [targetRef] and
    declares it, and has the message's schema under [spec]; the extra
    properties of the command never replace one of these. *)
Theorem buildCRD_valid msg cfg reg st crd st'
    (Hextra : cfg_KindExtraProps cfg = kindExtraProps) (Hst : store_ok st)
    (Hb : buildCRD unicode_lower msg cfg reg st = Some (crd, st')) :
  ∃ v spec, crd_Versions crd = [v] ∧ cv_Served v = true ∧ cv_Storage v = true ∧
    crd_Name crd = cn_Plural (crd_Names crd) +:+ "." +:+ crd_Group crd ∧
    p_Required (cv_OpenAPIV3Schema v) = ["targetRef"] ∧
    p_Properties (cv_OpenAPIV3Schema v) !! "targetRef" = Some targetRef_schema ∧
    p_Properties (cv_OpenAPIV3Schema v) !! "spec" = Some spec ∧
    p_Properties (cv_OpenAPIV3Schema v) !! "status" = Some (preserving "object") ∧
    shape spec = ref_schema reg (S (size (Messages reg))) msg ∅ ∧
    ∀ later, store_ok later → structural (deref later (cv_OpenAPIV3Schema v)).
Proof.
  destruct (buildCRD_for _ _ _ _ _ _ Hextra Hst Hb) as (v & spec & []). by exists v, spec.
Qed.

End generator_facts.

(** [C28] Ports across the two programs: with a port that the generated Cluster
    CRD accepts (within the [minimum] and [maximum] of
    [kubernetesServiceRef.port]), every endpoint the control plane synthesizes
    carries exactly that port, in 1..65535, whatever the slices contain. *)
Theorem crd_port_bounds n slices port
    (Hmin : ∀ m, p_Minimum port_schema = Some m → (m ≤ port)%Z)
    (Hmax : ∀ m, p_Maximum port_schema = Some m → (port ≤ m)%Z) :
  (p_Properties kubernetesServiceRef_schema !! "port" = Some port_schema) ∧
  Forall (λ e, lb_port e = port ∧ (1 ≤ lb_port e ≤ 65535)%Z)
    (cla_lb (SynthesizeCLA n slices (Some port))).
Proof.
  split; [reflexivity|]. pose proof (Hmin _ eq_refl). pose proof (Hmax _ eq_refl).
  rewrite SynthesizeCLA_lb. apply Forall_forall.
  intros e (slice & ep & a & _ & _ & _ & Hp & _ & _ & ->)%elem_of_lb_reference.
  unfold lb_port. simpl. unfold resolvePort in *. rewrite resolvePort_loop_want in *.
  case_bool_decide; [|done]. rewrite uint32_small by lia. lia.
Qed.

(** ** Examples and witnesses *)

Section examples.
Local Existing Instance disk_os.
Local Existing Instance disk_os_laws.

(** Two packages that both declare a [Node]. *)
Definition ex_v2 : list Visitee := [VPackage "demo.v2"; VMessage "Node" None []].
Definition ex_parse (text : string) : result error (list Visitee) :=
  if decide (text = "v2") then Ok ex_v2 else ex_Parse text.
Definition ex_disk : Disk := {|
  dk_tree := FSDir None [("a.proto", FSFile (Ok "node")); ("b.proto", FSFile (Ok "v2"))];
  dk_files := ∅; dk_readonly := ∅ |}.

(** A stand-in for YAML: the name of the CRD and the message it is made from. *)
Definition ex_yaml (crd : CustomResourceDefinition) : result error string :=
  Ok (crd_Name crd +:+ " " +:+ default "" (crd_Annotations crd !! "mesh.iglin.io/proto-source")).
Definition ex_quote (s : string) : string := String "034" (s +:+ String "034" "").

Definition ex_config (msgs : list string) : Config := {|
  cfg_ProtoDir := "proto"; cfg_OutDir := "crds"; cfg_Group := "mesh.iglin.io";
  cfg_Version := "v1alpha1"; cfg_Messages := msgs; cfg_KindExtraProps := kindExtraProps |}.

Definition ex_generate (msgs : list string) : Disk * store * option error :=
  Run ex_parse ex_yaml id ex_quote (ex_config msgs) ex_disk wellKnownSchemas.

Definition ex_bootstrap : string := "envoy.config.bootstrap.v3.Bootstrap".
Definition ex_msgs : list string := [ex_bootstrap; "demo.v1.Node"].

Lemma ex_generate_ok :
  ex_generate ex_msgs = ((ex_generate ex_msgs).1.1, (ex_generate ex_msgs).1.2, None).
Proof.
  assert ((ex_generate ex_msgs).2 = None) as H by (vm_compute; reflexivity).
  destruct (ex_generate ex_msgs) as [[os st] e]. simpl in *. by rewrite H.
Defined.

Definition ex_parsed : Registry := parsed ex_parse (ex_config ex_msgs) ex_disk.
Definition ex_v1_node : Message :=
  default {| m_FullName := ""; m_Name := ""; m_Package := ""; m_Fields := []; m_Comment := "" |}
    (Messages ex_parsed !! "demo.v1.Node").

Lemma Run_generates_witness :
  ∃ data, file_of ex_yaml id (ex_config ex_msgs) ex_parsed ex_v1_node data ∧
    Contents (ex_generate ex_msgs).1.1 "crds/nodes.mesh.iglin.io.yaml" = Some data.
Proof.
  destruct (Run_generates ex_parse ex_yaml id ex_quote (ex_config ex_msgs) ex_disk
    wellKnownSchemas _ _ store_ok_init ex_generate_ok) as (_ & H & _).
  apply (H "demo.v1.Node" ex_v1_node).
  - split; [right; left|]. split; vm_compute; reflexivity.
  - intros fqn' msg' (Hin & Hb & Hm) _.
    apply elem_of_cons in Hin as [->|Hin]; [vm_compute in Hb; discriminate Hb|].
    apply list_elem_of_singleton in Hin as ->. unfold ex_v1_node, ex_parsed. by rewrite Hm.
Defined.

Definition ex_missing : list string := ["demo.v1.Node"; "demo.v1.Gone"; "demo.v2.Node"].
Definition ex_pre := run_loop ex_yaml id ex_quote (ex_config ex_missing) ex_parsed
  ["demo.v1.Node"] ex_disk wellKnownSchemas.

Lemma Run_stops_at_missing_witness :
  ex_generate ex_missing =
    (ex_pre.1.1, ex_pre.1.2, Some (not_found_error ex_quote "demo.v1.Gone")) ∧
  Contents ex_pre.1.1 "crds/nodes.mesh.iglin.io.yaml" ≠ None.
Proof.
  split; [|vm_compute; discriminate].
  apply (Run_stops_at_missing ex_parse ex_yaml id ex_quote (ex_config ex_missing) ex_disk ex_disk
    wellKnownSchemas ex_parsed ["demo.v1.Node"] "demo.v1.Gone" ["demo.v2.Node"]).
  - vm_compute. reflexivity.
  - reflexivity.
  - reflexivity.
  - unfold ex_pre. assert (ex_pre.2 = None) as H by (vm_compute; reflexivity).
    unfold ex_pre in H. destruct (run_loop _ _ _ _ _ _ _ _) as [[? ?] ?]. simpl in *. by rewrite H.
  - vm_compute. reflexivity.
Defined.

Lemma buildCRD_valid_witness :
  ∃ crd st' v, buildCRD id ex_v1_node (ex_config ex_msgs) ex_parsed wellKnownSchemas
      = Some (crd, st') ∧
    crd_Name crd = "nodes.mesh.iglin.io" ∧ crd_Versions crd = [v] ∧
    structural (deref wellKnownSchemas (cv_OpenAPIV3Schema v)).
Proof.
  destruct (buildCRD id ex_v1_node (ex_config ex_msgs) ex_parsed wellKnownSchemas)
    as [[crd st']|] eqn:Hb; [|by destruct (buildCRD_returns id (ex_config ex_msgs) ex_parsed
      ex_v1_node wellKnownSchemas) as [? Hn]; rewrite Hb in Hn].
  destruct (buildCRD_valid id ex_v1_node (ex_config ex_msgs) ex_parsed wellKnownSchemas crd st'
    eq_refl store_ok_init Hb) as (v & spec & Hv & _ & _ & Hn & _ & _ & _ & _ & _ & Hs).
  exists crd, st', v. split; [reflexivity|]. split; [|split; [exact Hv|exact (Hs _ store_ok_init)]].
  unfold buildCRD in Hb. apply bind_Some in Hb as ([spec' st1] & _ & [= <- _]).
  vm_compute. reflexivity.
Defined.

Lemma crd_port_bounds_witness :
  (p_Properties kubernetesServiceRef_schema !! "port" = Some port_schema) ∧
  Forall (λ e, lb_port e = 8080%Z ∧ (1 ≤ lb_port e ≤ 65535)%Z)
    (cla_lb (SynthesizeCLA "c" [ex_slice] (Some 8080%Z))).
Proof. apply (crd_port_bounds "c" [ex_slice] 8080%Z); intros m [= <-]; lia. Defined.

(** Two requested messages with the same simple name in different packages
    are written to the same file: the run reports success, and the CRD of the
    first message is gone. *)
Theorem Run_overwrites_same_name :
  let msgs := ["demo.v1.Node"; "demo.v2.Node"] in
  (ex_generate msgs).2 = None ∧
  dom (dk_files (ex_generate msgs).1.1) = {["crds/nodes.mesh.iglin.io.yaml"]} ∧
  Contents (ex_generate msgs).1.1 "crds/nodes.mesh.iglin.io.yaml" =
    Some ("---" +:+ String "010" "nodes.mesh.iglin.io demo.v2.Node").
Proof.
  split; [vm_compute; reflexivity|]. split; [|vm_compute; reflexivity].
  apply (bool_decide_unpack _). vm_compute. exact I.
Qed.

End examples.
