(* ===== verification/CrdGen.v ===== *)
(** * crd-gen/cmd/root.go and crd-gen/main.go: the command

    The flags of the command and how they are bound to [cfg], [RunE] with the
    generator behind it, and the exit status.  Reading the command line
    against the flag definitions is cobra's: the class [Cobra], with what its
    documentation promises as [CobraLaws]. *)

From S2P Require Import Prelude GoStrings ProtoParser Schema SchemaFacts Generator.

(** ** Flags *)

Inductive FlagValue := VString (v : string) | VStrings (vs : list string).

Definition same_type (v w : FlagValue) : Prop :=
  match v, w with VString _, VString _ | VStrings _, VStrings _ => True | _, _ => False end.

#[global] Instance same_type_dec v w : Decision (same_type v w).
Proof. destruct v, w; apply _. Defined.

(** A flag of the command: its definition and the field it is bound to. *)
Record FlagDef := {
  fd_Name : string;
  fd_Shorthand : string;
  fd_Default : FlagValue;
  fd_Required : bool;
  fd_bind : FlagValue → Config → Config
}.

Definition set_ProtoDir (v : string) (c : Config) : Config := {|
  cfg_ProtoDir := v; cfg_OutDir := cfg_OutDir c; cfg_Group := cfg_Group c;
  cfg_Version := cfg_Version c; cfg_Messages := cfg_Messages c;
  cfg_KindExtraProps := cfg_KindExtraProps c |}.
Definition set_OutDir (v : string) (c : Config) : Config := {|
  cfg_ProtoDir := cfg_ProtoDir c; cfg_OutDir := v; cfg_Group := cfg_Group c;
  cfg_Version := cfg_Version c; cfg_Messages := cfg_Messages c;
  cfg_KindExtraProps := cfg_KindExtraProps c |}.
Definition set_Group (v : string) (c : Config) : Config := {|
  cfg_ProtoDir := cfg_ProtoDir c; cfg_OutDir := cfg_OutDir c; cfg_Group := v;
  cfg_Version := cfg_Version c; cfg_Messages := cfg_Messages c;
  cfg_KindExtraProps := cfg_KindExtraProps c |}.
Definition set_Version (v : string) (c : Config) : Config := {|
  cfg_ProtoDir := cfg_ProtoDir c; cfg_OutDir := cfg_OutDir c; cfg_Group := cfg_Group c;
  cfg_Version := v; cfg_Messages := cfg_Messages c;
  cfg_KindExtraProps := cfg_KindExtraProps c |}.
Definition set_Messages (vs : list string) (c : Config) : Config := {|
  cfg_ProtoDir := cfg_ProtoDir c; cfg_OutDir := cfg_OutDir c; cfg_Group := cfg_Group c;
  cfg_Version := cfg_Version c; cfg_Messages := vs;
  cfg_KindExtraProps := cfg_KindExtraProps c |}.

(** [f.StringVar(p, name, value, usage)] *)
Definition StringVar (set : string → Config → Config) (name value : string) : FlagDef := {|
  fd_Name := name; fd_Shorthand := ""; fd_Default := VString value; fd_Required := false;
  fd_bind := λ v c, match v with VString s => set s c | VStrings _ => c end |}.

(** [f.StringSliceVarP(p, name, shorthand, value, usage)] *)
Definition StringSliceVarP (set : list string → Config → Config)
    (name shorthand : string) (value : list string) : FlagDef := {|
  fd_Name := name; fd_Shorthand := shorthand; fd_Default := VStrings value;
  fd_Required := false;
  fd_bind := λ v c, match v with VStrings vs => set vs c | VString _ => c end |}.

(** [rootCmd.MarkFlagRequired(name)] *)
Definition MarkFlagRequired (name : string) (fs : list FlagDef) : list FlagDef :=
  (λ f, if bool_decide (fd_Name f = name)
        then {| fd_Name := fd_Name f; fd_Shorthand := fd_Shorthand f;
                fd_Default := fd_Default f; fd_Required := true; fd_bind := fd_bind f |}
        else f) <$> fs.

(** [func init()] *)
Definition root_flags : list FlagDef :=
  MarkFlagRequired "message" [
    StringVar set_ProtoDir "proto-dir" "../proto";
    StringVar set_OutDir "out-dir" "../crds";
    StringVar set_Group "group" "mesh.iglin.io";
    StringVar set_Version "version" "v1alpha1";
    StringSliceVarP set_Messages "message" "m" []].

(** [var cfg generator.Config] *)
Definition zero_config : Config := {|
  cfg_ProtoDir := ""; cfg_OutDir := ""; cfg_Group := ""; cfg_Version := "";
  cfg_Messages := []; cfg_KindExtraProps := ∅ |}.

(** Binding a flag stores its default. *)
Definition bind_defaults (fs : list FlagDef) (c : Config) : Config :=
  foldl (λ c f, fd_bind f (fd_Default f) c) c fs.

(** Setting a flag by name. *)
Definition set_value (fs : list FlagDef) (c : Config) (nv : string * FlagValue) : Config :=
  foldl (λ c f, if bool_decide (fd_Name f = nv.1) then fd_bind f nv.2 c else c) c fs.

(** ** cobra *)

(** [Execute] prints the help, rejects the command line, or calls [RunE] after
    setting the flags that were given. *)
Inductive cobra_outcome :=
| CobraHelp
| CobraReject (err : error)
| CobraRun (given : list (string * FlagValue)).

Class Cobra := { cobra_read : list FlagDef → list string → cobra_outcome }.

Class CobraLaws `{!Cobra} := {
  (** each flag is set once, to a value of its type *)
  given_once : ∀ fs args given, cobra_read fs args = CobraRun given → NoDup given.*1;
  given_typed : ∀ fs args given n v, cobra_read fs args = CobraRun given → (n, v) ∈ given →
    ∃ f, f ∈ fs ∧ fd_Name f = n ∧ same_type v (fd_Default f);
  (** required flags are given *)
  given_required : ∀ fs args given f, cobra_read fs args = CobraRun given → f ∈ fs →
    fd_Required f = true → fd_Name f ∈ given.*1
}.

Section command.
Context {Sys : Type} `{!OS Sys, !Cobra}.
Context (Parse : string → result error (list Visitee)).
Context (yaml_Marshal : CustomResourceDefinition → result error string).
Context (unicode_lower Quote : string → string).

(** The configuration [RunE] finds. *)
Definition config_of (given : list (string * FlagValue)) : Config :=
  foldl (set_value root_flags) (bind_defaults root_flags zero_config) given.

(** [rootCmd.Execute()] *)
Definition rootCmd_Execute (args : list string) (os : Sys) (st : store)
    : Sys * store * option error :=
  match cobra_read root_flags args with
  | CobraHelp => (os, st, None)
  | CobraReject err => (os, st, Some err)
  | CobraRun given => RunE Parse yaml_Marshal unicode_lower Quote (config_of given) os st
  end.

(** [func Execute()]: the exit status. *)
Definition Execute (args : list string) (os : Sys) (st : store) : Sys * store * Z :=
  match rootCmd_Execute args os st with
  | (os, st, Some _) => (os, st, 1%Z)
  | (os, st, None) => (os, st, 0%Z)
  end.

(** [func main()] of crd-gen *)
Definition crd_gen_main : list string → Sys → store → Sys * store * Z := Execute.
End command.

(** ** Lemmas *)

(** The value given for a flag, or the one it had. *)
Definition given_string (given : list (string * FlagValue)) (name value : string) : string :=
  match (list_to_map given : gmap string FlagValue) !! name with
  | Some (VString v) => v
  | _ => value
  end.
Definition given_strings (given : list (string * FlagValue)) (name : string)
    (value : list string) : list string :=
  match (list_to_map given : gmap string FlagValue) !! name with
  | Some (VStrings vs) => vs
  | _ => value
  end.

Definition config_from (c : Config) (given : list (string * FlagValue)) : Config := {|
  cfg_ProtoDir := given_string given "proto-dir" (cfg_ProtoDir c);
  cfg_OutDir := given_string given "out-dir" (cfg_OutDir c);
  cfg_Group := given_string given "group" (cfg_Group c);
  cfg_Version := given_string given "version" (cfg_Version c);
  cfg_Messages := given_strings given "message" (cfg_Messages c);
  cfg_KindExtraProps := cfg_KindExtraProps c |}.

Definition typed_value (nv : string * FlagValue) : Prop :=
  ∃ f, f ∈ root_flags ∧ fd_Name f = nv.1 ∧ same_type nv.2 (fd_Default f).

Lemma root_flags_typed n v :
  typed_value (n, v) →
  (n ∈ ["proto-dir"; "out-dir"; "group"; "version"] ∧ ∃ s, v = VString s) ∨
  (n = "message" ∧ ∃ vs, v = VStrings vs).
Proof.
  intros (f & Hf & Hn & Hv). simpl in Hn, Hv. subst n. unfold root_flags, MarkFlagRequired in Hf. simpl in Hf.
  repeat (apply elem_of_cons in Hf as [->|Hf]); [..|by apply elem_of_nil in Hf];
    simpl in *; destruct v; try done; (left; split; [set_solver|by eexists]) || (right; eauto).
Qed.

(** Setting one flag before the rest. *)
Lemma set_value_config c n v given :
  typed_value (n, v) → n ∉ given.*1 →
  config_from (set_value root_flags c (n, v)) given = config_from c ((n, v) :: given).
Proof.
  intros Ht Hn. apply not_elem_of_list_to_map_1 in Hn.
  unfold config_from, given_string, given_strings. simpl list_to_map.
  apply root_flags_typed in Ht as [[Hin [s ->]]|[-> [vs ->]]].
  - repeat (apply elem_of_cons in Hin as [->|Hin]); [..|by apply elem_of_nil in Hin];
      rewrite lookup_insert_eq, !lookup_insert_ne, Hn by done; reflexivity.
  - rewrite lookup_insert_eq, !lookup_insert_ne, Hn by done. reflexivity.
Qed.

Lemma config_from_spec given c :
  NoDup given.*1 → Forall typed_value given →
  foldl (set_value root_flags) c given = config_from c given.
Proof.
  revert c. induction given as [|[n v] given IH]; intros c; [by destruct c|].
  csimpl. rewrite NoDup_cons, Forall_cons. intros [Hn Hnd] [Ht Hall].
  rewrite IH by done. by apply set_value_config.
Qed.

Definition default_config : Config := {|
  cfg_ProtoDir := "../proto"; cfg_OutDir := "../crds"; cfg_Group := "mesh.iglin.io";
  cfg_Version := "v1alpha1"; cfg_Messages := []; cfg_KindExtraProps := ∅ |}.

Section command_facts.
Context {Sys : Type} `{!OS Sys, !Cobra, !CobraLaws}.
Context (Parse : string → result error (list Visitee)).
Context (yaml_Marshal : CustomResourceDefinition → result error string).
Context (unicode_lower Quote : string → string).

Lemma config_of_spec args given :
  cobra_read root_flags args = CobraRun given →
  config_of given = config_from default_config given.
Proof.
  intros Hread. unfold config_of. apply config_from_spec; [by eapply given_once|].
  apply Forall_forall. intros [n v] Hin. by eapply given_typed.
Qed.

(** What [RunE] runs the generator with. *)
Definition effective_config (given : list (string * FlagValue)) : Config :=
  let c := config_from default_config given in
  {| cfg_ProtoDir := cfg_ProtoDir c; cfg_OutDir := cfg_OutDir c;
     cfg_Group := cfg_Group c; cfg_Version := cfg_Version c;
     cfg_Messages := cfg_Messages c; cfg_KindExtraProps := kindExtraProps |}.

(** The exit status of crd-gen: 0 after the help, 1 when the command line
    is rejected; otherwise the generator runs with the value given for every
    flag or its default, a list of messages always being given, and with the
    extra properties of the kinds, and the status is 1 iff it fails. *)
Theorem Execute_status args os st :
  match cobra_read root_flags args with
  | CobraHelp => Execute Parse yaml_Marshal unicode_lower Quote args os st = (os, st, 0%Z)
  | CobraReject _ => Execute Parse yaml_Marshal unicode_lower Quote args os st = (os, st, 1%Z)
  | CobraRun given =>
      let '(os', st', err) :=
        Run Parse yaml_Marshal unicode_lower Quote (effective_config given) os st in
      Execute Parse yaml_Marshal unicode_lower Quote args os st =
        (os', st', match err with None => 0%Z | Some _ => 1%Z end) ∧
      ∃ vs, ("message", VStrings vs) ∈ given ∧ cfg_Messages (effective_config given) = vs
  end.
Proof.
  unfold Execute, rootCmd_Execute.
  destruct (cobra_read root_flags args) as [| |given] eqn:Hread; [done..|].
  pose proof (list_elem_of_lookup_2 root_flags 4 _ eq_refl) as Hf.
  pose proof (given_required _ _ _ _ Hread Hf eq_refl) as Hm.
  apply list_elem_of_fmap in Hm as ([n v] & Hn & Hin). simpl in Hn. subst n.
  destruct (root_flags_typed "message" v) as [[? _]|[_ [vs ->]]];
    [by eapply given_typed|set_solver|].
  unfold RunE. rewrite (config_of_spec args) by done. fold (effective_config given).
  destruct (Run _ _ _ _ _ os st) as [[os' st'] err]. split; [by destruct err|].
  exists vs. split; [done|]. simpl. unfold given_strings.
  by rewrite (elem_of_list_to_map_1 _ _ _ (given_once _ _ _ Hread) Hin).
Qed.
(** The text of a file [Run] writes for a message, and the CRD it encodes. *)
Definition file_holds (cfg : Config) (reg : Registry) (msg : Message) (data : string) : Prop :=
  ∃ crd v spec later text, crd_for cfg reg msg crd v spec ∧ store_ok later ∧
    yaml_Marshal (deref_crd later crd) = Ok text ∧ data = "---" +:+ String "010" text.

Lemma file_of_holds cfg reg msg data :
  cfg_KindExtraProps cfg = kindExtraProps →
  file_of yaml_Marshal unicode_lower cfg reg msg data → file_holds cfg reg msg data.
Proof.
  intros Hextra (st1 & crd & st2 & Hst1 & Hst2 & Hb & Hm).
  destruct (buildCRD_for _ _ _ _ _ _ _ Hextra Hst1 Hb) as (v & spec & Hcrd).
  apply bind_Ok in Hm as (text & Hm & [= <-]). by exists crd, v, spec, st2, text.
Qed.

Context `{!OSLaws Sys}.

End command_facts.

(** ** Witness: a command line of message names *)

Section examples.
Local Existing Instance disk_os.
Local Existing Instance disk_os_laws.

(** Takes every argument as a message; rejects any other command. *)
Definition ex_cobra : Cobra := {|
  cobra_read fs args :=
    if decide (Exists (λ f, fd_Name f = "message" ∧ same_type (VStrings args) (fd_Default f)) fs ∧
               Forall (λ f, fd_Required f = true → fd_Name f = "message") fs)
    then CobraRun [("message", VStrings args)]
    else CobraReject (ErrLib "" "unknown flag") |}.

Lemma ex_cobra_laws : @CobraLaws ex_cobra.
Proof.
  split; simpl.
  - intros fs args given. case_decide; intros; simplify_eq/=. apply NoDup_singleton.
  - intros fs args given n v. case_decide as Hd; intros; simplify_eq/=.
    destruct Hd as [(f & ? & ? & ?)%Exists_exists _].
    match goal with H : _ ∈ _ |- _ => apply list_elem_of_singleton in H; simplify_eq end.
    by exists f.
  - intros fs args given f. case_decide as Hd; intros; simplify_eq/=.
    destruct Hd as [_ Hd]. rewrite Forall_forall in Hd. rewrite (Hd f) by done. by left.
Qed.

Local Existing Instance ex_cobra.
Local Existing Instance ex_cobra_laws.

(** One message is generated; an unknown one fails. *)
Lemma Execute_status_witness :
  (Execute ex_parse ex_yaml id ex_quote ["demo.v1.Node"] ex_disk wellKnownSchemas).2 = 0%Z ∧
  (Execute ex_parse ex_yaml id ex_quote ["demo.v1.Gone"] ex_disk wellKnownSchemas).2 = 1%Z ∧
  ∃ vs, ("message", VStrings vs) ∈ [("message", VStrings ["demo.v1.Node"])].
Proof.
  split; [vm_compute; reflexivity|]. split; [vm_compute; reflexivity|].
  pose proof (Execute_status ex_parse ex_yaml id ex_quote ["demo.v1.Node"] ex_disk
    wellKnownSchemas) as H.
  replace (cobra_read root_flags ["demo.v1.Node"]) with
    (CobraRun [("message", VStrings ["demo.v1.Node"])]) in H by (vm_compute; reflexivity).
  cbv zeta in H. destruct (Run _ _ _ _ _ _ _) as [[os' st'] err].
  destruct H as [_ (vs & Hvs & _)]. exists vs. exact Hvs.
Defined.
Definition ex_main_run : Disk * store * Z :=
  crd_gen_main ex_parse ex_yaml id ex_quote ["demo.v1.Node"] ex_disk wellKnownSchemas.

End examples.
