(* ===== verification/Scheme.v ===== *)
(** * What the cluster must know: kinds, permissions and CRDs

    The registration of the API types (groupversion_info.go, the [init]
    functions of the type files, [init] of cmd/main.go), the RBAC markers of
    envoyproxy_controller.go with the roles of the manifests, and the calls of
    Steps.v: every call names a registered type and is permitted.  The CRDs
    crd-gen writes by default are those of the registered kinds.

    The scheme of apimachinery is the class [SchemeLib]; an RBAC rule permits
    a request when its three lists contain the request's group, resource and
    verb, as documented by Kubernetes. *)

From S2P Require Import Prelude Prog GoStrings Types Eds Server Snapshot Controller Reconcile System Steps.
From S2P Require Import ProtoParser Schema SchemaFacts Generator CrdGen.

(** ** Registration *)

Record GroupVersion := { gv_Group : string; gv_Version : string }.
#[global] Instance GroupVersion_eq_dec : EqDecision GroupVersion.
Proof. solve_decision. Defined.

Record GroupVersionKind := { gvk_gv : GroupVersion; gvk_Kind : string }.
#[global] Instance GroupVersionKind_eq_dec : EqDecision GroupVersionKind.
Proof. solve_decision. Defined.

Definition SchemeGroupVersion : GroupVersion :=
  {| gv_Group := "mesh.iglin.io"; gv_Version := "v1alpha1" |}.

(** [SchemeBuilder.Register(&T{}, &TList{})] of each file's [init]: the names of
    the Go types. *)
Definition cluster_init : list string := ["Cluster"; "ClusterList"].
Definition clusterloadassignment_init : list string :=
  ["ClusterLoadAssignment"; "ClusterLoadAssignmentList"].
Definition envoyproxy_init : list string := ["EnvoyProxy"; "EnvoyProxyList"].
Definition listener_init : list string := ["Listener"; "ListenerList"].
Definition routeconfiguration_init : list string :=
  ["RouteConfiguration"; "RouteConfigurationList"].
Definition scopedrouteconfiguration_init : list string :=
  ["ScopedRouteConfiguration"; "ScopedRouteConfigurationList"].

(** [SchemeBuilder] after the [init] functions, in the order of the files. *)
Definition registrations : list (list string) :=
  [cluster_init; clusterloadassignment_init; envoyproxy_init; listener_init;
   routeconfiguration_init; scopedrouteconfiguration_init].

(** [runtime.Scheme]; [clientgoscheme.AddToScheme] adds the built-in kinds. *)
Class SchemeLib (Scheme : Type) := {
  NewScheme : Scheme;
  AddKnownTypes : Scheme → GroupVersion → list string → Scheme;
  Recognizes : Scheme → GroupVersionKind → bool;
  clientgo_AddToScheme : Scheme → Scheme
}.

Definition discovery_v1 : GroupVersion :=
  {| gv_Group := "discovery.k8s.io"; gv_Version := "v1" |}.

Class SchemeLaws (Scheme : Type) `{!SchemeLib Scheme} := {
  new_scheme : ∀ gvk, Recognizes (NewScheme : Scheme) gvk = false;
  add_known : ∀ (s : Scheme) gv kinds gvk,
    Recognizes (AddKnownTypes s gv kinds) gvk =
    Recognizes s gvk || bool_decide (gvk_gv gvk = gv ∧ gvk_Kind gvk ∈ kinds);
  (** client-go knows EndpointSlices, and nothing of this group *)
  clientgo_slices : ∀ (s : Scheme) kind, kind ∈ ["EndpointSlice"; "EndpointSliceList"] →
    Recognizes (clientgo_AddToScheme s) {| gvk_gv := discovery_v1; gvk_Kind := kind |} = true;
  clientgo_frame : ∀ (s : Scheme) gvk, gv_Group (gvk_gv gvk) = "mesh.iglin.io" →
    Recognizes (clientgo_AddToScheme s) gvk = Recognizes s gvk
}.

(** [meshv1alpha1.AddToScheme] *)
Definition AddToScheme {Scheme} `{!SchemeLib Scheme} (s : Scheme) : Scheme :=
  foldl (λ s kinds, AddKnownTypes s SchemeGroupVersion kinds) s registrations.

(** [scheme] after [init] of cmd/main.go *)
Definition main_scheme {Scheme} `{!SchemeLib Scheme} : Scheme :=
  AddToScheme (clientgo_AddToScheme NewScheme).

(** ** Permissions *)

Record PolicyRule := {
  pr_apiGroups : list string;
  pr_resources : list string;
  pr_verbs : list string
}.

(** A list contains a name or the wildcard. *)
Definition rule_lists (names : list string) (name : string) : bool :=
  bool_decide (name ∈ names) || bool_decide ("*" ∈ names).

Definition permits (rules : list PolicyRule) (group resource verb : string) : bool :=
  existsb (λ r, rule_lists (pr_apiGroups r) group && rule_lists (pr_resources r) resource
                && rule_lists (pr_verbs r) verb) rules.

Definition marker (group : string) (resource : string) (verbs : list string) : PolicyRule :=
  {| pr_apiGroups := [group]; pr_resources := [resource]; pr_verbs := verbs |}.

(** The [+kubebuilder:rbac] markers above [Reconcile]. *)
Definition rbac_markers : list PolicyRule := [
  marker "mesh.iglin.io" "envoyproxies"
    ["get"; "list"; "watch"; "create"; "update"; "patch"; "delete"];
  marker "mesh.iglin.io" "envoyproxies/status" ["get"; "update"; "patch"];
  marker "mesh.iglin.io" "envoyproxies/finalizers" ["update"];
  marker "mesh.iglin.io" "listeners" ["get"; "list"; "watch"];
  marker "mesh.iglin.io" "clusters" ["get"; "list"; "watch"];
  marker "mesh.iglin.io" "routeconfigurations" ["get"; "list"; "watch"];
  marker "mesh.iglin.io" "scopedrouteconfigurations" ["get"; "list"; "watch"];
  marker "mesh.iglin.io" "clusterloadassignments" ["get"; "list"; "watch"];
  marker "discovery.k8s.io" "endpointslices" ["get"; "list"; "watch"]].

(** helm/templates/clusterrole.yaml *)
Definition helm_rules : list PolicyRule := [
  marker "mesh.iglin.io" "envoyproxies"
    ["get"; "list"; "watch"; "create"; "update"; "patch"; "delete"];
  marker "mesh.iglin.io" "envoyproxies/status" ["get"; "update"; "patch"];
  marker "mesh.iglin.io" "envoyproxies/finalizers" ["update"];
  {| pr_apiGroups := ["mesh.iglin.io"];
     pr_resources := ["listeners"; "clusters"; "routeconfigurations";
                      "scopedrouteconfigurations"; "clusterloadassignments"];
     pr_verbs := ["get"; "list"; "watch"] |};
  marker "discovery.k8s.io" "endpointslices" ["get"; "list"; "watch"]].

(** config/rbac/role.yaml, as checked in *)
Definition manager_role : list PolicyRule := [marker "" "pods" ["get"; "list"; "watch"]].

(** The roles of config/rbac for users, named by kind and level. *)
Inductive role_level := Admin | Editor | Viewer.

Definition level_verbs (level : role_level) : list string :=
  match level with
  | Admin => ["*"]
  | Editor => ["create"; "delete"; "get"; "list"; "patch"; "update"; "watch"]
  | Viewer => ["get"; "list"; "watch"]
  end.

(** config/rbac/<kind>_<level>_role.yaml; the kinds differ in the plural only. *)
Definition kind_role (plural : string) (level : role_level) : list PolicyRule := [
  marker "mesh.mesh.iglin.io" plural (level_verbs level);
  marker "mesh.mesh.iglin.io" (plural +:+ "/status") ["get"]].

(** config/rbac/leader_election_role.yaml and helm/templates/role.yaml *)
Definition leader_election_role : list PolicyRule :=
  let all := ["get"; "list"; "watch"; "create"; "update"; "patch"; "delete"] in [
  marker "" "configmaps" all;
  marker "coordination.k8s.io" "leases" all;
  marker "" "events" ["create"; "patch"]].

(** What leader election with a lease asks for (controller-runtime). *)
Definition leader_requests : list (string * string * list string) := [
  ("coordination.k8s.io", "leases", ["get"; "create"; "update"]);
  ("", "events", ["create"; "patch"])].

(** ** The calls *)

(** The type a read lists, its resource, and the API group of both. *)
Definition read_type {X} (q : read X) : GroupVersionKind * string :=
  match q with
  | RListener => ({| gvk_gv := SchemeGroupVersion; gvk_Kind := "ListenerList" |}, "listeners")
  | RCluster => ({| gvk_gv := SchemeGroupVersion; gvk_Kind := "ClusterList" |}, "clusters")
  | RRouteConfiguration =>
      ({| gvk_gv := SchemeGroupVersion; gvk_Kind := "RouteConfigurationList" |},
       "routeconfigurations")
  | RScopedRouteConfiguration =>
      ({| gvk_gv := SchemeGroupVersion; gvk_Kind := "ScopedRouteConfigurationList" |},
       "scopedrouteconfigurations")
  | RClusterLoadAssignment =>
      ({| gvk_gv := SchemeGroupVersion; gvk_Kind := "ClusterLoadAssignmentList" |},
       "clusterloadassignments")
  | REndpointSlice _ _ =>
      ({| gvk_gv := discovery_v1; gvk_Kind := "EndpointSliceList" |}, "endpointslices")
  end.

(** What a call asks of the API server: the type, the resource and the verbs.
    Reads go through the manager's cache, which lists and watches; calls to
    the xDS server ask nothing. *)
Definition requests_of {Snapshot X} (e : effect Snapshot X)
    : option (GroupVersionKind * string * list string) :=
  match e with
  | EGet _ => Some ({| gvk_gv := SchemeGroupVersion; gvk_Kind := "EnvoyProxy" |},
                    "envoyproxies", ["get"; "list"; "watch"])
  | ERead q => Some (read_type q, ["list"; "watch"])
  | EStatusUpdate _ => Some ({| gvk_gv := SchemeGroupVersion; gvk_Kind := "EnvoyProxy" |},
                             "envoyproxies/status", ["update"])
  | ESetSnapshot _ _ | EIsConnected _ => None
  end.

(** The types [SetupWithManager] watches. *)
Definition watched : list (GroupVersionKind * string) := [
  ({| gvk_gv := SchemeGroupVersion; gvk_Kind := "EnvoyProxy" |}, "envoyproxies");
  ({| gvk_gv := SchemeGroupVersion; gvk_Kind := "Listener" |}, "listeners");
  ({| gvk_gv := SchemeGroupVersion; gvk_Kind := "Cluster" |}, "clusters");
  ({| gvk_gv := SchemeGroupVersion; gvk_Kind := "RouteConfiguration" |}, "routeconfigurations");
  ({| gvk_gv := SchemeGroupVersion; gvk_Kind := "ScopedRouteConfiguration" |},
   "scopedrouteconfigurations");
  ({| gvk_gv := SchemeGroupVersion; gvk_Kind := "ClusterLoadAssignment" |},
   "clusterloadassignments");
  ({| gvk_gv := discovery_v1; gvk_Kind := "EndpointSlice" |}, "endpointslices")].

Definition permits_all (rules : list PolicyRule) (gvk : GroupVersionKind) (resource : string)
    (verbs : list string) : bool :=
  forallb (permits rules (gv_Group (gvk_gv gvk)) resource) verbs.

(** ** JSON names of the nested structs: the tag's name, and [omitempty] *)

Definition TargetRef_tags : list (string * bool) := [("name", false); ("namespace", true)].
Definition KubernetesServiceRef_tags : list (string * bool) :=
  [("name", false); ("namespace", true); ("port", true)].

(** The schema declares these properties and requires those always written. *)
Definition declares (schema : JSONSchemaProps) (tags : list (string * bool)) : Prop :=
  dom (p_Properties schema) = list_to_set tags.*1 ∧
  p_Required schema = (filter (λ t, t.2 = false) tags).*1.

(** The kinds that hold Envoy messages. *)
Definition xds_kinds : list string :=
  ["Listener"; "Cluster"; "RouteConfiguration"; "ScopedRouteConfiguration";
   "ClusterLoadAssignment"].

(** ** Lemmas *)

Section scheme_facts.
Context {Scheme : Type} `{!SchemeLib Scheme, !SchemeLaws Scheme}.

Lemma AddToScheme_Recognizes (s : Scheme) gvk :
  Recognizes (AddToScheme s) gvk =
  Recognizes s gvk ||
  bool_decide (gvk_gv gvk = SchemeGroupVersion ∧ gvk_Kind gvk ∈ mjoin registrations).
Proof.
  unfold AddToScheme. generalize registrations as regs. intros regs. revert s.
  induction regs as [|ks regs IH]; intros s; simpl.
  - rewrite bool_decide_false; [by rewrite orb_false_r|]. intros [_ ?%elem_of_nil]. done.
  - rewrite IH, add_known, <-orb_assoc. f_equal.
    apply eq_bool_prop_intro. rewrite orb_True, !bool_decide_spec, elem_of_app. naive_solver.
Qed.

Lemma main_scheme_mesh kind :
  Recognizes (main_scheme : Scheme) {| gvk_gv := SchemeGroupVersion; gvk_Kind := kind |} =
  bool_decide (kind ∈ mjoin registrations).
Proof.
  unfold main_scheme. rewrite AddToScheme_Recognizes, clientgo_frame, new_scheme by done.
  simpl. apply bool_decide_ext. naive_solver.
Qed.

Lemma main_scheme_slices kind :
  kind ∈ ["EndpointSlice"; "EndpointSliceList"] →
  Recognizes (main_scheme : Scheme) {| gvk_gv := discovery_v1; gvk_Kind := kind |} = true.
Proof.
  intros Hk. unfold main_scheme. by rewrite AddToScheme_Recognizes, clientgo_slices.
Qed.

Lemma kinds_listed kind :
  kind ∈ mjoin registrations ↔
  kind = "EnvoyProxy" ∨ kind = "EnvoyProxyList" ∨
  ∃ k, k ∈ xds_kinds ∧ (kind = k ∨ kind = k +:+ "List").
Proof.
  split.
  - intros Hk. unfold registrations in Hk. simpl in Hk.
    repeat (apply elem_of_cons in Hk as [->|Hk]); [..|by apply elem_of_nil in Hk]; auto;
      right; right.
    1-2: exists "Cluster". 3-4: exists "ClusterLoadAssignment". 5-6: exists "Listener".
    7-8: exists "RouteConfiguration". 9-10: exists "ScopedRouteConfiguration".
    all: split; [unfold xds_kinds; set_solver|auto].
  - intros [->|[->|(k & Hk & Hkind)]]; [by apply (bool_decide_unpack _)..|].
    unfold xds_kinds in Hk.
    repeat (apply elem_of_cons in Hk as [->|Hk]); [..|by apply elem_of_nil in Hk];
      destruct Hkind as [->| ->]; by apply (bool_decide_unpack _).
Qed.

(** ** Properties *)


Lemma xds_kind_names unicode_lower kind :
  kind ∈ xds_kinds →
  bool_decide (kind ∈ mjoin registrations) = true ∧
  bool_decide (kind +:+ "List" ∈ mjoin registrations) = true ∧
  forallb (permits rbac_markers "mesh.iglin.io" (ToLower unicode_lower kind +:+ "s"))
    ["get"; "list"; "watch"] = true.
Proof.
  intros Hk. rewrite ToLower_ascii.
  - unfold xds_kinds in Hk.
    repeat (apply elem_of_cons in Hk as [->|Hk]); [..|by apply elem_of_nil in Hk];
      by vm_compute.
  - unfold xds_kinds in Hk.
    repeat (apply elem_of_cons in Hk as [->|Hk]); [..|by apply elem_of_nil in Hk]; done.
Qed.

(** The roles for users grant nothing in the registered group, to admins
    either; they would grant their verbs in another one. *)
Theorem kind_roles_empty plural level resource verb :
  permits (kind_role plural level) (gv_Group SchemeGroupVersion) resource verb = false ∧
  permits (kind_role plural Admin) "mesh.mesh.iglin.io" plural verb = true.
Proof.
  split; [by destruct level|]. unfold permits, kind_role, rule_lists. simpl.
  rewrite (bool_decide_true (plural ∈ [plural])) by by left. simpl. by destruct (bool_decide (verb ∈ _)).
Qed.

(** Leader election needs the role of its own: that one permits it, the roles
    of the manager do not. *)
Theorem leader_election_permitted group resource verbs
    (Hin : (group, resource, verbs) ∈ leader_requests) :
  forallb (permits leader_election_role group resource) verbs = true ∧
  forallb (permits (rbac_markers ++ helm_rules ++ manager_role) group resource) verbs = false.
Proof.
  unfold leader_requests in Hin.
  repeat (apply elem_of_cons in Hin as [Hin|Hin]); [..|by apply elem_of_nil in Hin];
    simplify_eq; by vm_compute.
Qed.

Lemma targetRef_declares : declares targetRef_schema TargetRef_tags.
Proof. split; [by apply (bool_decide_unpack _)|done]. Qed.

Lemma kubernetesServiceRef_declares :
  declares kubernetesServiceRef_schema KubernetesServiceRef_tags.
Proof. split; [by apply (bool_decide_unpack _)|done]. Qed.

(** The properties of a kind: a Cluster may refer to a service, and no other. *)
Definition service_ref_for (kind : string) (props : gmap string JSONSchemaProps) : Prop :=
  if decide (kind = "Cluster")
  then ∃ ref, props !! "kubernetesServiceRef" = Some ref ∧ declares ref KubernetesServiceRef_tags
  else props !! "kubernetesServiceRef" = None.

Lemma topLevelProps_service_ref spec kind :
  service_ref_for kind (topLevelProps spec (default ∅ (kindExtraProps !! kind))).
Proof.
  unfold service_ref_for, topLevelProps, kindExtraProps. case_decide as Hk.
  - subst. rewrite lookup_singleton_eq. exists kubernetesServiceRef_schema.
    split; [|exact kubernetesServiceRef_declares].
    by apply lookup_union_Some_l, lookup_singleton_eq.
  - rewrite lookup_singleton_ne by congruence. rewrite lookup_union_r by done.
    apply not_elem_of_list_to_map_1. set_solver.
Qed.

(** What the control plane needs of a CRD for a kind. *)
Definition crd_serves (kind : string) (crd : CustomResourceDefinition) : Prop :=
  ∃ v target,
    crd_Versions crd = [v] ∧
    {| gv_Group := crd_Group crd; gv_Version := cv_Name v |} = SchemeGroupVersion ∧
    cn_Kind (crd_Names crd) = kind ∧
    (∀ k, k ∈ [cn_Kind (crd_Names crd); cn_ListKind (crd_Names crd)] →
      Recognizes (main_scheme : Scheme)
        {| gvk_gv := SchemeGroupVersion; gvk_Kind := k |} = true) ∧
    forallb (permits rbac_markers (crd_Group crd) (cn_Plural (crd_Names crd)))
      ["get"; "list"; "watch"] = true ∧
    p_Properties (cv_OpenAPIV3Schema v) !! "targetRef" = Some target ∧
    declares target TargetRef_tags ∧
    service_ref_for kind (p_Properties (cv_OpenAPIV3Schema v)).

Lemma built_serves unicode_lower cfg msg reg st crd st' :
  cfg_Group cfg = "mesh.iglin.io" → cfg_Version cfg = "v1alpha1" →
  cfg_KindExtraProps cfg = kindExtraProps → m_Name msg ∈ xds_kinds →
  buildCRD unicode_lower msg cfg reg st = Some (crd, st') → crd_serves (m_Name msg) crd.
Proof.
  intros Hgroup Hversion Hextra Hmsg Hb.
  destruct (xds_kind_names unicode_lower _ Hmsg) as (Hk1 & Hk2 & Hperm).
  unfold buildCRD in Hb. apply bind_Some in Hb as ([spec st1] & _ & [= <- _]).
  eexists _, targetRef_schema. split; [reflexivity|]. simpl.
  rewrite Hgroup, Hversion, Hextra. split; [done|]. split; [done|].
  split; [|split; [done|split; [exact (proj1 (topLevelProps_base spec (m_Name msg)))|
    split; [exact targetRef_declares|apply topLevelProps_service_ref]]]].
  intros kind Hkind. rewrite main_scheme_mesh.
  apply elem_of_cons in Hkind as [->|Hkind]; [done|].
  by apply list_elem_of_singleton in Hkind as ->.
Qed.

Context {Sys : Type} `{!OS Sys, !OSLaws Sys, !Cobra, !CobraLaws}.
Context (Parse : string → result error (list Visitee)).
Context (yaml_Marshal : CustomResourceDefinition → result error string).
Context (unicode_lower Quote : string → string).

(** [C20] The two programs agree: when crd-gen succeeds on a command line without
    a group or a version, the file of a requested message with the name of one
    of the five Envoy kinds (which no other requested message overwrites) holds
    the YAML of a CRD with the group, version, kind and list kind the control
    plane registers; its resource name is one the control plane may get, list
    and watch; the schema of [targetRef] declares and requires the JSON fields
    of the Go struct; and the CRD of Cluster, and no other, has
    [kubernetesServiceRef], with the fields of its Go struct. *)
Theorem crds_match_scheme args given (os os' : Sys) st' fqn msg
    (Hread : cobra_read root_flags args = CobraRun given)
    (Hgroup : "group" ∉ given.*1) (Hversion : "version" ∉ given.*1)
    (Hrun : crd_gen_main Parse yaml_Marshal unicode_lower Quote args os wellKnownSchemas =
      (os', st', 0%Z)) :
  let cfg := config_of given in
  let requested := requested (parsed Parse cfg os) (cfg_Messages cfg) in
  requested fqn msg → m_Name msg ∈ xds_kinds →
  (∀ fqn' msg', requested fqn' msg' →
    out_path unicode_lower cfg msg' = out_path unicode_lower cfg msg → msg' = msg) →
  ∃ crd later text,
    Contents os' (out_path unicode_lower cfg msg) = Some ("---" +:+ String "010" text) ∧
    yaml_Marshal (deref_crd later crd) = Ok text ∧ crd_serves (m_Name msg) crd.
Proof.
  cbv zeta. rewrite (config_of_spec args) by done. intros Hreq Hmsg Huniq.
  pose proof (Execute_status Parse yaml_Marshal unicode_lower Quote args os wellKnownSchemas)
    as Hex.
  rewrite Hread in Hex. unfold crd_gen_main in Hrun. rewrite Hrun in Hex.
  destruct (Run _ _ _ _ _ os _) as [[os1 st1] err] eqn:Hr. destruct Hex as [Hex _].
  destruct err as [err|]; simplify_eq.
  destruct (Run_ok _ _ _ _ _ _ _ _ _ Hr store_ok_init) as [_ H2].
  destruct (H2 (out_path unicode_lower (config_from default_config given) msg))
    as [(fqn' & msg' & data & Hreq' & Hp & Hf & Hc)|[Hn _]]; [|by destruct (Hn _ _ Hreq)].
  rewrite (Huniq _ _ Hreq' Hp) in Hf. destruct Hf as (before & crd & st2 & _ & _ & Hb & Hm).
  apply bind_Ok in Hm as (text & Hm & [= <-]). exists crd, st2, text. split; [done|].
  split; [done|]. apply not_elem_of_list_to_map_1 in Hgroup, Hversion.
  eapply built_serves, Hb; [| |done..]; simpl; unfold given_string;
    by rewrite ?Hgroup, ?Hversion.
Qed.
End scheme_facts.

(** ** Witnesses: a scheme as a list *)

Section examples.
Definition list_scheme : SchemeLib (list GroupVersionKind) := {|
  NewScheme := [];
  AddKnownTypes s gv kinds := s ++ ((λ k, {| gvk_gv := gv; gvk_Kind := k |}) <$> kinds);
  Recognizes s gvk := bool_decide (gvk ∈ s);
  clientgo_AddToScheme s := s ++
    [{| gvk_gv := discovery_v1; gvk_Kind := "EndpointSlice" |};
     {| gvk_gv := discovery_v1; gvk_Kind := "EndpointSliceList" |}] |}.

Lemma list_scheme_laws : @SchemeLaws _ list_scheme.
Proof.
  split; simpl.
  - done.
  - intros s gv kinds gvk. rewrite <-bool_decide_or. apply bool_decide_ext.
    rewrite elem_of_app, list_elem_of_fmap. destruct gvk as [gv' k]. simpl. naive_solver.
  - intros s kind Hk. apply bool_decide_true. rewrite elem_of_app. right. set_solver.
  - intros s [gv k] Hg. apply bool_decide_ext. rewrite elem_of_app. simpl in Hg.
    split; [|by left]. intros [?|Hin]; [done|].
    repeat (apply elem_of_cons in Hin as [Hin|Hin]); [..|by apply elem_of_nil in Hin];
      simplify_eq/=.
Qed.

Local Existing Instance list_scheme.
Local Existing Instance list_scheme_laws.


(** ** A proto directory with the Cluster message *)

Local Existing Instance disk_os.
Local Existing Instance disk_os_laws.
Local Existing Instance ex_cobra.
Local Existing Instance ex_cobra_laws.

Definition ex_cluster_parse (text : string) : result error (list Visitee) :=
  Ok [VPackage "envoy.config.cluster.v3"; VMessage "Cluster" None []].
Definition ex_protos : Disk := {|
  dk_tree := FSDir None [("cluster.proto", FSFile (Ok ""))]; dk_files := ∅; dk_readonly := ∅ |}.
Definition ex_cluster_name : string := "envoy.config.cluster.v3.Cluster".

(** The top-level properties of the CRD, as a stand-in for YAML. *)
Definition ex_props_yaml (crd : CustomResourceDefinition) : result error string :=
  Ok (String.concat " "
    (crd_Versions crd ≫= λ v, (map_to_list (p_Properties (cv_OpenAPIV3Schema v))).*1)).

Definition ex_crd_run : Disk * store * Z :=
  crd_gen_main ex_cluster_parse ex_props_yaml id ex_quote [ex_cluster_name] ex_protos
    wellKnownSchemas.

Lemma crds_match_scheme_witness :
  ex_crd_run.2 = 0%Z ∧
  ∃ crd text, Contents ex_crd_run.1.1 "../crds/clusters.mesh.iglin.io.yaml" =
      Some ("---" +:+ String "010" text) ∧
    crd_serves (Scheme := list GroupVersionKind) "Cluster" crd.
Proof.
  assert (ex_crd_run.2 = 0%Z) as Hcode by (vm_compute; reflexivity). split; [exact Hcode|].
  assert (crd_gen_main ex_cluster_parse ex_props_yaml id ex_quote [ex_cluster_name] ex_protos
    wellKnownSchemas = (ex_crd_run.1.1, ex_crd_run.1.2, 0%Z)) as Hrun.
  { rewrite <-Hcode. unfold ex_crd_run. by destruct (crd_gen_main _ _ _ _ _ _ _) as [[? ?] ?]. }
  assert (cobra_read root_flags [ex_cluster_name] =
    CobraRun [("message", VStrings [ex_cluster_name])]) as Hread by (vm_compute; reflexivity).
  destruct (crds_match_scheme (Scheme := list GroupVersionKind) ex_cluster_parse ex_props_yaml
    id ex_quote [ex_cluster_name] [("message", VStrings [ex_cluster_name])] ex_protos _ _
    ex_cluster_name
    {| m_FullName := ex_cluster_name; m_Name := "Cluster";
       m_Package := "envoy.config.cluster.v3"; m_Fields := []; m_Comment := "" |}
    Hread ltac:(by intros ?%list_elem_of_singleton)
    ltac:(by intros ?%list_elem_of_singleton) Hrun) as (crd & later & text & Hc & _ & Hs).
  - split; [left|]. split; vm_compute; reflexivity.
  - right. left.
  - intros fqn' msg' (Hin & _ & Hm) _. vm_compute in Hin.
    apply list_elem_of_singleton in Hin as ->. vm_compute in Hm. by injection Hm as <-.
  - exists crd, text. split; [exact Hc|exact Hs].
Defined.
End examples.
