(* ===== verification/TestUtils.v ===== *)
(** * control-plane/test/utils/utils.go: the text functions

    [GetNonEmptyLines] and [UncommentCode], with the functions of strings and
    bufio that utils.go uses.  Reading and writing files are parameters.  The
    functions that run commands are in TestCommands.v. *)

From S2P Require Import Prelude GoStrings.

(** ** strings.Index, strings.Contains, strings.ReplaceAll *)

(** The first position of [sub], if any ([-1] in Go). *)
Fixpoint Index (s sub : string) : option nat :=
  if HasPrefix s sub then Some 0
  else match s with "" => None | String _ s => S <$> Index s sub end.

Definition Contains (s sub : string) : bool := bool_decide (is_Some (Index s sub)).

(** [strings.ReplaceAll(s, old, new)] for a non-empty [old]; [skip] bytes of the
    last match are still to be passed over. *)
Fixpoint replace_from (skip : nat) (s old new : string) : string :=
  match s, skip with
  | "", _ => ""
  | String c s, S skip => replace_from skip s old new
  | String c s', O =>
      if HasPrefix s old then new +:+ replace_from (String.length old - 1) s' old new
      else String c (replace_from 0 s' old new)
  end.
Definition ReplaceAll (s old new : string) : string := replace_from 0 s old new.

(** ** bufio.Scanner over lines *)

Definition MaxScanTokenSize : Z := 65536.

(** A trailing carriage return is dropped. *)
Fixpoint dropCR (s : string) : string :=
  match s with
  | "" => ""
  | String c s => if bool_decide (s = "") && bool_decide (c = "013"%char) then ""
                  else String c (dropCR s)
  end.

(** The tokens: no empty last line, and nothing from a line on that does not
    fit the buffer. *)
Fixpoint scan_tokens (lines : list string) : list string :=
  match lines with
  | [] => []
  | line :: lines =>
      if bool_decide (line = "" ∧ lines = []) ||
         Z.leb MaxScanTokenSize (Z.of_nat (String.length line))
      then [] else dropCR line :: scan_tokens lines
  end.
Definition ScanLines (s : string) : list string := scan_tokens (Split s "010").

Definition newline : string := String "010" "".

(** ** The functions *)

(** [func GetNonEmptyLines(output string) []string] *)
Definition GetNonEmptyLines (output : string) : list string :=
  filter (λ element, element ≠ "") (Split output "010").

Section files.
Context (ReadFile : string → result error string).
Context (WriteFile : string → string → option error).
Context (Quote : string → string).

(** [func UncommentCode(filename, target, prefix string) error], and what is
    written to the file; writes to a [bytes.Buffer] do not fail. *)
Definition UncommentCode (filename target prefix : string) : option string * option error :=
  match ReadFile filename with
  | Err err => (None, Some (ErrWrap ("failed to read file " +:+ Quote filename) err))
  | Ok content =>
      match Index content target with
      | None => (None, Some (ErrLib "" ("unable to find the code " +:+ Quote target +:+
                                         " to be uncommented")))
      | Some idx =>
          match ScanLines target with
          | [] => (None, None)
          | lines =>
              let out := take_bytes idx content +:+
                Join ((λ line, TrimPrefix line prefix) <$> lines) newline +:+
                drop_bytes (idx + String.length target) content in
              (Some out, ErrWrap ("failed to write file " +:+ Quote filename)
                           <$> WriteFile filename out)
          end
      end
  end.
End files.

(** ** Lemmas *)

Lemma Split_Join ls sep :
  ls ≠ [] → Forall (λ l, has_byte sep l = false) ls → Split (Join ls (String sep "")) sep = ls.
Proof.
  intros Hne. induction 1 as [|l ls Hl Hls IH]; [done|].
  destruct ls as [|l' ls]; [by apply Split_no_byte|].
  rewrite Join_cons, string_app_cons, string_app_nil_l by done.
  rewrite Split_app_sep by done. by rewrite IH.
Qed.

Lemma dropCR_id s c : c ≠ "013"%char → dropCR (s +:+ String c "") = s +:+ String c "".
Proof.
  intros Hc. induction s as [|d s IH]; [simpl; by rewrite bool_decide_false|].
  rewrite string_app_cons. simpl. rewrite IH.
  destruct (bool_decide (s +:+ String c "" = "")) eqn:E; [|done].
  apply bool_decide_eq_true in E. by destruct s.
Qed.

(** A line the scanner returns as it is. *)
Definition plain_line (line : string) : Prop :=
  has_byte "010" line = false ∧ dropCR line = line ∧
  (Z.of_nat (String.length line) < MaxScanTokenSize)%Z.

Lemma scan_tokens_plain ls :
  Forall plain_line ls → last ls ≠ Some "" → scan_tokens ls = ls.
Proof.
  induction 1 as [|l ls (_ & Hcr & Hlen) Hls IH]; [done|]. intros Hlast. simpl.
  rewrite (proj2 (Z.leb_gt _ _) Hlen), Hcr, orb_false_r.
  destruct ls as [|l' ls].
  - rewrite bool_decide_false; [done|]. intros [-> _]. done.
  - rewrite bool_decide_false by naive_solver. f_equal. by apply IH.
Qed.

Lemma take_bytes_app s t : take_bytes (String.length s) (s +:+ t) = s.
Proof. induction s as [|c s IH]; [done|]. rewrite string_app_cons. simpl. by rewrite IH. Qed.

(** *** Searching *)

Lemma Contains_cons c s sub :
  Contains (String c s) sub = HasPrefix (String c s) sub || Contains s sub.
Proof.
  unfold Contains. cbn [Index]. destruct (HasPrefix (String c s) sub); [done|].
  apply bool_decide_ext. unfold is_Some. destruct (Index s sub); simpl; naive_solver.
Qed.

Lemma Contains_nil sub : sub ≠ "" → Contains "" sub = false.
Proof. by destruct sub. Qed.

Lemma HasPrefix_before sep l t sub :
  has_byte sep sub = false → HasPrefix (l +:+ String sep t) sub = HasPrefix l sub.
Proof.
  revert sub. induction l as [|c l IH]; intros [|d sub] Hs; try done;
    apply orb_false_iff in Hs as [Hd Hs]; apply bool_decide_eq_false_1 in Hd.
  - rewrite string_app_nil_l. simpl. by rewrite bool_decide_false by congruence.
  - rewrite string_app_cons. simpl. by rewrite IH.
Qed.

(** A text without the separator is found in a part or not at all. *)
Lemma Contains_app_sep sep l t sub :
  has_byte sep sub = false → sub ≠ "" →
  Contains (l +:+ String sep t) sub = Contains l sub || Contains t sub.
Proof.
  intros Hs Hne. induction l as [|c l IH].
  - rewrite string_app_nil_l, Contains_cons, (Contains_nil sub) by done.
    by rewrite <-(string_app_nil_l (String sep t)), (HasPrefix_before sep "") by done;
      destruct sub.
  - by rewrite string_app_cons, !Contains_cons, <-string_app_cons, HasPrefix_before, IH, orb_assoc.
Qed.

Lemma first_part sep s :
  has_byte sep s = false ∨ ∃ l t, s = l +:+ String sep t ∧ has_byte sep l = false.
Proof.
  induction s as [|c s IH]; [by left|]. destruct (decide (c = sep)) as [->|Hc].
  - right. by exists "", s.
  - destruct IH as [IH|(l & t & -> & Hl)].
    + left. simpl. by rewrite bool_decide_false by congruence.
    + right. exists (String c l), t. split; [done|]. simpl. by rewrite bool_decide_false by congruence.
Qed.

Lemma Contains_Split sep s sub :
  has_byte sep sub = false → sub ≠ "" →
  Contains s sub = existsb (λ l, Contains l sub) (Split s sep).
Proof.
  intros Hs Hne. remember (String.length s) as n eqn:Hn. revert s Hn.
  induction n as [n IH] using lt_wf_ind. intros s ->.
  destruct (first_part sep s) as [Hl|(l & t & -> & Hl)].
  - rewrite Split_no_byte by done. simpl. by rewrite orb_false_r.
  - rewrite Split_app_sep, Contains_app_sep by done. simpl. f_equal.
    eapply IH; [|done]. rewrite string_length_app. simpl. lia.
Qed.

(** Leaving out the empty lines loses no match. *)
Lemma Contains_lines output sub :
  has_byte "010" sub = false → sub ≠ "" →
  Contains output sub = existsb (λ line, Contains line sub) (GetNonEmptyLines output).
Proof.
  intros Hs Hne. rewrite (Contains_Split "010") by done. unfold GetNonEmptyLines.
  induction (Split output "010") as [|l ls IH]; [done|]. destruct (decide (l = "")) as [->|Hl].
  - rewrite filter_cons_False by tauto. simpl. by rewrite Contains_nil.
  - rewrite filter_cons_True by done. simpl. by rewrite IH.
Qed.

Lemma replace_from_none s old new :
  Index s old = None → replace_from 0 s old new = s.
Proof.
  induction s as [|c s IH]; [done|]. cbn [Index replace_from].
  destruct (HasPrefix (String c s) old); [done|]. intros Hi. f_equal. apply IH.
  by destruct (Index s old).
Qed.

(** ** Theorems *)

(** The lines of an output of non-empty lines, with or without a final line
    break, are recovered. *)
Theorem GetNonEmptyLines_Join ls (Hls : Forall (λ l, l ≠ "" ∧ has_byte "010" l = false) ls) :
  GetNonEmptyLines (Join ls newline) = ls ∧
  GetNonEmptyLines (Join ls newline +:+ newline) = ls.
Proof.
  destruct (decide (ls = [])) as [->|Hne]; [done|].
  assert (Split (Join ls newline) "010" = ls) as Hs.
  { apply Split_Join; [done|]. eapply Forall_impl; [exact Hls|]. by intros l []. }
  assert (filter (λ element, element ≠ "") ls = ls) as Hf.
  { clear Hne Hs. induction Hls as [|l ls [Hl _] _ IH]; [done|].
    by rewrite filter_cons_True, IH. }
  unfold GetNonEmptyLines. split; [by rewrite Hs|].
  change newline with (String "010" "") at 2. by rewrite Split_app, Hs, filter_app, Hf, app_nil_r.
Qed.

(** [C30] Commenting out and uncommenting: when the target, at its first occurrence
    in the file, is a block of lines with the comment prefix before each (no
    line longer than the scanner takes, none ending in a carriage return, the
    last one not empty), the file is written with the prefixes removed and
    nothing else changed. *)
Theorem UncommentCode_inverse ReadFile WriteFile Quote filename prefix a b ls
    (Hne : ls ≠ []) (Hlast : last ls ≠ Some "")
    (Hls : Forall (λ l, plain_line (prefix +:+ l)) ls)
    (Hread : ReadFile filename =
       Ok (a +:+ Join ((λ l, prefix +:+ l) <$> ls) newline +:+ b))
    (Hindex : Index (a +:+ Join ((λ l, prefix +:+ l) <$> ls) newline +:+ b)
       (Join ((λ l, prefix +:+ l) <$> ls) newline) = Some (String.length a)) :
  (UncommentCode ReadFile WriteFile Quote filename
     (Join ((λ l, prefix +:+ l) <$> ls) newline) prefix).1 =
  Some (a +:+ Join ls newline +:+ b).
Proof.
  set (target := Join _ newline) in *. unfold UncommentCode. rewrite Hread, Hindex.
  assert (ScanLines target = (λ l, prefix +:+ l) <$> ls) as ->.
  { unfold ScanLines, target, newline. rewrite Split_Join.
    - apply scan_tokens_plain; [by apply Forall_fmap|].
      rewrite fmap_last. destruct (last ls) as [l|] eqn:Hl; [|done]. simpl.
      intros [= Heq]. destruct prefix, l; try done.
    - by destruct ls.
    - apply Forall_fmap. eapply Forall_impl; [exact Hls|]. by intros l []. }
  assert (((λ line, TrimPrefix line prefix) <$> ((λ l, prefix +:+ l) <$> ls)) = ls) as Htrim.
  { rewrite <-list_fmap_compose. rewrite <-(list_fmap_id ls) at 2.
    apply list_fmap_ext. intros i l _. apply TrimPrefix_app. }
  destruct ((λ l, prefix +:+ l) <$> ls) as [|l0 ls0] eqn:Hl; [by destruct ls|].
  assert (drop_bytes (String.length a + String.length target) (a +:+ target +:+ b) = b) as Hdrop.
  { by rewrite <-string_length_app, <-(string_app_assoc a), drop_bytes_app. }
  rewrite Htrim. simpl. by rewrite take_bytes_app, Hdrop.
Qed.

(** ** Examples and witnesses *)

Definition ex_target : string := "# a: 1" +:+ newline +:+ "# b: 2".
Definition ex_file : string :=
  "kind: x" +:+ newline +:+ ex_target +:+ newline +:+ "end".

Example ex_uncommented :
  UncommentCode (λ _, Ok ex_file) (λ _ _, None) id "f" ex_target "# " =
  (Some ("kind: x" +:+ newline +:+ "a: 1" +:+ newline +:+ "b: 2" +:+ newline +:+ "end"), None).
Proof. vm_compute. reflexivity. Qed.

Lemma UncommentCode_inverse_witness :
  (UncommentCode (λ _, Ok ex_file) (λ _ _, None) id "f" ex_target "# ").1 =
  Some ("kind: x" +:+ newline +:+ ("a: 1" +:+ newline +:+ "b: 2") +:+ newline +:+ "end").
Proof.
  apply (UncommentCode_inverse (λ _, Ok ex_file) (λ _ _, None) id "f" "# "
    ("kind: x" +:+ newline) (newline +:+ "end") ["a: 1"; "b: 2"]).
  - discriminate.
  - discriminate.
  - repeat constructor; vm_compute; reflexivity.
  - vm_compute. reflexivity.
  - vm_compute. reflexivity.
Defined.

(** A line break at the end of the target is lost: the line after the target
    joins the last uncommented one. *)
Theorem UncommentCode_joins_lines :
  (UncommentCode (λ _, Ok ("# a" +:+ newline +:+ "b")) (λ _ _, None) id
     "f" ("# a" +:+ newline) "# ").1 = Some "ab".
Proof. vm_compute. reflexivity. Qed.
