(* ===== verification/TestCommands.v ===== *)
(** * control-plane/test/utils/utils.go: the functions that run commands

    [Run], [InstallCertManager], [UninstallCertManager],
    [IsCertManagerCRDsInstalled], [LoadImageToKindClusterWithName] and
    [GetProjectDir] as programs of Prog.v over the calls to os, os/exec and the
    Ginkgo writer.  The theorems hold for all answers these calls may give. *)

From S2P Require Import Prelude Prog GoStrings TestUtils.

Local Open Scope prog_scope.

(** ** Commands and calls *)

(** The fields of [exec.Cmd] in use. *)
Record Cmd := mkCmd { cmd_Args : list string; cmd_Dir : string; cmd_Env : list string }.

(** [exec.Command(name, arg...)]; that the name is not found is reported when
    the command is run. *)
Definition Command (name : string) (arg : list string) : Cmd := mkCmd (name :: arg) "" [].

Inductive host_call : Type → Type :=
| Getwd : host_call (string * option error)
| Chdir (dir : string) : host_call (option error)
| Environ : host_call (list string)
| LookupEnv (key : string) : host_call (option string)
(** [fmt.Fprintf(GinkgoWriter, ...)] *)
| Fprintf (text : string) : host_call unit
(** the output and the error of [cmd.CombinedOutput()] *)
| CombinedOutput (cmd : Cmd) : host_call (string * option error).

Abbreviation HostProg := (prog host_call).

Definition certmanagerVersion : string := "v1.20.2".
(** [fmt.Sprintf(certmanagerURLTmpl, version)] *)
Definition certmanagerURL (version : string) : string :=
  "https://github.com/cert-manager/cert-manager/releases/download/" +:+ version +:+
  "/cert-manager.yaml".
Definition defaultKindBinary : string := "kind".
Definition defaultKindCluster : string := "kind".

(** [func GetProjectDir() (string, error)] *)
Definition GetProjectDir : HostProg (string * option error) :=
  '(wd, err) ⇐ call Getwd;
  match err : option error with
  | Some err => Ret (wd, Some (ErrWrap "failed to get current working directory" err))
  | None => Ret (ReplaceAll wd "/test/e2e" "", None)
  end.

Section commands.
(** The verb [%q] *)
Context (Quote : string → string).

(** [func warnError(err error)] *)
Definition warnError (err : error) : HostProg unit :=
  call (Fprintf ("warning: " +:+ Error err +:+ newline)).

(** [func Run(cmd *exec.Cmd) (string, error)] *)
Definition Run (cmd : Cmd) : HostProg (string * option error) :=
  '(dir, _) ⇐ GetProjectDir;
  cd ⇐ call (Chdir dir);
  _ ⇐ match cd : option error with
      | Some err => call (Fprintf ("chdir dir: " +:+ Quote (Error err) +:+ newline))
      | None => Ret ()
      end;
  env ⇐ call Environ;
  let cmd := mkCmd (cmd_Args cmd) dir (env ++ ["GO111MODULE=on"]) in
  let command := Join (cmd_Args cmd) " " in
  _ ⇐ call (Fprintf ("running: " +:+ Quote command +:+ newline));
  '(output, err) ⇐ call (CombinedOutput cmd);
  match err : option error with
  | Some err =>
      Ret (output, Some (ErrWrap (Quote command +:+ " failed with error " +:+ Quote output) err))
  | None => Ret (output, None)
  end.

(** [if _, err := Run(cmd); err != nil { warnError(err) }] *)
Definition RunWarn (cmd : Cmd) : HostProg unit :=
  '(_, err) ⇐ Run cmd;
  match err : option error with Some err => warnError err | None => Ret () end.

Definition kubeSystemLeases : list string :=
  ["cert-manager-cainjector-leader-election"; "cert-manager-controller"].

Definition delete_lease (lease : string) : Cmd :=
  Command "kubectl" ["delete"; "lease"; lease;
    "-n"; "kube-system"; "--ignore-not-found"; "--force"; "--grace-period=0"].

Fixpoint delete_leases (leases : list string) : HostProg unit :=
  match leases with
  | [] => Ret ()
  | lease :: leases => _ ⇐ RunWarn (delete_lease lease); delete_leases leases
  end.

Definition delete_bundle : Cmd :=
  Command "kubectl" ["delete"; "-f"; certmanagerURL certmanagerVersion].

(** [func UninstallCertManager()] *)
Definition UninstallCertManager : HostProg unit :=
  _ ⇐ RunWarn delete_bundle; delete_leases kubeSystemLeases.

Definition apply_bundle : Cmd :=
  Command "kubectl" ["apply"; "-f"; certmanagerURL certmanagerVersion].
Definition wait_webhook : Cmd :=
  Command "kubectl" ["wait"; "deployment.apps/cert-manager-webhook";
    "--for"; "condition=Available"; "--namespace"; "cert-manager"; "--timeout"; "5m"].

(** [func InstallCertManager() error] *)
Definition InstallCertManager : HostProg (option error) :=
  '(_, err) ⇐ Run apply_bundle;
  match err : option error with
  | Some err => Ret (Some err)
  | None => '(_, err) ⇐ Run wait_webhook; Ret err
  end.

Definition certManagerCRDs : list string :=
  ["certificates.cert-manager.io"; "issuers.cert-manager.io"; "clusterissuers.cert-manager.io";
   "certificaterequests.cert-manager.io"; "orders.acme.cert-manager.io";
   "challenges.acme.cert-manager.io"].

Definition get_crds : Cmd := Command "kubectl" ["get"; "crds"].

(** [func IsCertManagerCRDsInstalled() bool] *)
Definition IsCertManagerCRDsInstalled : HostProg bool :=
  '(output, err) ⇐ Run get_crds;
  match err : option error with
  | Some _ => Ret false
  | None =>
      let crdList := GetNonEmptyLines output in
      Ret (existsb (λ crd, existsb (λ line, Contains line crd) crdList) certManagerCRDs)
  end.

(** [func LoadImageToKindClusterWithName(name string) error] *)
Definition LoadImageToKindClusterWithName (name : string) : HostProg (option error) :=
  v ⇐ call (LookupEnv "KIND_CLUSTER");
  let cluster := default defaultKindCluster v in
  let kindOptions := ["load"; "docker-image"; name; "--name"; cluster] in
  v ⇐ call (LookupEnv "KIND");
  let kindBinary := default defaultKindBinary v in
  '(_, err) ⇐ Run (Command kindBinary kindOptions);
  Ret err.
End commands.

(** ** What a run did *)

Definition ran_call {X} (e : host_call X) : X → option (Cmd * (string * option error)) :=
  match e in host_call X return X → option (Cmd * (string * option error)) with
  | CombinedOutput cmd => λ r, Some (cmd, r)
  | _ => λ _, None
  end.

Definition ran_event (ev : event_with host_call) : option (Cmd * (string * option error)) :=
  let '(Answered e x) := ev in ran_call e x.

(** The commands of a run, with their results. *)
Definition ran (tr : list (event_with host_call)) : list (Cmd * (string * option error)) :=
  omap ran_event tr.

(** The directory the answer of [os.Getwd] leads to. *)
Definition project_dir (wd : string) (err : option error) : string :=
  match err with Some _ => wd | None => ReplaceAll wd "/test/e2e" "" end.

Section facts.
Context (Quote : string → string).
Implicit Types (tr : list (event_with host_call)) (cmd : Cmd).

(** [fmt.Errorf("%q failed with error %q: %w", command, string(output), err)] *)
Definition failed cmd (r : string * option error) : option error :=
  ErrWrap (Quote (Join (cmd_Args cmd) " ") +:+ " failed with error " +:+ Quote r.1) <$> r.2.

(** How [Run] runs a command: in the project directory, which it has tried to
    change to, with the environment and one more variable. *)
Record prepared tr cmd cmd' : Prop := {
  pp_args : cmd_Args cmd' = cmd_Args cmd;
  pp_dir : ∃ wd err, Answered Getwd (wd, err) ∈ tr ∧ cmd_Dir cmd' = project_dir wd err;
  pp_cd : ∃ err, Answered (Chdir (cmd_Dir cmd')) err ∈ tr;
  pp_env : ∃ env, Answered Environ env ∈ tr ∧ cmd_Env cmd' = env ++ ["GO111MODULE=on"]
}.

Lemma prepared_app tr1 tr tr2 cmd cmd' : prepared tr cmd cmd' → prepared (tr1 ++ tr ++ tr2) cmd cmd'.
Proof. intros [? (? & ? & ? & ?) [? ?] (? & ? & ?)]. split; eauto 10 using elem_of_app. all: set_solver. Qed.

Lemma ran_app tr1 tr2 : ran (tr1 ++ tr2) = ran tr1 ++ ran tr2.
Proof. apply omap_app. Qed.

Lemma GetProjectDir_behaves tr dir e :
  behaves GetProjectDir tr (dir, e) →
  ∃ wd err, tr = [Answered Getwd (wd, err)] ∧ dir = project_dir wd err.
Proof.
  intros ([wd [err|]] & ? & -> & ? & ?); simplify_eq/=; [by exists wd, (Some err)|by exists wd, None].
Qed.

(** Every run of [Run] runs one command and returns what came of it. *)
Lemma Run_behaves cmd tr res :
  behaves (Run Quote cmd) tr res →
  ∃ cmd' r, ran tr = [(cmd', r)] ∧ prepared tr cmd cmd' ∧ res = (r.1, failed cmd r).
Proof.
  intros (tr1 & [dir e] & tr2 & -> & (wd & err & -> & ->)%GetProjectDir_behaves & Hrun)%behaves_bind.
  set (dir := project_dir wd err) in *. destruct Hrun as (cd & tr3 & -> & Hrun).
  cbn [prog_bind] in Hrun.
  apply behaves_bind in Hrun as (tr4 & [] & tr5 & -> & Hcd & Hrun).
  assert (ran tr4 = []) as Hr4.
  { destruct cd; simpl in Hcd; [by destruct Hcd as ([] & ? & -> & -> & _)|by destruct Hcd as [-> _]]. }
  destruct Hrun as (env & ? & -> & [] & ? & -> & [out rerr] & ? & -> & Hres).
  exists (mkCmd (cmd_Args cmd) dir (env ++ ["GO111MODULE=on"])), (out, rerr). split_and!.
  - cbn. unfold ran in *. rewrite omap_app, Hr4. by destruct rerr; destruct Hres as [-> _].
  - split; simpl; [done|exists wd, err|exists cd|exists env]; split_and?; try done; set_solver.
  - by destruct rerr; destruct Hres as [_ ->].
Qed.

Lemma RunWarn_behaves cmd tr :
  behaves (RunWarn Quote cmd) tr () →
  ∃ cmd' r, ran tr = [(cmd', r)] ∧ prepared tr cmd cmd' ∧
    ∀ err, failed cmd r = Some err →
      Answered (Fprintf ("warning: " +:+ Error err +:+ newline)) () ∈ tr.
Proof.
  intros (tr1 & res & tr2 & -> & (cmd' & r & Hr & Hp & ->)%Run_behaves & Hw)%behaves_bind.
  exists cmd', r. destruct (failed cmd r) as [err|]; simpl in Hw.
  - destruct Hw as ([] & ? & -> & -> & _). rewrite ran_app, Hr. split; [done|].
    split; [by apply (prepared_app [])|]. intros ? [= <-]. set_solver.
  - destruct Hw as [-> _]. by rewrite app_nil_r.
Qed.

(** The run has run these commands, in order, each prepared, and no other. *)
Definition runs tr (cmds : list Cmd) : Prop :=
  Forall2 (λ cmd cr, prepared tr cmd cr.1) cmds (ran tr).

Lemma runs_one tr cmd cmd' r : ran tr = [(cmd', r)] → prepared tr cmd cmd' → runs tr [cmd].
Proof. intros Hr Hp. unfold runs. rewrite Hr. by apply Forall2_cons. Qed.

Lemma runs_app tr1 tr2 cmds1 cmds2 :
  runs tr1 cmds1 → runs tr2 cmds2 → runs (tr1 ++ tr2) (cmds1 ++ cmds2).
Proof.
  unfold runs. rewrite ran_app. intros H1 H2. apply Forall2_app.
  - eapply Forall2_impl; [exact H1|]. intros ?? ?. by apply (prepared_app []).
  - eapply Forall2_impl; [exact H2|]. intros ?? ?.
    rewrite <-(app_nil_r tr2). by apply (prepared_app tr1).
Qed.

(** Every failure has been written to the log. *)
Definition all_warned tr : Prop :=
  ∀ cmd r err, (cmd, r) ∈ ran tr → failed cmd r = Some err →
    Answered (Fprintf ("warning: " +:+ Error err +:+ newline)) () ∈ tr.

Lemma RunWarn_runs cmd tr :
  behaves (RunWarn Quote cmd) tr () → runs tr [cmd] ∧ all_warned tr.
Proof.
  intros (cmd' & r & Hr & Hp & Hw)%RunWarn_behaves. split; [by eapply runs_one|].
  intros c r' err. rewrite Hr. intros [= -> ->]%list_elem_of_singleton Hf. apply Hw.
  unfold failed in *. by rewrite <-(pp_args _ _ _ Hp).
Qed.

Lemma all_warned_app tr1 tr2 : all_warned tr1 → all_warned tr2 → all_warned (tr1 ++ tr2).
Proof.
  intros H1 H2 cmd r err. rewrite ran_app, !elem_of_app.
  intros [?|?] ?; [left; by eapply H1|right; by eapply H2].
Qed.

Lemma delete_leases_runs leases tr :
  behaves (delete_leases Quote leases) tr () →
  runs tr (delete_lease <$> leases) ∧ all_warned tr.
Proof.
  revert tr. induction leases as [|l leases IH]; intros tr.
  - intros [-> _]. split; [constructor|]. intros c r err Hin. by apply elem_of_nil in Hin.
  - intros (tr1 & [] & tr2 & -> & [Hr1 Hw1]%RunWarn_runs & [Hr2 Hw2]%IH)%behaves_bind.
    split; [by apply (runs_app _ _ [_])|by apply all_warned_app].
Qed.

Lemma crd_names crd : crd ∈ certManagerCRDs → has_byte "010" crd = false ∧ crd ≠ "".
Proof. revert crd. apply Forall_forall. by repeat constructor. Qed.

(** ** Theorems *)

(** [C36] Installing and uninstalling cert-manager, whatever the commands
    answer: uninstalling runs the deletion of the bundle and of each lease, in
    order, also after failures, and writes a warning for every failure;
    installing runs the wait for the webhook iff applying the bundle
    succeeded, and returns the error of the last command it ran.  Every
    command runs in the project directory with the same extra variable. *)
Theorem cert_manager_commands tr :
  (behaves (UninstallCertManager Quote) tr () →
    runs tr (delete_bundle :: (delete_lease <$> kubeSystemLeases)) ∧ all_warned tr) ∧
  (∀ err, behaves (InstallCertManager Quote) tr err →
    ∃ cmd1 r1, head (ran tr) = Some (cmd1, r1) ∧
      match failed apply_bundle r1 with
      | Some err1 => runs tr [apply_bundle] ∧ err = Some err1
      | None => runs tr [apply_bundle; wait_webhook] ∧
          ∃ cmd2 r2, last (ran tr) = Some (cmd2, r2) ∧ err = failed wait_webhook r2
      end).
Proof.
  split.
  - intros (tr1 & [] & tr2 & -> & [Hr1 Hw1]%RunWarn_runs & [Hr2 Hw2]%delete_leases_runs)%behaves_bind.
    split; [by apply (runs_app _ _ [_])|by apply all_warned_app].
  - intros err (tr1 & res & tr2 & -> & (cmd1 & r1 & Hr1 & Hp1 & ->)%Run_behaves & H)%behaves_bind.
    exists cmd1, r1. rewrite ran_app, Hr1. split; [done|].
    destruct (failed apply_bundle r1) as [err1|].
    + destruct H as [-> ->]. rewrite app_nil_r. split; [by eapply runs_one|done].
    + apply behaves_bind in H as (tr3 & res & tr4 & -> & (cmd2 & r2 & Hr2 & Hp2 & ->)%Run_behaves & H).
      destruct H as [-> ->]. rewrite app_nil_r, Hr2.
      split; [|by exists cmd2, r2]. apply (runs_app _ _ [_] [_]); by eapply runs_one.
Qed.

(** cert-manager counts as installed iff [kubectl get crds] succeeds and one
    of the six names occurs anywhere in its output. *)
Theorem IsCertManagerCRDsInstalled_exact tr b
    (Hrun : behaves (IsCertManagerCRDsInstalled Quote) tr b) :
  ∃ cmd r, ran tr = [(cmd, r)] ∧ runs tr [get_crds] ∧
    (b = true ↔ r.2 = None ∧ ∃ crd, crd ∈ certManagerCRDs ∧ Contains r.1 crd = true).
Proof.
  apply behaves_bind in Hrun as (tr1 & res & tr2 & -> & (cmd & [out err] & Hr & Hp & ->)%Run_behaves & H).
  exists cmd, (out, err). destruct err as [err|]; destruct H as [-> ->];
    rewrite app_nil_r, Hr; (split; [done|]; split; [by eapply runs_one|]); [naive_solver|].
  rewrite existsb_exists. setoid_rewrite <-list_elem_of_In. split.
  - intros (crd & Hin & Hb). split; [done|]. exists crd. split; [done|].
    by rewrite Contains_lines by by apply crd_names.
  - intros (_ & crd & Hin & Hb). exists crd. split; [done|].
    by rewrite <-Contains_lines by by apply crd_names.
Qed.

(** The image is loaded with the binary and into the cluster the environment
    names, or kind. *)
Theorem LoadImageToKindClusterWithName_exact name tr err
    (Hrun : behaves (LoadImageToKindClusterWithName Quote name) tr err) :
  ∃ cluster binary cmd r,
    Answered (LookupEnv "KIND_CLUSTER") cluster ∈ tr ∧ Answered (LookupEnv "KIND") binary ∈ tr ∧
    ran tr = [(cmd, r)] ∧
    cmd_Args cmd = [default "kind" binary; "load"; "docker-image"; name; "--name";
                    default "kind" cluster] ∧
    err = failed cmd r.
Proof.
  destruct Hrun as (cluster & ? & -> & binary & tr1 & -> & Hrun). cbn [prog_bind] in Hrun.
  apply behaves_bind in Hrun as (tr2 & res & tr3 & -> & (cmd & r & Hr & Hp & ->)%Run_behaves & H).
  destruct H as [-> ->]. exists cluster, binary, cmd, r. split; [set_solver|]. split; [set_solver|].
  split; [by rewrite app_nil_r|]. split; [apply (pp_args _ _ _ Hp)|].
  unfold failed. by rewrite (pp_args _ _ _ Hp).
Qed.
End facts.

(** ** On a machine: the working directory

    [Run] changes the directory of the whole process, and the next [Run] starts
    from there. *)

Record Machine := mkMachine {
  mc_cwd : string;
  mc_env : list string;
  mc_ran : list Cmd;
  mc_log : list string
}.

Section machine.
Context (Quote : string → string).
(** The directories there are, the variables, and what commands answer. *)
Context (dirs : string → bool) (getenv : string → option string)
  (exec : list Cmd → Cmd → string * option error).
Implicit Types (m : Machine).

Definition machine_call X m (e : host_call X) : Machine * X :=
  match e in host_call X return Machine * X with
  | Getwd => (m, (mc_cwd m, None))
  | Chdir dir =>
      if dirs dir then (mkMachine dir (mc_env m) (mc_ran m) (mc_log m), None)
      else (m, Some (ErrLib "" ("chdir " +:+ dir +:+ ": no such file or directory")))
  | Environ => (m, mc_env m)
  | LookupEnv key => (m, getenv key)
  | Fprintf text => (mkMachine (mc_cwd m) (mc_env m) (mc_ran m) (mc_log m ++ [text]), ())
  | CombinedOutput cmd =>
      (mkMachine (mc_cwd m) (mc_env m) (mc_ran m ++ [cmd]) (mc_log m), exec (mc_ran m) cmd)
  end.

Abbreviation on_machine := (interp machine_call).

(** [m'] is [m] after running [cmds], all in [dir]. *)
Definition ran_in dir m m' (cmds : list Cmd) : Prop :=
  mc_cwd m' = dir ∧ mc_env m' = mc_env m ∧
  mc_ran m' = mc_ran m ++
    ((λ cmd, mkCmd (cmd_Args cmd) dir (mc_env m ++ ["GO111MODULE=on"])) <$> cmds).

Lemma ran_in_app dir m m1 m2 cmds1 cmds2 :
  ran_in dir m m1 cmds1 → ran_in dir m1 m2 cmds2 → ran_in dir m m2 (cmds1 ++ cmds2).
Proof.
  intros (H1 & H2 & H3) (H4 & H5 & H6). unfold ran_in.
  by rewrite H4, H5, H6, H2, H3, fmap_app, app_assoc.
Qed.

Lemma Run_on_machine m cmd :
  dirs (ReplaceAll (mc_cwd m) "/test/e2e" "") = true →
  ran_in (ReplaceAll (mc_cwd m) "/test/e2e" "") m (on_machine m (Run Quote cmd)).1 [cmd].
Proof.
  intros Hd. unfold Run, GetProjectDir. cbn -[ReplaceAll]. rewrite Hd. cbn -[ReplaceAll].
  by destruct (exec _ _) as [out [err|]].
Qed.

(** A directory outside the test directory stays the project directory. *)
Definition project dir : Prop := dirs dir = true ∧ Index dir "/test/e2e" = None.

Lemma RunWarn_on_machine m cmd dir :
  project dir → ReplaceAll (mc_cwd m) "/test/e2e" "" = dir →
  ran_in dir m (on_machine m (RunWarn Quote cmd)).1 [cmd] ∧
  ReplaceAll (mc_cwd (on_machine m (RunWarn Quote cmd)).1) "/test/e2e" "" = dir.
Proof.
  intros [Hd Hi] Heq. pose proof (Run_on_machine m cmd) as Hrun. rewrite Heq in Hrun.
  specialize (Hrun Hd). unfold RunWarn. rewrite interp_bind.
  destruct (on_machine m (Run Quote cmd)) as [m1 [out [err|]]]; simpl;
    (split; [exact Hrun|]); destruct Hrun as (Hc & _); simpl in Hc; rewrite Hc;
    by apply replace_from_none.
Qed.

Lemma delete_leases_on_machine leases m dir :
  project dir → ReplaceAll (mc_cwd m) "/test/e2e" "" = dir → mc_cwd m = dir →
  ran_in dir m (on_machine m (delete_leases Quote leases)).1 (delete_lease <$> leases).
Proof.
  intros Hp. revert m. induction leases as [|l leases IH]; intros m Heq Hcwd.
  - split; [done|]. split; [done|]. by rewrite app_nil_r.
  - destruct (RunWarn_on_machine m (delete_lease l) dir Hp Heq) as [H1 H2].
    cbn [delete_leases]. rewrite interp_bind.
    destruct (on_machine m (RunWarn Quote (delete_lease l))) as [m1 []].
    apply (ran_in_app _ _ _ _ [_] _ H1), IH; [done|]. apply H1.
Qed.

(** From the project directory or its test directory, all commands of an
    uninstallation run in the project directory, and the process is left there. *)
Theorem UninstallCertManager_directory m dir
    (Hp : project dir) (Hcwd : ReplaceAll (mc_cwd m) "/test/e2e" "" = dir) :
  ran_in dir m (on_machine m (UninstallCertManager Quote)).1
    (delete_bundle :: (delete_lease <$> kubeSystemLeases)).
Proof.
  destruct (RunWarn_on_machine m delete_bundle dir Hp Hcwd) as [H1 H2].
  unfold UninstallCertManager. rewrite interp_bind.
  destruct (on_machine m (RunWarn Quote delete_bundle)) as [m1 []].
  apply (ran_in_app _ _ _ _ [_] _ H1), delete_leases_on_machine; [done..|]. apply H1.
Qed.
End machine.

(** *** Examples and witnesses *)

Section examples.
(** A cluster whose API server cannot be reached for the first command. *)
Definition ex_exec (past : list Cmd) (cmd : Cmd) : string * option error :=
  match past with [] => ("refused", Some (ErrLib "" "exit status 1")) | _ => ("", None) end.

Definition ex_machine : Machine :=
  mkMachine "/src/control-plane/test/e2e" ["HOME=/root"] [] [].

Definition ex_run {R} (p : HostProg R) : Machine * R :=
  interp (machine_call (λ _, true) (λ _, None) ex_exec) ex_machine p.

Example ex_uninstalled :
  mc_log (ex_run (UninstallCertManager id)).1 !! 1 =
    Some ("warning: " +:+ Join (cmd_Args delete_bundle) " " +:+
          " failed with error refused: exit status 1" +:+ newline) ∧
  cmd_Dir <$> mc_ran (ex_run (UninstallCertManager id)).1 =
    ["/src/control-plane"; "/src/control-plane"; "/src/control-plane"].
Proof. split; vm_compute; reflexivity. Qed.

(** The wait is left out. *)
Example ex_installed :
  cmd_Args <$> mc_ran (ex_run (InstallCertManager id)).1 = [cmd_Args apply_bundle].
Proof. vm_compute. reflexivity. Qed.

Lemma cert_manager_commands_witness :
  ∃ tr, behaves (UninstallCertManager id) tr () ∧
    runs tr (delete_bundle :: (delete_lease <$> kubeSystemLeases)).
Proof.
  destruct (interp_behaves (machine_call (λ _, true) (λ _, None) ex_exec) ex_machine
    (UninstallCertManager id)) as [tr Htr].
  destruct (interp _ _ _).2 in Htr. exists tr. split; [exact Htr|].
  apply (cert_manager_commands id tr). exact Htr.
Defined.

Lemma UninstallCertManager_directory_witness :
  ran_in "/src/control-plane" ex_machine (ex_run (UninstallCertManager id)).1
    (delete_bundle :: (delete_lease <$> kubeSystemLeases)).
Proof. apply UninstallCertManager_directory; [by split|reflexivity]. Defined.
End examples.
